(** * msgq: a message queue over UNIX domain datagram sockets

    A shallow embedding of [msgq.c] and the properties of its queue engine:
    the packet validation and duplication done by the receiver thread, the
    synchronized FIFO with its pending-count, the consumer and producer
    calls, and the set-up and tear-down of a queue handle.

    The C code is sequentialised: every critical section that runs with
    [recv_mutex] held is one atomic step, and everything the operating
    system or the C library decides (whether [malloc] succeeds and where the
    block lies, which descriptor [socket] returns, what [recvfrom] delivers)
    is an explicit argument of the function that asks for it.

    The sample server of [msgq.c] and the obstack emulation of [fakeobs.c]
    are embedded in the same way, each with its own properties. *)

From Stdlib Require Import ZArith Lia.
From Stdlib.Strings Require Import Byte.
From stdpp Require Import base option gmap sets list strings.

Set Warnings "-clear-no-such-hyp".

Open Scope Z_scope.

(** ** Platform

    The comment above [main] in [msgq.c] fixes the packet header at 8 bytes
    ("the first 8 bytes are used for maintaing packet header"): a pointer
    and a length of four bytes each, that is, an ILP32 target.  [int],
    [ssize_t] are 32-bit two's complement, [size_t] and pointers are 32-bit
    unsigned. *)
Module ILP32.

Definition WORD : Z := 2 ^ 32.
Definition INT_MAX : Z := 2 ^ 31 - 1.

(** Conversion to [size_t] (and the result of [size_t] arithmetic). *)
Definition to_size_t (z : Z) : Z := z mod WORD.

(** Conversion to [int] / [ssize_t]. *)
Definition to_int (z : Z) : Z := (z + 2 ^ 31) mod WORD - 2 ^ 31.

End ILP32.
Import ILP32.

(** ** Constants of the headers *)

(** [offsetof(struct msgq_packet, data)], which is also
    [sizeof(struct msgq_packet)]: the 8 bytes of the comment above [main]. *)
Definition PACKET_HDR : Z := 8.

(** Modelled from the spec: [msgq.h] is not among the sources; the spec only
    says that the maximum datagram size "is a fixed configured constant
    shared by sender and receiver".  No theorem below depends on the value. *)
Definition MSGQ_MSG_MAX : Z := 4096.

(** Modelled from the spec: the template [mkstemp] is called with, from the
    missing [msgq.h] ("a fresh anonymous path is generated"). *)
Definition MSGQ_TMP_TEMPLATE : string := "/tmp/msgq-XXXXXX".

(** [sizeof(struct sockaddr_un) - sizeof(sa_family_t)] on Linux. *)
Definition UNIX_PATH_MAX : Z := 108.

(** [sizeof(struct msgq_node)]: the link (two pointers), the sender and the
    packet pointer. *)
Definition SIZEOF_NODE : Z := 8 + UNIX_PATH_MAX + 4.

(** [sizeof(struct msgq_)]: descriptor, address, buffer pointer, wake policy,
    queue head, counter and the three pthread objects (glibc, 32 bit). *)
Definition SIZEOF_MSGQ : Z := 4 + UNIX_PATH_MAX + 4 + 4 + 8 + 4 + 48 + 24 + 4.

(** ** The intrusive list *)

(** Modelled from the spec: [elist.h] is not among the sources.  The spec
    treats it as "a black-box ordered container" with push-to-tail and
    pop-from-head, and a node's linkage as either in the container or "fully
    detached".  A link is therefore one of two states; [ELIST_INIT] gives the
    detached one, for which [ELIST_NEXT] and [ELIST_PREV] are both null. *)
Inductive elist := ELIST_DETACHED | ELIST_ATTACHED.

Definition ELIST_INIT : elist := ELIST_DETACHED.

(** [ELIST_NEXT(l) == 0] and [ELIST_PREV(l) == 0]. *)
Definition ELIST_NEXT_null (l : elist) : bool :=
  match l with ELIST_DETACHED => true | ELIST_ATTACHED => false end.
Definition ELIST_PREV_null (l : elist) : bool :=
  match l with ELIST_DETACHED => true | ELIST_ATTACHED => false end.

(** ** Data model *)

(** Modelled from the spec: [struct msgq_packet] is declared in [msgq.h],
    which is not among the sources ("a byte length plus payload bytes,
    optionally tagged with the identity of its owning Node").  The members
    are the ones [msgq.c] uses: [p_size] is [size], a [size_t]; [p_container]
    is [container], the back pointer to the enclosing node (null for a
    packet built by a sender); [p_data] are the bytes of [data], those that
    follow the header in the packet's storage. *)
Record msgq_packet := Packet_ {
  p_size : Z;
  p_container : option Z;
  p_data : list byte
}.

(** What a [char] array holds after [strncpy(dst, src, n)] has written its
    first [n] bytes: [src] and its terminator when [src] is shorter than [n]
    ([strncpy] fills up with terminators), else the first [n] characters of
    [src] and no terminator.  What comes after the [n] characters is then
    what the array held before: nothing that the program has written, in a
    fresh [malloc] block or an automatic variable. *)
Inductive chars :=
| Text (s : string)             (* the string [s], terminated *)
| Unterminated (s : string).    (* the characters of [s] and no terminator *)

(** [struct msgq_node]. [packet] is a pointer; [sender] is what the array
    [sender] holds. *)
Record msgq_node := Node_ {
  link : elist;
  sender : chars;
  packet : option Z
}.

(** What a live [malloc] block holds. *)
Inductive obj :=
| Raw                           (* allocated, nothing stored yet *)
| Handle                        (* a [struct msgq_] *)
| Buffer                        (* the receive buffer [pkbuf] *)
| Node (n : msgq_node)
| Packet (p : msgq_packet).

Record block := Block { bsize : Z; bobj : obj }.

(** ** The heap: live blocks by address, each with its size in bytes *)

Definition disjoint (a sa b sb : Z) : bool := (a + sa <=? b) || (b + sb <=? a).

(** Can [sz] bytes at address [a] be handed out? *)
Definition fits (h : gmap Z block) (a sz : Z) : bool :=
  (0 <? a) && (0 <? sz) && (a + sz <=? WORD)
  && forallb (λ e : Z * block, disjoint a sz e.1 (bsize e.2)) (map_to_list h).

(** [malloc(sz)]: [cand] is the allocator's choice, [None] when it gives up;
    a choice that does not fit is a failed allocation too. *)
Definition malloc (sz : Z) (cand : option Z) (h : gmap Z block)
  : option Z * gmap Z block :=
  match cand with
  | Some a => if fits h a sz then (Some a, <[a := Block sz Raw]> h) else (None, h)
  | None => (None, h)
  end.

Definition free (p : Z) (h : gmap Z block) : gmap Z block := delete p h.

(** A store through a pointer keeps the block and replaces what it holds. *)
Definition store (p : Z) (o : obj) (h : gmap Z block) : gmap Z block :=
  alter (λ b, Block (bsize b) o) p h.

Definition load_node (p : Z) (h : gmap Z block) : option msgq_node :=
  match h !! p with Some (Block _ (Node n)) => Some n | _ => None end.

Definition load_packet (p : Z) (h : gmap Z block) : option msgq_packet :=
  match h !! p with Some (Block _ (Packet k)) => Some k | _ => None end.

(** ** Outcomes *)

Inductive fault :=
| OutOfBounds (idx : Z)         (* [data[idx]] outside the packet *)
| AssertFailed                  (* [assert] aborted the process *)
| BadPointer                    (* a pointer that is not a live object *)
| Uninitialised.                (* a byte that was never written is read *)

Inductive result (A : Type) :=
| Ok (a : A)
| Blocked                       (* waiting for a mutex another thread holds *)
| Pending                       (* still looping when the environment's script ends *)
| Fault (f : fault).
Arguments Ok {A} a.
Arguments Blocked {A}.
Arguments Pending {A}.
Arguments Fault {A} f.

Global Instance result_bind : MBind result := λ A B k r,
  match r with
  | Ok a => k a
  | Blocked => Blocked
  | Pending => Pending
  | Fault f => Fault f
  end.

(** ** [validate_packet] *)

(** [packet] is the view of the receive buffer as a [struct msgq_packet],
    [len] what [recvfrom] returned.  The result is the return value and the
    buffer as the function leaves it. *)
Definition validate_packet (packet : msgq_packet) (len : Z) : Z * msgq_packet :=
  let estimated := to_int (to_size_t (len - PACKET_HDR)) in
  if estimated <? 0 then (-1, packet)
  else
    let packet :=
      if to_size_t estimated <? p_size packet
      then Packet_ (to_size_t estimated) (p_container packet) (p_data packet)
      else packet in
    (0, Packet_ (p_size packet) None (p_data packet)).

(** ** [msgq_copy_packet] *)

(** [packet->data[i]]: a byte of the packet's storage, nothing outside it. *)
Definition read_data (packet : msgq_packet) (i : Z) : option byte :=
  if (0 <=? i) && (i <? Z.of_nat (length (p_data packet)))
  then p_data packet !! Z.to_nat i
  else None.

(** The index of the byte tested for the terminator,
    [packet->size - 1] in [size_t]. *)
Definition last_index (packet : msgq_packet) : Z := to_size_t (p_size packet - 1).

(** [memcpy(p, packet, size)]: the header and the [size - PACKET_HDR] bytes
    after it. *)
Definition memcpy_packet (packet : msgq_packet) (size : Z) : option msgq_packet :=
  let n := size - PACKET_HDR in
  if (0 <=? n) && (n <=? Z.of_nat (length (p_data packet)))
  then Some (Packet_ (p_size packet) (p_container packet) (take (Z.to_nat n) (p_data packet)))
  else None.

(** The result is the new packet's address ([None] for [NULL]).  The store
    [p->data[p->size] = 0] goes to the byte after the ones copied. *)
Definition msgq_copy_packet (packet : msgq_packet) (cand : option Z)
    (h : gmap Z block) : result (option Z * gmap Z block) :=
  let size := to_size_t (PACKET_HDR + p_size packet) in
  let newsize := size in
  match read_data packet (last_index packet) with
  | None => Fault (OutOfBounds (last_index packet))
  | Some last =>
    let newsize := if Byte.eqb last x00 then newsize else to_size_t (size + 1) in
    match malloc newsize cand h with
    | (None, h) => Ok (None, h)
    | (Some p, h) =>
      match memcpy_packet packet size with
      | None => Fault (OutOfBounds (size - PACKET_HDR))
      | Some copy =>
        let copy :=
          if size <? newsize
          then Packet_ (p_size copy) (p_container copy) (p_data copy ++ [x00])
          else copy in
        Ok (Some p, store p (Packet copy) h)
      end
    end
  end.

(** [strncpy(dst, src, n)]: the [n] bytes written.  A terminator is among
    them only when [src] is shorter than [n]. *)
Definition strncpy (src : string) (n : Z) : chars :=
  if Z.of_nat (String.length src) <? n then Text src
  else Unterminated (String.substring 0 (Z.to_nat n) src).

(** The string read from an array that held only terminators before
    ([msgq_open] clears the handle with [memset]): the characters written
    end at a terminator either way. *)
Definition in_zeroed (c : chars) : string :=
  match c with Text s | Unterminated s => s end.

(** ** [msgq_node_create] *)

Definition msgq_node_create (sender : string) (packet : msgq_packet)
    (cand_node cand_pkt : option Z) (h : gmap Z block)
  : result (option Z * gmap Z block) :=
  match malloc SIZEOF_NODE cand_node h with
  | (None, h) => Ok (None, h)
  | (Some p, h) =>
    '(copy, h) ← msgq_copy_packet packet cand_pkt h;
    match copy with
    | None => Ok (None, free p h)
    | Some pk =>
      match load_packet pk h with
      | None => Fault BadPointer
      | Some k =>
        let h := store pk (Packet (Packet_ (p_size k) (Some p) (p_data k))) h in
        let h := store p (Node (Node_ ELIST_INIT (strncpy sender (UNIX_PATH_MAX - 1)) (Some pk))) h in
        Ok (Some p, h)
      end
    end
  end.

(** ** The world outside the handle *)

Inductive thread := App | Receiver.

Global Instance thread_eq_dec : EqDecision thread.
Proof. solve_decision. Defined.

Inductive fdesc :=
| FdFile (path : string)                (* an open file *)
| FdSocket (bound : option string).     (* a datagram socket and its address *)

(** A filesystem entry: a socket, a symbolic link with the path it names,
    or anything else ([RegularFile]). *)
Inductive ftype := RegularFile | SocketFile | Symlink (target : string).

Inductive wake := Signal | Broadcast.

(** The pthread objects of a handle ([recv_mutex], [recv_cond], [receiver])
    are kept here, under the address of the handle they are members of:
    [mutexes] holds the initialised mutexes with their owner, [conds] the
    initialised condition variables, [threads] the threads created and not
    yet joined, [mutexattrs] counts initialised attribute objects, and
    [wakes] logs what was posted on the condition variables.  [sent] logs
    the calls of [sendto]: descriptor, the [sun_path] passed as destination,
    bytes offered, result. *)
Record world := World {
  heap : gmap Z block;
  fds : gmap Z fdesc;
  fs : gmap string ftype;
  mutexes : gmap Z (option thread);
  conds : gset Z;
  threads : gset Z;
  mutexattrs : nat;
  wakes : list (Z * wake);
  sent : list (Z * chars * Z * Z)
}.

Definition set_heap (x : gmap Z block) (w : world) : world :=
  World x (fds w) (fs w) (mutexes w) (conds w) (threads w) (mutexattrs w) (wakes w) (sent w).
Definition set_fds (x : gmap Z fdesc) (w : world) : world :=
  World (heap w) x (fs w) (mutexes w) (conds w) (threads w) (mutexattrs w) (wakes w) (sent w).
Definition set_fs (x : gmap string ftype) (w : world) : world :=
  World (heap w) (fds w) x (mutexes w) (conds w) (threads w) (mutexattrs w) (wakes w) (sent w).
Definition set_mutexes (x : gmap Z (option thread)) (w : world) : world :=
  World (heap w) (fds w) (fs w) x (conds w) (threads w) (mutexattrs w) (wakes w) (sent w).
Definition set_conds (x : gset Z) (w : world) : world :=
  World (heap w) (fds w) (fs w) (mutexes w) x (threads w) (mutexattrs w) (wakes w) (sent w).
Definition set_threads (x : gset Z) (w : world) : world :=
  World (heap w) (fds w) (fs w) (mutexes w) (conds w) x (mutexattrs w) (wakes w) (sent w).
Definition set_mutexattrs (x : nat) (w : world) : world :=
  World (heap w) (fds w) (fs w) (mutexes w) (conds w) (threads w) x (wakes w) (sent w).
Definition set_wakes (x : list (Z * wake)) (w : world) : world :=
  World (heap w) (fds w) (fs w) (mutexes w) (conds w) (threads w) (mutexattrs w) x (sent w).
Definition set_sent (x : list (Z * chars * Z * Z)) (w : world) : world :=
  World (heap w) (fds w) (fs w) (mutexes w) (conds w) (threads w) (mutexattrs w) (wakes w) x.

Definition empty_world : world := World ∅ ∅ ∅ ∅ ∅ ∅ 0 [] [].

(** ** Mutex and condition variable

    [recv_mutex] is created with [PTHREAD_MUTEX_ERRORCHECK]: locking it again
    by its owner and unlocking it by a thread that does not own it are
    errors that change nothing (the code ignores the return values). *)
Definition pthread_mutex_lock (t : thread) (mx : Z) (w : world) : result world :=
  match mutexes w !! mx with
  | Some None => Ok (set_mutexes (<[mx := Some t]> (mutexes w)) w)
  | Some (Some o) => if decide (o = t) then Ok w else Blocked
  | None => Fault BadPointer
  end.

Definition pthread_mutex_unlock (t : thread) (mx : Z) (w : world) : world :=
  match mutexes w !! mx with
  | Some (Some o) =>
    if decide (o = t) then set_mutexes (<[mx := None]> (mutexes w)) w else w
  | _ => w
  end.

Definition pthread_cond_signal (cv : Z) (w : world) : world :=
  set_wakes (wakes w ++ [(cv, Signal)]) w.
Definition pthread_cond_broadcast (cv : Z) (w : world) : world :=
  set_wakes (wakes w ++ [(cv, Broadcast)]) w.

(** ** The handle *)

(** [struct msgq_] without its three pthread members, which live in the
    [world].  [recvq] is the queue of received messages, the addresses of
    its nodes in order; [recvs] is the pending-count, a [size_t]. *)
Record msgq_ := Msgq {
  fd : Z;
  address : string;
  pkbuf : option Z;
  broadcast : Z;
  recvq : list Z;
  recvs : Z
}.

Definition set_fd (d : Z) (m : msgq_) : msgq_ :=
  Msgq d (address m) (pkbuf m) (broadcast m) (recvq m) (recvs m).
Definition set_address (a : string) (m : msgq_) : msgq_ :=
  Msgq (fd m) a (pkbuf m) (broadcast m) (recvq m) (recvs m).
Definition set_pkbuf (b : option Z) (m : msgq_) : msgq_ :=
  Msgq (fd m) (address m) b (broadcast m) (recvq m) (recvs m).
Definition set_broadcast (b : Z) (m : msgq_) : msgq_ :=
  Msgq (fd m) (address m) (pkbuf m) b (recvq m) (recvs m).
Definition set_recvq (q : list Z) (m : msgq_) : msgq_ :=
  Msgq (fd m) (address m) (pkbuf m) (broadcast m) q (recvs m).
Definition set_recvs (n : Z) (m : msgq_) : msgq_ :=
  Msgq (fd m) (address m) (pkbuf m) (broadcast m) (recvq m) n.

Definition RECVQ_LOCK := pthread_mutex_lock.
Definition RECVQ_UNLOCK := pthread_mutex_unlock.

(** ** Queue operations of [elist.h] *)

Definition set_link (n : Z) (l : elist) (h : gmap Z block) : gmap Z block :=
  match load_node n h with
  | Some nd => store n (Node (Node_ l (sender nd) (packet nd))) h
  | None => h
  end.

(** Modelled from the spec: [edque_push_back] of the missing [elist.h],
    "append the Node to the tail of the FIFO". *)
Definition edque_push_back (q : list Z) (n : Z) (h : gmap Z block)
  : list Z * gmap Z block :=
  (q ++ [n], set_link n ELIST_ATTACHED h).

(** Modelled from the spec: [edque_pop_front] of the missing [elist.h],
    "pops the head Node if any", null on an empty queue; the node that
    leaves the queue is detached. *)
Definition edque_pop_front (q : list Z) (h : gmap Z block)
  : option Z * list Z * gmap Z block :=
  match q with
  | [] => (None, [], h)
  | n :: q' => (Some n, q', set_link n ELIST_DETACHED h)
  end.

(** ** The receiver thread *)

Definition EINTR : Z := 4.
Definition EAGAIN : Z := 11.
Definition EWOULDBLOCK : Z := 11.
Definition EADDRINUSE : Z := 98.

(** What one call of [recvfrom] leaves behind: its return value, [errno],
    the sender's address and the receive buffer read as a packet ([p_data]
    are the bytes received after the header). *)
Record recvfrom_result := Recvfrom {
  rf_len : Z;
  rf_errno : Z;
  rf_from : string;
  rf_packet : msgq_packet
}.

Inductive loop := Continue | Break.

(** One turn of the [while (1)] loop of [msgq_receiver], after
    [pthread_testcancel]. *)
Definition msgq_receiver_iter (self : Z) (r : recvfrom_result)
    (cand_node cand_pkt : option Z) (m : msgq_) (w : world)
  : result (loop * msgq_ * world) :=
  let len := rf_len r in
  if len <? 0 then
    if (rf_errno r =? EAGAIN) || (rf_errno r =? EWOULDBLOCK) || (rf_errno r =? EINTR)
    then Ok (Continue, m, w)
    else Ok (Break, m, w)
  else
    let '(rc, packet) := validate_packet (rf_packet r) len in
    if rc <? 0 then Ok (Continue, m, w)
    else
      '(np, h) ← msgq_node_create (rf_from r) packet cand_node cand_pkt (heap w);
      let w := set_heap h w in
      match np with
      | None => Ok (Continue, m, w)
      | Some np =>
        w ← RECVQ_LOCK Receiver self w;
        let '(q, h) := edque_push_back (recvq m) np (heap w) in
        let m := set_recvq q m in
        let w := set_heap h w in
        let m := set_recvs (to_size_t (recvs m + 1)) m in
        let w := if negb (broadcast m =? 0) then pthread_cond_broadcast self w
                 else pthread_cond_signal self w in
        Ok (Continue, m, RECVQ_UNLOCK Receiver self w)
      end.

(** What an iteration is given: the datagram and the allocator's choices
    for the node and for the packet. *)
Definition iter_input : Type := recvfrom_result * option Z * option Z.

(** The loop over the datagrams that arrive; it stops at the first [Break]
    and is waiting in [recvfrom] when the list is used up. *)
Fixpoint receiver_loop (self : Z) (ins : list iter_input) (m : msgq_) (w : world)
  : result (loop * msgq_ * world) :=
  match ins with
  | [] => Ok (Continue, m, w)
  | (r, cn, cp) :: ins =>
    '(c, m, w) ← msgq_receiver_iter self r cn cp m w;
    match c with
    | Continue => receiver_loop self ins m w
    | Break => Ok (Break, m, w)
    end
  end.

(** [msgq_receiver_cleaner]. *)
Definition msgq_receiver_cleaner (self : Z) (w : world) : world :=
  pthread_mutex_unlock Receiver self w.

(** [msgq_receiver]: read [fd] under the lock, loop, and on leaving the loop
    run the cleanup handler ([pthread_cleanup_pop(1)]).  [Continue] in the
    result says that the thread is still in its loop. *)
Definition msgq_receiver (self : Z) (ins : list iter_input) (m : msgq_) (w : world)
  : result (loop * msgq_ * world) :=
  w ← RECVQ_LOCK Receiver self w;
  let w := RECVQ_UNLOCK Receiver self w in
  '(c, m, w) ← receiver_loop self ins m w;
  match c with
  | Break => Ok (Break, m, msgq_receiver_cleaner self w)
  | Continue => Ok (Continue, m, w)
  end.

(** ** Consumer API *)

(** [msgq_message_count]: the counter is read into an [int]. *)
Definition msgq_message_count (self : Z) (m : msgq_) (w : world) : result (Z * world) :=
  w ← RECVQ_LOCK App self w;
  let ret := to_int (recvs m) in
  let w := RECVQ_UNLOCK App self w in
  Ok (ret, w).

(** [msgq_recv]: the packet of the head node, or [None] for [NULL]. *)
Definition msgq_recv (self : Z) (m : msgq_) (w : world)
  : result (option Z * msgq_ * world) :=
  w ← RECVQ_LOCK App self w;
  let '(p, q, h) := edque_pop_front (recvq m) (heap w) in
  let m := set_recvq q m in
  let w := set_heap h w in
  match p with
  | None => Ok (None, m, RECVQ_UNLOCK App self w)
  | Some p =>
    let m := set_recvs (to_size_t (recvs m - 1)) m in
    let w := RECVQ_UNLOCK App self w in
    match load_node p (heap w) with
    | Some np => Ok (packet np, m, w)
    | None => Fault BadPointer
    end
  end.

(** What the other threads do while a caller is suspended: the receiver
    thread turns its loop once more, or another consumer calls
    [msgq_recv]. *)
Inductive activity :=
| Delivery (i : iter_input)
| Consumption.

Fixpoint others (self : Z) (acts : list activity) (m : msgq_) (w : world)
  : result (msgq_ * world) :=
  match acts with
  | [] => Ok (m, w)
  | Delivery (r, cn, cp) :: acts =>
    '(_, m, w) ← msgq_receiver_iter self r cn cp m w;
    others self acts m w
  | Consumption :: acts =>
    '(_, m, w) ← msgq_recv self m w;
    others self acts m w
  end.

(** [msgq_recv_wait].  [wait_result] tells a call that returned from one
    that is still suspended in [pthread_cond_wait]. *)
Inductive wait_result :=
| Returned (pk : option Z) (m : msgq_) (w : world)
| Parked (m : msgq_) (w : world).

(** [pthread_cond_wait]: the mutex is released, the caller sleeps while the
    other threads do [acts] (nothing for a spurious wakeup), and the mutex
    is taken again. *)
Definition pthread_cond_wait (self : Z) (acts : list activity)
    (m : msgq_) (w : world) : result (msgq_ * world) :=
  let w := pthread_mutex_unlock App self w in
  '(m, w) ← others self acts m w;
  w ← pthread_mutex_lock App self w;
  Ok (m, w).

(** The loop from the label [again], entered with the mutex held.  Each
    element of [wakeups] is one stay in [pthread_cond_wait]; when there is
    none left the caller stays suspended. *)
Fixpoint recv_wait_again (self : Z) (wakeups : list (list activity))
    (m : msgq_) (w : world) : result wait_result :=
  let '(p, q, h) := edque_pop_front (recvq m) (heap w) in
  let m := set_recvq q m in
  let w := set_heap h w in
  match p with
  | None =>
    match wakeups with
    | [] => Ok (Parked m (pthread_mutex_unlock App self w))
    | acts :: wakeups =>
      '(m, w) ← pthread_cond_wait self acts m w;
      recv_wait_again self wakeups m w
    end
  | Some p =>
    let m := set_recvs (to_size_t (recvs m - 1)) m in
    let w := RECVQ_UNLOCK App self w in
    match load_node p (heap w) with
    | Some np => Ok (Returned (packet np) m w)
    | None => Fault BadPointer
    end
  end.

Definition msgq_recv_wait (self : Z) (wakeups : list (list activity))
    (m : msgq_) (w : world) : result wait_result :=
  w ← RECVQ_LOCK App self w;
  recv_wait_again self wakeups m w.

(** [msgq_pkt_sender]: the result points to the array [sender] of the
    node; [None] is the null pointer. *)
Definition msgq_pkt_sender (pk : Z) (w : world) : result (option chars) :=
  match load_packet pk (heap w) with
  | None => Fault BadPointer
  | Some k =>
    match p_container k with
    | None => Ok None
    | Some np =>
      match load_node np (heap w) with
      | None => Fault BadPointer
      | Some nd => Ok (Some (sender nd))
      end
    end
  end.

(** [msgq_pkt_delete]: [-1] for a packet without a node, an abort when one
    of the two assertions fails, else both blocks are freed. *)
Definition msgq_pkt_delete (pk : Z) (w : world) : result (Z * world) :=
  match load_packet pk (heap w) with
  | None => Fault BadPointer
  | Some k =>
    match p_container k with
    | None => Ok (-1, w)
    | Some np =>
      match load_node np (heap w) with
      | None => Fault BadPointer
      | Some nd =>
        if negb (ELIST_NEXT_null (link nd)) then Fault AssertFailed
        else if negb (ELIST_PREV_null (link nd)) then Fault AssertFailed
        else Ok (0, set_heap (free np (free pk (heap w))) w)
      end
    end
  end.

(** ** Producer API *)

Definition sizeof_packet (packet : msgq_packet) : Z :=
  to_size_t (PACKET_HDR + p_size packet).

(** [sendto(d, buf, n, MSG_NOSIGNAL, dest, ...)]: [ret] is what the transport
    answers; the call is logged with [sun_path] as it is passed. *)
Definition sendto (d : Z) (dest : chars) (n : Z) (ret : Z) (w : world) : Z * world :=
  (ret, set_sent (sent w ++ [(d, dest, n, ret)]) w).

(** [msgq_send].  [addr] is an automatic variable: for a [receiver] of
    [UNIX_PATH_MAX - 1] characters or more [sun_path] goes to [sendto]
    without a terminator. *)
Definition msgq_send (receiver : string) (packet : msgq_packet) (sendto_ret : Z)
    (m : msgq_) (w : world) : Z * msgq_ * world :=
  let sun_path := strncpy receiver (UNIX_PATH_MAX - 1) in
  let '(ret, w) := sendto (fd m) sun_path (sizeof_packet packet) sendto_ret w in
  if ret <? 0 then (-1, m, w) else (0, m, w).

(** ** System calls used by [msgq_open] and [msgq_close] *)

(** [socket(AF_LOCAL, SOCK_DGRAM, 0)]: [cand] is the descriptor the kernel
    picks, [None] when it refuses. *)
Definition socket (cand : option Z) (w : world) : Z * world :=
  match cand with
  | Some d =>
    if (0 <=? d) && bool_decide (fds w !! d = None)
    then (d, set_fds (<[d := FdSocket None]> (fds w)) w)
    else (-1, w)
  | None => (-1, w)
  end.

Definition close (d : Z) (w : world) : world := set_fds (delete d (fds w)) w.

Definition unlink (path : string) (w : world) : world :=
  set_fs (delete path (fs w)) w.

(** The links that one path resolution follows (Linux). *)
Definition SYMLOOP_MAX : nat := 40.

(** The entry that [path] leads to when symbolic links are followed, at
    most [n] of them. *)
Fixpoint follow (n : nat) (path : string) (fs : gmap string ftype) : option ftype :=
  match fs !! path with
  | Some (Symlink target) =>
    match n with
    | O => None
    | S n => follow n target fs
    end
  | entry => entry
  end.

(** [stat(path)] follows symbolic links: the type of the entry that [path]
    leads to; it fails when there is none ([ENOENT]) or the links do not end
    ([ELOOP]).  [unlink] and [bind] do not follow them. *)
Definition stat (path : string) (w : world) : option ftype :=
  follow SYMLOOP_MAX path (fs w).

(** [bind(d, path)]: the return value and [errno].  A path that exists is
    [EADDRINUSE]; [env_errno], when not 0, is a failure for a reason outside
    this model (a missing directory, no permission); otherwise the socket
    file is created. *)
Definition bind (d : Z) (path : string) (env_errno : Z) (w : world) : Z * Z * world :=
  match fs w !! path with
  | Some _ => (-1, EADDRINUSE, w)
  | None =>
    if env_errno =? 0
    then (0, 0, set_fs (<[path := SocketFile]> (fs w))
                  (set_fds (<[d := FdSocket (Some path)]> (fds w)) w))
    else (-1, env_errno, w)
  end.

(** [mkstemp(template)]: the six trailing [X] of the template are replaced.
    [cand] is the replacement and the descriptor chosen; the file is created
    and opened.  The result is the descriptor and the buffer as it is left. *)
Definition mkstemp (template : string) (cand : option (string * Z)) (w : world)
  : Z * string * world :=
  match cand with
  | Some (suffix, d) =>
    let name :=
      (String.substring 0 (String.length template - 6) template +:+ suffix)%string in
    if (String.length suffix =? 6)%nat && bool_decide (fs w !! name = None)
       && (0 <=? d) && bool_decide (fds w !! d = None)
    then (d, name, set_fs (<[name := RegularFile]> (fs w))
                     (set_fds (<[d := FdFile name]> (fds w)) w))
    else (-1, template, w)
  | None => (-1, template, w)
  end.

Definition pthread_mutexattr_init (w : world) : world :=
  set_mutexattrs (S (mutexattrs w)) w.
Definition pthread_mutexattr_destroy (w : world) : world :=
  set_mutexattrs (Nat.pred (mutexattrs w)) w.

Definition pthread_mutex_init (mx : Z) (w : world) : world :=
  set_mutexes (<[mx := None]> (mutexes w)) w.

(** [pthread_mutex_destroy]: [EBUSY], and no change, for a locked mutex. *)
Definition pthread_mutex_destroy (mx : Z) (w : world) : world :=
  match mutexes w !! mx with
  | Some None => set_mutexes (delete mx (mutexes w)) w
  | _ => w
  end.

Definition pthread_cond_init (cv : Z) (w : world) : world :=
  set_conds ({[cv]} ∪ conds w) w.
Definition pthread_cond_destroy (cv : Z) (w : world) : world :=
  set_conds (conds w ∖ {[cv]}) w.

(** ** [bind_anonymous] *)

(** One turn of the loop as the environment shapes it: what [mkstemp]
    chooses (the six characters and the descriptor), whether another process
    creates the same path between the [unlink] and the [bind], and the
    [errno] of a [bind] that fails for a reason outside the model (0 for
    none). *)
Record attempt := Attempt {
  at_mkstemp : option (string * Z);
  at_rival : bool;
  at_bind_errno : Z
}.

Definition rival (path : string) (w : world) : world :=
  set_fs (<[path := SocketFile]> (fs w)) w.

(** The result is the return value and the contents of [address]; [Pending]
    when the loop is still turning after the last attempt.  [address] is the
    member of the handle, which [msgq_open] has cleared, and [tmpname] has
    the length of the template. *)
Fixpoint bind_anonymous (d : Z) (address : string) (ats : list attempt) (w : world)
  : result (Z * string * world) :=
  match ats with
  | [] => Pending
  | a :: ats =>
    let tmpname := MSGQ_TMP_TEMPLATE in
    let '(tfd, tmpname, w) := mkstemp tmpname (at_mkstemp a) w in
    if tfd <? 0 then Ok (-1, address, w)
    else
      let w := close tfd w in
      let sun_path := tmpname in
      let w := unlink tmpname w in
      let w := if at_rival a then rival tmpname w else w in
      let '(ret, errno, w) := bind d sun_path (at_bind_errno a) w in
      if ret <? 0 then
        if negb (errno =? EADDRINUSE) then Ok (-1, address, w)
        else bind_anonymous d address ats w
      else Ok (0, in_zeroed (strncpy tmpname UNIX_PATH_MAX), w)
  end.

(** ** [msgq_get_listener] *)

(** What the environment decides during [msgq_open]. *)
Record open_env := OpenEnv {
  oe_handle : option Z;            (* malloc of the handle *)
  oe_pkbuf : option Z;             (* malloc(MSGQ_MSG_MAX) *)
  oe_mutex_init : bool;            (* pthread_mutex_init succeeds *)
  oe_cond_init : bool;             (* pthread_cond_init succeeds *)
  oe_socket : option Z;            (* socket() *)
  oe_attempts : list attempt;      (* the turns of bind_anonymous *)
  oe_bind_errno : Z;               (* bind() of a named queue *)
  oe_thread : bool                 (* pthread_create succeeds *)
}.

(** The label [err] of [msgq_get_listener]. *)
Definition get_listener_err (d : Z) (m : msgq_) (w : world) : Z * msgq_ * world :=
  (-1, m, if 0 <=? d then close d w else w).

(** [addr] is the [address] argument, [None] for a null pointer.  [stat]
    follows a symbolic link at [addr] and [unlink] removes the link itself.
    The automatic [addr.sun_path] gets no terminator from [strncpy] when the
    address has [UNIX_PATH_MAX - 1] characters or more: [bind] then reads
    [sun_path[UNIX_PATH_MAX - 1]], which was never written.  The member
    [address] of the handle was cleared by [msgq_open]. *)
Definition msgq_get_listener (addr : option string) (e : open_env)
    (m : msgq_) (w : world) : result (Z * msgq_ * world) :=
  if negb (fd m =? -1) then Fault AssertFailed
  else
    let '(d, w) := socket (oe_socket e) w in
    if d <? 0 then Ok (get_listener_err d m w)
    else
      match addr with
      | None =>
        '(ret, a, w) ← bind_anonymous d (address m) (oe_attempts e) w;
        let m := set_address a m in
        if ret <? 0 then Ok (get_listener_err d m w)
        else Ok (0, set_fd d m, w)
      | Some addr =>
        let after_stat :=
          match stat addr w with
          | Some ty =>
            match ty with
            | SocketFile => Some (unlink addr w)
            | RegularFile | Symlink _ => None
            end
          | None => Some w
          end in
        match after_stat with
        | None => Ok (get_listener_err d m w)
        | Some w =>
          match strncpy addr (UNIX_PATH_MAX - 1) with
          | Unterminated _ => Fault Uninitialised
          | Text sun_path =>
            let '(ret, _, w) := bind d sun_path (oe_bind_errno e) w in
            if ret <? 0 then Ok (get_listener_err d m w)
            else
              let m := set_address (in_zeroed (strncpy addr (UNIX_PATH_MAX - 1))) m in
              Ok (0, set_fd d m, w)
          end
        end
      end.

(** ** [msgq_start_receiver] *)

(** The signal mask is saved, filled and restored around [pthread_create];
    masks are not part of the world.  The new thread starts in
    [msgq_receiver], whose first step waits for the mutex. *)
Definition msgq_start_receiver (self : Z) (e : open_env) (w : world) : Z * world :=
  if oe_thread e then (0, set_threads ({[self]} ∪ threads w) w)
  else (-1, w).

(** ** [msgq_open] *)

Definition free_ptr (p : option Z) (h : gmap Z block) : gmap Z block :=
  match p with Some a => free a h | None => h end.

(** The three cleanup labels of [msgq_open]; each falls through to the
    next. *)
Definition open_err_free (self : Z) (m : msgq_) (w : world) : world :=
  let w := match pkbuf m with
           | Some b => set_heap (free b (heap w)) w
           | None => w
           end in
  set_heap (free self (heap w)) w.

Definition open_err_cond (self : Z) (m : msgq_) (w : world) : world :=
  let w := RECVQ_UNLOCK App self w in
  let w := if 0 <=? fd m then close (fd m) w else w in
  let w := pthread_mutex_destroy self w in
  open_err_free self m w.

Definition open_err (self : Z) (m : msgq_) (w : world) : world :=
  let w := pthread_cond_destroy self w in
  open_err_cond self m w.

(** The result is the handle, its address and contents, or [None] for a
    null pointer. *)
Definition msgq_open (addr : option string) (e : open_env) (w : world)
  : result (option (Z * msgq_) * world) :=
  match malloc SIZEOF_MSGQ (oe_handle e) (heap w) with
  | (None, _) => Ok (None, w)
  | (Some self, h) =>
    (* memset(p, 0, sizeof( *p)) *)
    let w := set_heap (store self Handle h) w in
    let m := Msgq 0 "" None 0 [] 0 in
    match malloc MSGQ_MSG_MAX (oe_pkbuf e) (heap w) with
    | (None, _) => Ok (None, set_heap (free self (heap w)) w)
    | (Some b, h) =>
      let w := set_heap (store b Buffer h) w in
      let m := set_pkbuf (Some b) m in
      let m := set_fd (-1) m in
      let m := set_recvq [] m in
      let m := set_recvs 0 m in
      let m := set_broadcast 0 m in
      let w := pthread_mutexattr_init w in
      if negb (oe_mutex_init e) then Ok (None, open_err_free self m w)
      else
        let w := pthread_mutex_init self w in
        let w := pthread_mutexattr_destroy w in
        if negb (oe_cond_init e) then Ok (None, open_err_cond self m w)
        else
          let w := pthread_cond_init self w in
          w ← RECVQ_LOCK App self w;
          '(ret, m, w) ← msgq_get_listener addr e m w;
          if ret <? 0 then Ok (None, open_err self m w)
          else
            let '(ret, w) := msgq_start_receiver self e w in
            if ret <? 0 then Ok (None, open_err self m w)
            else Ok (Some (self, m), RECVQ_UNLOCK App self w)
    end
  end.

(** ** [msgq_close] *)

(** [pthread_cancel] and [pthread_join]: the receiver leaves at a
    cancellation point, its cleanup handler runs, and the thread is gone. *)
Definition pthread_cancel_join (self : Z) (w : world) : world :=
  set_threads (threads w ∖ {[self]}) (msgq_receiver_cleaner self w).

(** The part of [msgq_close] before its loop: the receiver is cancelled
    and joined, the lock taken, the socket closed and the buffer freed. *)
Definition msgq_close_enter (self : Z) (m : msgq_) (w : world) : result (msgq_ * world) :=
  let w := pthread_cancel_join self w in
  w ← RECVQ_LOCK App self w;
  let '(m, w) := if 0 <=? fd m then (set_fd (-1) m, close (fd m) w) else (m, w) in
  let '(m, w) := match pkbuf m with
                 | Some b => (set_pkbuf None m, set_heap (free b (heap w)) w)
                 | None => (m, w)
                 end in
  Ok (m, w).

(** One turn of the [while] loop of [msgq_close]: [None] when
    [edque_pop_front] returns null and the loop ends, else the handle, the
    heap and the pointers passed to [free] in this turn. *)
Definition close_drain_iter (m : msgq_) (h : gmap Z block)
  : result (option (msgq_ * gmap Z block * list Z)) :=
  let '(p, q, h) := edque_pop_front (recvq m) h in
  let m := set_recvq q m in
  match p with
  | None => Ok None
  | Some p =>
    match load_node p h with
    | None => Fault BadPointer
    | Some np =>
      let m := set_recvs (to_size_t (recvs m - 1)) m in
      let h := free_ptr (packet np) h in
      let h := free p h in
      Ok (Some (m, h, from_option (λ k, [k]) [] (packet np) ++ [p]))
    end
  end.

(** The loop; [fuel] bounds its turns and [freed] collects what was freed. *)
Fixpoint close_drain (fuel : nat) (m : msgq_) (h : gmap Z block) (freed : list Z)
  : result (msgq_ * gmap Z block * list Z) :=
  match fuel with
  | O => Pending
  | S fuel =>
    r ← close_drain_iter m h;
    match r with
    | None => Ok (m, h, freed)
    | Some (m, h, fr) => close_drain fuel m h (freed ++ fr)
    end
  end.

(** [msgq_close].  The result is the handle as it was when it was freed,
    the pointers freed by the loop, and the world.  Every turn of the loop
    takes a node off the queue, so one turn more than the queue is long is
    fuel enough. *)
Definition msgq_close (self : Z) (m : msgq_) (w : world)
  : result (msgq_ * list Z * world) :=
  '(m, w) ← msgq_close_enter self m w;
  '(m, h, freed) ← close_drain (S (length (recvq m))) m (heap w) [];
  let w := set_heap h w in
  let w := RECVQ_UNLOCK App self w in
  let w := pthread_mutex_destroy self w in
  Ok (m, freed, set_heap (free self (heap w)) w).

(** ** Callers *)

(** [n] calls of [msgq_recv] in a row, with what each of them returned. *)
Fixpoint recv_all (self : Z) (n : nat) (m : msgq_) (w : world)
  : result (list (option Z) * msgq_ * world) :=
  match n with
  | O => Ok ([], m, w)
  | S n =>
    '(pk, m, w) ← msgq_recv self m w;
    '(pks, m, w) ← recv_all self n m w;
    Ok (pk :: pks, m, w)
  end.

(** ** [msgq_send_string] *)

(** [vsnprintf(buf, n, fmt, ap)]: [out] is the text that [fmt] and its
    arguments expand to.  The result is the return value, the length of
    [out] (-1 when that is no [int]), and the bytes written to [buf]: as
    much of [out] as [n - 1] bytes hold and the terminator, nothing when [n]
    is 0. *)
Definition vsnprintf (out : list byte) (n : Z) : Z * list byte :=
  let len := Z.of_nat (length out) in
  (if len <=? INT_MAX then len else -1,
   if n <=? 0 then [] else take (Z.to_nat (n - 1)) out ++ [x00]).

(** The packet that [msgq_send_string] builds in the block it allocates. *)
Definition string_packet (out : list byte) : msgq_packet :=
  let ret := (vsnprintf out 0).1 in
  Packet_ (to_size_t (ret + 1)) None (vsnprintf out (to_size_t (ret + 1))).2.

(** [cand] is the allocator's choice for the packet, [sendto_ret] what the
    transport answers. *)
Definition msgq_send_string (receiver : string) (out : list byte)
    (cand : option Z) (sendto_ret : Z) (m : msgq_) (w : world) : Z * msgq_ * world :=
  let ret := (vsnprintf out 0).1 in
  match malloc (to_size_t (PACKET_HDR + ret + 1)) cand (heap w) with
  | (None, _) => (-1, m, w)
  | (Some p, h) =>
    let w := set_heap (store p (Packet (string_packet out)) h) w in
    let '(ret, m, w) := msgq_send receiver (string_packet out) sendto_ret m w in
    (ret, m, set_heap (free p (heap w)) w)
  end.

(** What [recvfrom] returns for a datagram that [sendto] has delivered from
    a socket bound to [from], when the datagram fits the receive buffer: its
    length and the packet as it was sent. *)
Definition datagram (from : string) (packet : msgq_packet) : recvfrom_result :=
  Recvfrom (sizeof_packet packet) 0 from packet.

(** ** The sample server ([main], compiled with [TEST_MSGQ]) *)

(** [strlen(data)] on the bytes of a block: the index of the first
    terminator, [None] when the block has none and the scan leaves it. *)
Fixpoint strlen (data : list byte) : option Z :=
  match data with
  | [] => None
  | b :: data => if Byte.eqb b x00 then Some 0 else Z.succ <$> strlen data
  end.

(** The string that [data] holds for [printf] and [strcmp]: the bytes before
    the first terminator. *)
Fixpoint c_string (data : list byte) : list byte :=
  match data with
  | [] => []
  | b :: data => if Byte.eqb b x00 then [] else b :: c_string data
  end.

Global Instance byte_eq_dec : EqDecision byte := Byte.byte_eq_dec.

(** [printf("packet(%s): |%s|\n", sender, text)]. *)
Definition printf_packet (sender : string) (text : list byte) : list byte :=
  String.list_byte_of_string "packet(" ++ String.list_byte_of_string sender
  ++ String.list_byte_of_string "): |" ++ text ++ [x7c; x0a].

(** A line without the newline at its end. *)
Definition chomp (text : list byte) : list byte :=
  match last text with
  | Some b => if Byte.eqb b x0a then take (Nat.pred (length text)) text else text
  | None => text
  end.

(** The body of the [while] loop of [main] after [msgq_recv_wait] has
    returned [pk]: the new value of [cond], what is printed, and the
    world.  [printf] reads the sender up to its terminator: where the array
    has none it reads on behind the characters. *)
Definition main_serve (pk : Z) (w : world) : result (Z * list byte * world) :=
  match load_packet pk (heap w) with
  | None => Fault BadPointer
  | Some k =>
    match strlen (p_data k) with
    | None => Fault (OutOfBounds (Z.of_nat (length (p_data k))))
    | Some n =>
      let len := to_int n in
      match read_data k (len - 1) with
      | None => Fault (OutOfBounds (len - 1))
      | Some b =>
        let data :=
          if Byte.eqb b x0a then <[Z.to_nat (len - 1) := x00]> (p_data k)
          else p_data k in
        let w := set_heap (store pk (Packet (Packet_ (p_size k) (p_container k) data))
                             (heap w)) w in
        sender ← msgq_pkt_sender pk w;
        match sender with
        | None => Fault BadPointer
        | Some (Unterminated _) => Fault Uninitialised
        | Some (Text sender) =>
          let out := printf_packet sender (c_string data) in
          let cond := if bool_decide (c_string data = String.list_byte_of_string "quit")
                      then 0 else 1 in
          '(_, w) ← msgq_pkt_delete pk w;
          Ok (cond, out, w)
        end
      end
    end
  end.

(** The loop of [main].  Each element of [script] is what happens during one
    call of [msgq_recv_wait]; [Pending] is [main] waiting for a message when
    the script ends. *)
Fixpoint main_loop (self : Z) (script : list (list (list activity)))
    (m : msgq_) (w : world) (out : list byte) : result (list byte * msgq_ * world) :=
  match script with
  | [] => Pending
  | wakeups :: script =>
    r ← msgq_recv_wait self wakeups m w;
    match r with
    | Parked _ _ => Pending
    | Returned None _ _ => Fault BadPointer
    | Returned (Some pk) m w =>
      '(cond, o, w) ← main_serve pk w;
      if cond =? 0 then Ok (out ++ o, m, w)
      else main_loop self script m w (out ++ o)
    end
  end.

(** [main]: the exit status, what was printed, and the world.  The result
    of [msgq_open] is used unchecked. *)
Definition main (e : open_env) (script : list (list (list activity))) (w : world)
  : result (Z * list byte * world) :=
  '(h, w) ← msgq_open (Some "/tmp/msgq"%string) e w;
  match h with
  | None => Fault BadPointer
  | Some (self, m) =>
    '(out, m, w) ← main_loop self script m w [];
    '(_, _, w) ← msgq_close self m w;
    Ok (0, out, w)
  end.

(** The text that [main] finds in the packet of the datagram [r]: the
    payload, as far as validation lets it count, up to its first
    terminator. *)
Definition text_of (r : recvfrom_result) : list byte :=
  let size := Z.min (p_size (rf_packet r)) (rf_len r - PACKET_HDR) in
  c_string (take (Z.to_nat size) (p_data (rf_packet r)) ++ [x00]).

(** The line that [main] prints for it when the sender's address is
    shorter than [UNIX_PATH_MAX - 1]. *)
Definition line_of (i : iter_input) : list byte :=
  printf_packet (rf_from i.1.1) (chomp (text_of i.1.1)).

(** The receiver queues the datagram of [i] when the heap is [h]: it passes
    validation and both blocks are allocated. *)
Definition accepted (h : gmap Z block) (i : iter_input) : Prop :=
  PACKET_HDR <= rf_len i.1.1 <= INT_MAX ∧ 0 <= p_size (rf_packet i.1.1) ∧
  Z.of_nat (length (p_data (rf_packet i.1.1))) <= MSGQ_MSG_MAX - PACKET_HDR ∧
  ∃ np h',
    msgq_node_create (rf_from i.1.1) (validate_packet (rf_packet i.1.1) (rf_len i.1.1)).2
      i.1.2 i.2 h = Ok (Some np, h').

(** A datagram that [main] prints as a line: the receiver queues it, its
    text is not empty, and the address of its sender is shorter than
    [UNIX_PATH_MAX - 1] characters. *)
Definition printable (h : gmap Z block) (i : iter_input) : Prop :=
  accepted h i ∧ text_of i.1.1 ≠ [] ∧
  Z.of_nat (String.length (rf_from i.1.1)) < UNIX_PATH_MAX - 1.

(** * Invariants and reachable states *)

(** Live blocks lie inside the address space, are not empty and do not
    overlap. *)
Definition heap_ok (h : gmap Z block) : Prop :=
  (∀ a b, h !! a = Some b → 0 < a ∧ 0 < bsize b ∧ a + bsize b <= WORD) ∧
  (∀ a1 b1 a2 b2, a1 ≠ a2 → h !! a1 = Some b1 → h !! a2 = Some b2 →
     a1 + bsize b1 <= a2 ∨ a2 + bsize b2 <= a1).

(** A node as it sits in the queue: a live block of the size of a node,
    attached, whose packet is a live block that points back to it. *)
Definition queued_node (h : gmap Z block) (n : Z) : Prop :=
  ∃ nd pk sz k,
    h !! n = Some (Block SIZEOF_NODE (Node nd)) ∧ link nd = ELIST_ATTACHED ∧
    packet nd = Some pk ∧ h !! pk = Some (Block sz (Packet k)) ∧
    p_container k = Some n.

(** The queue holds each node once, all of them are queued nodes, and no
    other node of the heap is attached. *)
Record queue_shape (q : list Z) (h : gmap Z block) : Prop := QueueShape {
  qs_nodup : NoDup q;
  qs_nodes : ∀ n, n ∈ q → queued_node h n;
  qs_attached : ∀ n sz nd,
    h !! n = Some (Block sz (Node nd)) → link nd = ELIST_ATTACHED → n ∈ q
}.

(** The invariant of a handle: a sound heap, a well-shaped queue, and the
    pending-count equal to the number of nodes in the queue. *)
Definition inv (m : msgq_) (w : world) : Prop :=
  heap_ok (heap w) ∧ queue_shape (recvq m) (heap w) ∧
  recvs m = Z.of_nat (length (recvq m)).

(** What a call leaves alone: the heap and the pthread objects. *)
Definition same_process (w w' : world) : Prop :=
  heap w' = heap w ∧ mutexes w' = mutexes w ∧ conds w' = conds w ∧
  threads w' = threads w ∧ mutexattrs w' = mutexattrs w.

(** The world [msgq_open] starts from: a sound heap without attached nodes,
    and no pthread object outside a live block. *)
Record world_ok (w : world) : Prop := WorldOk {
  wo_heap : heap_ok (heap w);
  wo_detached : ∀ n sz nd,
    heap w !! n = Some (Block sz (Node nd)) → link nd = ELIST_DETACHED;
  wo_mutexes : ∀ a, is_Some (mutexes w !! a) → is_Some (heap w !! a);
  wo_conds : ∀ a, a ∈ conds w → is_Some (heap w !! a)
}.

(** A handle between two calls: its invariant, its two blocks, its mutex
    free, its condition variable initialised, its socket open and bound to
    its address, its receiver thread not joined. *)
Record handle_ok (self : Z) (m : msgq_) (w : world) : Prop := HandleOk {
  ho_inv : inv m w;
  ho_self : heap w !! self = Some (Block SIZEOF_MSGQ Handle);
  ho_pkbuf : ∃ b, pkbuf m = Some b ∧ heap w !! b = Some (Block MSGQ_MSG_MAX Buffer);
  ho_mutex : mutexes w !! self = Some None;
  ho_cond : self ∈ conds w;
  ho_fd : 0 <= fd m ∧ fds w !! fd m = Some (FdSocket (Some (address m)));
  ho_thread : self ∈ threads w
}.

(** The handle's own block and its receive buffer stay as they are. *)
Definition keeps_static (h h' : gmap Z block) : Prop :=
  ∀ a sz o, h !! a = Some (Block sz o) → o = Handle ∨ o = Buffer →
            h' !! a = Some (Block sz o).

(** The descriptors, the filesystem, the condition variables and the
    threads of a world. *)
Definition rest (w : world) : gmap Z fdesc * gmap string ftype * gset Z * gset Z :=
  (fds w, fs w, conds w, threads w).

(** The members of a handle outside its queue. *)
Definition fields (m : msgq_) : Z * string * option Z * Z :=
  (fd m, address m, pkbuf m, broadcast m).

(** What the receiver and the consumer calls leave alone. *)
Definition frame (m : msgq_) (w : world) (m' : msgq_) (w' : world) : Prop :=
  keeps_static (heap w) (heap w') ∧ rest w' = rest w ∧ fields m' = fields m.

(** The stays in [pthread_cond_wait] of a caller whose check finds the
    queue empty each time. *)
Fixpoint parked_through (self : Z) (wakeups : list (list activity))
    (m : msgq_) (w : world) : result (msgq_ * world) :=
  match wakeups with
  | [] => Ok (m, w)
  | acts :: wakeups =>
    '(m, w) ← pthread_cond_wait self acts m w;
    parked_through self wakeups m w
  end.

(** The states of an open handle between two calls: what [msgq_open]
    returns, and what the receiver thread and the calls of the API make of
    it. *)
Inductive opened (self : Z) : msgq_ → world → Prop :=
| opened_open addr e w0 m w :
    world_ok w0 → msgq_open addr e w0 = Ok (Some (self, m), w) →
    opened self m w
| opened_receiver r cn cp m w c m' w' :
    opened self m w →
    msgq_receiver_iter self r cn cp m w = Ok (c, m', w') →
    opened self m' w'
| opened_recv m w pk m' w' :
    opened self m w → msgq_recv self m w = Ok (pk, m', w') →
    opened self m' w'
| opened_recv_wait wakeups m w pk m' w' :
    opened self m w →
    msgq_recv_wait self wakeups m w = Ok (Returned pk m' w') →
    opened self m' w'
| opened_recv_parked wakeups m w m' w' :
    opened self m w →
    msgq_recv_wait self wakeups m w = Ok (Parked m' w') →
    opened self m' w'
| opened_pkt_delete pk m w ret w' :
    opened self m w → msgq_pkt_delete pk w = Ok (ret, w') →
    opened self m w'
| opened_send receiver packet sendto_ret m w ret m' w' :
    opened self m w →
    msgq_send receiver packet sendto_ret m w = (ret, m', w') →
    opened self m' w'
| opened_message_count m w n w' :
    opened self m w → msgq_message_count self m w = Ok (n, w') →
    opened self m w'.

(** The states [msgq_close] goes through: on entering its loop and after
    each turn of it. *)
Inductive draining (self : Z) : msgq_ → world → Prop :=
| draining_enter m w m' w' :
    opened self m w → msgq_close_enter self m w = Ok (m', w') →
    draining self m' w'
| draining_turn m w m' h' freed :
    draining self m w →
    close_drain_iter m (heap w) = Ok (Some (m', h', freed)) →
    draining self m' (set_heap h' w).

(** [n] successful deliveries in a row: turns of the receiver's loop that
    each append a node, with no consumer call in between. *)
Inductive delivered (self : Z) : nat → msgq_ → world → msgq_ → world → Prop :=
| delivered_O m w : delivered self O m w m w
| delivered_S n m w m1 w1 r cn cp np m2 w2 :
    delivered self n m w m1 w1 →
    msgq_receiver_iter self r cn cp m1 w1 = Ok (Continue, m2, w2) →
    recvq m2 = recvq m1 ++ [np] →
    delivered self (S n) m w m2 w2.

(** ** The blocks of the queue in the heap *)

(** [a] is a node of the queue or the packet of one. *)
Definition queue_block (q : list Z) (h : gmap Z block) (a : Z) : Prop :=
  a ∈ q ∨ ∃ n nd, n ∈ q ∧ load_node n h = Some nd ∧ packet nd = Some a.

(** The heap [h] is the heap [h1] and, at addresses free in [h1], the
    blocks of the queue. *)
Definition queue_owns (q : list Z) (h1 h : gmap Z block) : Prop :=
  ∀ a, (queue_block q h a ∧ h1 !! a = None) ∨ (¬ queue_block q h a ∧ h !! a = h1 !! a).

(** * A session *)

(** An anonymous queue is opened in an empty world, two datagrams arrive,
    one of them is consumed. *)
Module Session.

Definition self : Z := 4096.

Definition env : open_env :=
  OpenEnv (Some self) (Some 8192) true true (Some 3)
          [Attempt (Some ("abcdef"%string, 4)) false 0] 0 true.


Definition m0 : msgq_ := Msgq 3 "/tmp/msgq-abcdef" (Some 8192) 0 [] 0.

Definition hello : list byte := [x68; x65; x6c; x6c; x6f].

(** "hello" with a declared length of 100, from [/tmp/peer]. *)
Definition dg_hello : recvfrom_result :=
  Recvfrom 13 0 "/tmp/peer" (Packet_ 100 (Some 77) hello).


(** A header and nothing after it. *)
Definition dg_empty : recvfrom_result :=
  Recvfrom 8 0 "/tmp/peer" (Packet_ 0 (Some 77) []).

Definition opened_world : world :=
  match msgq_open None env empty_world with
  | Ok (_, w) => w
  | _ => empty_world
  end.

Definition after (ins : list iter_input) : msgq_ * world :=
  match receiver_loop self ins m0 opened_world with
  | Ok (_, m, w) => (m, w)
  | _ => (m0, opened_world)
  end.

Definition first : iter_input := (dg_hello, Some 16384, Some 20480).
Definition second : iter_input := (dg_hello, Some 24576, Some 28672).

(** The handle and the world after both deliveries, and after one call of
    [msgq_recv] then. *)
Definition m2 : msgq_ := (after [first; second]).1.
Definition w2 : world := (after [first; second]).2.

Definition after_recv : msgq_ * world :=
  match msgq_recv self m2 w2 with
  | Ok (_, m, w) => (m, w)
  | _ => (m2, w2)
  end.

End Session.

(** More traffic for the session's queue: a text sent with
    [msgq_send_string], a failed [recvfrom], and a world in which a regular
    file sits at the path of a named queue. *)
Module Traffic.

Definition text : iter_input :=
  (datagram "/tmp/peer" (string_packet Session.hello), Some 16384, Some 20480).

Definition after_text : msgq_ * world :=
  match receiver_loop Session.self [text] Session.m0 Session.opened_world with
  | Ok (_, m, w) => (m, w)
  | _ => (Session.m0, Session.opened_world)
  end.

(** [recvfrom] fails with [EBADF]. *)
Definition bad_descriptor : recvfrom_result := Recvfrom (-1) 9 "" (Packet_ 0 None []).





End Traffic.

(** Two lines for the sample server, sent with [msgq_send_string] from
    [/tmp/peer]: "hello" and "quit", each with its newline. *)
Module Lines.

Definition hello_line : iter_input :=
  (datagram "/tmp/peer" (string_packet (Session.hello ++ [x0a])), Some 16384, Some 20480).

Definition quit_line : iter_input :=
  (datagram "/tmp/peer" (string_packet [x71; x75; x69; x74; x0a]), Some 16384, Some 20480).

Definition env : open_env :=
  OpenEnv (Some Session.self) (Some 8192) true true (Some 3) [] 0 true.

Definition m0 : msgq_ := Msgq 3 "/tmp/msgq" (Some 8192) 0 [] 0.

Definition opened_world : world :=
  match msgq_open (Some "/tmp/msgq"%string) env empty_world with
  | Ok (_, w) => w
  | _ => empty_world
  end.

End Lines.

(** * fakeobs: the obstack emulation

    [fakeobs.c] keeps every object of an obstack in a block of its own and
    the pointers to them in a table, [stack->ptrs], that grows by
    [DEF_MAX_PTRS] entries at a time.  The allocator is passed in by the
    caller: [alloc_func], [realloc_func] and [free_func] are [malloc],
    [realloc] and [free]. *)
Module Fakeobs.

Definition DEF_MAX_PTRS : Z := 32.

(** [sizeof(void * )] on the ILP32 target. *)
Definition SIZEOF_PTR : Z := 4.

(** [struct obstack].  [obstack.h] is not among the sources: the members are
    the ones that [fakeobs.c] reads and writes, with the types it uses them
    at ([int], but [void **] for [ptrs]).  The null pointer is 0. *)
Record obstack := Obstack {
  grow : Z;            (* nonzero while an object is growing *)
  current : Z;         (* index of the last object, -1 when there is none *)
  ptrs : Z;            (* the table of object pointers *)
  num_ptrs : Z;        (* entries of the table *)
  grow_size : Z        (* bytes of the growing object *)
}.

Definition set_grow (x : Z) (s : obstack) : obstack :=
  Obstack x (current s) (ptrs s) (num_ptrs s) (grow_size s).
Definition set_current (x : Z) (s : obstack) : obstack :=
  Obstack (grow s) x (ptrs s) (num_ptrs s) (grow_size s).
Definition set_ptrs (x : Z) (s : obstack) : obstack :=
  Obstack (grow s) (current s) x (num_ptrs s) (grow_size s).
Definition set_num_ptrs (x : Z) (s : obstack) : obstack :=
  Obstack (grow s) (current s) (ptrs s) x (grow_size s).
Definition set_grow_size (x : Z) (s : obstack) : obstack :=
  Obstack (grow s) (current s) (ptrs s) (num_ptrs s) x.

(** ** Memory

    A live block is a table of pointers or an array of bytes, as the code
    uses it; [None] is an entry or a byte that was never written and holds
    an indeterminate value. *)
Inductive area :=
| Table (slots : list (option Z))
| Bytes (data : list (option byte)).

(** The bytes a block occupies; the allocator never hands out less than one. *)
Definition area_size (b : area) : Z :=
  Z.max 1 (match b with
           | Table slots => SIZEOF_PTR * Z.of_nat (length slots)
           | Bytes data => Z.of_nat (length data)
           end).

(** The live blocks, the global [obstack_alloc_failed_handler] (is it set?)
    and the number of times it has been called. *)
Record machine := Machine {
  blocks : gmap Z area;
  obstack_alloc_failed_handler : bool;
  handled : nat
}.

Definition set_blocks (x : gmap Z area) (m : machine) : machine :=
  Machine x (obstack_alloc_failed_handler m) (handled m).

(** What the C standard leaves undefined. *)
Inductive undefined :=
| Indeterminate                 (* the value of an entry never written is used *)
| OutOfRange (i : Z)            (* an access at [i], outside the block *)
| NotLive (p : Z).              (* [p] is used as a block and is none *)

Inductive outcome (A : Type) :=
| Done (a : A)
| Undefined (u : undefined).
Arguments Done {A} a.
Arguments Undefined {A} u.

Global Instance outcome_bind : MBind outcome := λ A B k r,
  match r with
  | Done a => k a
  | Undefined u => Undefined u
  end.

(** The macro [ERROR]: the handler is called if there is one.  It is taken
    to return. *)
Definition ERROR (m : machine) : machine :=
  if obstack_alloc_failed_handler m
  then Machine (blocks m) (obstack_alloc_failed_handler m) (S (handled m))
  else m.

(** ** The allocator *)

(** Can [sz] bytes at address [a] be handed out? *)
Definition fits (h : gmap Z area) (a sz : Z) : bool :=
  (0 <? a) && (a + Z.max 1 sz <=? WORD)
  && forallb (λ e : Z * area, disjoint a (Z.max 1 sz) e.1 (area_size e.2)) (map_to_list h).

(** What the caller keeps in a block that it asks for. *)
Inductive use := Pointers | Chars.

Definition fresh_area (u : use) (sz : Z) : area :=
  match u with
  | Pointers => Table (replicate (Z.to_nat (sz / SIZEOF_PTR)) None)
  | Chars => Bytes (replicate (Z.to_nat sz) None)
  end.

(** The contents after [realloc]: kept up to the lesser of the two sizes,
    indeterminate beyond. *)
Definition resize (sz : Z) (b : area) : area :=
  match b with
  | Table slots =>
    let n := Z.to_nat (sz / SIZEOF_PTR) in
    Table (take n slots ++ replicate (n - length slots) None)
  | Bytes data =>
    let n := Z.to_nat sz in
    Bytes (take n data ++ replicate (n - length data) None)
  end.

(** [malloc(sz)]: [cand] is the allocator's choice, [None] when it gives up;
    a choice that does not fit is a failed allocation too. *)
Definition alloc_func (u : use) (sz : Z) (cand : option Z) (m : machine) : Z * machine :=
  match cand with
  | Some a =>
    if fits (blocks m) a sz
    then (a, set_blocks (<[a := fresh_area u sz]> (blocks m)) m)
    else (0, m)
  | None => (0, m)
  end.

(** [realloc(p, sz)].  With a null [p] it is [malloc(sz)]; with [sz = 0] it
    frees [p] and returns null, as glibc does; when it fails the old block
    stays. *)
Definition realloc_func (u : use) (p sz : Z) (cand : option Z) (m : machine)
  : outcome (Z * machine) :=
  if p =? 0 then Done (alloc_func u sz cand m)
  else
    match blocks m !! p with
    | None => Undefined (NotLive p)
    | Some b =>
      if sz =? 0 then Done (0, set_blocks (delete p (blocks m)) m)
      else
        match cand with
        | Some a =>
          if fits (delete p (blocks m)) a sz
          then Done (a, set_blocks (<[a := resize sz b]> (delete p (blocks m))) m)
          else Done (0, m)
        | None => Done (0, m)
        end
    end.

(** [free(p)]. *)
Definition free_func (p : Z) (m : machine) : outcome machine :=
  if p =? 0 then Done m
  else
    match blocks m !! p with
    | Some _ => Done (set_blocks (delete p (blocks m)) m)
    | None => Undefined (NotLive p)
    end.

(** ** Accesses *)

(** [t[i]] for a table [t]. *)
Definition read_slot (t i : Z) (m : machine) : outcome Z :=
  match blocks m !! t with
  | Some (Table slots) =>
    if (0 <=? i) && (i <? Z.of_nat (length slots)) then
      match slots !! Z.to_nat i with
      | Some (Some v) => Done v
      | _ => Undefined Indeterminate
      end
    else Undefined (OutOfRange i)
  | _ => Undefined (NotLive t)
  end.

(** [t[i] = v]. *)
Definition write_slot (t i v : Z) (m : machine) : outcome machine :=
  match blocks m !! t with
  | Some (Table slots) =>
    if (0 <=? i) && (i <? Z.of_nat (length slots))
    then Done (set_blocks (<[t := Table (<[Z.to_nat i := Some v]> slots)]> (blocks m)) m)
    else Undefined (OutOfRange i)
  | _ => Undefined (NotLive t)
  end.

(** [memcpy((unsigned char * )p + off, address, n)]: [src] is what can be
    read at [address]. *)
Definition memcpy (p off : Z) (src : list byte) (n : Z) (m : machine) : outcome machine :=
  match blocks m !! p with
  | Some (Bytes data) =>
    if (0 <=? off) && (off + n <=? Z.of_nat (length data)) then
      if n <=? Z.of_nat (length src) then
        Done (set_blocks
                (<[p := Bytes (take (Z.to_nat off) data
                               ++ (Some <$> take (Z.to_nat n) src)
                               ++ drop (Z.to_nat (off + n)) data)]> (blocks m)) m)
      else Undefined (OutOfRange n)
    else Undefined (OutOfRange (off + n))
  | _ => Undefined (NotLive p)
  end.

(** [*((unsigned char * )p + off) = b]. *)
Definition store_byte (p off : Z) (b : byte) (m : machine) : outcome machine :=
  match blocks m !! p with
  | Some (Bytes data) =>
    if (0 <=? off) && (off <? Z.of_nat (length data))
    then Done (set_blocks (<[p := Bytes (<[Z.to_nat off := Some b]> data)]> (blocks m)) m)
    else Undefined (OutOfRange off)
  | _ => Undefined (NotLive p)
  end.

(** ** [obstack_init_] *)

(** [for (i = ...; i < DEF_MAX_PTRS; i++) stack->ptrs[i] = 0;] with [n]
    entries to go. *)
Fixpoint clear_slots (n : nat) (t i : Z) (m : machine) : outcome machine :=
  match n with
  | O => Done m
  | S n => m ← write_slot t i 0 m; clear_slots n t (i + 1) m
  end.

Definition obstack_init_ (stack : obstack) (cand : option Z) (m : machine)
  : outcome (obstack * machine) :=
  let stack := set_grow 0 stack in
  let stack := set_current (-1) stack in
  let '(p, m) := alloc_func Pointers (to_size_t (SIZEOF_PTR * DEF_MAX_PTRS)) cand m in
  let stack := set_ptrs p stack in
  let stack := set_num_ptrs DEF_MAX_PTRS stack in
  if ptrs stack =? 0 then Done (stack, ERROR m)
  else
    m ← clear_slots (Z.to_nat DEF_MAX_PTRS) (ptrs stack) 0 m;
    Done (stack, m).

(** ** [grow_ptrs] *)

Definition grow_ptrs (stack : obstack) (cand : option Z) (m : machine)
  : outcome (Z * obstack * machine) :=
  let n := to_int (num_ptrs stack + DEF_MAX_PTRS) in
  '(p, m) ← realloc_func Pointers (ptrs stack) (to_size_t (SIZEOF_PTR * to_size_t n)) cand m;
  if p =? 0 then Done (-1, stack, ERROR m)
  else Done (0, set_ptrs p (set_num_ptrs n stack), m).

(** ** [obstack_alloc_]

    [tcand] is the allocator's choice for the table, should it grow, [cand]
    the one for the object. *)
Definition obstack_alloc_ (stack : obstack) (size : Z) (tcand cand : option Z) (m : machine)
  : outcome (Z * obstack * machine) :=
  '(r, stack, m) ← (if num_ptrs stack <=? to_int (current stack + 1)
                    then grow_ptrs stack tcand m
                    else Done (0, stack, m));
  if r <? 0 then Done (0, stack, m)
  else
    '(p, m) ← realloc_func Chars 0 (to_size_t size) cand m;
    if p =? 0 then Done (p, stack, ERROR m)
    else
      let stack := set_current (to_int (current stack + 1)) stack in
      m ← write_slot (ptrs stack) (current stack) p m;
      Done (p, stack, m).

(** ** [obstack_free_] *)

(** The loop with [i + 1 = k]: it ends when [k] is 0. *)
Fixpoint obstack_free_loop (k : nat) (stack : obstack) (ptr : Z) (m : machine)
  : outcome (obstack * machine) :=
  match k with
  | O => Done (stack, m)
  | S k' =>
    let i := Z.of_nat k' in
    p ← read_slot (ptrs stack) i m;
    m ← free_func p m;
    q ← read_slot (ptrs stack) i m;
    if q =? ptr then
      let stack := set_current (i - 1) stack in
      m ← write_slot (ptrs stack) i 0 m;
      Done (stack, m)
    else
      m ← write_slot (ptrs stack) i 0 m;
      obstack_free_loop k' stack ptr m
  end.

Definition obstack_free_ (stack : obstack) (ptr : Z) (m : machine)
  : outcome (obstack * machine) :=
  obstack_free_loop (Z.to_nat (current stack + 1)) stack ptr m.

(** ** [obstack_copy_] and [obstack_copy0_]

    [src] is what can be read at [address]. *)
Definition obstack_copy_ (stack : obstack) (src : list byte) (size : Z)
    (tcand cand : option Z) (m : machine) : outcome (Z * obstack * machine) :=
  '(p, stack, m) ← obstack_alloc_ stack size tcand cand m;
  if p =? 0 then Done (p, stack, m)
  else
    m ← memcpy p 0 src (to_size_t size) m;
    Done (p, stack, m).

Definition obstack_copy0_ (stack : obstack) (src : list byte) (size : Z)
    (tcand cand : option Z) (m : machine) : outcome (Z * obstack * machine) :=
  '(p, stack, m) ← obstack_alloc_ stack (to_int (size + 1)) tcand cand m;
  if p =? 0 then Done (p, stack, m)
  else
    m ← memcpy p 0 src (to_size_t size) m;
    m ← store_byte p size x00 m;
    Done (p, stack, m).

(** ** Growing objects

    The four functions open a new object when none is growing; [inl] is the
    early [return] when the table could not grow. *)
Definition obstack_blank_ (stack : obstack) (size : Z) (tcand cand : option Z) (m : machine)
  : outcome (obstack * machine) :=
  start ← (if grow stack =? 0 then
             '(r, stack, m) ← (if num_ptrs stack <=? to_int (current stack + 1)
                               then grow_ptrs stack tcand m
                               else Done (0, stack, m));
             if r <? 0 then Done (inl (stack, m))
             else Done (inr (set_grow_size 0 (set_current (to_int (current stack + 1)) stack), m))
           else Done (inr (stack, m)));
  match start with
  | inl out => Done out
  | inr (stack, m) =>
    let stack := set_grow 1 stack in
    p ← read_slot (ptrs stack) (current stack) m;
    '(p, m) ← realloc_func Chars p (to_size_t (to_int (grow_size stack + size + 1))) cand m;
    if p =? 0 then Done (stack, ERROR m)
    else
      let stack := set_grow_size (to_int (grow_size stack + size)) stack in
      m ← write_slot (ptrs stack) (current stack) p m;
      Done (stack, m)
  end.

Definition obstack_grow_ (stack : obstack) (src : list byte) (size : Z)
    (tcand cand : option Z) (m : machine) : outcome (obstack * machine) :=
  start ← (if grow stack =? 0 then
             '(r, stack, m) ← (if num_ptrs stack <=? to_int (current stack + 1)
                               then grow_ptrs stack tcand m
                               else Done (0, stack, m));
             if r <? 0 then Done (inl (stack, m))
             else Done (inr (set_grow_size 0 (set_current (to_int (current stack + 1)) stack), m))
           else Done (inr (stack, m)));
  match start with
  | inl out => Done out
  | inr (stack, m) =>
    let stack := set_grow 1 stack in
    p ← read_slot (ptrs stack) (current stack) m;
    '(p, m) ← realloc_func Chars p (to_size_t (to_int (grow_size stack + size))) cand m;
    if p =? 0 then Done (stack, ERROR m)
    else
      let stack := set_grow_size (to_int (grow_size stack + size)) stack in
      m ← write_slot (ptrs stack) (current stack) p m;
      m ← memcpy p (grow_size stack - size) src (to_size_t size) m;
      Done (stack, m)
  end.

Definition obstack_grow0_ (stack : obstack) (src : list byte) (size : Z)
    (tcand cand : option Z) (m : machine) : outcome (obstack * machine) :=
  start ← (if grow stack =? 0 then
             '(r, stack, m) ← (if num_ptrs stack <=? to_int (current stack + 1)
                               then grow_ptrs stack tcand m
                               else Done (0, stack, m));
             if r <? 0 then Done (inl (stack, m))
             else Done (inr (set_grow_size 0 (set_current (to_int (current stack + 1)) stack), m))
           else Done (inr (stack, m)));
  match start with
  | inl out => Done out
  | inr (stack, m) =>
    let stack := set_grow 1 stack in
    p ← read_slot (ptrs stack) (current stack) m;
    '(p, m) ← realloc_func Chars p (to_size_t (to_int (grow_size stack + size + 1))) cand m;
    if p =? 0 then Done (stack, ERROR m)
    else
      let stack := set_grow_size (to_int (grow_size stack + to_int (size + 1))) stack in
      m ← write_slot (ptrs stack) (current stack) p m;
      m ← memcpy p (grow_size stack - size - 1) src (to_size_t size) m;
      m ← store_byte p (grow_size stack - 1) x00 m;
      Done (stack, m)
  end.

(** The test before [grow_ptrs] is [stack->current - 1 >= stack->num_ptrs]
    here. *)
Definition obstack_1grow_ (stack : obstack) (data : byte) (tcand cand : option Z) (m : machine)
  : outcome (obstack * machine) :=
  start ← (if grow stack =? 0 then
             '(r, stack, m) ← (if num_ptrs stack <=? to_int (current stack - 1)
                               then grow_ptrs stack tcand m
                               else Done (0, stack, m));
             if r <? 0 then Done (inl (stack, m))
             else Done (inr (set_grow_size 0 (set_current (to_int (current stack + 1)) stack), m))
           else Done (inr (stack, m)));
  match start with
  | inl out => Done out
  | inr (stack, m) =>
    let stack := set_grow 1 stack in
    p ← read_slot (ptrs stack) (current stack) m;
    '(p, m) ← realloc_func Chars p (to_size_t (to_int (grow_size stack + 1))) cand m;
    if p =? 0 then Done (stack, ERROR m)
    else
      let stack := set_grow_size (to_int (grow_size stack + 1)) stack in
      m ← write_slot (ptrs stack) (current stack) p m;
      m ← store_byte p (grow_size stack - 1) data m;
      Done (stack, m)
  end.

(** ** The stack and its objects *)

(** The objects are live blocks of bytes. *)
Definition live_objects (m : machine) (objs : list Z) : Prop :=
  Forall (λ p, p ≠ 0 ∧ ∃ data, blocks m !! p = Some (Bytes data)) objs.

(** [objs] are the objects of the stack, oldest first, and [spare] the
    entries of the table behind them: the table is of the size the stack
    says and is no null pointer, its first entries are the objects, which
    are distinct live blocks. *)
Definition holds (stack : obstack) (m : machine) (objs : list Z) (spare : list (option Z))
  : Prop :=
  blocks m !! ptrs stack = Some (Table ((Some <$> objs) ++ spare)) ∧
  num_ptrs stack = Z.of_nat (length objs + length spare) ∧
  current stack = Z.of_nat (length objs) - 1 ∧
  num_ptrs stack < 2 ^ 30 ∧
  NoDup objs ∧
  live_objects m objs ∧
  ptrs stack ≠ 0.

(** The bytes of the object at [p]. *)
Definition object (p : Z) (m : machine) : option (list (option byte)) :=
  match blocks m !! p with
  | Some (Bytes data) => Some data
  | _ => None
  end.

(** [holds] as a check. *)
Definition holdsb (stack : obstack) (m : machine) (objs : list Z) (spare : list (option Z))
  : bool :=
  match blocks m !! ptrs stack with
  | Some (Table slots) => bool_decide (slots = (Some <$> objs) ++ spare)
  | _ => false
  end
  && (num_ptrs stack =? Z.of_nat (length objs + length spare))
  && (current stack =? Z.of_nat (length objs) - 1)
  && (num_ptrs stack <? 2 ^ 30)
  && bool_decide (NoDup objs)
  && forallb (λ p, negb (p =? 0)
                   && match blocks m !! p with Some (Bytes _) => true | _ => false end) objs
  && negb (ptrs stack =? 0).

End Fakeobs.

(** A stack to try things on: a fresh one with its table at 1000, one with
    the two objects "ab" and "c", one on which "de" is growing behind them,
    one whose table is full with 32 objects of 8 bytes, and that one after
    a 33rd allocation has moved the table to 5000. *)
Module Shelf.
Import Fakeobs.

Definition state : Type := obstack * machine.

Definition start : state := (Obstack 0 0 0 0 0, Machine ∅ true 0).

Definition now (r : outcome state) : state :=
  match r with Done s => s | Undefined _ => start end.

Definition after (r : outcome (Z * obstack * machine)) : state :=
  match r with Done (_, stack, m) => (stack, m) | Undefined _ => start end.

Definition fresh : state := now (obstack_init_ start.1 (Some 1000) start.2).

Definition two : state :=
  let s := after (obstack_copy_ fresh.1 [x61; x62] 2 None (Some 2000) fresh.2) in
  after (obstack_copy_ s.1 [x63] 1 None (Some 3000) s.2).

Definition growing : state := now (obstack_grow_ two.1 [x64; x65] 2 None (Some 4000) two.2).

Fixpoint fill (n : nat) (a : Z) (s : state) : state :=
  match n with
  | O => s
  | S n => fill n (a + 16) (after (obstack_alloc_ s.1 8 None (Some a) s.2))
  end.

Definition full : state := fill 32 2000 fresh.

Definition full_objs : list Z := (λ i, 2000 + 16 * Z.of_nat i) <$> seq 0 32.

Definition grown : state := after (obstack_alloc_ full.1 8 (Some 5000) (Some 6000) full.2).

End Shelf.

(** * Properties *)

(** ** Machine integers *)

Lemma to_size_t_small z : 0 <= z < WORD -> to_size_t z = z.
Proof. intros H. unfold to_size_t. now apply Z.mod_small. Qed.

Lemma to_int_small z : - 2 ^ 31 <= z <= INT_MAX -> to_int z = z.
Proof.
  unfold to_int, INT_MAX, WORD. intros H.
  rewrite Z.mod_small; lia.
Qed.

(** ** The heap *)

Lemma heap_ok_empty : heap_ok ∅.
Proof.
  split.
  - intros a b H. rewrite lookup_empty in H. discriminate.
  - intros a1 b1 a2 b2 _ H. rewrite lookup_empty in H. discriminate.
Qed.

Lemma fits_spec h a sz :
  fits h a sz = true ↔
  0 < a ∧ 0 < sz ∧ a + sz <= WORD ∧
  ∀ b blk, h !! b = Some blk → a + sz <= b ∨ b + bsize blk <= a.
Proof.
  unfold fits, disjoint. rewrite !andb_true_iff, forallb_forall.
  rewrite !Z.ltb_lt, Z.leb_le. split.
  - intros [[[? ?] ?] Hall]. repeat split; try done.
    intros b blk Hb.
    specialize (Hall (b, blk)). simpl in Hall.
    rewrite orb_true_iff, !Z.leb_le in Hall. apply Hall.
    apply list_elem_of_In, elem_of_map_to_list. done.
  - intros (? & ? & ? & Hall). repeat split; try done.
    intros [b blk] Hin. simpl.
    rewrite orb_true_iff, !Z.leb_le. apply Hall.
    apply list_elem_of_In, elem_of_map_to_list in Hin. done.
Qed.

Lemma fits_fresh h a sz : heap_ok h → fits h a sz = true → h !! a = None.
Proof.
  intros [Hr _] Hf. apply fits_spec in Hf as (? & ? & ? & Hall).
  destruct (h !! a) as [blk|] eqn:E; [|done].
  destruct (Hr _ _ E) as (? & ? & ?). destruct (Hall _ _ E); lia.
Qed.

Lemma heap_ok_insert h a sz o :
  heap_ok h → fits h a sz = true → heap_ok (<[a := Block sz o]> h).
Proof.
  intros Hok Hf. pose proof Hok as [Hr Hd].
  apply fits_spec in Hf as (? & ? & ? & Hall). split.
  - intros x b. rewrite lookup_insert. case_decide; subst.
    + intros [= <-]. simpl. lia.
    + apply Hr.
  - intros a1 b1 a2 b2 Hne. rewrite !lookup_insert.
    repeat case_decide; subst; try congruence.
    + intros [= <-] Hb2. simpl. destruct (Hall _ _ Hb2); lia.
    + intros Hb1 [= <-]. simpl. destruct (Hall _ _ Hb1); lia.
    + apply Hd. done.
Qed.

Lemma lookup_store p o h q :
  store p o h !! q =
  if decide (p = q) then (λ b, Block (bsize b) o) <$> h !! p else h !! q.
Proof.
  unfold store. rewrite lookup_alter. case_decide; subst; done.
Qed.

Lemma lookup_store_Some p o h q b :
  store p o h !! q = Some b → ∃ b0, h !! q = Some b0 ∧ bsize b0 = bsize b.
Proof.
  rewrite lookup_store. case_decide; subst.
  - destruct (h !! q) as [b0|]; [|discriminate]. intros [= <-]. eauto.
  - eauto.
Qed.

Lemma heap_ok_store h p o : heap_ok h → heap_ok (store p o h).
Proof.
  intros [Hr Hd]. split.
  - intros a b Hb. apply lookup_store_Some in Hb as (b0 & Hb0 & <-). eauto.
  - intros a1 b1 a2 b2 Hne H1 H2.
    apply lookup_store_Some in H1 as (c1 & H1 & <-).
    apply lookup_store_Some in H2 as (c2 & H2 & <-). eauto.
Qed.

Lemma heap_ok_free h p : heap_ok h → heap_ok (free p h).
Proof.
  intros [Hr Hd]. unfold free. split.
  - intros a b Hb. apply lookup_delete_Some in Hb as [_ Hb]. eauto.
  - intros a1 b1 a2 b2 Hne H1 H2.
    apply lookup_delete_Some in H1 as [_ H1].
    apply lookup_delete_Some in H2 as [_ H2]. eauto.
Qed.

Lemma malloc_Some sz cand h p h' :
  malloc sz cand h = (Some p, h') →
  cand = Some p ∧ fits h p sz = true ∧ h' = <[p := Block sz Raw]> h.
Proof.
  unfold malloc. destruct cand as [a|]; [|discriminate].
  destruct (fits h a sz) eqn:E; [|discriminate].
  intros [= <- <-]. done.
Qed.

Lemma malloc_None sz cand h h' : malloc sz cand h = (None, h') → h' = h.
Proof.
  unfold malloc. destruct cand as [a|]; [destruct (fits h a sz)|]; congruence.
Qed.

Lemma load_node_Some p h nd :
  load_node p h = Some nd ↔ ∃ sz, h !! p = Some (Block sz (Node nd)).
Proof.
  unfold load_node. split.
  - destruct (h !! p) as [[sz []]|]; try discriminate. intros [= ->]. eauto.
  - intros [sz ->]. done.
Qed.

Lemma load_packet_Some p h k :
  load_packet p h = Some k ↔ ∃ sz, h !! p = Some (Block sz (Packet k)).
Proof.
  unfold load_packet. split.
  - destruct (h !! p) as [[sz []]|]; try discriminate. intros [= ->]. eauto.
  - intros [sz ->]. done.
Qed.

(** ** Validation *)

Lemma estimated_small len :
  0 <= len <= INT_MAX → to_int (to_size_t (len - PACKET_HDR)) = len - PACKET_HDR.
Proof.
  unfold to_int, to_size_t, INT_MAX, WORD, PACKET_HDR. intros H.
  destruct (Z_lt_ge_dec len 8).
  - replace ((len - 8) mod 2 ^ 32) with (len - 8 + 2 ^ 32).
    + replace (len - 8 + 2 ^ 32 + 2 ^ 31) with (len - 8 + 2 ^ 31 + 1 * 2 ^ 32) by lia.
      rewrite Z.mod_add by lia. rewrite Z.mod_small; lia.
    + replace (len - 8) with (len - 8 + 2 ^ 32 + (-1) * 2 ^ 32) at 2 by lia.
      rewrite Z.mod_add by lia. rewrite Z.mod_small; lia.
  - rewrite (Z.mod_small (len - 8)) by lia. rewrite Z.mod_small; lia.
Qed.

Lemma validate_packet_short packet len :
  0 <= len <= INT_MAX → len < PACKET_HDR →
  validate_packet packet len = (-1, packet).
Proof.
  intros Hl Hs. unfold validate_packet. rewrite estimated_small by done.
  destruct (Z.ltb_spec (len - PACKET_HDR) 0); [done | lia].
Qed.

Lemma validate_packet_long packet len :
  0 <= len <= INT_MAX → PACKET_HDR <= len →
  validate_packet packet len =
    (0, Packet_ (if len - PACKET_HDR <? p_size packet
                 then len - PACKET_HDR else p_size packet)
                None (p_data packet)).
Proof.
  intros Hl Hs. unfold validate_packet. rewrite estimated_small by done.
  destruct (Z.ltb_spec (len - PACKET_HDR) 0); [lia|].
  rewrite to_size_t_small by (unfold INT_MAX, WORD, PACKET_HDR in *; lia).
  destruct (len - PACKET_HDR <? p_size packet); done.
Qed.

(** ** Duplication *)

Lemma last_index_nonempty packet :
  1 <= p_size packet <= WORD → last_index packet = p_size packet - 1.
Proof. intros H. unfold last_index. apply to_size_t_small. lia. Qed.

Lemma last_index_empty packet :
  p_size packet = 0 → last_index packet = WORD - 1.
Proof. unfold last_index. intros ->. reflexivity. Qed.

Lemma copy_packet_empty packet cand h :
  p_size packet = 0 → Z.of_nat (length (p_data packet)) < WORD →
  msgq_copy_packet packet cand h = Fault (OutOfBounds (WORD - 1)).
Proof.
  intros Hs Hl. unfold msgq_copy_packet, read_data.
  rewrite (last_index_empty _ Hs).
  destruct (Z.ltb_spec (WORD - 1) (Z.of_nat (length (p_data packet)))); [lia|].
  now rewrite andb_false_r.
Qed.

Lemma copy_packet_nonempty packet a h last :
  heap_ok h →
  1 <= p_size packet <= Z.of_nat (length (p_data packet)) →
  PACKET_HDR + p_size packet + 1 < WORD →
  p_data packet !! Z.to_nat (p_size packet - 1) = Some last →
  let extra := if Byte.eqb last x00 then 0 else 1 in
  fits h a (PACKET_HDR + p_size packet + extra) = true →
  msgq_copy_packet packet (Some a) h =
    Ok (Some a,
        <[a := Block (PACKET_HDR + p_size packet + extra)
                 (Packet (Packet_ (p_size packet) (p_container packet)
                            (take (Z.to_nat (p_size packet)) (p_data packet)
                             ++ (if Byte.eqb last x00 then [] else [x00]))))]> h).
Proof.
  intros Hok Hs Hw Hlast extra Hfit. unfold msgq_copy_packet, read_data.
  rewrite last_index_nonempty by (unfold PACKET_HDR in *; lia).
  destruct (Z.leb_spec 0 (p_size packet - 1)); [|lia].
  destruct (Z.ltb_spec (p_size packet - 1) (Z.of_nat (length (p_data packet)))); [|lia].
  simpl. rewrite Hlast.
  rewrite (to_size_t_small (PACKET_HDR + p_size packet)) by (unfold PACKET_HDR in *; lia).
  rewrite (to_size_t_small (PACKET_HDR + p_size packet + 1)) by (unfold PACKET_HDR in *; lia).
  unfold memcpy_packet.
  replace (PACKET_HDR + p_size packet - PACKET_HDR) with (p_size packet) by lia.
  destruct (Z.leb_spec 0 (p_size packet)); [|lia].
  destruct (Z.leb_spec (p_size packet) (Z.of_nat (length (p_data packet)))); [|lia].
  simpl. subst extra. unfold malloc.
  destruct (Byte.eqb last x00).
  - rewrite Z.add_0_r in Hfit. rewrite Hfit, Z.ltb_irrefl.
    unfold store. rewrite alter_insert_eq, app_nil_r, Z.add_0_r. reflexivity.
  - rewrite Hfit. destruct (Z.ltb_spec (PACKET_HDR + p_size packet) (PACKET_HDR + p_size packet + 1)); [|lia].
    unfold store. rewrite alter_insert_eq. reflexivity.
Qed.

(** C9 (the code against the claim).  For a validated packet whose payload
    is not empty the duplicate is as the claim says: when the last payload
    byte is not the terminator the block has one byte more than header and
    payload and that byte is the terminator, when it is the terminator the
    block has no extra byte, and the recorded length is the payload length
    either way.  For an empty payload the test reads [data[size - 1]] with
    [size = 0], outside the packet, and nothing is duplicated. *)
Theorem copy_packet_terminator :
  ∀ packet a h,
    heap_ok h →
    0 <= p_size packet <= Z.of_nat (length (p_data packet)) →
    Z.of_nat (length (p_data packet)) <= MSGQ_MSG_MAX - PACKET_HDR →
    (p_size packet = 0 →
       msgq_copy_packet packet (Some a) h = Fault (OutOfBounds (WORD - 1))) ∧
    (∀ last,
       p_data packet !! Z.to_nat (p_size packet - 1) = Some last →
       1 <= p_size packet → last ≠ x00 →
       fits h a (PACKET_HDR + p_size packet + 1) = true →
       msgq_copy_packet packet (Some a) h =
         Ok (Some a,
             <[a := Block (PACKET_HDR + p_size packet + 1)
                      (Packet (Packet_ (p_size packet) (p_container packet)
                                 (take (Z.to_nat (p_size packet)) (p_data packet)
                                  ++ [x00])))]> h)) ∧
    (1 <= p_size packet →
       p_data packet !! Z.to_nat (p_size packet - 1) = Some x00 →
       fits h a (PACKET_HDR + p_size packet) = true →
       msgq_copy_packet packet (Some a) h =
         Ok (Some a,
             <[a := Block (PACKET_HDR + p_size packet)
                      (Packet (Packet_ (p_size packet) (p_container packet)
                                 (take (Z.to_nat (p_size packet)) (p_data packet))))]> h)).
Proof.
  intros packet a h Hok Hs Hl.
  assert (Hw : PACKET_HDR + p_size packet + 1 < WORD)
    by (unfold MSGQ_MSG_MAX, PACKET_HDR, WORD in *; lia).
  split; [|split].
  - intros H0. apply copy_packet_empty; [done|].
    unfold MSGQ_MSG_MAX, PACKET_HDR, WORD in *; lia.
  - intros last Hlast H1 Hne Hfit.
    pose proof (copy_packet_nonempty packet a h last Hok) as H.
    simpl in H. destruct (Byte.eqb last x00) eqn:E.
    + apply byte_dec_bl in E. done.
    + apply H; try done. lia.
  - intros H1 Hlast Hfit.
    pose proof (copy_packet_nonempty packet a h x00 Hok) as H.
    simpl in H. rewrite Z.add_0_r, app_nil_r in H. apply H; try done. lia.
Qed.

(** C10 (the code against the claim).  A datagram of exactly the header's
    length passes validation with payload length 0; the duplication then
    tests [data[size - 1]], whose index is [SIZE_MAX] in [size_t] and lies
    outside the payload, and the model stops there.  For any longer payload
    the tested index is the last byte of the payload. *)
Theorem copy_packet_reads_outside_empty_payload :
  ∀ r cand h,
    rf_len r = PACKET_HDR → p_data (rf_packet r) = [] →
    let packet := (validate_packet (rf_packet r) (rf_len r)).2 in
    0 <= p_size (rf_packet r) →
    (validate_packet (rf_packet r) (rf_len r)).1 = 0 ∧
    p_size packet = 0 ∧
    last_index packet = WORD - 1 ∧
    ¬ (0 <= last_index packet < p_size packet) ∧
    msgq_copy_packet packet cand h = Fault (OutOfBounds (WORD - 1)).
Proof.
  intros r cand h Hlen Hdata packet Hsz. subst packet.
  rewrite validate_packet_long by (rewrite Hlen; unfold INT_MAX, PACKET_HDR; lia).
  simpl. rewrite Hlen, Z.sub_diag.
  assert (E : (if 0 <? p_size (rf_packet r) then 0 else p_size (rf_packet r)) = 0).
  { destruct (Z.ltb_spec 0 (p_size (rf_packet r))); lia. }
  rewrite E. repeat split.
  - unfold last_index. simpl. unfold WORD. lia.
  - apply copy_packet_empty; [done|]. simpl. rewrite Hdata. done.
Qed.

(** Where the payload is not empty the tested byte is inside it. *)
Lemma last_index_in_payload packet :
  1 <= p_size packet < WORD → 0 <= last_index packet < p_size packet.
Proof. intros H. rewrite last_index_nonempty; lia. Qed.

(** ** Sending *)

(** C7.  When [sendto] fails, [msgq_send] returns -1, has called [sendto]
    once and not again, and leaves the handle (queue and pending-count
    included) and every block of the heap as they were. *)
Theorem send_failure_changes_nothing :
  ∀ receiver packet ret m w,
    ret < 0 →
    ∃ w',
      msgq_send receiver packet ret m w = (-1, m, w') ∧
      heap w' = heap w ∧ fds w' = fds w ∧ fs w' = fs w ∧
      mutexes w' = mutexes w ∧ wakes w' = wakes w ∧
      sent w' = sent w ++ [(fd m, strncpy receiver (UNIX_PATH_MAX - 1),
                            sizeof_packet packet, ret)].
Proof.
  intros receiver packet ret m w Hret. unfold msgq_send, sendto.
  destruct (Z.ltb_spec ret 0); [|lia].
  eexists. split; [reflexivity|]. simpl. done.
Qed.

(** ** The queue and the heap *)

Lemma node_limit : WORD / SIZEOF_NODE + 1 = 35791395.
Proof. reflexivity. Qed.

(** Nodes are 120 bytes each and do not overlap, so a 32-bit address space
    holds fewer than [INT_MAX] of them. *)
Lemma queue_bound q h :
  heap_ok h → queue_shape q h → Z.of_nat (length q) <= WORD / SIZEOF_NODE + 1.
Proof.
  intros [Hr Hd] [Hnd Hn _].
  set (f := λ a : Z, a / SIZEOF_NODE).
  assert (Hinj : NoDup (f <$> q)).
  { apply NoDup_fmap_2_strong; [|done].
    intros x y Hx Hy Hf.
    destruct (decide (x = y)) as [|Hne]; [done|exfalso].
    destruct (Hn _ Hx) as (ndx & _ & _ & _ & Ex & _).
    destruct (Hn _ Hy) as (ndy & _ & _ & _ & Ey & _).
    specialize (Hd _ _ _ _ Hne Ex Ey). simpl in Hd. subst f. simpl in Hf.
    change SIZEOF_NODE with 120 in *.
    destruct Hd as [Hd|Hd].
    - assert (x / 120 + 1 <= y / 120); [|lia].
      replace (x / 120 + 1) with ((x + 1 * 120) / 120) by (rewrite Z.div_add; lia).
      apply Z.div_le_mono; lia.
    - assert (y / 120 + 1 <= x / 120); [|lia].
      replace (y / 120 + 1) with ((y + 1 * 120) / 120) by (rewrite Z.div_add; lia).
      apply Z.div_le_mono; lia. }
  assert (Hsub : f <$> q ⊆+ seqZ 0 (WORD / SIZEOF_NODE + 1)).
  { apply NoDup_submseteq; [done|].
    intros z Hz. apply list_elem_of_fmap in Hz as (x & -> & Hx).
    destruct (Hn _ Hx) as (ndx & _ & _ & _ & Ex & _).
    destruct (Hr _ _ Ex) as (? & _ & Hhi). simpl in Hhi.
    apply elem_of_seqZ. subst f. simpl.
    change SIZEOF_NODE with 120 in *. split.
    - apply Z.div_pos; lia.
    - assert (x / 120 <= WORD / 120); [|lia].
      apply Z.div_le_mono; lia. }
  apply submseteq_length in Hsub.
  rewrite length_fmap, length_seqZ in Hsub.
  rewrite node_limit in *. lia.
Qed.

Lemma queue_below_int_max q h :
  heap_ok h → queue_shape q h → Z.of_nat (length q) <= 35791395.
Proof. intros Hh Hq. rewrite <- node_limit. eapply queue_bound; eauto. Qed.

(** *** [msgq_copy_packet] and [msgq_node_create] on the heap *)

Lemma copy_packet_Some packet cand h p h' :
  msgq_copy_packet packet cand h = Ok (Some p, h') →
  ∃ sz c, fits h p sz = true ∧ h' = <[p := Block sz (Packet c)]> h ∧
          p_size c = p_size packet ∧ p_container c = p_container packet.
Proof.
  unfold msgq_copy_packet.
  destruct (read_data packet (last_index packet)) as [last|]; [|discriminate].
  destruct (malloc _ cand h) as [[a|] h1] eqn:Em; [|discriminate].
  apply malloc_Some in Em as (_ & Hfit & ->).
  unfold memcpy_packet.
  destruct (_ && _); [|discriminate].
  intros [= <- <-]. unfold store. rewrite alter_insert_eq. simpl.
  eexists _, _. split; [exact Hfit|]. split; [reflexivity|].
  destruct (_ <? _); done.
Qed.

Lemma copy_packet_None packet cand h h' :
  msgq_copy_packet packet cand h = Ok (None, h') → h' = h.
Proof.
  unfold msgq_copy_packet.
  destruct (read_data packet (last_index packet)) as [last|]; [|discriminate].
  destruct (malloc _ cand h) as [[a|] h1] eqn:Em.
  - destruct (memcpy_packet _ _); discriminate.
  - apply malloc_None in Em as ->. congruence.
Qed.

Lemma node_create_None s packet cn cp h h' :
  heap_ok h → msgq_node_create s packet cn cp h = Ok (None, h') → h' = h.
Proof.
  intros Hok. unfold msgq_node_create.
  destruct (malloc SIZEOF_NODE cn h) as [[p|] h1] eqn:Em.
  - apply malloc_Some in Em as (_ & Hfit & ->).
    destruct (msgq_copy_packet _ _ _) as [[[pk|] h2]| | |] eqn:Ec; simpl; try discriminate.
    + destruct (load_packet pk h2); discriminate.
    + apply copy_packet_None in Ec as ->. intros [= <-].
      unfold free. apply delete_insert_id. eauto using fits_fresh.
  - apply malloc_None in Em as ->. congruence.
Qed.

(** What a successful [msgq_node_create] adds: a detached node and its
    packet, two fresh blocks that point at each other. *)
Lemma node_create_Some s packet cn cp h np h' :
  heap_ok h → msgq_node_create s packet cn cp h = Ok (Some np, h') →
  ∃ pk sz k,
    h !! np = None ∧ h !! pk = None ∧ np ≠ pk ∧
    p_container k = Some np ∧ p_size k = p_size packet ∧
    h' = <[np := Block SIZEOF_NODE
                   (Node (Node_ ELIST_DETACHED (strncpy s (UNIX_PATH_MAX - 1)) (Some pk)))]>
           (<[pk := Block sz (Packet k)]> h) ∧
    heap_ok h'.
Proof.
  intros Hok. unfold msgq_node_create.
  destruct (malloc SIZEOF_NODE cn h) as [[p|] h1] eqn:Em.
  2:{ apply malloc_None in Em as ->. discriminate. }
  apply malloc_Some in Em as (_ & Hfit & ->).
  pose proof (heap_ok_insert _ _ _ Raw Hok Hfit) as Hok1.
  destruct (msgq_copy_packet _ _ _) as [[[pk|] h2]| | |] eqn:Ec; simpl; try discriminate.
  apply copy_packet_Some in Ec as (sz & c & Hfit2 & -> & Hsz & _).
  unfold load_packet. rewrite lookup_insert_eq.
  intros [= <- <-].
  pose proof (fits_fresh _ _ _ Hok Hfit) as Hp.
  pose proof (fits_fresh _ _ _ Hok1 Hfit2) as Hpk.
  assert (Hne : p ≠ pk) by (intros ->; rewrite lookup_insert_eq in Hpk; discriminate).
  rewrite lookup_insert_ne in Hpk by done.
  exists pk, sz, (Packet_ (p_size c) (Some p) (p_data c)).
  split_and!; try done.
  - unfold store. rewrite alter_insert_eq. simpl.
    rewrite alter_insert_ne by done. rewrite alter_insert_eq. simpl.
    apply insert_insert_ne. done.
  - apply heap_ok_store, heap_ok_store. now apply heap_ok_insert.
Qed.

(** *** The queue operations keep the shape *)

Ltac solve_lookup :=
  repeat first
    [ rewrite lookup_insert_eq
    | rewrite lookup_insert_ne by congruence
    | rewrite lookup_delete_ne by congruence ];
  done.

Lemma set_link_lookup n l h nd :
  h !! n = Some (Block SIZEOF_NODE (Node nd)) →
  set_link n l h = <[n := Block SIZEOF_NODE (Node (Node_ l (sender nd) (packet nd)))]> h.
Proof.
  intros E. unfold set_link, load_node, store. rewrite E.
  apply map_eq. intros a. rewrite lookup_alter, lookup_insert.
  case_decide; subst; [now rewrite E|done].
Qed.

Lemma heap_ok_set_link n l h : heap_ok h → heap_ok (set_link n l h).
Proof. intros H. unfold set_link. destruct (load_node n h); auto using heap_ok_store. Qed.

Lemma shape_push_back q h np pk sz k s :
  queue_shape q h →
  h !! np = None → h !! pk = None → np ≠ pk → p_container k = Some np →
  let h' := <[np := Block SIZEOF_NODE (Node (Node_ ELIST_DETACHED s (Some pk)))]>
              (<[pk := Block sz (Packet k)]> h) in
  queue_shape (q ++ [np]) (set_link np ELIST_ATTACHED h').
Proof.
  intros [Hnd Hn Ha] Hnp Hpk Hne Hk h'.
  rewrite (set_link_lookup np _ h' (Node_ ELIST_DETACHED s (Some pk)))
    by (subst h'; apply lookup_insert_eq).
  subst h'. rewrite insert_insert_eq. simpl.
  assert (Hfresh : ∀ n, n ∈ q → n ≠ np ∧ n ≠ pk).
  { intros n Hin. destruct (Hn _ Hin) as (nd & _ & _ & _ & E & _).
    split; intros ->; congruence. }
  split.
  - apply NoDup_app. repeat split; [done| |apply NoDup_singleton].
    intros x Hx Hx'. apply list_elem_of_singleton in Hx' as ->.
    destruct (Hfresh _ Hx). done.
  - intros n Hin. apply elem_of_app in Hin as [Hin|Hin].
    + destruct (Hfresh _ Hin) as [? ?].
      destruct (Hn _ Hin) as (nd & pkn & szn & kn & E & Hl & Hp & Ek & Hc).
      exists nd, pkn, szn, kn. split_and!; try done; solve_lookup.
    + apply list_elem_of_singleton in Hin as ->.
      eexists _, pk, sz, k. split_and!; try done; solve_lookup.
  - intros n szn nd. rewrite !lookup_insert.
    repeat case_decide; subst.
    + intros _ _. apply elem_of_app. right. apply list_elem_of_singleton. done.
    + discriminate.
    + intros E Hl. apply elem_of_app. left. eauto.
Qed.

Lemma shape_pop_front n q h :
  queue_shape (n :: q) h →
  ∃ nd pk sz k,
    h !! n = Some (Block SIZEOF_NODE (Node nd)) ∧ packet nd = Some pk ∧
    h !! pk = Some (Block sz (Packet k)) ∧ p_container k = Some n ∧ n ≠ pk ∧
    (n ∉ q) ∧ (∀ x, x ∈ q → x ≠ pk) ∧
    set_link n ELIST_DETACHED h =
      <[n := Block SIZEOF_NODE (Node (Node_ ELIST_DETACHED (sender nd) (Some pk)))]> h ∧
    queue_shape q (set_link n ELIST_DETACHED h).
Proof.
  intros [Hnd Hn Ha].
  destruct (Hn n) as (nd & pk & sz & k & E & Hl & Hp & Ek & Hc); [left|].
  apply NoDup_cons in Hnd as [Hnq Hnd].
  assert (Hne : n ≠ pk) by (intros ->; congruence).
  assert (Hq : ∀ x, x ∈ q → x ≠ pk).
  { intros x Hx ->. destruct (Hn pk) as (? & _ & _ & _ & E' & _); [now right|]. congruence. }
  exists nd, pk, sz, k. repeat split; try done.
  - rewrite (set_link_lookup _ _ _ _ E). now rewrite Hp.
  - rewrite (set_link_lookup _ _ _ _ E).
    intros x Hx. assert (x ≠ n) by (intros ->; done).
    destruct (Hn x) as (ndx & pkx & szx & kx & Ex & Hlx & Hpx & Ekx & Hcx); [now right|].
    exists ndx, pkx, szx, kx. split_and!; try done; solve_lookup.
  - rewrite (set_link_lookup _ _ _ _ E).
    intros x szx ndx. rewrite lookup_insert. case_decide; subst.
    + intros [= <- <-]. simpl. discriminate.
    + intros Ex Hlx. specialize (Ha _ _ _ Ex Hlx).
      apply elem_of_cons in Ha as [->|]; done.
Qed.

(** Freeing a detached node and the packet that names it as its container
    leaves the queue's nodes and packets alone. *)
Lemma shape_free_detached q h pk k np nd :
  queue_shape q h →
  load_packet pk h = Some k → p_container k = Some np →
  load_node np h = Some nd → link nd = ELIST_DETACHED →
  (np ∉ q) ∧ (pk ∉ q) ∧ queue_shape q (free np (free pk h)).
Proof.
  intros [Hnd Hn Ha] Ek Hc End Hl.
  apply load_packet_Some in Ek as [szk Ek].
  apply load_node_Some in End as [szn End].
  assert (Hnp : np ∉ q).
  { intros Hin. destruct (Hn _ Hin) as (nd' & _ & _ & _ & E & Hl' & _). congruence. }
  assert (Hpk : pk ∉ q).
  { intros Hin. destruct (Hn _ Hin) as (nd' & _ & _ & _ & E & _). congruence. }
  repeat split; try done.
  - intros n Hin.
    destruct (Hn _ Hin) as (ndn & pkn & szn' & kn & E & Hln & Hp & Ekn & Hcn).
    assert (n ≠ np) by (intros ->; done).
    assert (n ≠ pk) by (intros ->; done).
    assert (pkn ≠ pk) by (intros ->; congruence).
    assert (pkn ≠ np) by (intros ->; congruence).
    exists ndn, pkn, szn', kn. unfold free.
    split_and!; try done; solve_lookup.
  - intros n sz' nd' E Hl'. unfold free in E.
    apply lookup_delete_Some in E as [_ E].
    apply lookup_delete_Some in E as [_ E]. eauto.
Qed.

(** ** The mutex *)

Lemma set_heap_id w : set_heap (heap w) w = w.
Proof. destruct w; reflexivity. Qed.

Lemma lock_Ok t mx w w' :
  pthread_mutex_lock t mx w = Ok w' →
  heap w' = heap w ∧ fds w' = fds w ∧ fs w' = fs w ∧ conds w' = conds w ∧
  threads w' = threads w ∧ wakes w' = wakes w ∧ sent w' = sent w ∧
  mutexattrs w' = mutexattrs w.
Proof.
  unfold pthread_mutex_lock.
  destruct (mutexes w !! mx) as [[o|]|]; [destruct (decide (o = t))| |];
    intros [= <-]; done.
Qed.

Lemma lock_free t mx w :
  mutexes w !! mx = Some None →
  pthread_mutex_lock t mx w = Ok (set_mutexes (<[mx := Some t]> (mutexes w)) w).
Proof. unfold pthread_mutex_lock. now intros ->. Qed.

Lemma unlock_heap t mx w : heap (pthread_mutex_unlock t mx w) = heap w.
Proof.
  unfold pthread_mutex_unlock.
  destruct (mutexes w !! mx) as [[o|]|]; [destruct (decide (o = t))| |]; done.
Qed.

Lemma unlock_owned t mx w :
  mutexes w !! mx = Some (Some t) →
  pthread_mutex_unlock t mx w = set_mutexes (<[mx := None]> (mutexes w)) w.
Proof. unfold pthread_mutex_unlock. intros ->. now rewrite decide_True. Qed.

(** Taking a free mutex and giving it back restores the world, whatever
    was done to the heap in between. *)
Lemma unlock_lock t mx w h :
  mutexes w !! mx = Some None →
  pthread_mutex_unlock t mx
    (set_heap h (set_mutexes (<[mx := Some t]> (mutexes w)) w)) = set_heap h w.
Proof.
  intros E. rewrite unlock_owned by (simpl; apply lookup_insert_eq).
  destruct w; unfold set_heap, set_mutexes; simpl in *.
  f_equal. rewrite insert_insert_eq. now apply insert_id.
Qed.

(** ** The operations keep the invariant *)

Lemma inv_heap m w w' : heap w' = heap w → inv m w → inv m w'.
Proof. unfold inv. now intros ->. Qed.

(** An iteration of the receiver either leaves the queue alone or appends
    one node and adds one to the pending-count. *)
Lemma receiver_iter_inv self r cn cp m w c m' w' :
  inv m w →
  msgq_receiver_iter self r cn cp m w = Ok (c, m', w') →
  inv m' w' ∧
  ((recvq m' = recvq m ∧ recvs m' = recvs m ∧ heap w' = heap w) ∨
   (∃ np, recvq m' = recvq m ++ [np] ∧ recvs m' = recvs m + 1)).
Proof.
  intros (Hok & Hq & Hc). unfold msgq_receiver_iter.
  destruct (rf_len r <? 0).
  { destruct (_ || _); intros [= <- <- <-]; (split; [done|left; done]). }
  destruct (validate_packet (rf_packet r) (rf_len r)) as [rc packet].
  destruct (rc <? 0).
  { intros [= <- <- <-]; (split; [done|left; done]). }
  destruct (msgq_node_create _ _ _ _ _) as [[[np|] h']| | |] eqn:En; simpl; try discriminate.
  2:{ apply node_create_None in En as ->; [|done].
      rewrite set_heap_id. intros [= <- <- <-]. split; [done|left; done]. }
  apply node_create_Some in En as (pk & sz & k & Hnp & Hpk & Hne & Hk & _ & -> & Hok'); [|done].
  destruct (RECVQ_LOCK Receiver self _) as [w1| | |] eqn:El; simpl; try discriminate.
  apply lock_Ok in El as (Hh & _). simpl in Hh.
  pose proof (shape_push_back _ _ np pk sz k (strncpy (rf_from r) (UNIX_PATH_MAX - 1))
                Hq Hnp Hpk Hne Hk) as Hshape. simpl in Hshape.
  assert (Hok2 : heap_ok (set_link np ELIST_ATTACHED (heap w1))).
  { rewrite Hh. now apply heap_ok_set_link. }
  rewrite <- Hh in Hshape.
  pose proof (queue_below_int_max _ _ Hok2 Hshape) as Hb.
  rewrite length_app in Hb. simpl in Hb.
  assert (Hcnt : to_size_t (recvs m + 1) = recvs m + 1).
  { apply to_size_t_small. unfold WORD. lia. }
  intros [= <- <- <-]. split.
  - unfold inv, RECVQ_UNLOCK. rewrite unlock_heap.
    match goal with
    | |- context [if ?b then pthread_cond_broadcast _ _ else _] => destruct b
    end; simpl; (split_and!; try done);
      rewrite Hcnt, Hc, length_app; simpl; lia.
  - right. exists np. simpl. done.
Qed.

Lemma receiver_loop_inv self ins : ∀ m w c m' w',
  inv m w → receiver_loop self ins m w = Ok (c, m', w') → inv m' w'.
Proof.
  induction ins as [|[[r cn] cp] ins IH]; intros m w c m' w' Hinv; simpl.
  - now intros [= <- <- <-].
  - destruct (msgq_receiver_iter self r cn cp m w) as [[[c1 m1] w1]| | |] eqn:E;
      simpl; try discriminate.
    apply receiver_iter_inv in E as [Hinv1 _]; [|done].
    destruct c1; [eauto|]. now intros [= <- <- <-].
Qed.

(** Popping the head under the lock: what [msgq_recv], [msgq_recv_wait] and
    the drain loop of [msgq_close] share. *)
Lemma pop_inv n q m w :
  inv m w → recvq m = n :: q →
  ∃ nd pk sz k,
    heap w !! n = Some (Block SIZEOF_NODE (Node nd)) ∧ packet nd = Some pk ∧
    heap w !! pk = Some (Block sz (Packet k)) ∧ p_container k = Some n ∧ n ≠ pk ∧
    (n ∉ q) ∧ (∀ x, x ∈ q → x ≠ pk) ∧
    set_link n ELIST_DETACHED (heap w) =
      <[n := Block SIZEOF_NODE (Node (Node_ ELIST_DETACHED (sender nd) (Some pk)))]> (heap w) ∧
    to_size_t (recvs m - 1) = Z.of_nat (length q) ∧
    1 <= recvs m ∧
    inv (set_recvs (to_size_t (recvs m - 1)) (set_recvq q m))
        (set_heap (set_link n ELIST_DETACHED (heap w)) w).
Proof.
  intros (Hok & Hq & Hc) E. rewrite E in Hq, Hc.
  pose proof (queue_below_int_max _ _ Hok Hq) as Hb.
  destruct (shape_pop_front _ _ _ Hq)
    as (nd & pk & sz & k & En & Hp & Ek & Hk & Hne & Hnq & Hqpk & Hset & Hq').
  simpl in Hc, Hb.
  assert (Hcnt : to_size_t (recvs m - 1) = Z.of_nat (length q)).
  { rewrite to_size_t_small; unfold WORD; lia. }
  exists nd, pk, sz, k. split_and!; try done; [lia|].
  unfold inv. simpl. split_and!; try done. now apply heap_ok_set_link.
Qed.

Lemma recv_inv self m w pk m' w' :
  inv m w → msgq_recv self m w = Ok (pk, m', w') → inv m' w'.
Proof.
  intros Hinv. unfold msgq_recv.
  destruct (RECVQ_LOCK App self w) as [w1| | |] eqn:El; simpl; try discriminate.
  apply lock_Ok in El as (Hh & _).
  destruct (recvq m) as [|n q] eqn:Eq; simpl.
  - intros [= <- <- <-]. destruct Hinv as (Hok & Hq & Hc).
    unfold inv, RECVQ_UNLOCK. rewrite unlock_heap. simpl.
    rewrite Hh, Eq in *. done.
  - destruct (pop_inv n q m w Hinv Eq) as (nd & pk' & sz & k & En & Hp & Ek & Hk & Hne & _ & _ & Hset & _ & _ & Hinv').
    unfold RECVQ_UNLOCK. rewrite unlock_heap. simpl. rewrite Hh.
    destruct (load_node n _); [|discriminate].
    intros [= <- <- <-]. eapply inv_heap; [|exact Hinv'].
    rewrite unlock_heap. done.
Qed.

Lemma pkt_delete_inv pk m w ret w' :
  inv m w → msgq_pkt_delete pk w = Ok (ret, w') → inv m w'.
Proof.
  intros (Hok & Hq & Hc). unfold msgq_pkt_delete.
  destruct (load_packet pk (heap w)) as [k|] eqn:Ek; [|discriminate].
  destruct (p_container k) as [np|] eqn:Hk.
  2:{ now intros [= <- <-]. }
  destruct (load_node np (heap w)) as [nd|] eqn:En; [|discriminate].
  destruct (link nd) eqn:Hl; simpl; [|discriminate].
  intros [= <- <-].
  destruct (shape_free_detached _ _ _ _ _ _ Hq Ek Hk En Hl) as (_ & _ & Hq').
  unfold inv. simpl. split_and!; try done.
  now apply heap_ok_free, heap_ok_free.
Qed.

Lemma others_inv self acts : ∀ m w m' w',
  inv m w → others self acts m w = Ok (m', w') → inv m' w'.
Proof.
  induction acts as [|[[[r cn] cp]|] acts IH]; intros m w m' w' Hinv; simpl.
  - now intros [= <- <-].
  - destruct (msgq_receiver_iter self r cn cp m w) as [[[c1 m1] w1]| | |] eqn:E;
      simpl; try discriminate.
    apply receiver_iter_inv in E as [Hinv1 _]; [|done]. eauto.
  - destruct (msgq_recv self m w) as [[[pk m1] w1]| | |] eqn:E;
      simpl; try discriminate.
    apply recv_inv in E; [|done]. eauto.
Qed.

Lemma cond_wait_inv self acts m w m' w' :
  inv m w → pthread_cond_wait self acts m w = Ok (m', w') → inv m' w'.
Proof.
  intros Hinv. unfold pthread_cond_wait.
  destruct (others _ _ _ _) as [[m1 w1]| | |] eqn:E; simpl; try discriminate.
  apply others_inv in E.
  2:{ eapply inv_heap; [|exact Hinv]. apply unlock_heap. }
  destruct (pthread_mutex_lock App self w1) as [w2| | |] eqn:El; simpl; try discriminate.
  apply lock_Ok in El as (Hh & _). intros [= <- <-]. eapply inv_heap; eauto.
Qed.

Lemma recv_wait_again_inv self wakeups : ∀ m w res,
  inv m w → recv_wait_again self wakeups m w = Ok res →
  match res with Returned _ m' w' | Parked m' w' => inv m' w' end.
Proof.
  induction wakeups as [|ins wakeups IH]; intros m w res Hinv; simpl;
    (destruct (recvq m) as [|n q] eqn:Eq; simpl;
     [| destruct (pop_inv n q m w Hinv Eq)
          as (nd & pk' & sz & k & En & Hp & Ek & Hk & Hne & _ & _ & Hset & _ & _ & Hinv');
        unfold RECVQ_UNLOCK; rewrite unlock_heap; simpl;
        destruct (load_node n _); [|discriminate];
        intros [= <-]; eapply inv_heap; [|exact Hinv']; now rewrite unlock_heap ]).
  - intros [= <-]. destruct Hinv as (Hok & Hq & Hc).
    unfold inv. rewrite unlock_heap. simpl. rewrite Eq in *. done.
  - destruct (pthread_cond_wait _ _ _ _) as [[m1 w1]| | |] eqn:E; simpl; try discriminate.
    apply cond_wait_inv in E.
    + intros H. eapply IH; eauto.
    + destruct Hinv as (Hok & Hq & Hc). unfold inv. simpl. rewrite Eq in *. done.
Qed.

Lemma recv_wait_inv self wakeups m w res :
  inv m w → msgq_recv_wait self wakeups m w = Ok res →
  match res with Returned _ m' w' | Parked m' w' => inv m' w' end.
Proof.
  intros Hinv. unfold msgq_recv_wait.
  destruct (RECVQ_LOCK App self w) as [w1| | |] eqn:El; simpl; try discriminate.
  apply lock_Ok in El as (Hh & _).
  apply recv_wait_again_inv. eapply inv_heap; eauto.
Qed.

(** ** Opening a queue *)

Lemma substring_all (s : string) : ∀ n, (String.length s <= n)%nat → String.substring 0 n s = s.
Proof.
  induction s as [|c s IH]; intros [|n] H; simpl in *; try reflexivity; try lia.
  f_equal. apply IH. lia.
Qed.

Lemma strncpy_short (s : string) n :
  Z.of_nat (String.length s) < n → strncpy s n = Text s.
Proof. intros H. unfold strncpy. now destruct (Z.ltb_spec (Z.of_nat (String.length s)) n); [|lia]. Qed.

Lemma strncpy_long (s : string) n :
  n <= Z.of_nat (String.length s) →
  strncpy s n = Unterminated (String.substring 0 (Z.to_nat n) s).
Proof. intros H. unfold strncpy. now destruct (Z.ltb_spec (Z.of_nat (String.length s)) n); [lia|]. Qed.

Lemma in_zeroed_strncpy (s : string) n :
  in_zeroed (strncpy s n) = String.substring 0 (Z.to_nat n) s.
Proof.
  unfold strncpy. destruct (Z.ltb_spec (Z.of_nat (String.length s)) n); simpl; [|done].
  symmetry. apply substring_all. lia.
Qed.

Lemma length_append (s t : string) :
  String.length (s +:+ t) = (String.length s + String.length t)%nat.
Proof. induction s as [|c s IH]; simpl; [done|]. now rewrite IH. Qed.

Lemma same_process_refl w : same_process w w.
Proof. repeat split. Qed.

Lemma same_process_trans w1 w2 w3 :
  same_process w1 w2 → same_process w2 w3 → same_process w1 w3.
Proof.
  unfold same_process. intros (-> & -> & -> & -> & ->) (-> & -> & -> & -> & ->). done.
Qed.

Lemma mkstemp_Ok cand w tfd name w' :
  mkstemp MSGQ_TMP_TEMPLATE cand w = (tfd, name, w') → 0 <= tfd →
  fds w !! tfd = None ∧ fs w !! name = None ∧ String.length name = 16%nat ∧
  w' = set_fs (<[name := RegularFile]> (fs w)) (set_fds (<[tfd := FdFile name]> (fds w)) w).
Proof.
  unfold mkstemp. destruct cand as [[suffix d]|]; [|intros [= <- <- <-]; lia].
  destruct (String.length suffix =? 6)%nat eqn:El; simpl; [|intros [= <- <- <-]; lia].
  case_bool_decide; simpl; [|intros [= <- <- <-]; lia].
  destruct (0 <=? d); simpl; [|intros [= <- <- <-]; lia].
  case_bool_decide; simpl; [|intros [= <- <- <-]; lia].
  intros [= <- <- <-] _. split_and!; try done.
  apply Nat.eqb_eq in El. rewrite length_append, El. reflexivity.
Qed.

Lemma mkstemp_fail cand w tfd name w' :
  mkstemp MSGQ_TMP_TEMPLATE cand w = (tfd, name, w') → tfd < 0 → w' = w.
Proof.
  unfold mkstemp. destruct cand as [[suffix d]|]; [|now intros [= <- <- <-]].
  destruct (_ && _) eqn:E; [|now intros [= <- <- <-]].
  intros [= <- <- <-] Hd. apply andb_true_iff in E as [E _].
  apply andb_true_iff in E as [_ E]. apply Z.leb_le in E. lia.
Qed.

(** [bind_anonymous]: on failure descriptors are as before; on success the
    socket is bound to the name returned, which is a socket file. *)
Lemma bind_anonymous_spec d a0 ats : ∀ w ret a w',
  bind_anonymous d a0 ats w = Ok (ret, a, w') →
  same_process w w' ∧
  ((ret = -1 ∧ a = a0 ∧ fds w' = fds w) ∨
   (ret = 0 ∧ fds w' = <[d := FdSocket (Some a)]> (fds w) ∧
    fs w' !! a = Some SocketFile)).
Proof.
  induction ats as [|at_ ats IH]; intros w ret a w'; simpl; [discriminate|].
  destruct (mkstemp MSGQ_TMP_TEMPLATE (at_mkstemp at_) w) as [[tfd name] w1] eqn:Em.
  destruct (Z.ltb_spec tfd 0) as [Hneg|Hpos].
  { apply mkstemp_fail in Em as ->; [|done]. intros [= <- <- <-].
    split; [apply same_process_refl|left; done]. }
  apply mkstemp_Ok in Em as (Htfd & Hname & Hlen & ->); [|done].
  set (w2 := if at_rival at_ then _ else _).
  assert (Hw2 : same_process w w2 ∧ fds w2 = fds w).
  { subst w2. destruct (at_rival at_); simpl; (split; [repeat split|]);
      now apply delete_insert_id. }
  destruct Hw2 as [Hs2 Hf2].
  unfold bind. destruct (fs w2 !! name) eqn:Efs; simpl.
  - intros H. apply IH in H as [Hs H]. split; [eauto using same_process_trans|].
    rewrite Hf2 in H. done.
  - destruct (Z.eqb_spec (at_bind_errno at_) 0) as [E0|E0]; simpl.
    + intros [= <- <- <-]. split.
      * destruct Hs2 as (? & ? & ? & ? & ?). repeat split; done.
      * right. rewrite in_zeroed_strncpy.
        rewrite substring_all by (rewrite Hlen; unfold UNIX_PATH_MAX; lia).
        simpl. rewrite Hf2. split_and!; try done. apply lookup_insert_eq.
    + destruct (Z.eqb_spec (at_bind_errno at_) EADDRINUSE); simpl.
      * intros H. apply IH in H as [Hs H]. split; [eauto using same_process_trans|].
        rewrite Hf2 in H. done.
      * intros [= <- <- <-]. split; [done|left; done].
Qed.

Lemma socket_spec cand w d w' :
  socket cand w = (d, w') →
  (d = -1 ∧ w' = w) ∨
  (0 <= d ∧ fds w !! d = None ∧ w' = set_fds (<[d := FdSocket None]> (fds w)) w).
Proof.
  unfold socket. destruct cand as [c|]; [|intros [= <- <-]; now left].
  destruct (Z.leb_spec 0 c); simpl; [|intros [= <- <-]; now left].
  case_bool_decide; intros [= <- <-]; [right|left]; done.
Qed.

(** [msgq_get_listener]: a failure leaves the descriptors as they were and
    [fd] at -1; a success leaves a socket bound to the handle's address. *)
Lemma get_listener_spec addr e m w ret m' w' :
  msgq_get_listener addr e m w = Ok (ret, m', w') →
  same_process w w' ∧
  pkbuf m' = pkbuf m ∧ recvq m' = recvq m ∧ recvs m' = recvs m ∧
  broadcast m' = broadcast m ∧
  ((ret = -1 ∧ fd m' = -1 ∧ fds w' = fds w) ∨
   (ret = 0 ∧ 0 <= fd m' ∧ fds w !! fd m' = None ∧
    fds w' = <[fd m' := FdSocket (Some (address m'))]> (fds w) ∧
    fs w' !! address m' = Some SocketFile)).
Proof.
  unfold msgq_get_listener.
  destruct (Z.eqb_spec (fd m) (-1)) as [Hfd|]; simpl; [|discriminate].
  destruct (socket (oe_socket e) w) as [d w1] eqn:Es.
  apply socket_spec in Es as [[-> ->]|(Hd & Hfree & ->)].
  { simpl. intros [= <- <- <-]. split; [apply same_process_refl|]. split_and!; try done.
    left. done. }
  destruct (Z.ltb_spec d 0); [lia|].
  assert (Hclose : ∀ v, delete d (<[d := v]> (fds w)) = fds w)
    by (intros; now apply delete_insert_id).
  destruct addr as [addr|].
  - (* a named queue *)
    set (after := match stat addr _ with Some ty => _ | None => _ end).
    assert (Hafter : match after with
                     | None => True
                     | Some w2 => same_process w w2 ∧
                                  fds w2 = <[d := FdSocket None]> (fds w)
                     end).
    { subst after. destruct (stat addr _) as [[| |t]|]; simpl; try done;
        (split; [repeat split|done]). }
    destruct after as [w2|].
    2:{ unfold get_listener_err. destruct (Z.leb_spec 0 d); [|lia].
        intros [= <- <- <-]. simpl. split; [repeat split|].
        split_and!; try done. left. rewrite Hclose. done. }
    destruct Hafter as [Hs2 Hf2].
    destruct (strncpy addr (UNIX_PATH_MAX - 1)) as [path|path]; [|discriminate].
    unfold bind. destruct (fs w2 !! _) eqn:Efs; simpl.
    + unfold get_listener_err. destruct (Z.leb_spec 0 d); [|lia].
      intros [= <- <- <-]. simpl. split.
      { destruct Hs2 as (? & ? & ? & ? & ?). repeat split; done. }
      split_and!; try done. left. rewrite Hf2, Hclose. done.
    + destruct (Z.eqb_spec (oe_bind_errno e) 0); simpl.
      * intros [= <- <- <-]. simpl. split.
        { destruct Hs2 as (? & ? & ? & ? & ?). repeat split; done. }
        split_and!; try done. right. split_and!; try done.
        -- rewrite Hf2. apply insert_insert_eq.
        -- apply lookup_insert_eq.
      * unfold get_listener_err. destruct (Z.leb_spec 0 d); [|lia].
        intros [= <- <- <-]. simpl. split.
        { destruct Hs2 as (? & ? & ? & ? & ?). repeat split; done. }
        split_and!; try done. left. rewrite Hf2, Hclose. done.
  - (* an anonymous queue *)
    destruct (bind_anonymous d (address m) (oe_attempts e) _)
      as [[[ret1 a] w2]| | |] eqn:Eb; simpl; try discriminate.
    apply bind_anonymous_spec in Eb as [Hs2 Hb]. simpl in Hb.
    assert (Hs : same_process w w2).
    { destruct Hs2 as (? & ? & ? & ? & ?). repeat split; done. }
    destruct Hb as [(-> & -> & Hf2)|(-> & Hf2 & Hfs)]; simpl.
    + unfold get_listener_err. destruct (Z.leb_spec 0 d); [|lia].
      intros [= <- <- <-]. simpl. split.
      { destruct Hs as (? & ? & ? & ? & ?). repeat split; done. }
      split_and!; try done. left. rewrite Hf2, Hclose. done.
    + intros [= <- <- <-]. simpl. split; [done|].
      split_and!; try done. right. split_and!; try done.
      rewrite Hf2. apply insert_insert_eq.
Qed.

Lemma store_insert p o b (h : gmap Z block) :
  store p o (<[p := b]> h) = <[p := Block (bsize b) o]> h.
Proof. unfold store. now rewrite alter_insert_eq. Qed.

Lemma open_err_free_spec self m w b :
  pkbuf m = Some b →
  heap (open_err_free self m w) = free self (free b (heap w)) ∧
  fds (open_err_free self m w) = fds w ∧
  mutexes (open_err_free self m w) = mutexes w ∧
  conds (open_err_free self m w) = conds w ∧
  threads (open_err_free self m w) = threads w.
Proof. unfold open_err_free. intros ->. done. Qed.

Lemma open_err_cond_spec self m w b o :
  pkbuf m = Some b → mutexes w !! self = Some o → o = None ∨ o = Some App →
  heap (open_err_cond self m w) = free self (free b (heap w)) ∧
  fds (open_err_cond self m w) = (if 0 <=? fd m then delete (fd m) (fds w) else fds w) ∧
  mutexes (open_err_cond self m w) = delete self (mutexes w) ∧
  conds (open_err_cond self m w) = conds w ∧
  threads (open_err_cond self m w) = threads w.
Proof.
  intros Hb Hm Ho. unfold open_err_cond.
  edestruct open_err_free_spec as (-> & -> & -> & -> & ->); [exact Hb|].
  unfold RECVQ_UNLOCK, pthread_mutex_unlock, pthread_mutex_destroy. rewrite Hm.
  destruct Ho as [-> | ->].
  - destruct (0 <=? fd m); simpl; rewrite Hm; done.
  - rewrite decide_True by done.
    destruct (0 <=? fd m); simpl; rewrite lookup_insert_eq; simpl;
      rewrite delete_insert_eq; done.
Qed.

Lemma open_err_spec self m w b o :
  pkbuf m = Some b → mutexes w !! self = Some o → o = None ∨ o = Some App →
  heap (open_err self m w) = free self (free b (heap w)) ∧
  fds (open_err self m w) = (if 0 <=? fd m then delete (fd m) (fds w) else fds w) ∧
  mutexes (open_err self m w) = delete self (mutexes w) ∧
  conds (open_err self m w) = conds w ∖ {[self]} ∧
  threads (open_err self m w) = threads w.
Proof.
  intros Hb Hm Ho. unfold open_err.
  edestruct (open_err_cond_spec self m (pthread_cond_destroy self w))
    as (-> & -> & -> & -> & ->); eauto.
Qed.

(** What [msgq_open] returns.  A null result comes with the heap, the
    descriptors, the mutexes, the condition variables and the threads as
    they were before the call; a handle comes fully set up, with an empty
    queue, and with a socket file at its address. *)
Lemma open_spec addr e w res w' :
  world_ok w → msgq_open addr e w = Ok (res, w') →
  match res with
  | None =>
    heap w' = heap w ∧ fds w' = fds w ∧ mutexes w' = mutexes w ∧
    conds w' = conds w ∧ threads w' = threads w
  | Some (self, m) =>
    handle_ok self m w' ∧ recvq m = [] ∧ fs w' !! address m = Some SocketFile ∧
    heap w !! self = None
  end.
Proof.
  intros [Hok Hdet Hmx Hcv]. unfold msgq_open.
  destruct (malloc SIZEOF_MSGQ (oe_handle e) (heap w)) as [[self|] h1] eqn:E1.
  2:{ intros [= <- <-]. done. }
  apply malloc_Some in E1 as (_ & Hfit1 & ->).
  pose proof (fits_fresh _ _ _ Hok Hfit1) as Hself.
  simpl. rewrite store_insert. simpl.
  pose proof (heap_ok_insert _ _ _ Handle Hok Hfit1) as Hok1.
  destruct (malloc MSGQ_MSG_MAX (oe_pkbuf e) _) as [[b|] h2] eqn:E2.
  2:{ intros [= <- <-]. simpl. split_and!; try done.
      unfold free. now apply delete_insert_id. }
  apply malloc_Some in E2 as (_ & Hfit2 & ->).
  pose proof (fits_fresh _ _ _ Hok1 Hfit2) as Hb.
  assert (Hne : self ≠ b) by (intros ->; rewrite lookup_insert_eq in Hb; discriminate).
  rewrite lookup_insert_ne in Hb by done.
  pose proof (heap_ok_insert _ _ _ Buffer Hok1 Hfit2) as Hok2.
  rewrite store_insert. simpl.
  set (hA := <[b := Block MSGQ_MSG_MAX Buffer]> (<[self := Block SIZEOF_MSGQ Handle]> (heap w))).
  assert (HhA : free self (free b hA) = heap w).
  { subst hA. unfold free. rewrite delete_insert_id by solve_lookup.
    now apply delete_insert_id. }
  assert (Hmself : mutexes w !! self = None).
  { destruct (mutexes w !! self) eqn:E; [|done].
    destruct (Hmx self) as [? ?]; [eauto|congruence]. }
  assert (Hcself : self ∉ conds w).
  { intros Hin. destruct (Hcv _ Hin). congruence. }
  destruct (oe_mutex_init e); simpl.
  2:{ intros [= <- <-].
      edestruct open_err_free_spec as (-> & -> & -> & -> & ->); [reflexivity|].
      simpl. done. }
  destruct (oe_cond_init e); simpl.
  2:{ intros [= <- <-].
      edestruct open_err_cond_spec as (-> & -> & -> & -> & ->);
        [reflexivity|simpl; apply lookup_insert_eq|now left|].
      simpl. split_and!; try done. now apply delete_insert_id. }
  unfold RECVQ_LOCK at 1. rewrite lock_free by (simpl; apply lookup_insert_eq).
  simpl. rewrite insert_insert_eq.
  destruct (msgq_get_listener _ _ _ _) as [[[ret m1] w1]| | |] eqn:Eg; simpl; try discriminate.
  apply get_listener_spec in Eg
    as ((Hh1 & Hm1 & Hc1 & Ht1 & _) & Hpk & Hrq & Hrs & _ & Hcase).
  simpl in *.
  assert (Herr : ∀ wx, heap wx = hA →
            mutexes wx = <[self := Some App]> (mutexes w) →
            conds wx = {[self]} ∪ conds w → threads wx = threads w →
            heap (open_err self m1 wx) = heap w ∧
            fds (open_err self m1 wx) = (if 0 <=? fd m1 then delete (fd m1) (fds wx) else fds wx) ∧
            mutexes (open_err self m1 wx) = mutexes w ∧
            conds (open_err self m1 wx) = conds w ∧
            threads (open_err self m1 wx) = threads w).
  { intros wx Hx1 Hx2 Hx3 Hx4.
    edestruct (open_err_spec self m1 wx) as (-> & -> & -> & -> & ->);
      [exact Hpk|rewrite Hx2; apply lookup_insert_eq|now right|].
    rewrite Hx1, Hx2, Hx3, Hx4, HhA. split_and!; try done.
    - now apply delete_insert_id.
    - clear - Hcself. set_solver. }
  destruct Hcase as [(-> & Hfd & Hfds)|(-> & Hfd & Hfree & Hfds & Hfs)]; simpl.
  { intros [= <- <-].
    destruct (Herr w1) as (-> & -> & -> & -> & ->); try done.
    rewrite Hfd, Hfds. simpl. done. }
  unfold msgq_start_receiver. destruct (oe_thread e); simpl.
  2:{ intros [= <- <-].
      destruct (Herr w1) as (-> & -> & -> & -> & ->); try done.
      destruct (Z.leb_spec 0 (fd m1)); [|lia].
      rewrite Hfds. split_and!; try done. now apply delete_insert_id. }
  intros [= <- <-].
  assert (Hunl : mutexes (RECVQ_UNLOCK App self (set_threads ({[self]} ∪ threads w1) w1))
                 = <[self := None]> (mutexes w)).
  { unfold RECVQ_UNLOCK. rewrite unlock_owned by (simpl; rewrite Hm1; apply lookup_insert_eq).
    simpl. rewrite Hm1. apply insert_insert_eq. }
  assert (Hrest : heap (RECVQ_UNLOCK App self (set_threads ({[self]} ∪ threads w1) w1)) = hA ∧
                  fds (RECVQ_UNLOCK App self (set_threads ({[self]} ∪ threads w1) w1))
                    = <[fd m1 := FdSocket (Some (address m1))]> (fds w) ∧
                  fs (RECVQ_UNLOCK App self (set_threads ({[self]} ∪ threads w1) w1)) = fs w1 ∧
                  conds (RECVQ_UNLOCK App self (set_threads ({[self]} ∪ threads w1) w1))
                    = {[self]} ∪ conds w ∧
                  threads (RECVQ_UNLOCK App self (set_threads ({[self]} ∪ threads w1) w1))
                    = {[self]} ∪ threads w).
  { unfold RECVQ_UNLOCK. rewrite unlock_owned by (simpl; rewrite Hm1; apply lookup_insert_eq).
    simpl. rewrite Hh1, Hfds, Hc1, Ht1. done. }
  destruct Hrest as (Hr1 & Hr2 & Hr3 & Hr4 & Hr5).
  split_and!; try done; [|now rewrite Hr3].
  split.
  - unfold inv. rewrite Hr1, Hrq, Hrs. split_and!; try done.
    split; [apply NoDup_nil_2|intros n Hn; inversion Hn|].
    intros n sz nd. subst hA. rewrite !lookup_insert.
    repeat case_decide; try discriminate.
    intros Hn Hl. apply Hdet in Hn. congruence.
  - rewrite Hr1. subst hA. solve_lookup.
  - exists b. rewrite Hr1, Hpk. subst hA. split; [done|solve_lookup].
  - rewrite Hunl. apply lookup_insert_eq.
  - rewrite Hr4. clear. set_solver.
  - rewrite Hr2. split; [done|apply lookup_insert_eq].
  - rewrite Hr5. clear. set_solver.
Qed.

(** ** What the operations leave alone *)

Lemma keeps_static_refl h : keeps_static h h.
Proof. now intros a sz o. Qed.

Lemma keeps_static_trans h1 h2 h3 :
  keeps_static h1 h2 → keeps_static h2 h3 → keeps_static h1 h3.
Proof. intros H1 H2 a sz o E Ho. eauto. Qed.

Lemma keeps_static_insert h a b :
  (∀ sz o, h !! a = Some (Block sz o) → o ≠ Handle ∧ o ≠ Buffer) →
  keeps_static h (<[a := b]> h).
Proof.
  intros Ha x sz o E Ho. rewrite lookup_insert. case_decide; subst.
  - destruct (Ha _ _ E). destruct Ho; done.
  - done.
Qed.

Lemma keeps_static_delete h a :
  (∀ sz o, h !! a = Some (Block sz o) → o ≠ Handle ∧ o ≠ Buffer) →
  keeps_static h (delete a h).
Proof.
  intros Ha x sz o E Ho. rewrite lookup_delete. case_decide; subst.
  - destruct (Ha _ _ E). destruct Ho; done.
  - done.
Qed.

Lemma keeps_static_set_link n l h : keeps_static h (set_link n l h).
Proof.
  unfold set_link. destruct (load_node n h) as [nd|] eqn:E; [|apply keeps_static_refl].
  apply load_node_Some in E as [sz E].
  intros x sz' o Ex Ho. rewrite lookup_store. case_decide; subst; [|done].
  rewrite E in Ex. injection Ex as <- <-. destruct Ho; discriminate.
Qed.

Lemma frame_refl m w : frame m w m w.
Proof. split; [apply keeps_static_refl|done]. Qed.

Lemma frame_trans m1 w1 m2 w2 m3 w3 :
  frame m1 w1 m2 w2 → frame m2 w2 m3 w3 → frame m1 w1 m3 w3.
Proof.
  intros (H1 & R1 & F1) (H2 & R2 & F2). split; [eauto using keeps_static_trans|].
  split; congruence.
Qed.

Lemma rest_unlock t mx w : rest (pthread_mutex_unlock t mx w) = rest w.
Proof.
  unfold pthread_mutex_unlock.
  destruct (mutexes w !! mx) as [[o|]|]; [destruct (decide (o = t))| |]; done.
Qed.

Lemma rest_lock t mx w w' : pthread_mutex_lock t mx w = Ok w' → rest w' = rest w.
Proof. intros H. apply lock_Ok in H as (_ & ? & ? & ? & ? & _). unfold rest. congruence. Qed.

(** The mutex of the handle, as the operations find and leave it. *)
Lemma mutex_lock t mx w w' :
  mutexes w !! mx = Some None → pthread_mutex_lock t mx w = Ok w' →
  mutexes w' !! mx = Some (Some t).
Proof. intros E. rewrite lock_free by done. intros [= <-]. simpl. apply lookup_insert_eq. Qed.

Lemma mutex_unlock t mx w :
  mutexes w !! mx = Some (Some t) →
  mutexes (pthread_mutex_unlock t mx w) !! mx = Some None.
Proof. intros E. rewrite unlock_owned by done. simpl. apply lookup_insert_eq. Qed.

Lemma receiver_iter_frame self r cn cp m w c m' w' :
  inv m w →
  msgq_receiver_iter self r cn cp m w = Ok (c, m', w') →
  frame m w m' w' ∧
  (mutexes w !! self = Some None → mutexes w' !! self = Some None).
Proof.
  intros (Hok & Hq & Hc). unfold msgq_receiver_iter.
  destruct (rf_len r <? 0).
  { destruct (_ || _); intros [= <- <- <-]; (split; [apply frame_refl|done]). }
  destruct (validate_packet (rf_packet r) (rf_len r)) as [rc packet].
  destruct (rc <? 0).
  { intros [= <- <- <-]; (split; [apply frame_refl|done]). }
  destruct (msgq_node_create _ _ _ _ _) as [[[np|] h']| | |] eqn:En; simpl; try discriminate.
  2:{ apply node_create_None in En as ->; [|done].
      rewrite set_heap_id. intros [= <- <- <-]. split; [apply frame_refl|done]. }
  apply node_create_Some in En as (pk & sz & k & Hnp & Hpk & Hne & Hk & _ & -> & Hok'); [|done].
  destruct (RECVQ_LOCK Receiver self _) as [w1| | |] eqn:El; simpl; try discriminate.
  pose proof (rest_lock _ _ _ _ El) as Hr1.
  pose proof (lock_Ok _ _ _ _ El) as (Hh & _). simpl in Hh.
  intros [= <- <- <-]. split.
  - split; [|split; [|done]].
    + unfold RECVQ_UNLOCK. rewrite unlock_heap.
      match goal with
      | |- context [if ?b then pthread_cond_broadcast _ _ else _] => destruct b
      end; simpl; rewrite Hh;
        (eapply keeps_static_trans; [|apply keeps_static_set_link]);
        (eapply keeps_static_trans; apply keeps_static_insert; intros ? ? E);
        rewrite ?lookup_insert_ne in E by done; congruence.
    + unfold RECVQ_UNLOCK. rewrite rest_unlock.
      match goal with
      | |- context [if ?b then pthread_cond_broadcast _ _ else _] => destruct b
      end; exact Hr1.
  - intros Hfree. unfold RECVQ_UNLOCK. apply mutex_unlock.
    assert (Hm1 : mutexes w1 !! self = Some (Some Receiver))
      by (eapply mutex_lock; [|exact El]; exact Hfree).
    match goal with
    | |- context [if ?b then pthread_cond_broadcast _ _ else _] => destruct b
    end; exact Hm1.
Qed.

Lemma receiver_loop_frame self ins : ∀ m w c m' w',
  inv m w → receiver_loop self ins m w = Ok (c, m', w') →
  frame m w m' w' ∧
  (mutexes w !! self = Some None → mutexes w' !! self = Some None).
Proof.
  induction ins as [|[[r cn] cp] ins IH]; intros m w c m' w' Hinv; simpl.
  - intros [= <- <- <-]. split; [apply frame_refl|done].
  - destruct (msgq_receiver_iter self r cn cp m w) as [[[c1 m1] w1]| | |] eqn:E;
      simpl; try discriminate.
    pose proof (receiver_iter_inv _ _ _ _ _ _ _ _ _ Hinv E) as [Hinv1 _].
    apply receiver_iter_frame in E as [Hf1 Hm1]; [|done].
    destruct c1.
    + intros H. apply IH in H as [Hf2 Hm2]; [|done].
      split; [eauto using frame_trans|auto].
    + intros [= <- <- <-]. done.
Qed.

(** The receiver thread as a whole keeps the invariant and the frame, and
    leaves the mutex free, also when it leaves its loop on a fatal error. *)
Lemma receiver_thread_inv self ins m w c m' w' :
  inv m w → mutexes w !! self = Some None →
  msgq_receiver self ins m w = Ok (c, m', w') →
  inv m' w' ∧ frame m w m' w' ∧ mutexes w' !! self = Some None.
Proof.
  intros Hinv Hm. unfold msgq_receiver, RECVQ_LOCK, RECVQ_UNLOCK.
  rewrite lock_free by done. simpl.
  pose proof (unlock_lock Receiver self w (heap w) Hm) as Hu.
  rewrite set_heap_id in Hu.
  replace (set_mutexes (<[self:=Some Receiver]> (mutexes w)) w)
    with (set_heap (heap w) (set_mutexes (<[self:=Some Receiver]> (mutexes w)) w))
    by (destruct w; reflexivity).
  rewrite Hu.
  destruct (receiver_loop self ins m w) as [[[c1 m1] w1]| | |] eqn:E; simpl; try discriminate.
  pose proof (receiver_loop_inv _ _ _ _ _ _ _ Hinv E) as Hinv1.
  apply receiver_loop_frame in E as [(Hk & Hr & Hf) Hm1]; [|done].
  specialize (Hm1 Hm).
  destruct c1; intros [= <- <- <-]; [done|].
  unfold msgq_receiver_cleaner, pthread_mutex_unlock. rewrite Hm1. done.
Qed.

(** Popping the head under the caller's lock and releasing the lock. *)
Lemma pop_frame self n q m w :
  inv m w → recvq m = n :: q →
  frame m w (set_recvs (to_size_t (recvs m - 1)) (set_recvq q m))
        (RECVQ_UNLOCK App self (set_heap (set_link n ELIST_DETACHED (heap w)) w)).
Proof.
  intros Hinv Eq. split; [|split; [|done]].
  - unfold RECVQ_UNLOCK. rewrite unlock_heap. apply keeps_static_set_link.
  - unfold RECVQ_UNLOCK. now rewrite rest_unlock.
Qed.

Lemma recv_frame self m w pk m' w' :
  inv m w → msgq_recv self m w = Ok (pk, m', w') →
  frame m w m' w' ∧
  (mutexes w !! self = Some None → mutexes w' !! self = Some None).
Proof.
  intros Hinv. unfold msgq_recv.
  destruct (RECVQ_LOCK App self w) as [w1| | |] eqn:El; simpl; try discriminate.
  pose proof (rest_lock _ _ _ _ El) as Hr1.
  pose proof (lock_Ok _ _ _ _ El) as (Hh & _).
  assert (Hinv1 : inv m w1) by (eapply inv_heap; eauto).
  assert (Hf1 : frame m w m w1).
  { split; [rewrite Hh; apply keeps_static_refl|done]. }
  destruct (recvq m) as [|n q] eqn:Eq; simpl.
  - intros [= <- <- <-]. rewrite set_heap_id. split.
    + split; [|split; [|done]].
      * unfold RECVQ_UNLOCK. rewrite unlock_heap, Hh. apply keeps_static_refl.
      * unfold RECVQ_UNLOCK. now rewrite rest_unlock.
    + intros Hfree. apply mutex_unlock. eapply mutex_lock; eauto.
  - destruct (load_node n _); [|discriminate].
    intros [= <- <- <-]. split.
    + eapply frame_trans; [exact Hf1|]. now apply pop_frame.
    + intros Hfree. apply mutex_unlock. simpl. eapply mutex_lock; eauto.
Qed.

Lemma pkt_delete_frame pk m w ret w' :
  msgq_pkt_delete pk w = Ok (ret, w') →
  frame m w m w' ∧ mutexes w' = mutexes w.
Proof.
  unfold msgq_pkt_delete.
  destruct (load_packet pk (heap w)) as [k|] eqn:Ek; [|discriminate].
  destruct (p_container k) as [np|] eqn:Hk.
  2:{ intros [= <- <-]. split; [apply frame_refl|done]. }
  destruct (load_node np (heap w)) as [nd|] eqn:En; [|discriminate].
  destruct (link nd) eqn:Hl; simpl; [|discriminate].
  intros [= <- <-]. split; [|done].
  apply load_packet_Some in Ek as [szk Ek].
  apply load_node_Some in En as [szn En].
  split; [|done]. simpl. unfold free.
  eapply keeps_static_trans; apply keeps_static_delete; intros ? ? E.
  - rewrite Ek in E. injection E as <- <-. done.
  - apply lookup_delete_Some in E as [_ E]. rewrite En in E. injection E as <- <-. done.
Qed.

(** [handle_ok] follows from the invariant, the frame and the mutex. *)
Lemma handle_ok_step self m w m' w' :
  handle_ok self m w → inv m' w' → frame m w m' w' →
  mutexes w' !! self = Some None → handle_ok self m' w'.
Proof.
  intros [Hinv Hs (b & Hb & Hbuf) Hm Hc Hfd Ht] Hinv' (Hk & Hr & Hf) Hm'.
  injection Hr as Hr1 Hr2 Hr3 Hr4. injection Hf as Hf1 Hf2 Hf3 Hf4.
  split; try done.
  - apply Hk; [done|now left].
  - exists b. split; [congruence|]. apply Hk; [done|now right].
  - congruence.
  - rewrite Hf1, Hf2, Hr1. done.
  - congruence.
Qed.

Lemma others_frame self acts : ∀ m w m' w',
  inv m w → others self acts m w = Ok (m', w') →
  frame m w m' w' ∧
  (mutexes w !! self = Some None → mutexes w' !! self = Some None).
Proof.
  induction acts as [|[[[r cn] cp]|] acts IH]; intros m w m' w' Hinv; simpl.
  - intros [= <- <-]. split; [apply frame_refl|done].
  - destruct (msgq_receiver_iter self r cn cp m w) as [[[c1 m1] w1]| | |] eqn:E;
      simpl; try discriminate.
    pose proof (receiver_iter_inv _ _ _ _ _ _ _ _ _ Hinv E) as [Hinv1 _].
    apply receiver_iter_frame in E as [Hf1 Hm1]; [|done].
    intros H. apply IH in H as [Hf2 Hm2]; [|done].
    split; [eauto using frame_trans|auto].
  - destruct (msgq_recv self m w) as [[[pk m1] w1]| | |] eqn:E;
      simpl; try discriminate.
    pose proof (recv_inv _ _ _ _ _ _ Hinv E) as Hinv1.
    apply recv_frame in E as [Hf1 Hm1]; [|done].
    intros H. apply IH in H as [Hf2 Hm2]; [|done].
    split; [eauto using frame_trans|auto].
Qed.

Lemma cond_wait_frame self acts m w m' w' :
  inv m w → mutexes w !! self = Some (Some App) →
  pthread_cond_wait self acts m w = Ok (m', w') →
  frame m w m' w' ∧ mutexes w' !! self = Some (Some App).
Proof.
  intros Hinv Hm. unfold pthread_cond_wait.
  destruct (others _ _ _ _) as [[m1 w1]| | |] eqn:E; simpl; try discriminate.
  apply others_frame in E as [Hf1 Hm1].
  2:{ eapply inv_heap; [|exact Hinv]. apply unlock_heap. }
  specialize (Hm1 (mutex_unlock _ _ _ Hm)).
  destruct (pthread_mutex_lock App self w1) as [w2| | |] eqn:El; simpl; try discriminate.
  intros [= <- <-]. split; [|eapply mutex_lock; eauto].
  pose proof (rest_lock _ _ _ _ El) as Hr2.
  pose proof (lock_Ok _ _ _ _ El) as (Hh2 & _).
  destruct Hf1 as (Hk1 & Hr1 & Hfl1).
  rewrite unlock_heap in Hk1. rewrite rest_unlock in Hr1.
  split; [now rewrite Hh2|]. split; congruence.
Qed.

Lemma recv_wait_again_frame self wakeups : ∀ m w res,
  inv m w → mutexes w !! self = Some (Some App) →
  recv_wait_again self wakeups m w = Ok res →
  match res with
  | Returned _ m' w' | Parked m' w' =>
    frame m w m' w' ∧ mutexes w' !! self = Some None
  end.
Proof.
  induction wakeups as [|ins wakeups IH]; intros m w res Hinv Hm; simpl;
    (destruct (recvq m) as [|n q] eqn:Eq; simpl;
     [| destruct (load_node n _); [|discriminate];
        intros [= <-]; split;
        [now apply pop_frame|apply mutex_unlock; exact Hm] ]).
  - intros [= <-]. rewrite set_heap_id. split; [|apply mutex_unlock; exact Hm].
    split; [|split; [|done]].
    + rewrite unlock_heap. apply keeps_static_refl.
    + now rewrite rest_unlock.
  - rewrite set_heap_id.
    assert (Hinv0 : inv (set_recvq [] m) w).
    { destruct Hinv as (Hok & Hq & Hc). unfold inv. simpl. rewrite Eq in *. done. }
    destruct (pthread_cond_wait _ _ _ _) as [[m1 w1]| | |] eqn:E; simpl; try discriminate.
    pose proof (cond_wait_inv _ _ _ _ _ _ Hinv0 E) as Hinv1.
    apply cond_wait_frame in E as [Hf1 Hm1]; try done.
    intros H. specialize (IH _ _ _ Hinv1 Hm1 H).
    destruct res; destruct IH as [Hf2 Hm2]; (split; [|done]);
      (eapply frame_trans; [|exact Hf2]);
      (eapply frame_trans; [|exact Hf1]);
      (split; [apply keeps_static_refl|done]).
Qed.

Lemma recv_wait_frame self wakeups m w res :
  inv m w → mutexes w !! self = Some None →
  msgq_recv_wait self wakeups m w = Ok res →
  match res with
  | Returned _ m' w' | Parked m' w' =>
    frame m w m' w' ∧ mutexes w' !! self = Some None
  end.
Proof.
  intros Hinv Hm. unfold msgq_recv_wait.
  destruct (RECVQ_LOCK App self w) as [w1| | |] eqn:El; simpl; try discriminate.
  pose proof (rest_lock _ _ _ _ El) as Hr1.
  pose proof (lock_Ok _ _ _ _ El) as (Hh & _).
  intros H. apply recv_wait_again_frame in H.
  - destruct res; destruct H as [Hf Hm']; (split; [|done]);
      (eapply frame_trans; [|exact Hf]);
      (split; [rewrite Hh; apply keeps_static_refl|done]).
  - eapply inv_heap; eauto.
  - eapply mutex_lock; eauto.
Qed.

Lemma message_count_spec self m w :
  mutexes w !! self = Some None →
  msgq_message_count self m w = Ok (to_int (recvs m), w).
Proof.
  intros Hm. unfold msgq_message_count, RECVQ_LOCK, RECVQ_UNLOCK.
  rewrite lock_free by done. simpl.
  pose proof (unlock_lock App self w (heap w) Hm) as H.
  rewrite set_heap_id in H.
  replace (set_mutexes (<[self:=Some App]> (mutexes w)) w)
    with (set_heap (heap w) (set_mutexes (<[self:=Some App]> (mutexes w)) w))
    by (destruct w; reflexivity).
  now rewrite H.
Qed.

(** ** Reachable states *)

Lemma opened_handle_ok self m w : opened self m w → handle_ok self m w.
Proof.
  induction 1 as [addr e w0 m w Hw0 Ho
                 |r cn cp m w c m' w' _ IH E
                 |m w pk m' w' _ IH E
                 |wakeups m w pk m' w' _ IH E
                 |wakeups m w m' w' _ IH E
                 |pk m w ret w' _ IH E
                 |receiver packet sr m w ret m' w' _ IH E
                 |m w n w' _ IH E].
  - apply (open_spec _ _ _ _ _ Hw0) in Ho. simpl in Ho. apply Ho.
  - pose proof (receiver_iter_inv _ _ _ _ _ _ _ _ _ (ho_inv _ _ _ IH) E) as [Hi _].
    apply receiver_iter_frame in E as [Hf Hm]; [|apply IH].
    eapply handle_ok_step; eauto. apply Hm, IH.
  - pose proof (recv_inv _ _ _ _ _ _ (ho_inv _ _ _ IH) E) as Hi.
    apply recv_frame in E as [Hf Hm]; [|apply IH].
    eapply handle_ok_step; eauto. apply Hm, IH.
  - pose proof (recv_wait_inv _ _ _ _ _ (ho_inv _ _ _ IH) E) as Hi.
    apply recv_wait_frame in E as [Hf Hm]; [|apply IH|apply IH].
    eapply handle_ok_step; eauto.
  - pose proof (recv_wait_inv _ _ _ _ _ (ho_inv _ _ _ IH) E) as Hi.
    apply recv_wait_frame in E as [Hf Hm]; [|apply IH|apply IH].
    eapply handle_ok_step; eauto.
  - pose proof (pkt_delete_inv _ _ _ _ _ (ho_inv _ _ _ IH) E) as Hi.
    apply (pkt_delete_frame _ m) in E as [Hf Hm].
    eapply handle_ok_step; eauto. rewrite Hm. apply IH.
  - unfold msgq_send, sendto in E.
    assert (m' = m ∧ w' = set_sent (sent w ++ [(fd m, strncpy receiver (UNIX_PATH_MAX - 1),
                                            sizeof_packet packet, sr)]) w) as [-> ->]
      by (destruct (sr <? 0); injection E as <- <- <-; done).
    destruct IH as [Hinv Hs Hb Hm Hc Hfd Ht]. split; done.
  - rewrite message_count_spec in E by apply IH. injection E as <- <-. done.
Qed.

Lemma delivered_opened self n m0 w0 m w :
  opened self m0 w0 → delivered self n m0 w0 m w →
  opened self m w ∧ length (recvq m) = (length (recvq m0) + n)%nat.
Proof.
  intros Ho. induction 1 as [|n m w m1 w1 r cn cp np m2 w2 _ IH E Eq].
  - split; [done|lia].
  - destruct (IH Ho) as [Ho1 Hl]. split; [eapply opened_receiver; eauto|].
    rewrite Eq, length_app, Hl. simpl. lia.
Qed.

(** ** Closing a queue *)

Lemma close_enter_spec self m w :
  handle_ok self m w →
  ∃ b w1,
    pkbuf m = Some b ∧
    msgq_close_enter self m w = Ok (set_pkbuf None (set_fd (-1) m), w1) ∧
    heap w1 = free b (heap w) ∧ fds w1 = delete (fd m) (fds w) ∧
    threads w1 = threads w ∖ {[self]} ∧ conds w1 = conds w ∧
    mutexes w1 = <[self := Some App]> (mutexes w) ∧
    inv (set_pkbuf None (set_fd (-1) m)) w1 ∧
    keeps_static (delete b (heap w)) (heap w1).
Proof.
  intros [(Hok & Hq & Hc) Hs (b & Hb & Hbuf) Hm Hcv [Hfd Hfds] Ht].
  unfold msgq_close_enter, pthread_cancel_join, msgq_receiver_cleaner, RECVQ_LOCK.
  assert (Hcl : pthread_mutex_unlock Receiver self w = w).
  { unfold pthread_mutex_unlock. now rewrite Hm. }
  rewrite Hcl. rewrite lock_free by done. simpl.
  destruct (Z.leb_spec 0 (fd m)); [|lia]. simpl. rewrite Hb.
  eexists b, _. split; [done|]. split; [reflexivity|]. simpl.
  split_and!; try done; [|apply keeps_static_refl].
  unfold inv. simpl. split_and!; try done; [now apply heap_ok_free|].
  destruct Hq as [Hnd Hn Ha]. split; [done| |].
  - intros n Hin. destruct (Hn _ Hin) as (nd & pk & sz & k & E & Hl & Hp & Ek & Hk).
    exists nd, pk, sz, k. unfold free. split_and!; try done; solve_lookup.
  - intros n sz nd E. unfold free in E. apply lookup_delete_Some in E as [_ E]. eauto.
Qed.

(** The pointers freed by the drain loop are the nodes of the queue and
    their packets, each once, all live before and none after; nothing else
    leaves the heap; the queue ends empty with a pending-count of 0. *)
Lemma close_drain_spec : ∀ fuel m h freed,
  heap_ok h → queue_shape (recvq m) h → recvs m = Z.of_nat (length (recvq m)) →
  (length (recvq m) < fuel)%nat →
  ∃ m' h' fr,
    close_drain fuel m h freed = Ok (m', h', freed ++ fr) ∧
    recvq m' = [] ∧ recvs m' = 0 ∧ fields m' = fields m ∧
    length fr = (2 * length (recvq m))%nat ∧ NoDup fr ∧
    (∀ n, n ∈ recvq m →
       n ∈ fr ∧ ∃ nd pk, load_node n h = Some nd ∧ packet nd = Some pk ∧ pk ∈ fr) ∧
    (∀ a, a ∈ fr →
       h' !! a = None ∧
       ∃ sz o, h !! a = Some (Block sz o) ∧ o ≠ Handle ∧ o ≠ Buffer) ∧
    (∀ a, a ∉ fr → h' !! a = h !! a).
Proof.
  induction fuel as [|fuel IH]; intros m h freed Hok Hq Hc Hfuel; [lia|].
  simpl. unfold close_drain_iter.
  destruct (recvq m) as [|p q] eqn:Eq; simpl.
  - exists m, h, []. rewrite app_nil_r. simpl in Hc.
    split_and!; try done; [apply NoDup_nil_2| |].
    + intros n Hn. inversion Hn.
    + intros a Ha. inversion Ha.
  - destruct (shape_pop_front _ _ _ Hq)
      as (nd & pk & sz & k & En & Hp & Ek & Hk & Hne & Hnq & Hqpk & Hset & Hq1).
    pose proof (queue_below_int_max _ _ Hok Hq) as Hb. simpl in Hb, Hc.
    set (h1 := set_link p ELIST_DETACHED h) in *.
    assert (E1 : load_node p h1 = Some (Node_ ELIST_DETACHED (sender nd) (Some pk))).
    { apply load_node_Some. exists SIZEOF_NODE. rewrite Hset. apply lookup_insert_eq. }
    assert (E1k : load_packet pk h1 = Some k).
    { apply load_packet_Some. exists sz. rewrite Hset. solve_lookup. }
    rewrite E1. simpl.
    destruct (shape_free_detached _ _ _ _ _ _ Hq1 E1k Hk E1 eq_refl) as (_ & _ & Hq3).
    set (m1 := set_recvs (to_size_t (recvs m - 1)) (set_recvq q m)).
    set (h3 := free p (free pk h1)) in *.
    assert (Hok3 : heap_ok h3).
    { subst h3 h1. now apply heap_ok_free, heap_ok_free, heap_ok_set_link. }
    assert (Hc1 : recvs m1 = Z.of_nat (length (recvq m1))).
    { subst m1. simpl. rewrite to_size_t_small; unfold WORD; lia. }
    assert (Hh3 : ∀ a, h3 !! a = if decide (a = p ∨ a = pk) then None else h !! a).
    { intros a. subst h3 h1. unfold free. rewrite Hset.
      rewrite !lookup_delete, lookup_insert.
      repeat case_decide; subst; try done; intuition congruence. }
    destruct (IH m1 h3 (freed ++ [pk; p]) Hok3 Hq3 Hc1)
      as (m' & h' & fr & Hrun & Hq' & Hc' & Hf' & Hlen & Hnd & Hnodes & Hfr & Hother).
    { subst m1. simpl. simpl in Hfuel. lia. }
    exists m', h', ([pk; p] ++ fr).
    assert (Hgone : ∀ a, a ∈ fr → a ≠ p ∧ a ≠ pk).
    { intros a Ha. destruct (Hfr _ Ha) as (_ & sz' & o & E & _).
      rewrite Hh3 in E. case_decide; [discriminate|]. tauto. }
    split_and!; try done.
    + rewrite Hrun. now rewrite <- app_assoc.
    + rewrite length_app, Hlen. subst m1. simpl. lia.
    + apply NoDup_app. split_and!; try done.
      * apply NoDup_cons. split; [|apply NoDup_singleton].
        intros Hin. apply list_elem_of_singleton in Hin. congruence.
      * intros a Ha Ha'. destruct (Hgone _ Ha').
        apply elem_of_cons in Ha as [->|Ha]; [done|].
        apply list_elem_of_singleton in Ha. done.
    + intros n Hn. apply elem_of_cons in Hn as [->|Hn].
      * split; [set_solver|]. exists nd, pk. split_and!; try done; [|set_solver].
        apply load_node_Some. eauto.
      * destruct (Hnodes n Hn) as (Hin & nd' & pk' & E' & Hp' & Hin').
        split; [set_solver|]. exists nd', pk'. split_and!; try done; [|set_solver].
        apply load_node_Some in E' as [sz' E']. rewrite Hh3 in E'.
        case_decide; [discriminate|]. apply load_node_Some. eauto.
    + intros a Ha. apply elem_of_app in Ha as [Ha|Ha].
      * assert (a ∉ fr) by (intros Hin; destruct (Hgone _ Hin); set_solver).
        rewrite Hother, Hh3 by done. rewrite decide_True by set_solver.
        split; [done|].
        apply elem_of_cons in Ha as [->|Ha].
        -- exists sz, (Packet k). done.
        -- apply list_elem_of_singleton in Ha as ->. exists SIZEOF_NODE, (Node nd). done.
      * destruct (Hfr _ Ha) as (Hnone & sz' & o & E & Ho). split; [done|].
        rewrite Hh3 in E. case_decide; [discriminate|]. eauto.
    + intros a Ha. rewrite Hother by set_solver. rewrite Hh3.
      rewrite decide_False; [done|]. set_solver.
Qed.

(** C3 (the code against the claim).  [msgq_close] on a handle with K
    messages in its queue joins the receiver thread, closes the socket,
    frees the receive buffer, frees the K nodes and their K packets and
    nothing else of the queue's, leaves the pending-count at 0, destroys
    the mutex and frees the handle; the condition variable is still
    initialised when it returns, [pthread_cond_destroy] is never called. *)
Theorem close_frees_queue_keeps_cond :
  ∀ self m w,
    handle_ok self m w →
    ∃ m' freed w',
      msgq_close self m w = Ok (m', freed, w') ∧
      (self ∉ threads w') ∧
      fds w' = delete (fd m) (fds w) ∧
      (∀ b, pkbuf m = Some b → heap w' !! b = None) ∧
      length freed = (2 * length (recvq m))%nat ∧ NoDup freed ∧
      (∀ n, n ∈ recvq m →
         n ∈ freed ∧
         ∃ nd pk, load_node n (heap w) = Some nd ∧ packet nd = Some pk ∧ pk ∈ freed) ∧
      (∀ a, a ∈ freed → is_Some (heap w !! a) ∧ heap w' !! a = None) ∧
      (∀ a, a ∉ freed → a ≠ self → pkbuf m ≠ Some a → heap w' !! a = heap w !! a) ∧
      recvq m' = [] ∧ recvs m' = 0 ∧
      mutexes w' !! self = None ∧
      heap w' !! self = None ∧
      self ∈ conds w'.
Proof.
  intros self m w Hh.
  destruct (close_enter_spec _ _ _ Hh)
    as (b & w1 & Hb & Henter & Hh1 & Hf1 & Ht1 & Hc1 & Hm1 & (Hok1 & Hq1 & Hcnt1) & _).
  destruct Hh as [Hinv Hs (b' & Hb' & Hbuf) Hm Hcv Hfd Ht].
  rewrite Hb in Hb'. injection Hb' as <-.
  unfold msgq_close. rewrite Henter. simpl.
  destruct (close_drain_spec (S (length (recvq m))) (set_pkbuf None (set_fd (-1) m))
              (heap w1) [] Hok1 Hq1 Hcnt1)
    as (m' & h' & fr & Hrun & Hq' & Hc' & _ & Hlen & Hnd & Hnodes & Hfr & Hother).
  { simpl. lia. }
  simpl in *. rewrite Hrun. simpl.
  assert (Hw2 : ∃ w2, RECVQ_UNLOCK App self (set_heap h' w1) = w2 ∧
                  mutexes w2 = <[self := None]> (mutexes w) ∧
                  heap w2 = h' ∧ fds w2 = fds w1 ∧ conds w2 = conds w1 ∧
                  threads w2 = threads w1).
  { eexists. split; [reflexivity|]. unfold RECVQ_UNLOCK.
    rewrite unlock_owned by (simpl; rewrite Hm1; apply lookup_insert_eq).
    simpl. rewrite Hm1. split; [apply insert_insert_eq|done]. }
  destruct Hw2 as (w2 & -> & Hmu & Hhp & Hr1 & Hr3 & Hr4).
  unfold pthread_mutex_destroy. rewrite Hmu, lookup_insert_eq.
  eexists m', fr, _. split; [reflexivity|]. simpl.
  rewrite ?Hhp, ?Hr1, ?Hr3, ?Hr4, ?Hmu.
  assert (Hfrb : ∀ a, a ∈ fr → a ≠ b ∧ a ≠ self).
  { intros a Ha. destruct (Hfr _ Ha) as (_ & sz & o & E & Ho1 & Ho2).
    rewrite Hh1 in E. unfold free in E. apply lookup_delete_Some in E as [? E].
    split; [done|]. intros ->. rewrite Hs in E. injection E as <- <-. done. }
  split_and!; try done.
  - rewrite Ht1. set_solver.
  - intros b0 Hb0. rewrite Hb in Hb0. injection Hb0 as <-.
    unfold free. rewrite lookup_delete_ne by (intros ->; congruence).
    destruct (decide (b ∈ fr)) as [Hin|Hin].
    + now destruct (Hfr _ Hin).
    + rewrite Hother, Hh1 by done. apply lookup_delete_eq.
  - intros n Hn. destruct (Hnodes n Hn) as (Hin & nd & pk & E & Hp & Hin').
    split; [done|]. exists nd, pk. split_and!; try done.
    apply load_node_Some in E as [sz E]. rewrite Hh1 in E. unfold free in E.
    apply lookup_delete_Some in E as [_ E]. apply load_node_Some. eauto.
  - intros a Ha. destruct (Hfr _ Ha) as (Hnone & sz & o & E & _).
    destruct (Hfrb _ Ha). split.
    + rewrite Hh1 in E. unfold free in E. apply lookup_delete_Some in E as [_ E]. eauto.
    + unfold free. now rewrite lookup_delete_ne.
  - intros a Ha Hself Hpk. unfold free. rewrite lookup_delete_ne by done.
    rewrite Hother, Hh1 by done. unfold free. apply lookup_delete_ne. congruence.
  - apply lookup_delete_eq.
  - unfold free. apply lookup_delete_eq.
  - now rewrite Hc1.
Qed.

(** ** The pending-count *)

Lemma close_drain_iter_inv m w m' h' freed :
  inv m w → close_drain_iter m (heap w) = Ok (Some (m', h', freed)) →
  inv m' (set_heap h' w).
Proof.
  intros Hinv. unfold close_drain_iter.
  destruct (recvq m) as [|p q] eqn:Eq; simpl; [discriminate|].
  destruct (pop_inv p q m w Hinv Eq)
    as (nd & pk & sz & k & En & Hp & Ek & Hk & Hne & Hnq & Hqpk & Hset & Hcnt & _ & Hinv1).
  destruct Hinv1 as (Hok1 & Hq1 & Hc1). simpl in *.
  assert (E1 : load_node p (set_link p ELIST_DETACHED (heap w))
               = Some (Node_ ELIST_DETACHED (sender nd) (Some pk))).
  { apply load_node_Some. exists SIZEOF_NODE. rewrite Hset. apply lookup_insert_eq. }
  assert (E1k : load_packet pk (set_link p ELIST_DETACHED (heap w)) = Some k).
  { apply load_packet_Some. exists sz. rewrite Hset. solve_lookup. }
  rewrite E1. simpl. intros [= <- <- <-].
  destruct (shape_free_detached _ _ _ _ _ _ Hq1 E1k Hk E1 eq_refl) as (_ & _ & Hq3).
  unfold inv. simpl. split_and!; try done.
  now apply heap_ok_free, heap_ok_free.
Qed.

Lemma opened_inv self m w : opened self m w → inv m w.
Proof. intros H. apply opened_handle_ok in H. apply H. Qed.

Lemma draining_inv self m w : draining self m w → inv m w.
Proof.
  induction 1 as [m w m' w' Ho E|m w m' h' freed _ IH E].
  - apply opened_handle_ok in Ho.
    destruct (close_enter_spec _ _ _ Ho) as (b & w1 & _ & E' & _ & _ & _ & _ & _ & Hinv & _).
    rewrite E' in E. injection E as <- <-. done.
  - eapply close_drain_iter_inv; eauto.
Qed.

(** C1.  In every state an open handle can reach, and in every state
    [msgq_close] passes through while it drains the queue, [recvs] is the
    number of nodes in [recvq].  The invariant, of which this equality is a
    part, is kept by each operation that changes the queue: a turn of the
    receiver's loop with its append, [msgq_recv], [msgq_recv_wait], and a
    turn of the drain loop of [msgq_close].  After N deliveries in a row on
    a freshly opened handle, [msgq_message_count] returns N: the nodes are
    disjoint blocks of 120 bytes in a 32-bit address space, so neither the
    [size_t] counter nor its conversion to [int] can wrap. *)
Theorem pending_count_is_queue_length :
  (∀ self m w,
     opened self m w ∨ draining self m w →
     recvs m = Z.of_nat (length (recvq m))) ∧
  (∀ self r cn cp m w c m' w',
     inv m w → msgq_receiver_iter self r cn cp m w = Ok (c, m', w') →
     inv m' w') ∧
  (∀ self m w pk m' w',
     inv m w → msgq_recv self m w = Ok (pk, m', w') → inv m' w') ∧
  (∀ self wakeups m w pk m' w',
     inv m w → msgq_recv_wait self wakeups m w = Ok (Returned pk m' w') →
     inv m' w') ∧
  (∀ m w m' h' freed,
     inv m w → close_drain_iter m (heap w) = Ok (Some (m', h', freed)) →
     inv m' (set_heap h' w)) ∧
  (∀ self addr e w0 m0 w1 N m w,
     world_ok w0 → msgq_open addr e w0 = Ok (Some (self, m0), w1) →
     delivered self N m0 w1 m w →
     msgq_message_count self m w = Ok (Z.of_nat N, w)).
Proof.
  split_and!.
  - intros self m w [H|H]; [apply opened_inv in H|apply draining_inv in H]; apply H.
  - intros self r cn cp m w c m' w' Hinv E.
    now apply receiver_iter_inv in E.
  - intros self m w pk m' w' Hinv E. eapply recv_inv; eauto.
  - intros self wakeups m w pk m' w' Hinv E.
    apply (recv_wait_inv _ _ _ _ _ Hinv E).
  - intros m w m' h' freed Hinv E. eapply close_drain_iter_inv; eauto.
  - intros self addr e w0 m0 w1 N m w Hw0 Ho Hd.
    assert (Hop : opened self m0 w1) by (eapply opened_open; eauto).
    apply (open_spec _ _ _ _ _ Hw0) in Ho. simpl in Ho.
    destruct Ho as (_ & Hq0 & _).
    destruct (delivered_opened _ _ _ _ _ _ Hop Hd) as [Hom Hlen].
    rewrite Hq0 in Hlen. simpl in Hlen.
    pose proof (opened_handle_ok _ _ _ Hom) as [(Hok & Hq & Hc) _ _ Hm _ _ _].
    rewrite message_count_spec by done.
    pose proof (queue_below_int_max _ _ Hok Hq) as Hb.
    rewrite Hc, Hlen, to_int_small; [done|]. unfold INT_MAX. lia.
Qed.

(** ** Deleting a packet *)

(** C8.  For a packet whose node is out of the queue, [msgq_pkt_delete]
    returns 0 and frees the packet and the node and nothing else; every
    node of the queue is still a live node with a live packet, and the
    handle's invariant holds.  For a packet whose node is still in the
    queue the assertion fails: the call aborts and changes nothing. *)
Theorem pkt_delete_detached_or_abort :
  ∀ self m w pk k np nd,
    opened self m w →
    load_packet pk (heap w) = Some k → p_container k = Some np →
    load_node np (heap w) = Some nd →
    (np ∉ recvq m →
       ∃ w', msgq_pkt_delete pk w = Ok (0, w') ∧
             heap w' !! pk = None ∧ heap w' !! np = None ∧
             (∀ a, a ≠ pk → a ≠ np → heap w' !! a = heap w !! a) ∧
             (∀ n, n ∈ recvq m → queued_node (heap w') n) ∧
             inv m w') ∧
    (np ∈ recvq m → msgq_pkt_delete pk w = Fault AssertFailed).
Proof.
  intros self m w pk k np nd Ho Ek Hk En.
  pose proof (opened_inv _ _ _ Ho) as Hinv.
  pose proof Hinv as (Hok & Hq & Hc).
  apply load_node_Some in En as [szn En].
  split.
  - intros Hout.
    assert (Hl : link nd = ELIST_DETACHED).
    { destruct (link nd) eqn:Hl; [done|]. destruct Hout. eapply qs_attached; eauto. }
    assert (Hne : pk ≠ np).
    { intros ->. apply load_packet_Some in Ek as [? Ek]. congruence. }
    eexists. split.
    { unfold msgq_pkt_delete. rewrite Ek, Hk. unfold load_node. rewrite En, Hl.
      simpl. reflexivity. }
    simpl. unfold free. split_and!.
    + rewrite lookup_delete_ne by done. apply lookup_delete_eq.
    + apply lookup_delete_eq.
    + intros a ? ?. now rewrite !lookup_delete_ne.
    + assert (E2 : load_node np (heap w) = Some nd) by (apply load_node_Some; eauto).
      destruct (shape_free_detached _ _ _ _ _ _ Hq Ek Hk E2 Hl) as (_ & _ & Hq').
      apply Hq'.
    + eapply pkt_delete_inv; [exact Hinv|].
      unfold msgq_pkt_delete. rewrite Ek, Hk. unfold load_node. rewrite En, Hl.
      simpl. reflexivity.
  - intros Hin. destruct (qs_nodes _ _ Hq _ Hin) as (nd' & _ & _ & _ & E' & Hl & _).
    rewrite En in E'. injection E' as _ <-.
    unfold msgq_pkt_delete. rewrite Ek, Hk. unfold load_node. rewrite En, Hl. done.
Qed.

(** ** Waiting for a message *)

Lemma set_recvq_id m : set_recvq (recvq m) m = m.
Proof. destruct m; reflexivity. Qed.

(** The check that succeeds: the head is popped, its packet returned. *)
Lemma recv_wait_pop self wakeups n q m w :
  inv m w → recvq m = n :: q →
  ∃ nd pk sz k,
    heap w !! n = Some (Block SIZEOF_NODE (Node nd)) ∧ packet nd = Some pk ∧
    recv_wait_again self wakeups m w =
      Ok (Returned (Some pk) (set_recvs (recvs m - 1) (set_recvq q m))
            (RECVQ_UNLOCK App self (set_heap (set_link n ELIST_DETACHED (heap w)) w))) ∧
    set_link n ELIST_DETACHED (heap w) !! pk = Some (Block sz (Packet k)) ∧
    1 <= recvs m.
Proof.
  intros Hinv Eq.
  destruct (pop_inv n q m w Hinv Eq)
    as (nd & pk & sz & k & En & Hp & Ek & Hk & Hne & Hnq & Hqpk & Hset & Hcnt & H1 & Hinv1).
  exists nd, pk, sz, k. split_and!; try done.
  - assert (E1 : load_node n (heap (RECVQ_UNLOCK App self
                   (set_heap (set_link n ELIST_DETACHED (heap w)) w)))
                 = Some (Node_ ELIST_DETACHED (sender nd) (Some pk))).
    { unfold RECVQ_UNLOCK. rewrite unlock_heap. simpl.
      apply load_node_Some. exists SIZEOF_NODE. rewrite Hset. apply lookup_insert_eq. }
    assert (Hsz : to_size_t (recvs m - 1) = recvs m - 1).
    { destruct Hinv as (_ & _ & Hc). rewrite Hcnt, Hc, Eq. simpl. lia. }
    destruct wakeups; simpl; rewrite Eq; simpl; rewrite E1, Hsz; reflexivity.
  - rewrite Hset. solve_lookup.
Qed.

Lemma recv_wait_again_returned self wakeups : ∀ m w pk m' w',
  inv m w → mutexes w !! self = Some (Some App) →
  recv_wait_again self wakeups m w = Ok (Returned pk m' w') →
  (∃ p k, pk = Some p ∧ load_packet p (heap w') = Some k) ∧
  ∃ used rest m1 w1 n,
    wakeups = used ++ rest ∧
    parked_through self used m w = Ok (m1, w1) ∧
    mutexes w1 !! self = Some (Some App) ∧
    1 <= recvs m1 ∧ recvq m1 = n :: recvq m' ∧ recvs m' = recvs m1 - 1.
Proof.
  induction wakeups as [|ins wakeups IH]; intros m w pk m' w' Hinv Hm.
  - destruct (recvq m) as [|n q] eqn:Eq; [simpl; rewrite Eq; discriminate|].
    destruct (recv_wait_pop self [] n q m w Hinv Eq)
      as (nd & p & sz & k & En & Hp & -> & Ek & H1).
    intros [= <- <- <-]. split.
    + exists p, k. split; [done|]. apply load_packet_Some. exists sz.
      unfold RECVQ_UNLOCK. now rewrite unlock_heap.
    + exists [], [], m, w, n. simpl. done.
  - destruct (recvq m) as [|n q] eqn:Eq.
    + simpl. rewrite Eq. simpl. rewrite set_heap_id, <- Eq, set_recvq_id.
      destruct (pthread_cond_wait self ins m w) as [[m1 w1]| | |] eqn:E; simpl; try discriminate.
      pose proof (cond_wait_inv _ _ _ _ _ _ Hinv E) as Hinv1.
      pose proof (cond_wait_frame _ _ _ _ _ _ Hinv Hm E) as [_ Hm1].
      intros H. destruct (IH _ _ _ _ _ Hinv1 Hm1 H)
        as (Hpk & used & rest & m2 & w2 & n & -> & Hrun & Hm2 & H1 & Hq2 & Hc2).
      split; [done|].
      exists (ins :: used), rest, m2, w2, n. simpl. rewrite E. simpl.
      done.
    + destruct (recv_wait_pop self (ins :: wakeups) n q m w Hinv Eq)
        as (nd & p & sz & k & En & Hp & -> & Ek & H1).
      intros [= <- <- <-]. split.
      * exists p, k. split; [done|]. apply load_packet_Some. exists sz.
        unfold RECVQ_UNLOCK. now rewrite unlock_heap.
      * exists [], (ins :: wakeups), m, w, n. simpl. done.
Qed.

Lemma recv_wait_again_spurious self wakeups : ∀ m w,
  recvq m = [] → Forall (λ ins, ins = []) wakeups →
  mutexes w !! self = Some (Some App) →
  recv_wait_again self wakeups m w =
    Ok (Parked m (pthread_mutex_unlock App self w)).
Proof.
  induction wakeups as [|ins wakeups IH]; intros m w Eq Hall Hm; simpl; rewrite Eq; simpl.
  - rewrite set_heap_id, <- Eq, set_recvq_id. done.
  - apply Forall_cons in Hall as [-> Hall].
    rewrite set_heap_id, <- Eq, set_recvq_id.
    unfold pthread_cond_wait. simpl.
    rewrite lock_free by (now apply mutex_unlock). simpl.
    assert (Hw : set_mutexes (<[self:=Some App]> (mutexes (pthread_mutex_unlock App self w)))
                   (pthread_mutex_unlock App self w) = w).
    { rewrite unlock_owned by done. destruct w; unfold set_mutexes; simpl in *.
      f_equal. rewrite insert_insert_eq. now apply insert_id. }
    rewrite Hw. now apply IH.
Qed.

(** C4.  [msgq_recv_wait] on a handle between two calls ([wakeups] lists,
    for each stay in [pthread_cond_wait], what the receiver thread and other
    consumers do meanwhile):
    - with a node in the queue it pops the head and returns its packet at
      once, whatever wakeups would follow;
    - with an empty queue and only spurious wakeups it re-checks after each
      one and stays suspended, the mutex released;
    - whenever it returns, what it returns is a live packet, and the return
      follows a check, made with the mutex taken again after some of the
      stays in [pthread_cond_wait], that found the pending-count at 1 or
      more and the popped node at the head of the queue;
    - with an empty queue it waits with the mutex released: the other
      threads act on the handle whose mutex is free, and after the wakeup
      the call goes on as a call made then would, taking the mutex and
      checking the queue again;
    - so a wakeup that finds a node in the queue, put there by the
      receiver during the wait, makes the call return the packet of the
      head node, the mutex released. *)
Theorem recv_wait_returns_a_packet :
  ∀ self m w wakeups,
    handle_ok self m w →
    (∀ n q, recvq m = n :: q →
       ∃ nd pk w',
         load_node n (heap w) = Some nd ∧ packet nd = Some pk ∧
         msgq_recv_wait self wakeups m w =
           Ok (Returned (Some pk) (set_recvs (recvs m - 1) (set_recvq q m)) w') ∧
         mutexes w' !! self = Some None) ∧
    (recvq m = [] → Forall (λ ins, ins = []) wakeups →
       msgq_recv_wait self wakeups m w = Ok (Parked m w)) ∧
    (∀ pk m' w',
       msgq_recv_wait self wakeups m w = Ok (Returned pk m' w') →
       (∃ p k, pk = Some p ∧ load_packet p (heap w') = Some k) ∧
       ∃ used rest wl m1 w1 n,
         wakeups = used ++ rest ∧
         RECVQ_LOCK App self w = Ok wl ∧
         parked_through self used m wl = Ok (m1, w1) ∧
         mutexes w1 !! self = Some (Some App) ∧
         1 <= recvs m1 ∧ recvq m1 = n :: recvq m' ∧ recvs m' = recvs m1 - 1) ∧
    (recvq m = [] → ∀ acts rest,
       wakeups = acts :: rest →
       mutexes w !! self = Some None ∧
       msgq_recv_wait self wakeups m w =
         ('(m1, w1) ← others self acts m w; msgq_recv_wait self rest m1 w1)) ∧
    (recvq m = [] → ∀ acts rest m1 w1 n q,
       wakeups = acts :: rest →
       others self acts m w = Ok (m1, w1) → recvq m1 = n :: q →
       ∃ nd pk w',
         load_node n (heap w1) = Some nd ∧ packet nd = Some pk ∧
         msgq_recv_wait self wakeups m w =
           Ok (Returned (Some pk) (set_recvs (recvs m1 - 1) (set_recvq q m1)) w') ∧
         mutexes w' !! self = Some None).
Proof.
  intros self m w wakeups Hh.
  pose proof (ho_inv _ _ _ Hh) as Hinv. pose proof (ho_mutex _ _ _ Hh) as Hm.
  assert (Hwait : recvq m = [] → ∀ acts rest,
            msgq_recv_wait self (acts :: rest) m w =
              ('(m1, w1) ← others self acts m w; msgq_recv_wait self rest m1 w1)).
  { intros Eq acts rest. unfold msgq_recv_wait, RECVQ_LOCK.
    rewrite lock_free by done. simpl. rewrite Eq. simpl.
    rewrite <- Eq, set_recvq_id.
    unfold pthread_cond_wait.
    rewrite (unlock_lock App self w (heap w) Hm), set_heap_id.
    destruct (others self acts m w) as [[m1 w1]| | |]; simpl; try reflexivity.
    destruct (pthread_mutex_lock App self w1); reflexivity. }
  assert (Hwoken : recvq m = [] → ∀ acts rest m1 w1 n q,
            others self acts m w = Ok (m1, w1) → recvq m1 = n :: q →
            ∃ nd pk w',
              load_node n (heap w1) = Some nd ∧ packet nd = Some pk ∧
              msgq_recv_wait self (acts :: rest) m w =
                Ok (Returned (Some pk) (set_recvs (recvs m1 - 1) (set_recvq q m1)) w') ∧
              mutexes w' !! self = Some None).
  { intros Eq acts rest m1 w1 n q Eo Eq1.
    rewrite (Hwait Eq), Eo. simpl.
    pose proof (others_inv _ _ _ _ _ _ Hinv Eo) as Hinv1.
    destruct (others_frame _ _ _ _ _ _ Hinv Eo) as [_ Hm1]. specialize (Hm1 Hm).
    unfold msgq_recv_wait, RECVQ_LOCK. rewrite lock_free by done. simpl.
    assert (Hinvl1 : inv m1 (set_mutexes (<[self := Some App]> (mutexes w1)) w1))
      by (eapply inv_heap; [|exact Hinv1]; done).
    destruct (recv_wait_pop self rest n q m1 _ Hinvl1 Eq1)
      as (nd & pk & sz & k & En & Hp & -> & _ & _).
    exists nd, pk. eexists. split_and!; try done.
    + apply load_node_Some. eauto.
    + unfold RECVQ_UNLOCK. apply mutex_unlock. simpl. apply lookup_insert_eq. }
  assert (El : RECVQ_LOCK App self w = Ok (set_mutexes (<[self := Some App]> (mutexes w)) w))
    by (now apply lock_free).
  assert (Hinvl : inv m (set_mutexes (<[self := Some App]> (mutexes w)) w))
    by (eapply inv_heap; [|exact Hinv]; done).
  assert (Hml : mutexes (set_mutexes (<[self := Some App]> (mutexes w)) w) !! self
                = Some (Some App)) by (simpl; apply lookup_insert_eq).
  split_and!; [unfold msgq_recv_wait; rewrite El; simpl ..| |].
  - intros n q Eq.
    destruct (recv_wait_pop self wakeups n q m _ Hinvl Eq)
      as (nd & pk & sz & k & En & Hp & -> & _ & _).
    exists nd, pk. eexists. split_and!; try done.
    + apply load_node_Some. eauto.
    + unfold RECVQ_UNLOCK. now apply mutex_unlock.
  - intros Eq Hall. rewrite recv_wait_again_spurious by done.
    pose proof (unlock_lock App self w (heap w) Hm) as H.
    rewrite set_heap_id in H.
    replace (set_mutexes (<[self:=Some App]> (mutexes w)) w)
      with (set_heap (heap w) (set_mutexes (<[self:=Some App]> (mutexes w)) w))
      by (destruct w; reflexivity).
    now rewrite H.
  - intros pk m' w' H.
    destruct (recv_wait_again_returned _ _ _ _ _ _ _ Hinvl Hml H)
      as (Hpk & used & rest & m1 & w1 & n & Hw & Hrun & Hm1 & H1 & Hq & Hc).
    split; [done|].
    exists used, rest, (set_mutexes (<[self := Some App]> (mutexes w)) w), m1, w1, n.
    done.
  - intros Eq acts rest ->. split; [done|]. now apply Hwait.
  - intros Eq acts rest m1 w1 n q ->. now apply Hwoken.
Qed.

(** While the caller holds the mutex the receiver cannot append: the wait
    has to release it. *)
Lemma receiver_blocked_by_caller self r cn cp m w np h' :
  mutexes w !! self = Some (Some App) →
  0 <= rf_len r <= INT_MAX → PACKET_HDR <= rf_len r →
  msgq_node_create (rf_from r) (validate_packet (rf_packet r) (rf_len r)).2
    cn cp (heap w) = Ok (Some np, h') →
  msgq_receiver_iter self r cn cp m w = Blocked.
Proof.
  intros Hm Hl Hh En. unfold msgq_receiver_iter.
  destruct (Z.ltb_spec (rf_len r) 0); [lia|].
  rewrite validate_packet_long in * by done. simpl in *.
  rewrite En. simpl. unfold RECVQ_LOCK, pthread_mutex_lock. simpl. rewrite Hm.
  now rewrite decide_False.
Qed.

(** ** Anonymous queues and failed opens *)

(** A turn of [bind_anonymous] in which another process takes the path
    between the [unlink] and the [bind]: [bind] fails with [EADDRINUSE] and
    the loop turns again. *)
Lemma bind_anonymous_retry d a0 at_ ats w tfd name w1 :
  mkstemp MSGQ_TMP_TEMPLATE (at_mkstemp at_) w = (tfd, name, w1) → 0 <= tfd →
  at_rival at_ = true →
  bind_anonymous d a0 (at_ :: ats) w =
    bind_anonymous d a0 ats (rival name (unlink name (close tfd w1))).
Proof.
  intros Em Htfd Hr. simpl. rewrite Em.
  destruct (Z.ltb_spec tfd 0); [lia|]. rewrite Hr.
  unfold bind, rival at 1. simpl. rewrite lookup_insert_eq. simpl. reflexivity.
Qed.

(** A turn without interference: the temporary file is gone before [bind]
    runs, so [bind] succeeds and creates the socket file. *)
Lemma bind_anonymous_turn d a0 at_ ats w tfd name w1 :
  mkstemp MSGQ_TMP_TEMPLATE (at_mkstemp at_) w = (tfd, name, w1) → 0 <= tfd →
  at_rival at_ = false → at_bind_errno at_ = 0 →
  fs (unlink name (close tfd w1)) !! name = None ∧
  bind_anonymous d a0 (at_ :: ats) w =
    Ok (0, name, set_fs (<[name := SocketFile]> (fs w))
                   (set_fds (<[d := FdSocket (Some name)]> (fds w)) w)).
Proof.
  intros Em Htfd Hr He.
  pose proof (mkstemp_Ok _ _ _ _ _ Em Htfd) as (Hfd & Hfs & Hlen & ->).
  split; [simpl; apply lookup_delete_eq|].
  simpl. rewrite Em. destruct (Z.ltb_spec tfd 0); [lia|]. rewrite Hr, He.
  unfold bind. simpl. rewrite lookup_delete_eq. simpl.
  rewrite in_zeroed_strncpy. rewrite substring_all by (rewrite Hlen; unfold UNIX_PATH_MAX; lia).
  rewrite !delete_insert_id by done. reflexivity.
Qed.




(** C5 (as amended).  In a turn of [bind_anonymous] the path that [mkstemp]
    generated is a regular file, which is closed and unlinked before [bind]
    is called, so that the path has no entry when [bind] runs; [bind] then
    creates the socket file.  A turn in which another process takes the path
    first fails with [EADDRINUSE] and is followed by another turn.  When
    [msgq_open] without an address has returned a handle, the handle's
    address is a path at which a socket file exists in the filesystem and to
    which the handle's socket is bound: nothing removes the socket file. *)
Theorem anonymous_open_leaves_socket_file :
  (∀ d a0 at_ ats w tfd name w1,
     mkstemp MSGQ_TMP_TEMPLATE (at_mkstemp at_) w = (tfd, name, w1) → 0 <= tfd →
     at_rival at_ = false → at_bind_errno at_ = 0 →
     fs w1 !! name = Some RegularFile ∧
     fs (unlink name (close tfd w1)) !! name = None ∧
     bind_anonymous d a0 (at_ :: ats) w =
       Ok (0, name, set_fs (<[name := SocketFile]> (fs w))
                      (set_fds (<[d := FdSocket (Some name)]> (fds w)) w))) ∧
  (∀ d a0 at_ ats w tfd name w1,
     mkstemp MSGQ_TMP_TEMPLATE (at_mkstemp at_) w = (tfd, name, w1) → 0 <= tfd →
     at_rival at_ = true →
     bind_anonymous d a0 (at_ :: ats) w =
       bind_anonymous d a0 ats (rival name (unlink name (close tfd w1)))) ∧
  (∀ e w self m w',
     world_ok w →
     msgq_open None e w = Ok (Some (self, m), w') →
     fs w' !! address m = Some SocketFile ∧
     fds w' !! fd m = Some (FdSocket (Some (address m)))).
Proof.
  split_and!.
  - intros d a0 at_ ats w tfd name w1 Em Htfd Hr He.
    destruct (bind_anonymous_turn d a0 at_ ats w tfd name w1 Em Htfd Hr He) as [H1 H2].
    split_and!; try done.
    apply mkstemp_Ok in Em as (_ & _ & _ & ->); [|done]. simpl. apply lookup_insert_eq.
  - intros. eapply bind_anonymous_retry; eauto.
  - intros e w self m w' Hw Ho.
    apply (open_spec _ _ _ _ _ Hw) in Ho. simpl in Ho.
    destruct Ho as (Hh & _ & Hfs & _). split; [done|]. apply Hh.
Qed.


Lemma world_ok_empty : world_ok empty_world.
Proof.
  split; simpl.
  - apply heap_ok_empty.
  - intros n sz nd H. rewrite lookup_empty in H. discriminate.
  - intros a [x H]. rewrite lookup_empty in H. discriminate.
  - intros a H. apply not_elem_of_empty in H. done.
Qed.

Lemma session_open :
  msgq_open None Session.env empty_world
  = Ok (Some (Session.self, Session.m0), Session.opened_world).
Proof. vm_compute. reflexivity. Qed.

Lemma session_opened : opened Session.self Session.m0 Session.opened_world.
Proof. eapply opened_open; [apply world_ok_empty|apply session_open]. Qed.

Lemma session_first :
  msgq_receiver_iter Session.self Session.dg_hello (Some 16384) (Some 20480)
    Session.m0 Session.opened_world
  = Ok (Continue, (Session.after [Session.first]).1, (Session.after [Session.first]).2).
Proof. vm_compute. reflexivity. Qed.

Lemma session_second :
  msgq_receiver_iter Session.self Session.dg_hello (Some 24576) (Some 28672)
    (Session.after [Session.first]).1 (Session.after [Session.first]).2
  = Ok (Continue, (Session.after [Session.first; Session.second]).1,
                  (Session.after [Session.first; Session.second]).2).
Proof. vm_compute. reflexivity. Qed.

Lemma session_delivered :
  delivered Session.self 2 Session.m0 Session.opened_world
    (Session.after [Session.first; Session.second]).1
    (Session.after [Session.first; Session.second]).2.
Proof.
  eapply (delivered_S _ 1 _ _ _ _ _ _ _ 24576); [|apply session_second|reflexivity].
  eapply (delivered_S _ 0 _ _ _ _ _ _ _ 16384); [|apply session_first|reflexivity].
  apply delivered_O.
Qed.

Lemma session_opened_two :
  opened Session.self (Session.after [Session.first; Session.second]).1
                      (Session.after [Session.first; Session.second]).2.
Proof.
  eapply opened_receiver; [|apply session_second].
  eapply opened_receiver; [|apply session_first].
  apply session_opened.
Qed.

Lemma session_recv :
  msgq_recv Session.self Session.m2 Session.w2
  = Ok (Some 20480, Session.after_recv.1, Session.after_recv.2).
Proof. vm_compute. reflexivity. Qed.

Lemma session_opened_recv :
  opened Session.self Session.after_recv.1 Session.after_recv.2.
Proof. eapply opened_recv; [apply session_opened_two|apply session_recv]. Qed.

(** A caller that waits on the empty queue is woken by a delivery and
    returns its packet. *)
Lemma session_wait_delivery :
  ∃ m w,
    msgq_recv_wait Session.self [[Delivery Session.first]]
      Session.m0 Session.opened_world
    = Ok (Returned (Some 20480) m w) ∧ recvq m = [] ∧ recvs m = 0.
Proof. eexists _, _. vm_compute. split_and!; reflexivity. Qed.

(** A caller woken after another consumer has taken the message finds the
    queue empty at its check and goes on waiting. *)
Lemma session_wait_outrun :
  ∃ m w,
    msgq_recv_wait Session.self [[Delivery Session.first; Consumption]]
      Session.m0 Session.opened_world
    = Ok (Parked m w) ∧ recvq m = [] ∧ mutexes w !! Session.self = Some None.
Proof. eexists _, _. vm_compute. split_and!; reflexivity. Qed.

(** After the two deliveries [msgq_message_count] returns 2. *)
Lemma pending_count_witness :
  msgq_message_count Session.self Session.m2 Session.w2 = Ok (2, Session.w2).
Proof.
  exact (proj2 (proj2 (proj2 (proj2 (proj2 pending_count_is_queue_length))))
           _ _ _ _ _ _ 2%nat _ _ world_ok_empty session_open session_delivered).
Defined.

(** Closing the handle with its two messages frees four blocks, destroys
    the mutex, and leaves the condition variable. *)
Lemma close_witness :
  ∃ m' freed w',
    msgq_close Session.self Session.m2 Session.w2 = Ok (m', freed, w') ∧
    length freed = 4%nat ∧ mutexes w' !! Session.self = None ∧
    Session.self ∈ conds w'.
Proof.
  destruct (close_frees_queue_keeps_cond Session.self Session.m2 Session.w2
              (opened_handle_ok _ _ _ session_opened_two))
    as (m' & freed & w' & Hc & _ & _ & _ & Hl & _ & _ & _ & _ & _ & _ & Hm & _ & Hcv).
  exists m', freed, w'. split_and!; try done.
Defined.

Lemma session_others :
  others Session.self [Delivery Session.first] Session.m0 Session.opened_world
  = Ok ((Session.after [Session.first]).1, (Session.after [Session.first]).2).
Proof. vm_compute. reflexivity. Qed.

(** With two messages queued [msgq_recv_wait] returns the first packet at
    once; on the empty queue it waits, the receiver queues "hello" meanwhile,
    and the wakeup makes it return the packet of that datagram. *)
Lemma recv_wait_witness :
  (∃ nd pk w',
     load_node 16384 (heap Session.w2) = Some nd ∧ packet nd = Some pk ∧
     msgq_recv_wait Session.self [[]] Session.m2 Session.w2
     = Ok (Returned (Some pk)
             (set_recvs (recvs Session.m2 - 1) (set_recvq [24576] Session.m2)) w') ∧
     mutexes w' !! Session.self = Some None) ∧
  (∃ nd pk w',
     load_node 16384 (heap (Session.after [Session.first]).2) = Some nd ∧
     packet nd = Some pk ∧
     msgq_recv_wait Session.self [[Delivery Session.first]]
       Session.m0 Session.opened_world
     = Ok (Returned (Some pk)
             (set_recvs (recvs (Session.after [Session.first]).1 - 1)
                (set_recvq [] (Session.after [Session.first]).1)) w') ∧
     mutexes w' !! Session.self = Some None).
Proof.
  split.
  - exact (proj1 (recv_wait_returns_a_packet Session.self Session.m2 Session.w2 [[]]
                    (opened_handle_ok _ _ _ session_opened_two))
             16384 [24576] eq_refl).
  - exact (proj2 (proj2 (proj2 (proj2
             (recv_wait_returns_a_packet Session.self Session.m0 Session.opened_world
                [[Delivery Session.first]] (opened_handle_ok _ _ _ session_opened)))))
             eq_refl [Delivery Session.first] []
             (Session.after [Session.first]).1 (Session.after [Session.first]).2
             16384 [] eq_refl session_others eq_refl).
Defined.

(** The anonymous queue of the session has its socket file. *)
Lemma anonymous_open_witness :
  fs Session.opened_world !! address Session.m0 = Some SocketFile ∧
  fds Session.opened_world !! fd Session.m0
  = Some (FdSocket (Some (address Session.m0))).
Proof.
  exact (proj2 (proj2 anonymous_open_leaves_socket_file) Session.env empty_world
           Session.self Session.m0 Session.opened_world world_ok_empty session_open).
Defined.

(** C5, against the claim as stated: after [msgq_open] without an address
    has returned, the filesystem has an entry at the queue's address. *)
Lemma anonymous_open_path_exists :
  ∃ m w',
    msgq_open None Session.env empty_world = Ok (Some (Session.self, m), w') ∧
    address m = "/tmp/msgq-abcdef"%string ∧
    fs w' !! address m = Some SocketFile.
Proof.
  exists Session.m0, Session.opened_world. split; [apply session_open|].
  split; vm_compute; reflexivity.
Qed.




(** A failed [sendto] from the session's handle. *)
Lemma send_failure_witness :
  ∃ w',
    msgq_send "/tmp/nobody" (Packet_ 5 None Session.hello) (-1)
      Session.m2 Session.w2 = (-1, Session.m2, w') ∧
    heap w' = heap Session.w2.
Proof.
  destruct (send_failure_changes_nothing "/tmp/nobody" (Packet_ 5 None Session.hello)
              (-1) Session.m2 Session.w2 ltac:(lia)) as (w' & H & Hh & _).
  exists w'. split; assumption.
Defined.

(** The packet received is deleted with its node; the packet of the node
    still in the queue is refused. *)
Lemma pkt_delete_witness :
  (∃ w', msgq_pkt_delete 20480 Session.after_recv.2 = Ok (0, w') ∧
         heap w' !! 20480 = None ∧ heap w' !! 16384 = None) ∧
  msgq_pkt_delete 28672 Session.after_recv.2 = Fault AssertFailed.
Proof.
  split.
  - destruct (proj1 (pkt_delete_detached_or_abort Session.self
                       Session.after_recv.1 Session.after_recv.2
                       20480 (Packet_ 5 (Some 16384) (Session.hello ++ [x00]))
                       16384 (Node_ ELIST_DETACHED (Text "/tmp/peer") (Some 20480))
                       session_opened_recv eq_refl eq_refl eq_refl))
      as (w' & H & H1 & H2 & _).
    + vm_compute. intros H. apply list_elem_of_singleton in H. discriminate.
    + exists w'. split_and!; assumption.
  - apply (proj2 (pkt_delete_detached_or_abort Session.self
                    Session.after_recv.1 Session.after_recv.2
                    28672 (Packet_ 5 (Some 24576) (Session.hello ++ [x00]))
                    24576 (Node_ ELIST_ATTACHED (Text "/tmp/peer") (Some 28672))
                    session_opened_recv eq_refl eq_refl eq_refl)).
    vm_compute. apply list_elem_of_singleton. reflexivity.
Defined.

(** "hello" is duplicated into 14 bytes, the last one the terminator. *)
Lemma copy_packet_witness :
  msgq_copy_packet (Packet_ 5 None Session.hello) (Some 20480) ∅
  = Ok (Some 20480,
        <[20480 := Block 14 (Packet (Packet_ 5 None (Session.hello ++ [x00])))]> ∅).
Proof.
  refine (proj1 (proj2 (copy_packet_terminator (Packet_ 5 None Session.hello) 20480 ∅
                          heap_ok_empty _ _)) x6f eq_refl _ _ eq_refl).
  - simpl. lia.
  - unfold MSGQ_MSG_MAX, PACKET_HDR. simpl. lia.
  - simpl. lia.
  - discriminate.
Defined.

(** A datagram of exactly the header's length stops the duplication. *)
Lemma copy_packet_empty_witness :
  (validate_packet (rf_packet Session.dg_empty) (rf_len Session.dg_empty)).1 = 0 ∧
  msgq_copy_packet
    (validate_packet (rf_packet Session.dg_empty) (rf_len Session.dg_empty)).2
    (Some 20480) ∅
  = Fault (OutOfBounds (WORD - 1)).
Proof.
  destruct (copy_packet_reads_outside_empty_payload Session.dg_empty (Some 20480) ∅
              eq_refl eq_refl ltac:(simpl; lia)) as (H1 & _ & _ & _ & H2).
  split; assumption.
Defined.

(** * Further properties *)

(** ** The receiver's turn in detail *)

Lemma unlock_wakes t mx w : wakes (pthread_mutex_unlock t mx w) = wakes w.
Proof.
  unfold pthread_mutex_unlock.
  destruct (mutexes w !! mx) as [[o|]|]; [destruct (decide (o = t))| |]; done.
Qed.

(** What [msgq_copy_packet] stores: the payload, and the terminator after
    it when the payload does not end in one. *)
Lemma copy_packet_data packet cand h p h' :
  msgq_copy_packet packet cand h = Ok (Some p, h') →
  0 <= p_size packet → PACKET_HDR + p_size packet + 1 < WORD →
  Z.of_nat (length (p_data packet)) < WORD →
  ∃ last c,
    1 <= p_size packet <= Z.of_nat (length (p_data packet)) ∧
    p_data packet !! Z.to_nat (p_size packet - 1) = Some last ∧
    c = Packet_ (p_size packet) (p_container packet)
          (take (Z.to_nat (p_size packet)) (p_data packet)
           ++ (if Byte.eqb last x00 then [] else [x00])) ∧
    fits h p (PACKET_HDR + Z.of_nat (length (p_data c))) = true ∧
    h' = <[p := Block (PACKET_HDR + Z.of_nat (length (p_data c))) (Packet c)]> h.
Proof.
  intros E H0 Hw Hl. unfold msgq_copy_packet, read_data in E.
  destruct (Z.eq_dec (p_size packet) 0) as [Hz|Hz].
  { rewrite (last_index_empty _ Hz) in E.
    destruct (Z.ltb_spec (WORD - 1) (Z.of_nat (length (p_data packet)))); [lia|].
    rewrite andb_false_r in E. discriminate. }
  rewrite last_index_nonempty in E by (unfold PACKET_HDR in *; lia).
  destruct (Z.leb_spec 0 (p_size packet - 1)); [|lia].
  destruct (Z.ltb_spec (p_size packet - 1) (Z.of_nat (length (p_data packet))));
    simpl in E; [|discriminate].
  destruct (p_data packet !! Z.to_nat (p_size packet - 1)) as [last|] eqn:Elast;
    [|discriminate].
  rewrite (to_size_t_small (PACKET_HDR + p_size packet)) in E
    by (unfold PACKET_HDR in *; lia).
  rewrite (to_size_t_small (PACKET_HDR + p_size packet + 1)) in E
    by (unfold PACKET_HDR in *; lia).
  unfold memcpy_packet in E.
  replace (PACKET_HDR + p_size packet - PACKET_HDR) with (p_size packet) in E by lia.
  destruct (Z.leb_spec 0 (p_size packet)); [|lia].
  destruct (Z.leb_spec (p_size packet) (Z.of_nat (length (p_data packet)))); [|lia].
  simpl in E.
  assert (Htake : Z.of_nat (length (take (Z.to_nat (p_size packet)) (p_data packet)))
                  = p_size packet).
  { rewrite length_take. lia. }
  exists last. eexists. split; [lia|]. split; [done|]. split; [reflexivity|]. simpl.
  rewrite length_app, Nat2Z.inj_add, Htake.
  destruct (Byte.eqb last x00); simpl.
  - rewrite Z.add_0_r.
    destruct (malloc _ cand h) as [[a|] h1] eqn:Em; [|discriminate].
    apply malloc_Some in Em as (_ & Hfit & ->).
    rewrite Z.ltb_irrefl in E. injection E as <- <-.
    split; [done|]. unfold store. rewrite alter_insert_eq. simpl.
    now rewrite app_nil_r.
  - destruct (malloc _ cand h) as [[a|] h1] eqn:Em; [|discriminate].
    apply malloc_Some in Em as (_ & Hfit & ->).
    destruct (Z.ltb_spec (PACKET_HDR + p_size packet) (PACKET_HDR + p_size packet + 1)); [|lia].
    injection E as <- <-.
    change (Z.of_nat 1) with 1. rewrite Z.add_assoc.
    split; [done|]. unfold store. rewrite alter_insert_eq. simpl. reflexivity.
Qed.

(** What a successful [msgq_node_create] leaves in the heap. *)
Lemma node_create_packet s packet cn cp h np h' :
  heap_ok h → msgq_node_create s packet cn cp h = Ok (Some np, h') →
  0 <= p_size packet → PACKET_HDR + p_size packet + 1 < WORD →
  Z.of_nat (length (p_data packet)) < WORD →
  ∃ pk last data,
    cn = Some np ∧ cp = Some pk ∧
    h !! np = None ∧ h !! pk = None ∧ np ≠ pk ∧
    1 <= p_size packet <= Z.of_nat (length (p_data packet)) ∧
    p_data packet !! Z.to_nat (p_size packet - 1) = Some last ∧
    data = take (Z.to_nat (p_size packet)) (p_data packet)
           ++ (if Byte.eqb last x00 then [] else [x00]) ∧
    h' = <[np := Block SIZEOF_NODE
                   (Node (Node_ ELIST_DETACHED (strncpy s (UNIX_PATH_MAX - 1)) (Some pk)))]>
           (<[pk := Block (PACKET_HDR + Z.of_nat (length data))
                      (Packet (Packet_ (p_size packet) (Some np) data))]> h).
Proof.
  intros Hok E H0 Hw Hl. unfold msgq_node_create in E.
  destruct (malloc SIZEOF_NODE cn h) as [[p|] h1] eqn:Em.
  2:{ apply malloc_None in Em as ->. discriminate. }
  apply malloc_Some in Em as (-> & Hfit & ->).
  pose proof (heap_ok_insert _ _ _ Raw Hok Hfit) as Hok1.
  destruct (msgq_copy_packet _ _ _) as [[[pk|] h2]| | |] eqn:Ec; simpl in E; try discriminate.
  assert (Hcp : cp = Some pk).
  { unfold msgq_copy_packet in Ec.
    destruct (read_data _ _); [|discriminate].
    destruct (malloc _ cp _) as [[a|] hx] eqn:Em; [|discriminate].
    apply malloc_Some in Em as (-> & _).
    destruct (memcpy_packet _ _); [|discriminate]. now injection Ec as <- _. }
  apply copy_packet_data in Ec as (last & c & Hs & Hlast & -> & Hfit2 & ->); try done.
  simpl in *. unfold load_packet in E. rewrite lookup_insert_eq in E.
  injection E as <- <-.
  pose proof (fits_fresh _ _ _ Hok Hfit) as Hp.
  pose proof (fits_fresh _ _ _ Hok1 Hfit2) as Hpk.
  assert (Hne : p ≠ pk) by (intros ->; rewrite lookup_insert_eq in Hpk; discriminate).
  rewrite lookup_insert_ne in Hpk by done.
  eexists pk, last, _. split_and!; try done; try lia.
  unfold store. rewrite alter_insert_eq. simpl.
  rewrite alter_insert_ne by done. rewrite alter_insert_eq. simpl.
  apply insert_insert_ne. done.
Qed.

(** A turn of the receiver's loop on a handle whose mutex is free: either
    nothing changes, or a node with the duplicate of the validated packet is
    put at the tail, the pending-count goes up by one, and one wake is
    posted on the condition variable. *)
Lemma receiver_iter_cases self r cn cp m w c m' w' :
  inv m w → mutexes w !! self = Some None →
  0 <= rf_len r <= INT_MAX →
  0 <= p_size (rf_packet r) →
  Z.of_nat (length (p_data (rf_packet r))) <= MSGQ_MSG_MAX - PACKET_HDR →
  msgq_receiver_iter self r cn cp m w = Ok (c, m', w') →
  (c = Continue ∧ m' = m ∧ w' = w) ∨
  (∃ np pk last data,
     let size := Z.min (p_size (rf_packet r)) (rf_len r - PACKET_HDR) in
     c = Continue ∧ cn = Some np ∧ cp = Some pk ∧
     heap w !! np = None ∧ heap w !! pk = None ∧ np ≠ pk ∧
     1 <= size <= Z.of_nat (length (p_data (rf_packet r))) ∧
     p_data (rf_packet r) !! Z.to_nat (size - 1) = Some last ∧
     data = take (Z.to_nat size) (p_data (rf_packet r))
            ++ (if Byte.eqb last x00 then [] else [x00]) ∧
     m' = set_recvs (recvs m + 1) (set_recvq (recvq m ++ [np]) m) ∧
     w' = set_wakes (wakes w ++ [(self, if broadcast m =? 0 then Signal else Broadcast)])
            (set_heap
               (<[np := Block SIZEOF_NODE
                          (Node (Node_ ELIST_ATTACHED
                                   (strncpy (rf_from r) (UNIX_PATH_MAX - 1)) (Some pk)))]>
                  (<[pk := Block (PACKET_HDR + Z.of_nat (length data))
                             (Packet (Packet_ size (Some np) data))]> (heap w))) w)).
Proof.
  intros Hinv Hm Hlen H0 Hbuf E.
  pose proof Hinv as (Hok & Hq & Hc).
  unfold msgq_receiver_iter in E.
  destruct (Z.ltb_spec (rf_len r) 0); [lia|].
  destruct (Z_lt_ge_dec (rf_len r) PACKET_HDR) as [Hshort|Hlong].
  { rewrite validate_packet_short in E by done. simpl in E.
    injection E as <- <- <-. now left. }
  rewrite validate_packet_long in E by (try done; lia).
  simpl in E.
  set (size := Z.min (p_size (rf_packet r)) (rf_len r - PACKET_HDR)).
  assert (Hsize : (if rf_len r - PACKET_HDR <? p_size (rf_packet r)
                   then rf_len r - PACKET_HDR else p_size (rf_packet r)) = size).
  { subst size. destruct (Z.ltb_spec (rf_len r - PACKET_HDR) (p_size (rf_packet r))); lia. }
  rewrite Hsize in E.
  destruct (msgq_node_create _ _ _ _ _) as [[[np|] h']| | |] eqn:En; simpl in E;
    try discriminate.
  2:{ apply node_create_None in En as ->; [|done].
      rewrite set_heap_id in E. injection E as <- <- <-. now left. }
  apply node_create_packet in En
    as (pk & last & data & -> & -> & Hnp & Hpk & Hne & Hs & Hlast & Hdata & ->);
    try done; simpl;
    try (unfold MSGQ_MSG_MAX, PACKET_HDR, WORD, INT_MAX in *; lia).
  simpl in *.
  unfold RECVQ_LOCK in E. rewrite lock_free in E by done. simpl in E.
  rewrite (set_link_lookup np _ _ (Node_ ELIST_DETACHED
             (strncpy (rf_from r) (UNIX_PATH_MAX - 1)) (Some pk))) in E
    by apply lookup_insert_eq.
  rewrite insert_insert_eq in E. simpl in E.
  assert (Hcnt : to_size_t (recvs m + 1) = recvs m + 1).
  { pose proof (queue_below_int_max _ _ Hok Hq).
    apply to_size_t_small. unfold WORD. lia. }
  rewrite Hcnt in E.
  right. exists np, pk, last, data. simpl.
  assert (Hres : c = Continue ∧
            m' = set_recvs (recvs m + 1) (set_recvq (recvq m ++ [np]) m) ∧
            w' = set_wakes (wakes w ++ [(self, if broadcast m =? 0 then Signal else Broadcast)])
                   (set_heap
                      (<[np := Block SIZEOF_NODE
                                 (Node (Node_ ELIST_ATTACHED
                                          (strncpy (rf_from r) (UNIX_PATH_MAX - 1)) (Some pk)))]>
                         (<[pk := Block (PACKET_HDR + Z.of_nat (length data))
                                    (Packet (Packet_ size (Some np) data))]> (heap w))) w)).
  { destruct (Z.eqb_spec (broadcast m) 0) as [Eb|Eb]; simpl in E; injection E as <- <- <-;
      (split; [done|]); (split; [done|]);
      unfold RECVQ_UNLOCK; rewrite unlock_owned by (simpl; apply lookup_insert_eq);
      destruct w; unfold set_wakes, set_heap, set_mutexes, pthread_cond_signal,
        pthread_cond_broadcast; simpl in *;
      f_equal; rewrite insert_insert_eq; now apply insert_id. }
  destruct Hres as (-> & -> & ->). split_and!; try done; lia.
Qed.



(** A turn of the receiver's loop leaves the nodes of the queue as they
    are. *)
Lemma receiver_iter_nodes self r cn cp m w c m' w' :
  inv m w →
  msgq_receiver_iter self r cn cp m w = Ok (c, m', w') →
  (recvq m' = recvq m ∨ ∃ np, recvq m' = recvq m ++ [np]) ∧
  ∀ n, n ∈ recvq m → load_node n (heap w') = load_node n (heap w).
Proof.
  intros (Hok & Hq & Hc). unfold msgq_receiver_iter.
  destruct (rf_len r <? 0).
  { destruct (_ || _); intros [= <- <- <-]; (split; [now left|done]). }
  destruct (validate_packet (rf_packet r) (rf_len r)) as [rc packet].
  destruct (rc <? 0).
  { intros [= <- <- <-]; (split; [now left|done]). }
  destruct (msgq_node_create _ _ _ _ _) as [[[np|] h']| | |] eqn:En; simpl; try discriminate.
  2:{ apply node_create_None in En as ->; [|done].
      rewrite set_heap_id. intros [= <- <- <-]. split; [now left|done]. }
  apply node_create_Some in En as (pk & sz & k & Hnp & Hpk & Hne & Hk & _ & -> & Hok'); [|done].
  destruct (RECVQ_LOCK Receiver self _) as [w1| | |] eqn:El; simpl; try discriminate.
  apply lock_Ok in El as (Hh & _). simpl in Hh.
  intros [= <- <- <-]. split; [right; exists np; done|].
  intros n Hn. unfold RECVQ_UNLOCK. rewrite unlock_heap.
  assert (Hx : n ≠ np ∧ n ≠ pk).
  { destruct (qs_nodes _ _ Hq _ Hn) as (nd & _ & _ & _ & E & _).
    split; intros ->; congruence. }
  destruct Hx as [Hx1 Hx2].
  match goal with
  | |- context [if ?b then pthread_cond_broadcast _ _ else _] => destruct b
  end; simpl; rewrite Hh;
    rewrite (set_link_lookup np _ _ (Node_ ELIST_DETACHED
               (strncpy (rf_from r) (UNIX_PATH_MAX - 1)) (Some pk)))
      by apply lookup_insert_eq;
    unfold load_node; now rewrite !lookup_insert_ne by done.
Qed.

(** [msgq_recv] with a node at the head of the queue. *)
Lemma recv_head self m w n q :
  handle_ok self m w → recvq m = n :: q →
  ∃ nd pk sz k,
    heap w !! n = Some (Block SIZEOF_NODE (Node nd)) ∧ packet nd = Some pk ∧
    heap w !! pk = Some (Block sz (Packet k)) ∧ p_container k = Some n ∧ n ≠ pk ∧
    (n ∉ q) ∧ (∀ x, x ∈ q → x ≠ pk) ∧
    msgq_recv self m w =
      Ok (Some pk, set_recvs (recvs m - 1) (set_recvq q m),
          set_heap (<[n := Block SIZEOF_NODE
                             (Node (Node_ ELIST_DETACHED (sender nd) (Some pk)))]> (heap w)) w) ∧
    handle_ok self (set_recvs (recvs m - 1) (set_recvq q m))
      (set_heap (<[n := Block SIZEOF_NODE
                         (Node (Node_ ELIST_DETACHED (sender nd) (Some pk)))]> (heap w)) w).
Proof.
  intros Hh Eq.
  pose proof (ho_inv _ _ _ Hh) as Hinv. pose proof (ho_mutex _ _ _ Hh) as Hm.
  destruct (pop_inv n q m w Hinv Eq)
    as (nd & pk & sz & k & En & Hp & Ek & Hk & Hne & Hnq & Hqpk & Hset & Hcnt & H1 & Hinv1).
  assert (Hsz : to_size_t (recvs m - 1) = recvs m - 1).
  { destruct Hinv as (_ & _ & Hc). rewrite Hcnt, Hc, Eq. simpl. lia. }
  assert (E : msgq_recv self m w =
      Ok (Some pk, set_recvs (recvs m - 1) (set_recvq q m),
          set_heap (<[n := Block SIZEOF_NODE
                             (Node (Node_ ELIST_DETACHED (sender nd) (Some pk)))]> (heap w)) w)).
  { unfold msgq_recv, RECVQ_LOCK, RECVQ_UNLOCK. rewrite lock_free by done. simpl.
    rewrite Eq. simpl. rewrite Hset, Hsz.
    rewrite (unlock_lock App self w _ Hm). simpl.
    unfold load_node. rewrite lookup_insert_eq. simpl. reflexivity. }
  exists nd, pk, sz, k. split_and!; try done.
  pose proof (recv_inv _ _ _ _ _ _ Hinv E) as Hi.
  pose proof (recv_frame _ _ _ _ _ _ Hinv E) as [Hf Hmx].
  eapply handle_ok_step; eauto.
Qed.

(** [msgq_recv] on an empty queue. *)
Lemma recv_nil self m w :
  mutexes w !! self = Some None → recvq m = [] →
  msgq_recv self m w = Ok (None, m, w).
Proof.
  intros Hm Eq. unfold msgq_recv, RECVQ_LOCK, RECVQ_UNLOCK.
  rewrite lock_free by done. simpl. rewrite Eq. simpl.
  rewrite <- Eq, set_recvq_id, (unlock_lock App self w _ Hm), set_heap_id. reflexivity.
Qed.

Lemma recv_all_queue self : ∀ q m w,
  handle_ok self m w → recvq m = q →
  ∃ m' w',
    recv_all self (length q) m w =
      Ok ((λ n, load_node n (heap w) ≫= packet) <$> q, m', w') ∧
    recvq m' = [] ∧ recvs m' = 0 ∧ handle_ok self m' w'.
Proof.
  induction q as [|n q IH]; intros m w Hh Eq; simpl.
  - exists m, w. split_and!; try done.
    destruct (ho_inv _ _ _ Hh) as (_ & _ & Hc). now rewrite Hc, Eq.
  - destruct (recv_head _ _ _ _ _ Hh Eq)
      as (nd & pk & sz & k & En & Hp & Ek & Hk & Hne & Hnq & Hqpk & -> & Hh1).
    simpl. destruct (IH _ _ Hh1 eq_refl) as (m' & w' & -> & Hq' & Hc' & Hh').
    simpl. exists m', w'. split_and!; try done.
    assert (E0 : load_node n (heap w) ≫= packet = Some pk).
    { unfold load_node. now rewrite En. }
    rewrite E0. do 4 f_equal.
    apply list_fmap_ext. intros i x Hx. simpl.
    unfold load_node. rewrite lookup_insert_ne; [done|].
    intros <-. apply Hnq. eapply list_elem_of_lookup_2; eauto.
Qed.

(** X1.  Packets leave the queue in the order in which their datagrams arrived:
    a turn of the receiver's loop leaves the nodes already queued in place,
    each with its packet, and puts a new node behind them; as many calls of
    [msgq_recv] as the queue is long return the packets of its nodes from
    the head to the tail and leave the queue empty. *)
Theorem recv_returns_packets_in_arrival_order :
  ∀ self m w,
    handle_ok self m w →
    (∀ r cn cp c m1 w1,
       msgq_receiver_iter self r cn cp m w = Ok (c, m1, w1) →
       (recvq m1 = recvq m ∨ ∃ np, recvq m1 = recvq m ++ [np]) ∧
       ∀ n, n ∈ recvq m →
         load_node n (heap w1) = load_node n (heap w)) ∧
    ∃ m' w',
      recv_all self (length (recvq m)) m w =
        Ok ((λ n, load_node n (heap w) ≫= packet) <$> recvq m, m', w') ∧
      recvq m' = [] ∧ recvs m' = 0 ∧ handle_ok self m' w'.
Proof.
  intros self m w Hh. split; [|now apply recv_all_queue].
  intros r cn cp c m1 w1 E.
  pose proof (ho_inv _ _ _ Hh) as Hinv.
  now apply (receiver_iter_nodes _ _ _ _ _ _ _ _ _ Hinv E).
Qed.

(** X2.  On an empty queue [msgq_recv] returns a null pointer and
    [msgq_message_count] returns 0; neither call changes the handle or the
    world: the mutex is free again, nothing is allocated or posted. *)
Theorem recv_on_empty_queue_returns_null :
  ∀ self m w,
    handle_ok self m w → recvq m = [] →
    msgq_recv self m w = Ok (None, m, w) ∧
    msgq_message_count self m w = Ok (0, w).
Proof.
  intros self m w Hh Eq. split.
  - apply recv_nil; [apply Hh|done].
  - rewrite message_count_spec by apply Hh.
    destruct (ho_inv _ _ _ Hh) as (_ & _ & Hc). rewrite Hc, Eq. reflexivity.
Qed.

(** The packet of a datagram that the receiver has queued, as the next
    [msgq_recv] returns it: the handle is as it was before the delivery, and
    the world has the packet, its detached node and one more wake. *)
Lemma delivery_recv self m w r cn cp c m1 w1 np :
  handle_ok self m w → recvq m = [] →
  0 <= rf_len r <= INT_MAX → 0 <= p_size (rf_packet r) →
  Z.of_nat (length (p_data (rf_packet r))) <= MSGQ_MSG_MAX - PACKET_HDR →
  msgq_receiver_iter self r cn cp m w = Ok (c, m1, w1) → recvq m1 = [np] →
  let size := Z.min (p_size (rf_packet r)) (rf_len r - PACKET_HDR) in
  ∃ pk last w2,
    1 <= size <= Z.of_nat (length (p_data (rf_packet r))) ∧
    p_data (rf_packet r) !! Z.to_nat (size - 1) = Some last ∧
    let data := take (Z.to_nat size) (p_data (rf_packet r))
                ++ (if Byte.eqb last x00 then [] else [x00]) in
    msgq_recv self m1 w1 = Ok (Some pk, m, w2) ∧
    heap w !! np = None ∧ heap w !! pk = None ∧ np ≠ pk ∧
    w2 = set_wakes (wakes w ++ [(self, if broadcast m =? 0 then Signal else Broadcast)])
           (set_heap
              (<[np := Block SIZEOF_NODE
                         (Node (Node_ ELIST_DETACHED
                                  (strncpy (rf_from r) (UNIX_PATH_MAX - 1)) (Some pk)))]>
                 (<[pk := Block (PACKET_HDR + Z.of_nat (length data))
                            (Packet (Packet_ size (Some np) data))]> (heap w))) w) ∧
    handle_ok self m w2.
Proof.
  intros Hh Eq Hlen H0 Hbuf E Eq1 size.
  pose proof (ho_inv _ _ _ Hh) as Hinv.
  assert (Hh1 : handle_ok self m1 w1).
  { pose proof (receiver_iter_inv _ _ _ _ _ _ _ _ _ Hinv E) as [Hi _].
    pose proof (receiver_iter_frame _ _ _ _ _ _ _ _ _ Hinv E) as [Hf Hm].
    eapply handle_ok_step; eauto. apply Hm, Hh. }
  destruct (receiver_iter_cases _ _ _ _ _ _ _ _ _ Hinv (ho_mutex _ _ _ Hh) Hlen H0 Hbuf E)
    as [(_ & -> & _)|(np' & pk & last & data & Hcase)].
  { rewrite Eq in Eq1. discriminate. }
  simpl in Hcase.
  destruct Hcase as (_ & _ & _ & Hnp & Hpk & Hne & Hs & Hlast & Hdata & Hm1 & Hw1).
  assert (np' = np) as ->.
  { rewrite Hm1 in Eq1. simpl in Eq1. rewrite Eq in Eq1. simpl in Eq1. congruence. }
  destruct (recv_head _ _ _ _ _ Hh1 Eq1)
    as (nd & pk' & sz & k & En & Hp & Ek & Hk & _ & _ & _ & Er & Hh2).
  rewrite Hw1 in En. simpl in En. rewrite lookup_insert_eq in En.
  injection En as <-. simpl in *. injection Hp as <-.
  assert (Hm2 : set_recvs (recvs m1 - 1) (set_recvq [] m1) = m).
  { rewrite Hm1. destruct m; unfold set_recvs, set_recvq; simpl in *. subst. f_equal. lia. }
  rewrite Hm2 in Er, Hh2.
  assert (Hw2 : set_heap
            (<[np := Block SIZEOF_NODE
                       (Node (Node_ ELIST_DETACHED
                                (strncpy (rf_from r) (UNIX_PATH_MAX - 1)) (Some pk)))]>
               (heap w1)) w1
          = set_wakes (wakes w ++ [(self, if broadcast m =? 0 then Signal else Broadcast)])
              (set_heap
                 (<[np := Block SIZEOF_NODE
                            (Node (Node_ ELIST_DETACHED
                                     (strncpy (rf_from r) (UNIX_PATH_MAX - 1)) (Some pk)))]>
                    (<[pk := Block (PACKET_HDR + Z.of_nat (length data))
                               (Packet (Packet_ size (Some np) data))]> (heap w))) w)).
  { rewrite Hw1. unfold set_heap, set_wakes. simpl. f_equal. apply insert_insert_eq. }
  rewrite Hw2 in Er, Hh2. subst data.
  exists pk, last. eexists. split; [done|]. split; [done|]. simpl.
  split_and!; try done.
Qed.

(** The payload stored by the receiver ends in a terminator. *)
Lemma terminated_copy (d : list byte) (size : Z) (lst : byte) :
  1 <= size <= Z.of_nat (length d) →
  d !! Z.to_nat (size - 1) = Some lst →
  let data := take (Z.to_nat size) d ++ (if Byte.eqb lst x00 then [] else [x00]) in
  last data = Some x00 ∧ take (Z.to_nat size) data = take (Z.to_nat size) d.
Proof.
  intros Hs Hl data. subst data. split.
  - destruct (Byte.eqb lst x00) eqn:E.
    + apply byte_dec_bl in E as ->. rewrite app_nil_r, last_lookup.
      rewrite length_take_le by lia. rewrite lookup_take_lt by lia.
      replace (Nat.pred (Z.to_nat size)) with (Z.to_nat (size - 1)) by lia. done.
    + apply last_snoc.
  - rewrite take_app_le by (rewrite length_take_le; lia).
    rewrite take_take. f_equal. lia.
Qed.

(** X3.  A datagram with a payload of at least one byte, declared and
    received, that the receiver has put on an empty queue comes out of the
    next [msgq_recv] as a packet whose recorded length is the declared
    length cut down to the bytes received, whose payload are the first
    bytes of the datagram's payload, and whose stored bytes end in a
    terminator.  [msgq_pkt_sender] points to the array that [strncpy] has
    filled from the datagram's source address: it holds the address as a
    string when that is shorter than [UNIX_PATH_MAX - 1] characters, and
    else its first [UNIX_PATH_MAX - 1] characters without a terminator.
    The queue is empty again. *)
Theorem received_packet_carries_the_datagram :
  ∀ self m w r cn cp c m1 w1 np,
    handle_ok self m w → recvq m = [] →
    0 <= rf_len r <= INT_MAX → 0 <= p_size (rf_packet r) →
    Z.of_nat (length (p_data (rf_packet r))) <= MSGQ_MSG_MAX - PACKET_HDR →
    let size := Z.min (p_size (rf_packet r)) (rf_len r - PACKET_HDR) in
    1 <= size →
    msgq_receiver_iter self r cn cp m w = Ok (c, m1, w1) → recvq m1 = [np] →
    ∃ pk k m2 w2,
      msgq_recv self m1 w1 = Ok (Some pk, m2, w2) ∧
      load_packet pk (heap w2) = Some k ∧
      p_size k = size ∧
      take (Z.to_nat size) (p_data k) = take (Z.to_nat size) (p_data (rf_packet r)) ∧
      last (p_data k) = Some x00 ∧
      (Z.of_nat (String.length (rf_from r)) < UNIX_PATH_MAX - 1 →
         msgq_pkt_sender pk w2 = Ok (Some (Text (rf_from r)))) ∧
      (UNIX_PATH_MAX - 1 <= Z.of_nat (String.length (rf_from r)) →
         msgq_pkt_sender pk w2
         = Ok (Some (Unterminated
                       (String.substring 0 (Z.to_nat (UNIX_PATH_MAX - 1)) (rf_from r))))) ∧
      recvq m2 = [] ∧ msgq_message_count self m2 w2 = Ok (0, w2).
Proof.
  intros self m w r cn cp c m1 w1 np Hh Eq Hlen H0 Hbuf size Hsize E Eq1.
  destruct (delivery_recv _ _ _ _ _ _ _ _ _ _ Hh Eq Hlen H0 Hbuf E Eq1)
    as (pk & lst & w2 & Hs & Hl & Er & Hnp & Hpk & Hne & Hw2 & Hh2).
  fold size in Hs, Hl, Hw2.
  destruct (terminated_copy _ _ _ Hs Hl) as [Hlast Htake].
  assert (Ek : heap w2 !! pk = Some (Block
            (PACKET_HDR + Z.of_nat (length (take (Z.to_nat size) (p_data (rf_packet r))
                                            ++ (if Byte.eqb lst x00 then [] else [x00]))))
            (Packet (Packet_ size (Some np)
                       (take (Z.to_nat size) (p_data (rf_packet r))
                        ++ (if Byte.eqb lst x00 then [] else [x00])))))).
  { rewrite Hw2. simpl. rewrite lookup_insert_ne by done. apply lookup_insert_eq. }
  assert (En : heap w2 !! np = Some (Block SIZEOF_NODE
            (Node (Node_ ELIST_DETACHED (strncpy (rf_from r) (UNIX_PATH_MAX - 1)) (Some pk))))).
  { rewrite Hw2. simpl. apply lookup_insert_eq. }
  eexists pk, _, m, w2. split; [exact Er|].
  split; [unfold load_packet; rewrite Ek; reflexivity|]. simpl.
  destruct (ho_inv _ _ _ Hh) as (_ & _ & Hc).
  assert (Hsnd : msgq_pkt_sender pk w2 = Ok (Some (strncpy (rf_from r) (UNIX_PATH_MAX - 1)))).
  { unfold msgq_pkt_sender, load_packet, load_node. rewrite Ek. simpl. now rewrite En. }
  split_and!; try done; try lia.
  - intros Hshort. now rewrite Hsnd, strncpy_short.
  - intros Hlong. now rewrite Hsnd, strncpy_long.
  - rewrite message_count_spec by apply Hh2. now rewrite Hc, Eq.
Qed.

(** X4.  When the allocator refuses the node or the packet, the datagram is
    dropped: the turn of the loop ends with the handle and the whole world as
    they were (a node allocated before the packet was refused is freed
    again), and the loop goes on. *)
Theorem allocation_failure_drops_the_datagram :
  ∀ self r cn cp m w,
    heap_ok (heap w) →
    PACKET_HDR < rf_len r <= INT_MAX → 1 <= p_size (rf_packet r) →
    rf_len r - PACKET_HDR <= Z.of_nat (length (p_data (rf_packet r))) →
    cn = None ∨ cp = None →
    msgq_receiver_iter self r cn cp m w = Ok (Continue, m, w).
Proof.
  intros self r cn cp m w Hok Hlen H1 Hbuf Hnone. unfold msgq_receiver_iter.
  assert (Hhdr : PACKET_HDR = 8) by reflexivity.
  destruct (Z.ltb_spec (rf_len r) 0); [lia|].
  rewrite validate_packet_long by lia. simpl.
  set (size := if rf_len r - PACKET_HDR <? p_size (rf_packet r)
               then rf_len r - PACKET_HDR else p_size (rf_packet r)).
  assert (Hs : 1 <= size <= rf_len r - PACKET_HDR).
  { subst size. destruct (Z.ltb_spec (rf_len r - PACKET_HDR) (p_size (rf_packet r))); lia. }
  unfold msgq_node_create.
  destruct (malloc SIZEOF_NODE cn (heap w)) as [[p|] h1] eqn:Em.
  2:{ apply malloc_None in Em as ->. simpl. now rewrite set_heap_id. }
  apply malloc_Some in Em as (-> & Hfit & ->).
  destruct Hnone as [Hcn | ->]; [discriminate|].
  unfold msgq_copy_packet, read_data. simpl.
  rewrite last_index_nonempty by (simpl; unfold WORD, INT_MAX, PACKET_HDR in *; lia).
  simpl.
  destruct (Z.leb_spec 0 (size - 1)); [|lia].
  destruct (Z.ltb_spec (size - 1) (Z.of_nat (length (p_data (rf_packet r))))); [|lia].
  simpl.
  destruct (lookup_lt_is_Some_2 (p_data (rf_packet r)) (Z.to_nat (size - 1))) as [lst ->];
    [lia|].
  simpl. unfold free. rewrite delete_insert_id by eauto using fits_fresh.
  now rewrite set_heap_id.
Qed.

(** X5.  A failed [recvfrom]: with [EAGAIN], [EWOULDBLOCK] or [EINTR] the receiver
    thread goes on to the next datagram as if nothing had happened; with any
    other error it leaves its loop for good, runs its cleanup handler, and
    ends with the handle and the world as they were when it started, the
    mutex free; the datagrams behind the failure are never read. *)
Theorem receiver_retries_or_ends_on_recvfrom_error :
  ∀ self r cn cp ins m w,
    mutexes w !! self = Some None → rf_len r < 0 →
    (rf_errno r = EAGAIN ∨ rf_errno r = EWOULDBLOCK ∨ rf_errno r = EINTR →
       msgq_receiver self ((r, cn, cp) :: ins) m w = msgq_receiver self ins m w) ∧
    (rf_errno r ≠ EAGAIN → rf_errno r ≠ EWOULDBLOCK → rf_errno r ≠ EINTR →
       msgq_receiver self ((r, cn, cp) :: ins) m w = Ok (Break, m, w)).
Proof.
  intros self r cn cp ins m w Hm Hneg.
  assert (Hu : pthread_mutex_unlock Receiver self
                 (set_mutexes (<[self:=Some Receiver]> (mutexes w)) w) = w).
  { pose proof (unlock_lock Receiver self w (heap w) Hm) as Hu.
    rewrite set_heap_id in Hu.
    replace (set_mutexes (<[self:=Some Receiver]> (mutexes w)) w)
      with (set_heap (heap w) (set_mutexes (<[self:=Some Receiver]> (mutexes w)) w))
      by (destruct w; reflexivity).
    exact Hu. }
  unfold msgq_receiver, RECVQ_LOCK, RECVQ_UNLOCK.
  rewrite lock_free by done. simpl. rewrite Hu. simpl.
  unfold msgq_receiver_iter.
  destruct (Z.ltb_spec (rf_len r) 0); [|lia].
  split.
  - intros He.
    assert (Hb : (rf_errno r =? EAGAIN) || (rf_errno r =? EWOULDBLOCK)
                 || (rf_errno r =? EINTR) = true).
    { destruct He as [->| [->| ->]]; reflexivity. }
    rewrite Hb. simpl. reflexivity.
  - intros H1 H2 H3.
    destruct (Z.eqb_spec (rf_errno r) EAGAIN); [done|].
    destruct (Z.eqb_spec (rf_errno r) EWOULDBLOCK); [done|].
    destruct (Z.eqb_spec (rf_errno r) EINTR); [done|].
    simpl. unfold msgq_receiver_cleaner, pthread_mutex_unlock. now rewrite Hm.
Qed.

(** ** The wake policy *)

Lemma open_broadcast addr e w self m w' :
  msgq_open addr e w = Ok (Some (self, m), w') → broadcast m = 0.
Proof.
  unfold msgq_open.
  destruct (malloc SIZEOF_MSGQ _ _) as [[s|] h1]; [|discriminate].
  destruct (malloc MSGQ_MSG_MAX _ _) as [[b|] h2]; [|discriminate].
  destruct (oe_mutex_init e); simpl; [|discriminate].
  destruct (oe_cond_init e); simpl; [|discriminate].
  destruct (RECVQ_LOCK _ _ _) as [w1| | |]; simpl; try discriminate.
  destruct (msgq_get_listener _ _ _ _) as [[[ret m1] w2]| | |] eqn:Eg; simpl; try discriminate.
  apply get_listener_spec in Eg as (_ & _ & _ & _ & Hb & _). simpl in Hb.
  destruct (ret <? 0); [discriminate|].
  destruct (msgq_start_receiver _ _ _) as [ret2 w3].
  destruct (ret2 <? 0); [discriminate|].
  intros [= <- <- <-]. done.
Qed.

(** No call changes [broadcast], which [msgq_open] sets to 0. *)
Lemma opened_broadcast self m w : opened self m w → broadcast m = 0.
Proof.
  induction 1 as [addr e w0 m w Hw0 Ho
                 |r cn cp m w c m' w' Ho IH E
                 |m w pk m' w' Ho IH E
                 |wakeups m w pk m' w' Ho IH E
                 |wakeups m w m' w' Ho IH E
                 |pk m w ret w' Ho IH E
                 |receiver packet sr m w ret m' w' Ho IH E
                 |m w n w' Ho IH E]; try done.
  - eapply open_broadcast; eauto.
  - apply receiver_iter_frame in E as [(_ & _ & Hf) _]; [|now apply opened_inv in Ho].
    injection Hf as _ _ _ ->. done.
  - apply recv_frame in E as [(_ & _ & Hf) _]; [|now apply opened_inv in Ho].
    injection Hf as _ _ _ ->. done.
  - apply opened_handle_ok in Ho.
    apply recv_wait_frame in E as [(_ & _ & Hf) _]; [|apply Ho|apply Ho].
    injection Hf as _ _ _ ->. done.
  - apply opened_handle_ok in Ho.
    apply recv_wait_frame in E as [(_ & _ & Hf) _]; [|apply Ho|apply Ho].
    injection Hf as _ _ _ ->. done.
  - unfold msgq_send, sendto in E. destruct (sr <? 0); injection E as _ <- _; done.
Qed.

(** What a turn of the receiver's loop posts on the condition variable. *)
Lemma receiver_iter_wakes self r cn cp m w c m' w' :
  inv m w →
  msgq_receiver_iter self r cn cp m w = Ok (c, m', w') →
  (recvq m' = recvq m ∧ wakes w' = wakes w) ∨
  (∃ np, recvq m' = recvq m ++ [np] ∧
         wakes w' = wakes w ++ [(self, if broadcast m =? 0 then Signal else Broadcast)]).
Proof.
  intros (Hok & Hq & Hc). unfold msgq_receiver_iter.
  destruct (rf_len r <? 0).
  { destruct (_ || _); intros [= <- <- <-]; now left. }
  destruct (validate_packet (rf_packet r) (rf_len r)) as [rc packet].
  destruct (rc <? 0).
  { intros [= <- <- <-]; now left. }
  destruct (msgq_node_create _ _ _ _ _) as [[[np|] h']| | |] eqn:En; simpl; try discriminate.
  2:{ intros [= <- <- <-]. now left. }
  destruct (RECVQ_LOCK Receiver self _) as [w1| | |] eqn:El; simpl; try discriminate.
  apply lock_Ok in El as (_ & _ & _ & _ & _ & Hwk & _). simpl in Hwk.
  intros [= <- <- <-]. right. exists np. split; [done|].
  unfold RECVQ_UNLOCK. rewrite unlock_wakes.
  destruct (Z.eqb_spec (broadcast m) 0); simpl; now rewrite Hwk.
Qed.

(** X6.  A handle opened by [msgq_open] wakes one waiter per message: [broadcast]
    is 0 in every state the handle reaches, a turn of the receiver's loop
    that queues a datagram posts one [pthread_cond_signal] on the handle's
    condition variable, and a turn that queues nothing posts nothing;
    [pthread_cond_broadcast] is never called. *)
Theorem deliveries_signal_one_waiter :
  ∀ self m w,
    opened self m w →
    broadcast m = 0 ∧
    ∀ r cn cp c m' w',
      msgq_receiver_iter self r cn cp m w = Ok (c, m', w') →
      (recvq m' = recvq m ∧ wakes w' = wakes w) ∨
      (∃ np, recvq m' = recvq m ++ [np] ∧ wakes w' = wakes w ++ [(self, Signal)]).
Proof.
  intros self m w Ho.
  pose proof (opened_broadcast _ _ _ Ho) as Hb. split; [done|].
  intros r cn cp c m' w' E.
  apply receiver_iter_wakes in E; [|now apply opened_inv in Ho].
  now rewrite Hb in E.
Qed.

(** ** Sending a string *)

Lemma string_packet_spec (out : list byte) :
  Z.of_nat (length out) + 1 <= INT_MAX →
  string_packet out = Packet_ (Z.of_nat (length out) + 1) None (out ++ [x00]).
Proof.
  intros H. unfold string_packet, vsnprintf. simpl.
  destruct (Z.leb_spec (Z.of_nat (length out)) INT_MAX); [|lia].
  rewrite to_size_t_small by (unfold WORD, INT_MAX in *; lia).
  destruct (Z.leb_spec (Z.of_nat (length out) + 1) 0); [lia|].
  rewrite take_ge by lia. reflexivity.
Qed.

(** X7.  [msgq_send_string] with a text whose length and terminator count
    as an [int] frees the packet it allocates, whether [sendto] succeeds or
    not: the heap, the descriptors, the mutexes and the handle are as before
    the call.  When [malloc] fails it returns -1 and nothing is sent;
    otherwise [sendto] is called once, on the handle's socket, with the
    header, the text and the terminator, and the result is -1 or 0 as
    [sendto] failed or not.  The [sun_path] it is called with is what
    [strncpy] leaves there: the receiver's name as a string when that is
    shorter than [UNIX_PATH_MAX - 1] characters, and else its first
    [UNIX_PATH_MAX - 1] characters without a terminator. *)
Theorem send_string_frees_its_packet :
  ∀ receiver out cand sendto_ret m w,
    heap_ok (heap w) →
    Z.of_nat (length out) + 1 <= INT_MAX →
    ∃ rc w',
      msgq_send_string receiver out cand sendto_ret m w = (rc, m, w') ∧
      heap w' = heap w ∧ fds w' = fds w ∧ fs w' = fs w ∧ mutexes w' = mutexes w ∧
      ((malloc (PACKET_HDR + Z.of_nat (length out) + 1) cand (heap w)).1 = None →
         rc = -1 ∧ w' = w) ∧
      ((malloc (PACKET_HDR + Z.of_nat (length out) + 1) cand (heap w)).1 ≠ None →
         rc = (if sendto_ret <? 0 then -1 else 0) ∧
         sent w' = sent w ++ [(fd m,
                               if Z.of_nat (String.length receiver) <? UNIX_PATH_MAX - 1
                               then Text receiver
                               else Unterminated
                                      (String.substring 0 (Z.to_nat (UNIX_PATH_MAX - 1))
                                         receiver),
                               PACKET_HDR + Z.of_nat (length out) + 1, sendto_ret)]).
Proof.
  intros receiver out cand sr m w Hok Hb.
  unfold msgq_send_string. rewrite string_packet_spec by done.
  unfold vsnprintf at 1. simpl.
  destruct (Z.leb_spec (Z.of_nat (length out)) INT_MAX); [|lia].
  rewrite to_size_t_small by (unfold INT_MAX, PACKET_HDR, WORD in *; lia).
  destruct (malloc _ cand (heap w)) as [[p|] h1] eqn:Em.
  - apply malloc_Some in Em as (_ & Hfit & ->).
    unfold msgq_send, sendto, sizeof_packet. simpl.
    rewrite (Z.add_assoc PACKET_HDR).
    rewrite to_size_t_small by (unfold INT_MAX, PACKET_HDR, WORD in *; lia).
    exists (if sr <? 0 then -1 else 0). eexists.
    split; [destruct (sr <? 0); reflexivity|]. simpl.
    split_and!; try done.
    unfold free, store. rewrite alter_insert_eq.
    apply delete_insert_id. eauto using fits_fresh.
  - apply malloc_None in Em as ->. exists (-1), w. simpl. split_and!; done.
Qed.

(** X8.  A text sent with [msgq_send_string] that fits the receive buffer
    and is queued by the receiver of the destination comes out of
    [msgq_recv] as it went in: the packet holds the text and its terminator,
    its recorded length counts both, and the block has no byte more than
    header, text and terminator.  [msgq_pkt_sender] gives the address the
    sending socket is bound to when that is shorter than
    [UNIX_PATH_MAX - 1] characters; of a longer one the array holds the first
    [UNIX_PATH_MAX - 1] characters and no terminator. *)
Theorem send_string_round_trip :
  ∀ self m w from out cn cp c m1 w1 np,
    handle_ok self m w → recvq m = [] →
    PACKET_HDR + Z.of_nat (length out) + 1 <= MSGQ_MSG_MAX →
    msgq_receiver_iter self (datagram from (string_packet out)) cn cp m w = Ok (c, m1, w1) →
    recvq m1 = [np] →
    ∃ pk m2 w2,
      msgq_recv self m1 w1 = Ok (Some pk, m2, w2) ∧
      heap w2 !! pk =
        Some (Block (PACKET_HDR + Z.of_nat (length out) + 1)
                (Packet (Packet_ (Z.of_nat (length out) + 1) (Some np) (out ++ [x00])))) ∧
      (Z.of_nat (String.length from) < UNIX_PATH_MAX - 1 →
         msgq_pkt_sender pk w2 = Ok (Some (Text from))) ∧
      (UNIX_PATH_MAX - 1 <= Z.of_nat (String.length from) →
         msgq_pkt_sender pk w2
         = Ok (Some (Unterminated
                       (String.substring 0 (Z.to_nat (UNIX_PATH_MAX - 1)) from)))) ∧
      recvq m2 = [].
Proof.
  intros self m w from out cn cp c m1 w1 np Hh Eq Hlen E Eq1.
  assert (Hhdr : PACKET_HDR = 8) by reflexivity.
  assert (Hmax : MSGQ_MSG_MAX = 4096) by reflexivity.
  assert (Hb : Z.of_nat (length out) + 1 <= INT_MAX) by (unfold INT_MAX; lia).
  rewrite string_packet_spec in E by done.
  set (r := datagram from (Packet_ (Z.of_nat (length out) + 1) None (out ++ [x00]))) in *.
  assert (Hrl : rf_len r = PACKET_HDR + Z.of_nat (length out) + 1).
  { subst r. unfold datagram, sizeof_packet. simpl.
    rewrite Z.add_assoc. apply to_size_t_small. unfold WORD. lia. }
  assert (Hdl : length (out ++ [x00]) = S (length out)).
  { rewrite length_app. simpl. lia. }
  destruct (delivery_recv self m w r cn cp c m1 w1 np Hh Eq)
    as (pk & lst & w2 & Hs & Hl & Er & Hnp & Hpk & Hne & Hw2 & _); try done.
  { rewrite Hrl. unfold INT_MAX. lia. }
  { simpl. lia. }
  { simpl. rewrite Hdl. lia. }
  assert (Ek : heap w2 !! pk = Some (Block
            (PACKET_HDR + Z.of_nat (length
               (take (Z.to_nat (Z.min (p_size (rf_packet r)) (rf_len r - PACKET_HDR)))
                  (p_data (rf_packet r)) ++ (if Byte.eqb lst x00 then [] else [x00]))))
            (Packet (Packet_ (Z.min (p_size (rf_packet r)) (rf_len r - PACKET_HDR)) (Some np)
                       (take (Z.to_nat (Z.min (p_size (rf_packet r)) (rf_len r - PACKET_HDR)))
                          (p_data (rf_packet r))
                        ++ (if Byte.eqb lst x00 then [] else [x00])))))).
  { rewrite Hw2. simpl. rewrite lookup_insert_ne by done. apply lookup_insert_eq. }
  assert (En : heap w2 !! np = Some (Block SIZEOF_NODE
            (Node (Node_ ELIST_DETACHED (strncpy (rf_from r) (UNIX_PATH_MAX - 1)) (Some pk))))).
  { rewrite Hw2. simpl. apply lookup_insert_eq. }
  clear Hw2.
  rewrite Hrl in *. simpl in *.
  replace (Z.min (Z.of_nat (length out) + 1)
                 (PACKET_HDR + Z.of_nat (length out) + 1 - PACKET_HDR))
    with (Z.of_nat (length out) + 1) in * by lia.
  replace (Z.to_nat (Z.of_nat (length out) + 1 - 1)) with (length out) in Hl by lia.
  rewrite lookup_app_r, Nat.sub_diag in Hl by lia. simpl in Hl. injection Hl as <-.
  simpl in Ek.
  replace (Z.to_nat (Z.of_nat (length out) + 1)) with (length (out ++ [x00])) in Ek
    by (rewrite Hdl; lia).
  rewrite firstn_all, app_nil_r, Hdl in Ek.
  assert (Hsnd : msgq_pkt_sender pk w2 = Ok (Some (strncpy from (UNIX_PATH_MAX - 1)))).
  { unfold msgq_pkt_sender, load_packet, load_node. rewrite Ek. simpl. now rewrite En. }
  exists pk, m, w2. split_and!; try done.
  - rewrite Ek. do 2 f_equal. lia.
  - intros Hshort. now rewrite Hsnd, strncpy_short.
  - intros Hlong. now rewrite Hsnd, strncpy_long.
Qed.

(** ** Named queues *)


Lemma follow_absent n path (f : gmap string ftype) :
  f !! path = None → follow n path f = None.
Proof. intros H. destruct n; simpl; now rewrite H. Qed.

Lemma follow_entry n path (f : gmap string ftype) ty :
  follow n path f = Some ty → ∃ entry, f !! path = Some entry.
Proof.
  intros H. destruct (f !! path) as [entry|] eqn:E; [eauto|].
  now rewrite follow_absent in H.
Qed.







(** ** Anonymous queues: the temporary files *)

(** X11.  [bind_anonymous] leaves no temporary file behind.  However many turns
    its loop takes and however it ends, every entry the filesystem had is
    still there, every entry that is new is a socket file, and every
    descriptor but the socket's own is as it was: each file that [mkstemp]
    created has been closed and unlinked.  When [mkstemp] itself fails, the
    call returns -1 at once with the world as it was. *)
Theorem bind_anonymous_leaves_no_temporary_file :
  ∀ d a0 ats w,
    (∀ ret a w',
       bind_anonymous d a0 ats w = Ok (ret, a, w') →
       fs w ⊆ fs w' ∧
       (∀ p ty, fs w !! p = None → fs w' !! p = Some ty → ty = SocketFile) ∧
       (∀ x, x ≠ d → fds w' !! x = fds w !! x)) ∧
    (∀ at_ ats', ats = at_ :: ats' →
       (mkstemp MSGQ_TMP_TEMPLATE (at_mkstemp at_) w).1.1 < 0 →
       bind_anonymous d a0 ats w = Ok (-1, a0, w)).
Proof.
  intros d a0 ats w. split.
  - revert w. induction ats as [|at_ ats IH]; intros w ret a w'; simpl; [discriminate|].
    destruct (mkstemp MSGQ_TMP_TEMPLATE (at_mkstemp at_) w) as [[tfd name] w1] eqn:Em.
    destruct (Z.ltb_spec tfd 0) as [Hneg|Hpos].
    { apply mkstemp_fail in Em as ->; [|done]. intros [= <- <- <-]. split_and!; try done.
      congruence. }
    apply mkstemp_Ok in Em as (Htfd & Hname & Hlen & ->); [|done].
    assert (Hback : unlink name (close tfd
                      (set_fs (<[name := RegularFile]> (fs w))
                         (set_fds (<[tfd := FdFile name]> (fds w)) w))) = w).
    { unfold unlink, close. simpl. rewrite !delete_insert_id by done.
      destruct w; reflexivity. }
    rewrite Hback.
    destruct (at_rival at_); simpl.
    + unfold bind, rival. simpl. rewrite lookup_insert_eq. simpl.
      intros H. apply IH in H as (Hsub & Hnew & Hfds). simpl in *.
      split_and!; try done.
      * etrans; [|exact Hsub]. now apply insert_subseteq.
      * intros p ty Hp Hp'. destruct (decide (p = name)) as [->|Hne].
        -- assert (Hs : <[name:=SocketFile]> (fs w) !! name = Some SocketFile)
             by apply lookup_insert_eq.
           eapply lookup_weaken in Hs; [|exact Hsub]. congruence.
        -- eapply Hnew; [|exact Hp']. now rewrite lookup_insert_ne.
    + unfold bind. rewrite Hname.
      destruct (Z.eqb_spec (at_bind_errno at_) 0); simpl.
      * intros [= <- <- <-]. simpl. split_and!.
        -- now apply insert_subseteq.
        -- intros p ty Hp. rewrite lookup_insert. case_decide; congruence.
        -- intros x Hx. now rewrite lookup_insert_ne.
      * destruct (Z.eqb_spec (at_bind_errno at_) EADDRINUSE); simpl.
        -- intros H. now apply IH in H.
        -- intros [= <- <- <-]. split_and!; try done. congruence.
  - intros at_ ats' -> Hneg. simpl.
    destruct (mkstemp MSGQ_TMP_TEMPLATE (at_mkstemp at_) w) as [[tfd name] w1] eqn:Em.
    simpl in Hneg. destruct (Z.ltb_spec tfd 0); [|lia].
    apply mkstemp_fail in Em as ->; done.
Qed.

(** ** Receiving and deleting *)

(** X12.  A packet returned by [msgq_recv] can be handed to [msgq_pkt_delete]: the
    assertions hold, the call returns 0, and the packet and its node are
    gone from the heap, which is otherwise as before the two calls; the
    handle is intact and its queue is the rest of the old one. *)
Theorem received_packet_can_be_deleted :
  ∀ self m w n q,
    handle_ok self m w → recvq m = n :: q →
    ∃ pk m' w' w'',
      msgq_recv self m w = Ok (Some pk, m', w') ∧
      msgq_pkt_delete pk w' = Ok (0, w'') ∧
      is_Some (heap w !! n) ∧ is_Some (heap w !! pk) ∧
      heap w'' = delete n (delete pk (heap w)) ∧
      recvq m' = q ∧ handle_ok self m' w''.
Proof.
  intros self m w n q Hh Eq.
  destruct (recv_head _ _ _ _ _ Hh Eq)
    as (nd & pk & sz & k & En & Hp & Ek & Hk & Hne & Hnq & Hqpk & Er & Hh1).
  set (w1 := set_heap (<[n := Block SIZEOF_NODE
                (Node (Node_ ELIST_DETACHED (sender nd) (Some pk)))]> (heap w)) w) in *.
  assert (Ed : msgq_pkt_delete pk w1 = Ok (0, set_heap (free n (free pk (heap w1))) w1)).
  { unfold msgq_pkt_delete, load_packet, load_node. subst w1. simpl.
    rewrite lookup_insert_ne by done. rewrite Ek, Hk, lookup_insert_eq. reflexivity. }
  eexists pk, _, w1, _. split; [exact Er|]. split; [exact Ed|].
  split_and!; eauto.
  - subst w1. simpl. unfold free.
    rewrite delete_insert_ne by done. apply delete_insert_eq.
  - pose proof (pkt_delete_inv _ _ _ _ _ (ho_inv _ _ _ Hh1) Ed) as Hi.
    destruct (pkt_delete_frame _ (set_recvs (recvs m - 1) (set_recvq q m)) _ _ _ Ed)
      as [Hf Hm].
    eapply handle_ok_step; eauto. rewrite Hm. apply Hh1.
Qed.

(** ** Waiting for a delivery *)

(** A caller suspended on the empty queue and woken after a delivery does
    what [msgq_recv] does after that delivery. *)
Lemma recv_wait_after_delivery self m w r cn cp c m1 w1 np rest pk m2 w2 :
  handle_ok self m w → recvq m = [] →
  msgq_receiver_iter self r cn cp m w = Ok (c, m1, w1) → recvq m1 = [np] →
  msgq_recv self m1 w1 = Ok (Some pk, m2, w2) →
  msgq_recv_wait self ([Delivery (r, cn, cp)] :: rest) m w = Ok (Returned (Some pk) m2 w2).
Proof.
  intros Hh Eq E Eq1 Er0.
  pose proof (ho_inv _ _ _ Hh) as Hinv. pose proof (ho_mutex _ _ _ Hh) as Hm.
  assert (Hh1 : handle_ok self m1 w1).
  { pose proof (receiver_iter_inv _ _ _ _ _ _ _ _ _ Hinv E) as [Hi _].
    pose proof (receiver_iter_frame _ _ _ _ _ _ _ _ _ Hinv E) as [Hf Hmx].
    eapply handle_ok_step; eauto. }
  pose proof (ho_mutex _ _ _ Hh1) as Hm1.
  destruct (recv_head _ _ _ _ _ Hh1 Eq1)
    as (nd & pk' & sz & k & En & Hp & Ek & Hk & Hne & _ & _ & Er & Hh2).
  rewrite Er in Er0. injection Er0 as <- <- <-.
  assert (Hu : pthread_mutex_unlock App self
                 (set_mutexes (<[self:=Some App]> (mutexes w)) w) = w).
  { pose proof (unlock_lock App self w (heap w) Hm) as Hu.
    rewrite set_heap_id in Hu.
    replace (set_mutexes (<[self:=Some App]> (mutexes w)) w)
      with (set_heap (heap w) (set_mutexes (<[self:=Some App]> (mutexes w)) w))
      by (destruct w; reflexivity).
    exact Hu. }
  unfold msgq_recv_wait, RECVQ_LOCK. rewrite lock_free by done.
  revert Hu. generalize (set_mutexes (<[self:=Some App]> (mutexes w)) w). intros wl Hu.
  simpl. rewrite Eq. simpl. rewrite set_heap_id, <- Eq, set_recvq_id.
  unfold pthread_cond_wait. rewrite Hu. simpl. rewrite E. simpl.
  rewrite lock_free by done. simpl.
  assert (Hinvl : inv m1 (set_mutexes (<[self := Some App]> (mutexes w1)) w1))
    by (eapply inv_heap; [|apply Hh1]; done).
  destruct (recv_wait_pop self rest np [] m1 _ Hinvl Eq1)
    as (nd' & pk'' & sz' & k' & En' & Hp' & -> & _ & _).
  simpl in En'. rewrite En in En'. injection En' as <-.
  rewrite Hp in Hp'. injection Hp' as <-.
  do 2 f_equal; [now rewrite Eq|]. simpl.
  rewrite (set_link_lookup _ _ _ _ En).
  unfold RECVQ_UNLOCK. rewrite (unlock_lock App self w1 _ Hm1). now rewrite Hp.
Qed.

(** X13.  A caller of [msgq_recv_wait] that finds the queue empty and is woken
    after the receiver has queued a datagram returns the packet of that
    datagram, and leaves the handle and the world as a call of [msgq_recv]
    made right after the delivery would. *)
Theorem recv_wait_returns_the_message_that_arrives :
  ∀ self m w r cn cp c m1 w1 np rest,
    handle_ok self m w → recvq m = [] →
    msgq_receiver_iter self r cn cp m w = Ok (c, m1, w1) → recvq m1 = [np] →
    ∃ nd pk m2 w2,
      load_node np (heap w1) = Some nd ∧ packet nd = Some pk ∧
      msgq_recv self m1 w1 = Ok (Some pk, m2, w2) ∧
      msgq_recv_wait self ([Delivery (r, cn, cp)] :: rest) m w
        = Ok (Returned (Some pk) m2 w2) ∧
      recvq m2 = [].
Proof.
  intros self m w r cn cp c m1 w1 np rest Hh Eq E Eq1.
  pose proof (ho_inv _ _ _ Hh) as Hinv.
  assert (Hh1 : handle_ok self m1 w1).
  { pose proof (receiver_iter_inv _ _ _ _ _ _ _ _ _ Hinv E) as [Hi _].
    pose proof (receiver_iter_frame _ _ _ _ _ _ _ _ _ Hinv E) as [Hf Hmx].
    eapply handle_ok_step; eauto. apply Hmx, Hh. }
  destruct (recv_head _ _ _ _ _ Hh1 Eq1)
    as (nd & pk & sz & k & En & Hp & Ek & Hk & Hne & _ & _ & Er & Hh2).
  exists nd, pk. eexists _, _. split; [apply load_node_Some; eauto|].
  split; [done|]. split; [exact Er|]. split; [|done].
  eapply recv_wait_after_delivery; eauto.
Qed.

(** ** A whole session and the heap *)

Lemma unlock_fds t mx w : fds (pthread_mutex_unlock t mx w) = fds w.
Proof.
  unfold pthread_mutex_unlock.
  destruct (mutexes w !! mx) as [[o|]|]; [destruct (decide (o = t))| |]; done.
Qed.

(** What [msgq_open] adds to the world when it returns a handle. *)
Lemma open_heap addr e w self m w' :
  world_ok w → msgq_open addr e w = Ok (Some (self, m), w') →
  ∃ b,
    pkbuf m = Some b ∧ self ≠ b ∧ heap w !! self = None ∧ heap w !! b = None ∧
    heap w' = <[b := Block MSGQ_MSG_MAX Buffer]>
                (<[self := Block SIZEOF_MSGQ Handle]> (heap w)) ∧
    fds w !! fd m = None ∧
    fds w' = <[fd m := FdSocket (Some (address m))]> (fds w) ∧
    mutexes w !! self = None ∧
    mutexes w' = <[self := None]> (mutexes w).
Proof.
  intros [Hok Hdet Hmx Hcv]. unfold msgq_open.
  destruct (malloc SIZEOF_MSGQ (oe_handle e) (heap w)) as [[s|] h1] eqn:E1; [|discriminate].
  apply malloc_Some in E1 as (_ & Hfit1 & ->).
  pose proof (fits_fresh _ _ _ Hok Hfit1) as Hself.
  simpl. rewrite store_insert. simpl.
  pose proof (heap_ok_insert _ _ _ Handle Hok Hfit1) as Hok1.
  destruct (malloc MSGQ_MSG_MAX (oe_pkbuf e) _) as [[b|] h2] eqn:E2; [|discriminate].
  apply malloc_Some in E2 as (_ & Hfit2 & ->).
  pose proof (fits_fresh _ _ _ Hok1 Hfit2) as Hb.
  assert (Hne : s ≠ b) by (intros ->; rewrite lookup_insert_eq in Hb; discriminate).
  rewrite lookup_insert_ne in Hb by done.
  rewrite store_insert. simpl.
  assert (Hmself : mutexes w !! s = None).
  { destruct (mutexes w !! s) eqn:E; [|done].
    destruct (Hmx s) as [? ?]; [eauto|congruence]. }
  destruct (oe_mutex_init e); simpl; [|discriminate].
  destruct (oe_cond_init e); simpl; [|discriminate].
  unfold RECVQ_LOCK at 1. rewrite lock_free by (simpl; apply lookup_insert_eq).
  simpl. rewrite insert_insert_eq.
  destruct (msgq_get_listener _ _ _ _) as [[[ret m1] w1]| | |] eqn:Eg; simpl; try discriminate.
  apply get_listener_spec in Eg
    as ((Hh1 & Hm1 & Hc1 & Ht1 & _) & Hpk & Hrq & Hrs & _ & Hcase).
  simpl in *.
  destruct Hcase as [(-> & Hfd & Hfds)|(-> & Hfd & Hfree & Hfds & Hfs)]; simpl;
    [discriminate|].
  unfold msgq_start_receiver. destruct (oe_thread e); simpl; [|discriminate].
  intros [= <- <- <-].
  exists b. unfold RECVQ_UNLOCK.
  rewrite unlock_heap, unlock_fds.
  rewrite unlock_owned by (simpl; rewrite Hm1; apply lookup_insert_eq).
  simpl. rewrite Hm1, Hh1, Hfds, insert_insert_eq. done.
Qed.

(** What a delivery adds to the heap; the mutexes and the descriptors are
    as before. *)
Lemma receiver_iter_heap self r cn cp m w c m' w' np :
  inv m w → mutexes w !! self = Some None →
  msgq_receiver_iter self r cn cp m w = Ok (c, m', w') →
  recvq m' = recvq m ++ [np] →
  ∃ pk sz k nd,
    heap w !! np = None ∧ heap w !! pk = None ∧ np ≠ pk ∧ packet nd = Some pk ∧
    heap w' = <[np := Block SIZEOF_NODE (Node nd)]> (<[pk := Block sz (Packet k)]> (heap w)) ∧
    mutexes w' = mutexes w ∧ fds w' = fds w ∧ fields m' = fields m.
Proof.
  intros (Hok & Hq & Hc) Hm. unfold msgq_receiver_iter.
  assert (Hnil : ∀ x : Z, recvq m ≠ recvq m ++ [x]).
  { intros x H. apply (f_equal length) in H. rewrite length_app in H. simpl in H. lia. }
  destruct (rf_len r <? 0).
  { destruct (_ || _); intros [= <- <- <-] H; now apply Hnil in H. }
  destruct (validate_packet (rf_packet r) (rf_len r)) as [rc packet].
  destruct (rc <? 0).
  { intros [= <- <- <-] H; now apply Hnil in H. }
  destruct (msgq_node_create _ _ _ _ _) as [[[p|] h']| | |] eqn:En; simpl; try discriminate.
  2:{ intros [= <- <- <-] H; now apply Hnil in H. }
  apply node_create_Some in En as (pk & sz & k & Hnp & Hpk & Hne & Hk & _ & -> & Hok'); [|done].
  unfold RECVQ_LOCK. rewrite lock_free by done. simpl.
  rewrite (set_link_lookup p _ _ (Node_ ELIST_DETACHED
             (strncpy (rf_from r) (UNIX_PATH_MAX - 1)) (Some pk)))
    by apply lookup_insert_eq.
  rewrite insert_insert_eq. simpl.
  intros [= <- <- <-] Happ. simpl in Happ. apply app_inv_head in Happ.
  injection Happ as ->.
  eexists pk, sz, k, _. unfold RECVQ_UNLOCK. rewrite unlock_heap, unlock_fds.
  assert (Hmx : ∀ wx, mutexes wx = <[self := Some Receiver]> (mutexes w) →
                  mutexes (pthread_mutex_unlock Receiver self wx) = mutexes w).
  { intros wx Hx. rewrite unlock_owned by (rewrite Hx; apply lookup_insert_eq).
    simpl. rewrite Hx, insert_insert_eq. now apply insert_id. }
  destruct (Z.eqb_spec (broadcast m) 0); simpl; rewrite Hmx by done;
    (split_and!; try done; reflexivity).
Qed.

(** Deliveries keep the heap made of what [msgq_open] left and the blocks of
    the queue; they keep the mutexes, the descriptors and the members of the
    handle outside its queue. *)
Lemma delivered_owns self n m0 w0 m w :
  handle_ok self m0 w0 → recvq m0 = [] →
  delivered self n m0 w0 m w →
  handle_ok self m w ∧ length (recvq m) = n ∧
  queue_owns (recvq m) (heap w0) (heap w) ∧
  mutexes w = mutexes w0 ∧ fds w = fds w0 ∧ fields m = fields m0.
Proof.
  intros Hh0 Eq0. induction 1 as [|n m w m1 w1 r cn cp np m2 w2 _ IH E Eq].
  - split_and!; try done; [now rewrite Eq0|].
    intros a. right. split; [|done]. rewrite Eq0.
    intros [Hin|(x & nd & Hin & _)]; inversion Hin.
  - destruct (IH Hh0 Eq0) as (Hh1 & Hlen & Hown & Hmx & Hfds & Hfl).
    pose proof (ho_inv _ _ _ Hh1) as Hinv1.
    assert (Hh2 : handle_ok self m2 w2).
    { pose proof (receiver_iter_inv _ _ _ _ _ _ _ _ _ Hinv1 E) as [Hi _].
      pose proof (receiver_iter_frame _ _ _ _ _ _ _ _ _ Hinv1 E) as [Hf Hm].
      eapply handle_ok_step; eauto. apply Hm, Hh1. }
    destruct (receiver_iter_heap _ _ _ _ _ _ _ _ _ _ Hinv1 (ho_mutex _ _ _ Hh1) E Eq)
      as (pk & sz & k & nd & Hnp & Hpk & Hne & Hp & Hheap & Hmx2 & Hfds2 & Hfl2).
    split_and!; try done; try congruence.
    { rewrite Eq, length_app, Hlen. simpl. lia. }
    assert (Hlive : ∀ x, x ∈ recvq m1 → x ≠ np ∧ x ≠ pk).
    { intros x Hx. destruct Hinv1 as (_ & Hq & _).
      destruct (qs_nodes _ _ Hq _ Hx) as (ndx & _ & _ & _ & Ex & _).
      split; intros ->; congruence. }
    assert (Hold : ∀ a, queue_block (recvq m1) (heap w1) a →
                        queue_block (recvq m2) (heap w2) a).
    { intros a [Hin|(x & ndx & Hin & Ex & Hpx)].
      - left. rewrite Eq. apply elem_of_app. now left.
      - right. exists x, ndx. split; [rewrite Eq; apply elem_of_app; now left|].
        split; [|done]. destruct (Hlive _ Hin).
        unfold load_node. rewrite Hheap, !lookup_insert_ne by done. exact Ex. }
    assert (Hnew : ∀ a, queue_block (recvq m2) (heap w2) a →
                        a = np ∨ a = pk ∨ queue_block (recvq m1) (heap w1) a).
    { intros a [Hin|(x & ndx & Hin & Ex & Hpx)].
      - rewrite Eq in Hin. apply elem_of_app in Hin as [Hin|Hin].
        + right. right. now left.
        + apply list_elem_of_singleton in Hin. now left.
      - rewrite Eq in Hin. apply elem_of_app in Hin as [Hin|Hin].
        + right. right. right. exists x, ndx. split; [done|]. split; [|done].
          destruct (Hlive _ Hin).
          unfold load_node in *. rewrite Hheap, !lookup_insert_ne in Ex by done. exact Ex.
        + apply list_elem_of_singleton in Hin as ->.
          unfold load_node in Ex. rewrite Hheap, lookup_insert_eq in Ex.
          injection Ex as <-. right. left. congruence. }
    intros a. destruct (Hown a) as [[Hqb Hnone]|[Hnqb Hsame]].
    + left. split; [now apply Hold|done].
    + destruct (decide (a = np)) as [->|Hanp].
      { left. split; [|congruence].
        left. rewrite Eq. apply elem_of_app. right. now apply list_elem_of_singleton. }
      destruct (decide (a = pk)) as [->|Hapk].
      { left. split; [|congruence].
        right. exists np, nd. split; [rewrite Eq; apply elem_of_app; right;
                                      now apply list_elem_of_singleton|].
        split; [|done]. unfold load_node. now rewrite Hheap, lookup_insert_eq. }
      right. split.
      * intros Hqb. destruct (Hnew _ Hqb) as [?|[?|?]]; done.
      * rewrite Hheap, !lookup_insert_ne by done. done.
Qed.

(** The pointers freed by the drain loop of [msgq_close] are blocks of the
    queue. *)
Lemma close_drain_freed : ∀ fuel m h freed m' h' fr,
  queue_shape (recvq m) h →
  close_drain fuel m h freed = Ok (m', h', fr) →
  ∀ a, a ∈ fr → a ∈ freed ∨ queue_block (recvq m) h a.
Proof.
  induction fuel as [|fuel IH]; intros m h freed m' h' fr Hq; [discriminate|].
  simpl. unfold close_drain_iter.
  destruct (recvq m) as [|p q] eqn:Eq; simpl.
  { intros [= <- <- <-] a Ha. now left. }
  destruct (shape_pop_front _ _ _ Hq)
    as (nd & pk & sz & k & En & Hp & Ek & Hk & Hne & Hnq & Hqpk & Hset & Hq1).
  set (h1 := set_link p ELIST_DETACHED h) in *.
  assert (E1 : load_node p h1 = Some (Node_ ELIST_DETACHED (sender nd) (Some pk))).
  { apply load_node_Some. exists SIZEOF_NODE. rewrite Hset. apply lookup_insert_eq. }
  assert (E1k : load_packet pk h1 = Some k).
  { apply load_packet_Some. exists sz. rewrite Hset. now rewrite lookup_insert_ne. }
  rewrite E1. simpl.
  destruct (shape_free_detached _ _ _ _ _ _ Hq1 E1k Hk E1 eq_refl) as (_ & _ & Hq3).
  intros Hrun a Ha.
  eapply IH in Hrun; [|exact Hq3|exact Ha]. simpl in Hrun.
  destruct Hrun as [Hin|Hqb].
  - apply elem_of_app in Hin as [Hin|Hin]; [now left|]. right.
    apply elem_of_cons in Hin as [->|Hin].
    + right. exists p, nd. split; [left|]. split; [apply load_node_Some; eauto|done].
    + apply list_elem_of_singleton in Hin as ->. left. left.
  - right. destruct Hqb as [Hin|(x & ndx & Hin & Ex & Hpx)].
    + left. now right.
    + right. exists x, ndx. split; [now right|]. split; [|done].
      apply load_node_Some in Ex as [szx Ex]. unfold free in Ex.
      apply lookup_delete_Some in Ex as [Hxp Ex].
      apply lookup_delete_Some in Ex as [Hxpk Ex].
      subst h1. rewrite Hset, lookup_insert_ne in Ex by done.
      apply load_node_Some. eauto.
Qed.

(** [msgq_close] on an intact handle, with what it frees spelled out: the
    blocks of the queue, the receive buffer and the handle. *)
Lemma close_frees_what_the_handle_owns self m w :
  handle_ok self m w →
  ∃ b m' fr w',
    pkbuf m = Some b ∧
    msgq_close self m w = Ok (m', fr, w') ∧
    length fr = (2 * length (recvq m))%nat ∧
    (∀ a, a ∈ fr ↔ queue_block (recvq m) (heap w) a) ∧
    (∀ a, heap w' !! a =
          if decide (a ∈ fr ∨ a = self ∨ a = b) then None else heap w !! a) ∧
    fds w' = delete (fd m) (fds w) ∧
    mutexes w' = delete self (mutexes w).
Proof.
  intros Hh.
  destruct (close_enter_spec _ _ _ Hh)
    as (b & w1 & Hb & Henter & Hh1 & Hf1 & Ht1 & Hc1 & Hm1 & (Hok1 & Hq1 & Hcnt1) & _).
  pose proof (ho_self _ _ _ Hh) as Hs.
  unfold msgq_close. rewrite Henter. simpl.
  destruct (close_drain_spec (S (length (recvq m))) (set_pkbuf None (set_fd (-1) m))
              (heap w1) [] Hok1 Hq1 Hcnt1)
    as (m' & h' & fr & Hrun & Hq' & Hc' & _ & Hlen & Hnd & Hnodes & Hfr & Hother).
  { simpl. lia. }
  pose proof (close_drain_freed (S (length (recvq m))) (set_pkbuf None (set_fd (-1) m))
                (heap w1) [] m' h' fr Hq1 Hrun) as Hback.
  simpl in *. rewrite Hrun. simpl.
  assert (Hw2 : ∃ w2, RECVQ_UNLOCK App self (set_heap h' w1) = w2 ∧
                  mutexes w2 = <[self := None]> (mutexes w) ∧
                  heap w2 = h' ∧ fds w2 = fds w1).
  { eexists. split; [reflexivity|]. unfold RECVQ_UNLOCK.
    rewrite unlock_heap, unlock_fds.
    rewrite unlock_owned by (simpl; rewrite Hm1; apply lookup_insert_eq).
    simpl. rewrite Hm1. split; [apply insert_insert_eq|done]. }
  destruct Hw2 as (w2 & -> & Hmu & Hhp & Hfd2).
  unfold pthread_mutex_destroy. rewrite Hmu, lookup_insert_eq.
  exists b, m', fr. eexists. split; [done|]. split; [reflexivity|]. simpl.
  rewrite ?Hhp, ?Hfd2, ?Hmu.
  assert (Hfrb : ∀ a, a ∈ fr → a ≠ b ∧ a ≠ self).
  { intros a Ha. destruct (Hfr _ Ha) as (_ & sz & o & E & Ho1 & Ho2).
    rewrite Hh1 in E. unfold free in E. apply lookup_delete_Some in E as [? E].
    split; [done|]. intros ->. rewrite Hs in E. injection E as <- <-. done. }
  assert (Hqb : ∀ a, queue_block (recvq m) (heap w1) a ↔ queue_block (recvq m) (heap w) a).
  { intros a. split; intros [Hin|(x & ndx & Hin & Ex & Hpx)]; try (now left);
      right; exists x, ndx; (split; [done|]); (split; [|done]);
      apply load_node_Some in Ex as [szx Ex]; apply load_node_Some; exists szx.
    - rewrite Hh1 in Ex. unfold free in Ex. now apply lookup_delete_Some in Ex as [_ Ex].
    - rewrite Hh1. unfold free. rewrite lookup_delete_ne; [done|].
      intros ->. destruct Hh as [_ _ (b' & Hb' & Hbuf) _ _ _ _]. congruence. }
  split_and!; try done.
  - intros a. split.
    + intros Ha. apply Hqb. destruct (Hback _ Ha) as [Hin|Hin]; [inversion Hin|done].
    + intros Ha. apply Hqb in Ha. destruct Ha as [Hin|(x & ndx & Hin & Ex & Hpx)].
      * now apply Hnodes.
      * destruct (Hnodes _ Hin) as (_ & nd' & pk' & E' & Hp' & Hin').
        rewrite Ex in E'. injection E' as <-. congruence.
  - intros a. unfold free. case_decide as Hd.
    + destruct Hd as [Ha|[->| ->]].
      * destruct (Hfrb _ Ha). rewrite lookup_delete_ne by done. now apply Hfr.
      * apply lookup_delete_eq.
      * destruct (decide (self = b)) as [->|Hne]; [apply lookup_delete_eq|].
        rewrite lookup_delete_ne by done.
        destruct (decide (b ∈ fr)) as [Hin|Hin]; [now apply Hfr|].
        rewrite Hother, Hh1 by done. apply lookup_delete_eq.
    + assert ((a ∉ fr) ∧ self ≠ a ∧ b ≠ a) as (Ha1 & Ha2 & Ha3)
        by (split_and!; [tauto|intros ->; tauto|intros ->; tauto]).
      rewrite lookup_delete_ne by done. rewrite Hother by done.
      rewrite Hh1. unfold free. now apply lookup_delete_ne.
  - now rewrite delete_insert_eq.
Qed.

(** Closing a handle whose heap is what [msgq_open] left and the blocks of
    its queue gives back the world that [msgq_open] found. *)
Lemma close_restores self addr e w0 m0 w1 m w :
  world_ok w0 → msgq_open addr e w0 = Ok (Some (self, m0), w1) →
  handle_ok self m w → queue_owns (recvq m) (heap w1) (heap w) →
  mutexes w = mutexes w1 → fds w = fds w1 → fields m = fields m0 →
  ∃ m' freed w',
    msgq_close self m w = Ok (m', freed, w') ∧
    length freed = (2 * length (recvq m))%nat ∧
    heap w' = heap w0 ∧ fds w' = fds w0 ∧ mutexes w' = mutexes w0.
Proof.
  intros Hw0 Ho Hh Hown Hmx Hfds Hfl.
  destruct (open_heap _ _ _ _ _ _ Hw0 Ho)
    as (b & Hb & Hne & Hself & Hbfree & Hh1 & Hfd0 & Hfds1 & Hm0 & Hmx1).
  injection Hfl as Hf1 Hf2 Hf3 Hf4.
  destruct (close_frees_what_the_handle_owns _ _ _ Hh)
    as (b' & m' & fr & w' & Hb' & Hc & Hlfr & Hfr & Hheap & Hfdc & Hmxc).
  assert (b' = b) as -> by congruence.
  exists m', fr, w'. split; [done|]. split; [lia|]. split_and!.
  - apply map_eq. intros a. rewrite Hheap. case_decide as Hdec.
    + destruct Hdec as [Ha|[->| ->]]; [|done|done].
      apply Hfr in Ha. destruct (Hown a) as [[_ Hnone]|[Hn _]]; [|done].
      rewrite Hh1 in Hnone.
      destruct (decide (a = b)) as [->|?]; [now rewrite lookup_insert_eq in Hnone|].
      rewrite lookup_insert_ne in Hnone by done.
      destruct (decide (a = self)) as [->|?]; [now rewrite lookup_insert_eq in Hnone|].
      now rewrite lookup_insert_ne in Hnone by done.
    + destruct (Hown a) as [[Hqb _]|[_ Hsame]].
      * apply Hfr in Hqb. tauto.
      * assert (b ≠ a ∧ self ≠ a) as [Ha1 Ha2] by (split; intros ->; tauto).
        rewrite Hsame, Hh1. now rewrite !lookup_insert_ne by done.
  - rewrite Hfdc, Hfds, Hf1, Hfds1. now apply delete_insert_id.
  - rewrite Hmxc, Hmx, Hmx1. now apply delete_insert_id.
Qed.

(** X14.  A queue that is opened, receives N datagrams and is closed leaves no
    memory behind: [msgq_close] returns, frees the N nodes and the N
    packets, and the heap, the descriptors and the mutexes are what they were
    before [msgq_open]. *)
Theorem close_after_deliveries_restores_the_heap :
  ∀ self addr e w0 m0 w1 N m w,
    world_ok w0 → msgq_open addr e w0 = Ok (Some (self, m0), w1) →
    delivered self N m0 w1 m w →
    ∃ m' freed w',
      msgq_close self m w = Ok (m', freed, w') ∧
      length freed = (2 * N)%nat ∧
      heap w' = heap w0 ∧ fds w' = fds w0 ∧ mutexes w' = mutexes w0.
Proof.
  intros self addr e w0 m0 w1 N m w Hw0 Ho Hd.
  pose proof (open_spec _ _ _ _ _ Hw0 Ho) as Hspec. simpl in Hspec.
  destruct Hspec as (Hh0 & Hq0 & _).
  destruct (delivered_owns _ _ _ _ _ _ Hh0 Hq0 Hd)
    as (Hh & Hlen & Hown & Hmx & Hfds & Hfl).
  destruct (close_restores _ _ _ _ _ _ _ _ Hw0 Ho Hh Hown Hmx Hfds Hfl)
    as (m' & fr & w' & Hc & Hl & Hrest).
  exists m', fr, w'. split; [done|]. split; [lia|done].
Qed.

(** ** What [msgq_recv_wait] returns *)

(** With a node in the queue [msgq_recv_wait] does what [msgq_recv] does. *)
Lemma recv_wait_head self wakeups m w n q :
  handle_ok self m w → recvq m = n :: q →
  ∃ nd pk sz k,
    heap w !! n = Some (Block SIZEOF_NODE (Node nd)) ∧ packet nd = Some pk ∧
    heap w !! pk = Some (Block sz (Packet k)) ∧ p_container k = Some n ∧ n ≠ pk ∧
    msgq_recv_wait self wakeups m w =
      Ok (Returned (Some pk) (set_recvs (recvs m - 1) (set_recvq q m))
            (set_heap (<[n := Block SIZEOF_NODE
                               (Node (Node_ ELIST_DETACHED (sender nd) (Some pk)))]>
                         (heap w)) w)) ∧
    handle_ok self (set_recvs (recvs m - 1) (set_recvq q m))
      (set_heap (<[n := Block SIZEOF_NODE
                         (Node (Node_ ELIST_DETACHED (sender nd) (Some pk)))]> (heap w)) w).
Proof.
  intros Hh Eq.
  pose proof (ho_inv _ _ _ Hh) as Hinv. pose proof (ho_mutex _ _ _ Hh) as Hm.
  destruct (recv_head _ _ _ _ _ Hh Eq)
    as (nd & pk & sz & k & En & Hp & Ek & Hk & Hne & _ & _ & Er & Hh2).
  exists nd, pk, sz, k. split_and!; try done.
  unfold msgq_recv_wait, RECVQ_LOCK. rewrite lock_free by done. simpl.
  assert (Hinvl : inv m (set_mutexes (<[self := Some App]> (mutexes w)) w))
    by (eapply inv_heap; [|exact Hinv]; done).
  destruct (recv_wait_pop self wakeups n q m _ Hinvl Eq)
    as (nd' & pk' & sz' & k' & En' & Hp' & -> & _ & _).
  simpl in En'. rewrite En in En'. injection En' as <-.
  rewrite Hp in Hp'. injection Hp' as <-.
  do 2 f_equal. simpl.
  rewrite (set_link_lookup _ _ _ _ En).
  unfold RECVQ_UNLOCK. rewrite (unlock_lock App self w _ Hm). now rewrite Hp.
Qed.

(** The packet that [msgq_recv_wait] returns at once is a live block that
    points to its node, and the node is a live block that is detached. *)
Lemma recv_wait_returned_head self wakeups m w n q pk m' w' :
  handle_ok self m w → recvq m = n :: q →
  msgq_recv_wait self wakeups m w = Ok (Returned pk m' w') →
  ∃ p k np nd,
    pk = Some p ∧ load_packet p (heap w') = Some k ∧ p_container k = Some np ∧
    p ≠ np ∧ load_node np (heap w') = Some nd ∧ link nd = ELIST_DETACHED ∧
    handle_ok self m' w'.
Proof.
  intros Hh Eq.
  destruct (recv_wait_head self wakeups m w n q Hh Eq)
    as (nd & p & sz & k & En & Hp & Ek & Hk & Hne & -> & Hh2).
  intros [= <- <- <-].
  exists p, k, n, (Node_ ELIST_DETACHED (sender nd) (Some p)).
  split_and!; try done.
  - apply load_packet_Some. exists sz. simpl. now rewrite lookup_insert_ne.
  - apply load_node_Some. exists SIZEOF_NODE. simpl. apply lookup_insert_eq.
Qed.

(** So is every packet that it returns, after however many wakeups. *)
Lemma recv_wait_returned_packet self wakeups : ∀ m w pk m' w',
  handle_ok self m w →
  msgq_recv_wait self wakeups m w = Ok (Returned pk m' w') →
  ∃ p k np nd,
    pk = Some p ∧ load_packet p (heap w') = Some k ∧ p_container k = Some np ∧
    p ≠ np ∧ load_node np (heap w') = Some nd ∧ link nd = ELIST_DETACHED ∧
    handle_ok self m' w'.
Proof.
  induction wakeups as [|acts rest IH]; intros m w pk m' w' Hh;
    pose proof (ho_inv _ _ _ Hh) as Hinv; pose proof (ho_mutex _ _ _ Hh) as Hm;
    destruct (recvq m) as [|n q] eqn:Eq;
    try (now apply (recv_wait_returned_head _ _ _ _ n q)).
  - unfold msgq_recv_wait, RECVQ_LOCK. rewrite lock_free by done. simpl.
    rewrite Eq. simpl. discriminate.
  - unfold msgq_recv_wait at 1. unfold RECVQ_LOCK. rewrite lock_free by done. simpl.
    rewrite Eq. simpl. rewrite <- Eq, set_recvq_id.
    unfold pthread_cond_wait.
    rewrite (unlock_lock App self w (heap w) Hm), set_heap_id.
    destruct (others self acts m w) as [[m1 w1]| | |] eqn:Eo; simpl; try discriminate.
    pose proof (others_inv _ _ _ _ _ _ Hinv Eo) as Hinv1.
    destruct (others_frame _ _ _ _ _ _ Hinv Eo) as [Hf1 Hm1]. specialize (Hm1 Hm).
    assert (Hh1 : handle_ok self m1 w1) by (eapply handle_ok_step; eauto).
    intros H. apply (IH m1 w1); [done|].
    unfold msgq_recv_wait, RECVQ_LOCK.
    destruct (pthread_mutex_lock App self w1); simpl in *; done.
Qed.

(** ** The sample server *)

Lemma strlen_c_string (data : list byte) :
  x00 ∈ data →
  strlen data = Some (Z.of_nat (length (c_string data))) ∧
  data !! length (c_string data) = Some x00 ∧
  take (length (c_string data)) data = c_string data.
Proof.
  induction data as [|b data IH]; intros Hin; [inversion Hin|]. simpl.
  destruct (Byte.eqb b x00) eqn:E.
  - apply byte_dec_bl in E as ->. done.
  - apply elem_of_cons in Hin as [Hb|Hin].
    { subst b. vm_compute in E. discriminate. }
    destruct (IH Hin) as (-> & Hl & Ht). simpl.
    split_and!; [f_equal; lia|done|now f_equal].
Qed.

Lemma c_string_terminated (t rest : list byte) :
  (x00 ∉ t) → c_string (t ++ x00 :: rest) = t.
Proof.
  induction t as [|b t IH]; intros Hn; simpl.
  - reflexivity.
  - destruct (Byte.eqb b x00) eqn:E.
    + apply byte_dec_bl in E as ->. destruct Hn. left.
    + f_equal. apply IH. intros Hin. apply Hn. now right.
Qed.

Lemma c_string_no_terminator (data : list byte) : x00 ∉ c_string data.
Proof.
  induction data as [|b data IH]; simpl; [apply not_elem_of_nil|].
  destruct (Byte.eqb b x00) eqn:E; [apply not_elem_of_nil|].
  intros Hin. apply elem_of_cons in Hin as [Hb|Hin]; [|done].
  subst b. vm_compute in E. discriminate.
Qed.

Lemma last_elem_of (data : list byte) b : last data = Some b → b ∈ data.
Proof. intros H. apply last_Some in H as [l ->]. apply elem_of_app. right. left. Qed.

Lemma c_string_split (data : list byte) :
  x00 ∈ data → ∃ rest, data = c_string data ++ x00 :: rest.
Proof.
  induction data as [|b data IH]; intros Hin; [inversion Hin|]. simpl.
  destruct (Byte.eqb b x00) eqn:E.
  - apply byte_dec_bl in E as ->. now exists data.
  - apply elem_of_cons in Hin as [Hb|Hin].
    { subst b. vm_compute in E. discriminate. }
    destruct (IH Hin) as [rest Hr]. exists rest. simpl. now f_equal.
Qed.

(** The string after [main] has overwritten a newline at its end. *)
Lemma c_string_chomp (data : list byte) :
  x00 ∈ data → c_string data ≠ [] →
  let n := length (c_string data) in
  ∃ b, data !! Nat.pred n = Some b ∧ last (c_string data) = Some b ∧
       c_string (<[Nat.pred n := x00]> data) = take (Nat.pred n) (c_string data).
Proof.
  intros Hin Hne n.
  destruct (c_string_split _ Hin) as [rest Hr].
  pose proof (c_string_no_terminator data) as Hno.
  destruct (c_string data) as [|c t] eqn:Et using rev_ind; [done|]. clear IHt.
  subst n. rewrite length_app in *. simpl.
  replace (Nat.pred (length t + 1)) with (length t) by lia.
  exists c. rewrite Hr at 1. rewrite <- app_assoc. simpl.
  split; [now rewrite list_lookup_middle|]. split; [apply last_snoc|].
  rewrite take_app_length.
  rewrite Hr at 1. rewrite <- app_assoc. simpl.
  rewrite insert_app_r_alt by lia. rewrite Nat.sub_diag. simpl.
  apply c_string_terminated. intros H. apply Hno. apply elem_of_app. now left.
Qed.

Lemma strlen_unterminated (data : list byte) : x00 ∉ data → strlen data = None.
Proof.
  induction data as [|b data IH]; intros Hn; simpl; [done|].
  destruct (Byte.eqb b x00) eqn:E.
  - apply byte_dec_bl in E as ->. destruct Hn. left.
  - rewrite IH; [done|]. intros Hin. apply Hn. now right.
Qed.

(** What the body of the loop of [main] does with a packet. *)
Lemma server_serve :
  ∀ pk k np nd w,
    load_packet pk (heap w) = Some k → p_container k = Some np → pk ≠ np →
    load_node np (heap w) = Some nd → link nd = ELIST_DETACHED →
    Z.of_nat (length (p_data k)) <= INT_MAX →
    let text := c_string (p_data k) in
    (x00 ∉ p_data k →
       main_serve pk w = Fault (OutOfBounds (Z.of_nat (length (p_data k))))) ∧
    (x00 ∈ p_data k →
       (∃ n, strlen (p_data k) = Some n ∧ 0 <= n < Z.of_nat (length (p_data k))) ∧
       (text = [] → main_serve pk w = Fault (OutOfBounds (-1))) ∧
       (text ≠ [] →
          main_serve pk w =
            match sender nd with
            | Unterminated _ => Fault Uninitialised
            | Text from =>
              Ok (if bool_decide (chomp text = String.list_byte_of_string "quit")
                  then 0 else 1,
                  printf_packet from (chomp text),
                  set_heap (free np (free pk (heap w))) w)
            end)).
Proof.
  intros pk k np nd w Ek Hk Hne En Hl Hlen text. split.
  { intros Hno. unfold main_serve. now rewrite Ek, strlen_unterminated. }
  intros Hin.
  destruct (strlen_c_string _ Hin) as (Hs & Hz & Ht). fold text in Hs, Hz, Ht.
  assert (Hn : (length text < length (p_data k))%nat) by (eapply lookup_lt_Some; eauto).
  assert (Hint : to_int (Z.of_nat (length text)) = Z.of_nat (length text)).
  { apply to_int_small. unfold INT_MAX in *. lia. }
  split; [exists (Z.of_nat (length text)); split; [done|lia]|].
  unfold main_serve. rewrite Ek, Hs, Hint. split.
  - intros E0. rewrite E0. reflexivity.
  - intros Hne0.
    destruct (c_string_chomp _ Hin Hne0) as (b & Hb & Hlast & Hc). fold text in Hb, Hlast, Hc.
    assert (Hpos : (0 < length text)%nat) by (destruct text; [done|simpl; lia]).
    unfold read_data.
    destruct (Z.leb_spec 0 (Z.of_nat (length text) - 1)); [|lia].
    destruct (Z.ltb_spec (Z.of_nat (length text) - 1) (Z.of_nat (length (p_data k)))); [|lia].
    simpl.
    replace (Z.to_nat (Z.of_nat (length text) - 1)) with (Nat.pred (length text)) by lia.
    rewrite Hb.
    apply load_packet_Some in Ek as [sz Ek].
    apply load_node_Some in En as [szn En].
    set (data := if Byte.eqb b x0a then <[Nat.pred (length text) := x00]> (p_data k)
                 else p_data k).
    assert (Hcs : c_string data = chomp text).
    { subst data. unfold chomp. rewrite Hlast. destruct (Byte.eqb b x0a); done. }
    set (h1 := store pk (Packet (Packet_ (p_size k) (p_container k) data)) (heap w)).
    assert (Hpk1 : h1 !! pk = Some (Block sz (Packet (Packet_ (p_size k) (p_container k) data)))).
    { subst h1. rewrite lookup_store, decide_True by done. now rewrite Ek. }
    assert (Hnp1 : h1 !! np = Some (Block szn (Node nd))).
    { subst h1. rewrite lookup_store, decide_False by done. exact En. }
    unfold msgq_pkt_sender, msgq_pkt_delete, load_packet, load_node. simpl.
    rewrite Hpk1. simpl. rewrite Hk, Hnp1. simpl.
    destruct (sender nd) as [from|from]; [|reflexivity].
    rewrite Hl. simpl.
    rewrite Hcs. do 2 f_equal.
    unfold set_heap. simpl. f_equal.
    subst h1. unfold free, store. now rewrite delete_alter_eq.
Qed.

(** X15.  One turn of the loop of [main].  Every packet that
    [msgq_recv_wait] returns on a handle between two calls is a live block
    whose node is live and detached.  For such a packet, with stored bytes
    few enough to be counted in an [int]: when the stored bytes hold no
    terminator, as those of a datagram that ends with its header, [strlen]
    runs off the block.  When they hold one, [strlen] stays inside the
    block; on an empty text [main] then reads [data[len - 1]] with
    [len = 0], the byte before the payload; a text that is not empty loses
    the newline at its end and is printed with the sender, the packet and
    its node are freed, and the loop goes on unless the line is "quit"; but
    when the sender's array holds no terminator (an address of
    [UNIX_PATH_MAX - 1] characters or more), [printf] reads on behind
    it. *)
Theorem server_prints_and_frees_a_message :
  ∀ self m w wakeups ret m' w',
    handle_ok self m w →
    msgq_recv_wait self wakeups m w = Ok (Returned ret m' w') →
    ∃ pk k np nd,
      ret = Some pk ∧ load_packet pk (heap w') = Some k ∧
      p_container k = Some np ∧ load_node np (heap w') = Some nd ∧
      link nd = ELIST_DETACHED ∧
      (Z.of_nat (length (p_data k)) <= INT_MAX →
       let text := c_string (p_data k) in
       (x00 ∉ p_data k →
          main_serve pk w' = Fault (OutOfBounds (Z.of_nat (length (p_data k))))) ∧
       (x00 ∈ p_data k →
          (∃ n, strlen (p_data k) = Some n ∧ 0 <= n < Z.of_nat (length (p_data k))) ∧
          (text = [] → main_serve pk w' = Fault (OutOfBounds (-1))) ∧
          (text ≠ [] →
             main_serve pk w' =
               match sender nd with
               | Unterminated _ => Fault Uninitialised
               | Text from =>
                 Ok (if bool_decide (chomp text = String.list_byte_of_string "quit")
                     then 0 else 1,
                     printf_packet from (chomp text),
                     set_heap (free np (free pk (heap w'))) w')
               end))).
Proof.
  intros self m w wakeups ret m' w' Hh E.
  destruct (recv_wait_returned_packet _ _ _ _ _ _ _ Hh E)
    as (pk & k & np & nd & -> & Ek & Hk & Hne & En & Hl & _).
  exists pk, k, np, nd. split_and!; try done.
  intros Hlen text.
  exact (server_serve pk k np nd w' Ek Hk Hne En Hl Hlen).
Qed.

Lemma c_string_app (l l' : list byte) : x00 ∈ l → c_string (l ++ l') = c_string l.
Proof.
  induction l as [|b l IH]; intros Hin; [inversion Hin|]. simpl.
  destruct (Byte.eqb b x00) eqn:E; [done|].
  apply elem_of_cons in Hin as [Hb|Hin].
  { subst b. vm_compute in E. discriminate. }
  f_equal. now apply IH.
Qed.

Lemma handle_ok_wakes self m w wk : handle_ok self m w → handle_ok self m (set_wakes wk w).
Proof. intros [Hinv Hs Hb Hm Hc Hfd Ht]. split; done. Qed.

Lemma accepted_iter self m w i :
  handle_ok self m w → accepted (heap w) i →
  ∃ c m1 w1 np,
    msgq_receiver_iter self i.1.1 i.1.2 i.2 m w = Ok (c, m1, w1) ∧
    recvq m1 = recvq m ++ [np].
Proof.
  intros Hh (Hlen & H0 & Hbuf & np & h' & En).
  assert (Hhdr : PACKET_HDR = 8) by reflexivity.
  unfold msgq_receiver_iter.
  destruct (Z.ltb_spec (rf_len i.1.1) 0); [lia|].
  rewrite validate_packet_long in * by lia. simpl in *.
  rewrite En. simpl. unfold RECVQ_LOCK.
  rewrite lock_free by (simpl; apply Hh). simpl.
  eexists _, _, _, np. split; reflexivity.
Qed.

(** One turn of the loop of [main] while a datagram arrives. *)
Lemma main_turn self m w i :
  handle_ok self m w → recvq m = [] → printable (heap w) i →
  ∃ pk w2 wk,
    msgq_recv_wait self [[Delivery i]] m w = Ok (Returned (Some pk) m w2) ∧
    main_serve pk w2 =
      Ok (if bool_decide (chomp (text_of i.1.1) = String.list_byte_of_string "quit")
          then 0 else 1,
          line_of i, set_wakes wk w).
Proof.
  intros Hh Eq (Hacc & Htext & Hshort).
  destruct (accepted_iter _ _ _ _ Hh Hacc) as (c & m1 & w1 & np & E & Eq1).
  rewrite Eq in Eq1. simpl in Eq1.
  destruct Hacc as (Hlen & H0 & Hbuf & _).
  assert (Hhdr : PACKET_HDR = 8) by reflexivity.
  assert (Hmax : MSGQ_MSG_MAX = 4096) by reflexivity.
  destruct i as [[r cn] cp]. simpl in *.
  assert (Hl0 : 0 <= rf_len r <= INT_MAX) by lia.
  destruct (delivery_recv _ _ _ _ _ _ _ _ _ _ Hh Eq Hl0 H0 Hbuf E Eq1)
    as (pk & lst & w2 & Hs & Hl & Er & Hnp & Hpk & Hne & Hw2 & Hh2).
  set (size := Z.min (p_size (rf_packet r)) (rf_len r - PACKET_HDR)) in *.
  set (data := take (Z.to_nat size) (p_data (rf_packet r))
               ++ (if Byte.eqb lst x00 then [] else [x00])) in *.
  destruct (terminated_copy _ _ _ Hs Hl) as [Hlast _]. fold data in Hlast.
  assert (Hin : x00 ∈ data) by now apply last_elem_of.
  assert (Hcs : c_string data = text_of r).
  { unfold text_of. fold size. subst data. destruct (Byte.eqb lst x00) eqn:Eb; [|done].
    rewrite app_nil_r. symmetry. apply c_string_app.
    rewrite app_nil_r in Hin. exact Hin. }
  exists pk, w2. eexists.
  split; [eapply recv_wait_after_delivery; eauto|].
  assert (Ek : load_packet pk (heap w2) = Some (Packet_ size (Some np) data)).
  { rewrite Hw2. unfold load_packet. simpl.
    rewrite lookup_insert_ne by done. now rewrite lookup_insert_eq. }
  assert (En : load_node np (heap w2)
               = Some (Node_ ELIST_DETACHED (Text (rf_from r)) (Some pk))).
  { rewrite Hw2. unfold load_node. simpl. rewrite lookup_insert_eq.
    now rewrite strncpy_short. }
  assert (Hdl : Z.of_nat (length data) <= INT_MAX).
  { subst data. rewrite length_app, length_take.
    destruct (Byte.eqb lst x00); simpl; unfold INT_MAX; lia. }
  destruct (proj2 (server_serve _ _ _ _ _ Ek eq_refl (not_eq_sym Hne) En eq_refl Hdl) Hin)
    as (_ & _ & Hrun).
  simpl in Hrun. rewrite Hcs in Hrun. rewrite (Hrun Htext). unfold line_of. simpl.
  do 2 f_equal. rewrite Hw2. unfold set_heap, set_wakes, free. simpl. f_equal.
  rewrite delete_insert_ne by (now apply not_eq_sym).
  rewrite !delete_insert_eq. rewrite (delete_id _ pk) by done. now apply delete_id.
Qed.

(** The loop of [main] over datagrams that arrive one per call of
    [msgq_recv_wait], the last of them the line "quit". *)
Lemma main_loop_run self m : ∀ items w out final,
  handle_ok self m w → recvq m = [] →
  Forall (λ i, printable (heap w) i ∧
               chomp (text_of i.1.1) ≠ String.list_byte_of_string "quit") items →
  printable (heap w) final →
  chomp (text_of final.1.1) = String.list_byte_of_string "quit" →
  ∃ wk,
    main_loop self ((λ i, [[Delivery i]]) <$> (items ++ [final])) m w out
    = Ok (out ++ concat (line_of <$> (items ++ [final])), m, set_wakes wk w).
Proof.
  induction items as [|i items IH]; intros w out final Hh Eq Hall Hfin Hquit.
  - destruct (main_turn _ _ _ _ Hh Eq Hfin) as (pk & w2 & wk & Hw & Hs).
    exists wk. rewrite app_nil_l, !list_fmap_singleton. cbn [main_loop concat].
    rewrite Hw. cbn [mbind result_bind]. rewrite Hs. cbn [mbind result_bind].
    rewrite bool_decide_eq_true_2 by done. rewrite Z.eqb_refl. now rewrite app_nil_r.
  - apply Forall_cons in Hall as [(Hacc & Hnq) Hall].
    destruct (main_turn _ _ _ _ Hh Eq Hacc) as (pk & w2 & wk & Hw & Hs).
    rewrite <- app_comm_cons, !fmap_cons. cbn [main_loop concat].
    rewrite Hw. cbn [mbind result_bind]. rewrite Hs. cbn [mbind result_bind].
    rewrite bool_decide_eq_false_2 by done. change (1 =? 0) with false. cbv iota.
    destruct (IH (set_wakes wk w) (out ++ line_of i) final) as [wk' Hrun]; try done.
    { now apply handle_ok_wakes. }
    exists wk'. rewrite Hrun. rewrite <- app_assoc. reflexivity.
Qed.

(** X16.  The sample server on lines that it can print: datagrams that the
    receiver queues (long enough, with memory for node and packet), one per
    call of [msgq_recv_wait], each with a text that is not empty and from an
    address shorter than [UNIX_PATH_MAX - 1].  [main] opens the queue
    [/tmp/msgq]; for every such datagram it prints one line, the sender and
    the text without its newline, and frees the message; on the line "quit"
    it closes the queue and returns 0, and the heap, the descriptors and the
    mutexes are what they were when it started.  It uses the result of
    [msgq_open] unchecked: when [msgq_open] fails, [main] goes on with a null
    pointer. *)
Theorem main_serves_until_quit :
  ∀ e w0,
    world_ok w0 →
    (∀ w1 script, msgq_open (Some "/tmp/msgq"%string) e w0 = Ok (None, w1) →
       main e script w0 = Fault BadPointer) ∧
    (∀ self m0 w1 items final,
       msgq_open (Some "/tmp/msgq"%string) e w0 = Ok (Some (self, m0), w1) →
       Forall (λ i, printable (heap w1) i ∧
                    chomp (text_of i.1.1) ≠ String.list_byte_of_string "quit") items →
       printable (heap w1) final →
       chomp (text_of final.1.1) = String.list_byte_of_string "quit" →
       ∃ w',
         main e ((λ i, [[Delivery i]]) <$> (items ++ [final])) w0
         = Ok (0, concat (line_of <$> (items ++ [final])), w') ∧
         heap w' = heap w0 ∧ fds w' = fds w0 ∧ mutexes w' = mutexes w0).
Proof.
  intros e w0 Hw0. split.
  - intros w1 script Ho. unfold main. rewrite Ho. reflexivity.
  - intros self m0 w1 items final Ho Hall Hfin Hquit.
    pose proof (open_spec _ _ _ _ _ Hw0 Ho) as Hspec. simpl in Hspec.
    destruct Hspec as (Hh0 & Hq0 & _).
    destruct (main_loop_run self m0 items w1 [] final Hh0 Hq0 Hall Hfin Hquit) as [wk Hrun].
    destruct (close_restores self _ e w0 m0 w1 m0 (set_wakes wk w1) Hw0 Ho)
      as (m' & fr & w' & Hc & _ & Hrest); try done.
    { now apply handle_ok_wakes. }
    { rewrite Hq0. intros a. right. split; [|done].
      intros [Hin|(x & nd & Hin & _)]; inversion Hin. }
    exists w'. split; [|done].
    unfold main. rewrite Ho. simpl. rewrite Hrun. simpl. rewrite Hc. reflexivity.
Qed.

(** ** The further properties on the session *)

Lemma session_handle : handle_ok Session.self Session.m0 Session.opened_world.
Proof. apply opened_handle_ok, session_opened. Qed.

Lemma session_handle_two : handle_ok Session.self Session.m2 Session.w2.
Proof. apply opened_handle_ok, session_opened_two. Qed.


Lemma traffic_text :
  msgq_receiver_iter Session.self (datagram "/tmp/peer" (string_packet Session.hello))
    (Some 16384) (Some 20480) Session.m0 Session.opened_world
  = Ok (Continue, Traffic.after_text.1, Traffic.after_text.2).
Proof. vm_compute. reflexivity. Qed.




(** The two packets of the session come out in the order of their
    datagrams. *)
Lemma recv_order_witness :
  ∃ m' w',
    recv_all Session.self 2 Session.m2 Session.w2 = Ok ([Some 20480; Some 28672], m', w') ∧
    recvq m' = [].
Proof.
  destruct (proj2 (recv_returns_packets_in_arrival_order Session.self Session.m2 Session.w2
                     session_handle_two)) as (m' & w' & H & Hq & _).
  exists m', w'. split; [exact H|exact Hq].
Defined.

Lemma recv_empty_witness :
  msgq_recv Session.self Session.m0 Session.opened_world
  = Ok (None, Session.m0, Session.opened_world).
Proof.
  exact (proj1 (recv_on_empty_queue_returns_null Session.self Session.m0
                  Session.opened_world session_handle eq_refl)).
Defined.

(** "hello", declared 100 bytes long, comes out 5 bytes long, terminated,
    from [/tmp/peer]. *)
Lemma received_packet_witness :
  ∃ pk k m2 w2,
    msgq_recv Session.self (Session.after [Session.first]).1 (Session.after [Session.first]).2
    = Ok (Some pk, m2, w2) ∧
    load_packet pk (heap w2) = Some k ∧ p_size k = 5 ∧
    last (p_data k) = Some x00 ∧
    msgq_pkt_sender pk w2 = Ok (Some (Text "/tmp/peer")).
Proof.
  destruct (received_packet_carries_the_datagram Session.self Session.m0 Session.opened_world
              Session.dg_hello (Some 16384) (Some 20480) Continue
              (Session.after [Session.first]).1 (Session.after [Session.first]).2 16384
              session_handle eq_refl)
    as (pk & k & m2 & w2 & Hr & Hk & Hs & _ & Hl & Hsnd & _).
  - unfold INT_MAX. simpl. lia.
  - simpl. lia.
  - unfold MSGQ_MSG_MAX, PACKET_HDR. simpl. lia.
  - vm_compute. discriminate.
  - apply session_first.
  - reflexivity.
  - exists pk, k, m2, w2. split_and!; try assumption.
    apply Hsnd. vm_compute. reflexivity.
Defined.

Lemma allocation_failure_witness :
  msgq_receiver_iter Session.self Session.dg_hello None (Some 20480)
    Session.m0 Session.opened_world
  = Ok (Continue, Session.m0, Session.opened_world).
Proof.
  apply allocation_failure_drops_the_datagram.
  - apply session_handle.
  - unfold PACKET_HDR, INT_MAX. simpl. lia.
  - simpl. lia.
  - unfold PACKET_HDR. simpl. lia.
  - now left.
Defined.

Lemma recvfrom_error_witness :
  msgq_receiver Session.self [(Traffic.bad_descriptor, None, None); Session.first]
    Session.m0 Session.opened_world
  = Ok (Break, Session.m0, Session.opened_world).
Proof.
  apply (receiver_retries_or_ends_on_recvfrom_error Session.self Traffic.bad_descriptor
           None None [Session.first] Session.m0 Session.opened_world);
    [apply session_handle|simpl; lia|discriminate|discriminate|discriminate].
Defined.

Lemma signal_witness : broadcast Session.m2 = 0.
Proof.
  exact (proj1 (deliveries_signal_one_waiter Session.self Session.m2 Session.w2
                  session_opened_two)).
Defined.

Lemma send_string_witness :
  ∃ rc w',
    msgq_send_string "/tmp/peer" Session.hello (Some 16384) 14
      Session.m0 Session.opened_world = (rc, Session.m0, w') ∧
    heap w' = heap Session.opened_world.
Proof.
  destruct (send_string_frees_its_packet "/tmp/peer" Session.hello (Some 16384) 14
              Session.m0 Session.opened_world)
    as (rc & w' & H & Hh & _).
  - apply session_handle.
  - unfold INT_MAX. simpl. lia.
  - exists rc, w'. split; assumption.
Defined.

Lemma send_string_round_trip_witness :
  ∃ pk m2 w2,
    msgq_recv Session.self Traffic.after_text.1 Traffic.after_text.2
    = Ok (Some pk, m2, w2) ∧
    heap w2 !! pk = Some (Block 14 (Packet (Packet_ 6 (Some 16384) (Session.hello ++ [x00])))).
Proof.
  destruct (send_string_round_trip Session.self Session.m0 Session.opened_world
              "/tmp/peer" Session.hello (Some 16384) (Some 20480) Continue
              Traffic.after_text.1 Traffic.after_text.2 16384
              session_handle eq_refl)
    as (pk & m2 & w2 & Hr & Hk & _).
  - unfold PACKET_HDR, MSGQ_MSG_MAX. simpl. lia.
  - apply traffic_text.
  - reflexivity.
  - exists pk, m2, w2. split; assumption.
Defined.



Lemma traffic_bind :
  bind_anonymous 3 "" [Attempt (Some ("abcdef"%string, 4)) false 0] empty_world
  = Ok (0, "/tmp/msgq-abcdef"%string,
        set_fs {["/tmp/msgq-abcdef"%string := SocketFile]}
          (set_fds {[3 := FdSocket (Some "/tmp/msgq-abcdef"%string)]} empty_world)).
Proof. vm_compute. reflexivity. Qed.

(** The descriptor of the temporary file is closed again. *)
Lemma bind_anonymous_witness :
  fds (set_fs {["/tmp/msgq-abcdef"%string := SocketFile]}
         (set_fds {[3 := FdSocket (Some "/tmp/msgq-abcdef"%string)]} empty_world)) !! 4
  = fds empty_world !! 4.
Proof.
  apply (proj2 (proj2 (proj1 (bind_anonymous_leaves_no_temporary_file 3 ""
                  [Attempt (Some ("abcdef"%string, 4)) false 0] empty_world)
                  _ _ _ traffic_bind))).
  lia.
Defined.

Lemma recv_delete_witness :
  ∃ pk m' w' w'',
    msgq_recv Session.self Session.m2 Session.w2 = Ok (Some pk, m', w') ∧
    msgq_pkt_delete pk w' = Ok (0, w'') ∧
    heap w'' = delete 16384 (delete pk (heap Session.w2)).
Proof.
  destruct (received_packet_can_be_deleted Session.self Session.m2 Session.w2 16384 [24576]
              session_handle_two eq_refl)
    as (pk & m' & w' & w'' & Hr & Hd & _ & _ & Hh & _).
  exists pk, m', w', w''. split_and!; assumption.
Defined.

Lemma recv_wait_delivery_witness :
  ∃ pk m2 w2,
    msgq_recv_wait Session.self [[Delivery Session.first]] Session.m0 Session.opened_world
    = Ok (Returned (Some pk) m2 w2) ∧ recvq m2 = [].
Proof.
  destruct (recv_wait_returns_the_message_that_arrives Session.self Session.m0
              Session.opened_world Session.dg_hello (Some 16384) (Some 20480) Continue
              (Session.after [Session.first]).1 (Session.after [Session.first]).2 16384 []
              session_handle eq_refl session_first eq_refl)
    as (nd & pk & m2 & w2 & _ & _ & _ & H & Hq).
  exists pk, m2, w2. split; assumption.
Defined.

Lemma close_restores_witness :
  ∃ m' freed w',
    msgq_close Session.self Session.m2 Session.w2 = Ok (m', freed, w') ∧
    length freed = 4%nat ∧ heap w' = heap empty_world.
Proof.
  destruct (close_after_deliveries_restores_the_heap Session.self None Session.env
              empty_world Session.m0 Session.opened_world 2 Session.m2 Session.w2
              world_ok_empty session_open session_delivered)
    as (m' & freed & w' & Hc & Hl & Hh & _).
  exists m', freed, w'. split_and!; assumption.
Defined.

Lemma lines_open :
  msgq_open (Some "/tmp/msgq"%string) Lines.env empty_world
  = Ok (Some (Session.self, Lines.m0), Lines.opened_world).
Proof. vm_compute. reflexivity. Qed.

Lemma lines_printable :
  printable (heap Lines.opened_world) Lines.hello_line ∧
  printable (heap Lines.opened_world) Lines.quit_line.
Proof.
  split; (unfold printable, accepted;
          split_and!; [vm_compute; intros H; discriminate H
                      |vm_compute; intros H; discriminate H
                      |vm_compute; intros H; discriminate H
                      |vm_compute; intros H; discriminate H
                      |eexists _, _; vm_compute; reflexivity
                      |vm_compute; intros H; discriminate H
                      |vm_compute; reflexivity]).
Qed.

Lemma session_wait_two :
  msgq_recv_wait Session.self [] Session.m2 Session.w2
  = Ok (Returned (Some 20480) Session.after_recv.1 Session.after_recv.2).
Proof. vm_compute. reflexivity. Qed.

(** The packet that [msgq_recv_wait] returns in the session is printed and
    freed. *)
Lemma server_message_witness :
  main_serve 20480 Session.after_recv.2
  = Ok (1, printf_packet "/tmp/peer" Session.hello,
        set_heap (free 16384 (free 20480 (heap Session.after_recv.2))) Session.after_recv.2).
Proof.
  destruct (server_prints_and_frees_a_message Session.self Session.m2 Session.w2 []
              (Some 20480) Session.after_recv.1 Session.after_recv.2
              session_handle_two session_wait_two)
    as (pk & k & np & nd & Hpk & Ek & Hk & En & _ & H).
  injection Hpk as <-.
  vm_compute in Ek. injection Ek as <-.
  injection Hk as <-.
  vm_compute in En. injection En as <-.
  assert (Hlen : Z.of_nat (length (Session.hello ++ [x00])) <= INT_MAX)
    by (vm_compute; intros Hx; discriminate Hx).
  specialize (H Hlen). cbv zeta in H. destruct H as [_ H].
  destruct H as (_ & _ & H); [do 5 right; left|].
  apply H. discriminate.
Defined.

(** The server prints the two lines and gives back the heap. *)
Lemma main_witness :
  ∃ w',
    main Lines.env [[[Delivery Lines.hello_line]]; [[Delivery Lines.quit_line]]] empty_world
    = Ok (0, line_of Lines.hello_line ++ line_of Lines.quit_line ++ [], w') ∧
    heap w' = heap empty_world.
Proof.
  destruct (proj2 (main_serves_until_quit Lines.env empty_world world_ok_empty)
              Session.self Lines.m0 Lines.opened_world [Lines.hello_line] Lines.quit_line
              lines_open)
    as (w' & Hm & Hh & _).
  - apply Forall_singleton. split; [apply lines_printable|].
    vm_compute. intros H. discriminate H.
  - apply lines_printable.
  - vm_compute. reflexivity.
  - exists w'. split; assumption.
Defined.

(** * Properties of the obstack emulation *)

Import Fakeobs.

(** ** The allocator *)

Lemma obs_fits_spec (h : gmap Z area) a sz :
  fits h a sz = true ↔
  0 < a ∧ a + Z.max 1 sz <= WORD ∧
  ∀ b blk, h !! b = Some blk → a + Z.max 1 sz <= b ∨ b + area_size blk <= a.
Proof.
  unfold fits, disjoint. rewrite !andb_true_iff, forallb_forall.
  rewrite Z.ltb_lt, Z.leb_le. split.
  - intros [[H1 H2] H3]. split_and!; try done.
    intros b blk Hb.
    assert (Hin : In (b, blk) (map_to_list h))
      by (apply list_elem_of_In, elem_of_map_to_list, Hb).
    specialize (H3 _ Hin). simpl in H3.
    apply orb_true_iff in H3. rewrite !Z.leb_le in H3. exact H3.
  - intros (H1 & H2 & H3). split_and!; try done.
    intros [b blk] Hin. simpl.
    apply list_elem_of_In, elem_of_map_to_list in Hin.
    apply orb_true_iff. rewrite !Z.leb_le. eauto.
Qed.

Lemma obs_fits_fresh (h : gmap Z area) a sz :
  fits h a sz = true → h !! a = None ∧ a ≠ 0.
Proof.
  intros (H1 & H2 & H3)%obs_fits_spec. split; [|lia].
  destruct (h !! a) as [blk|] eqn:E; [|done].
  destruct (H3 _ _ E) as [H|H]; unfold area_size in H; lia.
Qed.

Lemma obs_fits_delete (h : gmap Z area) p a sz :
  fits h a sz = true → fits (delete p h) a sz = true.
Proof.
  rewrite !obs_fits_spec. intros (H1 & H2 & H3). split_and!; try done.
  intros b blk [_ Hb]%lookup_delete_Some. eauto.
Qed.

(** ** The table *)

Lemma read_slot_at t (slots : list (option Z)) (i : nat) v m :
  blocks m !! t = Some (Table slots) → slots !! i = Some (Some v) →
  read_slot t (Z.of_nat i) m = Done v.
Proof.
  intros Ht Hi. unfold read_slot. rewrite Ht.
  pose proof (lookup_lt_Some _ _ _ Hi) as Hlt.
  replace ((0 <=? Z.of_nat i) && (Z.of_nat i <? Z.of_nat (length slots))) with true
    by (symmetry; apply andb_true_iff; split; [apply Z.leb_le|apply Z.ltb_lt]; lia).
  now rewrite Nat2Z.id, Hi.
Qed.

Lemma read_slot_indeterminate t (slots : list (option Z)) (i : nat) m :
  blocks m !! t = Some (Table slots) → slots !! i = Some None →
  read_slot t (Z.of_nat i) m = Undefined Indeterminate.
Proof.
  intros Ht Hi. unfold read_slot. rewrite Ht.
  pose proof (lookup_lt_Some _ _ _ Hi) as Hlt.
  replace ((0 <=? Z.of_nat i) && (Z.of_nat i <? Z.of_nat (length slots))) with true
    by (symmetry; apply andb_true_iff; split; [apply Z.leb_le|apply Z.ltb_lt]; lia).
  now rewrite Nat2Z.id, Hi.
Qed.

Lemma read_slot_outside t (slots : list (option Z)) i m :
  blocks m !! t = Some (Table slots) → Z.of_nat (length slots) <= i →
  read_slot t i m = Undefined (OutOfRange i).
Proof.
  intros Ht Hi. unfold read_slot. rewrite Ht.
  replace (i <? Z.of_nat (length slots)) with false by (symmetry; apply Z.ltb_ge; lia).
  now rewrite andb_false_r.
Qed.

Lemma write_slot_at t (slots : list (option Z)) (i : nat) v m :
  blocks m !! t = Some (Table slots) → (i < length slots)%nat →
  write_slot t (Z.of_nat i) v m
  = Done (set_blocks (<[t := Table (<[i := Some v]> slots)]> (blocks m)) m).
Proof.
  intros Ht Hi. unfold write_slot. rewrite Ht.
  replace ((0 <=? Z.of_nat i) && (Z.of_nat i <? Z.of_nat (length slots))) with true
    by (symmetry; apply andb_true_iff; split; [apply Z.leb_le|apply Z.ltb_lt]; lia).
  now rewrite Nat2Z.id.
Qed.

Lemma insert_spare {A} (objs : list A) (s : option A) (spare : list (option A)) (a : A) :
  <[length objs := Some a]> ((Some <$> objs) ++ s :: spare)
  = (Some <$> (objs ++ [a])) ++ spare.
Proof.
  rewrite insert_app_r_alt by (rewrite length_fmap; lia).
  rewrite length_fmap, Nat.sub_diag. simpl.
  now rewrite fmap_app, <- app_assoc.
Qed.

Lemma lookup_spare {A} (objs : list A) (s : option A) (spare : list (option A)) :
  ((Some <$> objs) ++ s :: spare) !! length objs = Some s.
Proof.
  rewrite lookup_app_r by (rewrite length_fmap; lia).
  now rewrite length_fmap, Nat.sub_diag.
Qed.

(** ** [obstack_init_] *)

Lemma clear_slots_spec (n : nat) :
  ∀ t (done : list (option Z)) (rest : list (option Z)) m,
    blocks m !! t = Some (Table (done ++ rest)) → length rest = n →
    clear_slots n t (Z.of_nat (length done)) m
    = Done (set_blocks (<[t := Table (done ++ replicate n (Some 0))]> (blocks m)) m).
Proof.
  induction n as [|n IH]; intros t done rest m Ht Hn.
  - destruct rest; [|done]. simpl. rewrite app_nil_r in *.
    f_equal. destruct m as [h ? ?]. unfold set_blocks. simpl in *.
    f_equal. symmetry. now apply insert_id.
  - destruct rest as [|r rest]; [done|]. simpl in Hn.
    cbn [clear_slots].
    rewrite (write_slot_at _ _ _ _ _ Ht) by (rewrite length_app; simpl; lia).
    cbn [mbind outcome_bind].
    rewrite insert_app_r_alt by lia. rewrite Nat.sub_diag. simpl.
    replace (Z.of_nat (length done) + 1) with (Z.of_nat (length (done ++ [Some 0])))
      by (rewrite length_app; simpl; lia).
    rewrite (IH t (done ++ [Some 0]) rest).
    + f_equal. unfold set_blocks. simpl. f_equal.
      rewrite insert_insert_eq. now rewrite <- app_assoc.
    + simpl. rewrite lookup_insert_eq. now rewrite <- app_assoc.
    + lia.
Qed.

(** X17.  [obstack_init_] with an allocator that delivers: the stack is
    empty, nothing grows, and the table has [DEF_MAX_PTRS] null entries.
    Nothing else in memory changes. *)
Theorem init_gives_an_empty_stack :
  ∀ stack a m,
    fits (blocks m) a (SIZEOF_PTR * DEF_MAX_PTRS) = true →
    ∃ stack' m',
      obstack_init_ stack (Some a) m = Done (stack', m') ∧
      holds stack' m' [] (replicate 32 (Some 0)) ∧
      grow stack' = 0 ∧ ptrs stack' = a ∧
      blocks m' = <[a := Table (replicate 32 (Some 0))]> (blocks m) ∧
      handled m' = handled m.
Proof.
  intros stack a m Hfit.
  destruct (obs_fits_fresh _ _ _ Hfit) as [Hfresh Ha].
  unfold obstack_init_, alloc_func.
  change (to_size_t (SIZEOF_PTR * DEF_MAX_PTRS)) with (SIZEOF_PTR * DEF_MAX_PTRS).
  rewrite Hfit. cbn [ptrs set_ptrs set_num_ptrs set_grow set_current].
  rewrite (proj2 (Z.eqb_neq a 0) Ha).
  change (Z.to_nat DEF_MAX_PTRS) with 32%nat.
  rewrite (clear_slots_spec 32 a [] (replicate 32 None))
    by (try reflexivity; simpl; now rewrite lookup_insert_eq).
  cbn [mbind outcome_bind]. eexists _, _. split; [reflexivity|].
  simpl. rewrite insert_insert_eq.
  split_and!; try done.
  unfold holds, live_objects. simpl. rewrite lookup_insert_eq.
  split_and!; try done. constructor.
Qed.

(** ** The stack and its objects *)

Lemma holds_table stack m objs spare :
  holds stack m objs spare →
  blocks m !! ptrs stack = Some (Table ((Some <$> objs) ++ spare)).
Proof. now intros [H _]. Qed.

Lemma holds_object stack m objs spare p :
  holds stack m objs spare → p ∈ objs →
  p ≠ 0 ∧ p ≠ ptrs stack ∧ ∃ data, blocks m !! p = Some (Bytes data).
Proof.
  intros (Ht & _ & _ & _ & _ & Hl & _) Hp.
  unfold live_objects in Hl; rewrite Forall_forall in Hl. destruct (Hl _ Hp) as [H0 [d Hd]].
  split_and!; [done| |eauto]. intros ->. congruence.
Qed.

Lemma holds_ERROR stack m objs spare :
  holds stack m objs spare → holds stack (ERROR m) objs spare.
Proof. unfold ERROR. now destruct (obstack_alloc_failed_handler m). Qed.

Lemma blocks_ERROR m : blocks (ERROR m) = blocks m.
Proof. unfold ERROR. now destruct (obstack_alloc_failed_handler m). Qed.

Lemma holds_room stack m objs s spare :
  holds stack m objs (s :: spare) →
  (num_ptrs stack <=? to_int (current stack + 1)) = false ∧
  to_int (current stack + 1) = Z.of_nat (length objs).
Proof.
  intros (_ & Hn & Hc & Hb & _). simpl in Hn.
  assert (E : to_int (current stack + 1) = Z.of_nat (length objs))
    by (rewrite to_int_small; unfold INT_MAX; lia).
  rewrite E. split; [apply Z.leb_gt; lia|done].
Qed.

Lemma holds_push stack m objs s spare a data :
  holds stack m objs (s :: spare) → blocks m !! a = None → a ≠ 0 →
  holds (set_current (Z.of_nat (length objs)) stack)
        (set_blocks (<[ptrs stack := Table ((Some <$> (objs ++ [a])) ++ spare)]>
                       (<[a := Bytes data]> (blocks m))) m)
        (objs ++ [a]) spare.
Proof.
  intros (Ht & Hn & Hc & Hb & Hd & Hl & Hp) Ha Ha0.
  assert (Hat : a ≠ ptrs stack) by (intros ->; congruence).
  unfold holds, live_objects. simpl. rewrite lookup_insert_eq.
  split_and!; try done.
  - rewrite Hn, length_app. simpl. lia.
  - rewrite length_app. simpl. lia.
  - apply NoDup_app. split_and!; [done| |apply NoDup_singleton].
    intros x Hx ->%list_elem_of_singleton.
    unfold live_objects in Hl; rewrite Forall_forall in Hl. destruct (Hl _ Hx) as [_ [d Hd']]. congruence.
  - apply Forall_app. split.
    + unfold live_objects in *; rewrite Forall_forall in *. intros x Hx.
      destruct (Hl _ Hx) as [Hx0 [d Hd']]. split; [done|].
      exists d. rewrite !lookup_insert_ne; [done| |]; intros E; congruence.
    + apply Forall_singleton. split; [done|]. exists data.
      rewrite lookup_insert_ne by (now apply not_eq_sym). now rewrite lookup_insert_eq.
Qed.

Lemma holds_store stack m objs spare a data :
  holds stack m objs spare → a ∈ objs →
  holds stack (set_blocks (<[a := Bytes data]> (blocks m)) m) objs spare.
Proof.
  intros H Ha. destruct (holds_object _ _ _ _ _ H Ha) as (_ & Hat & _).
  destruct H as (Ht & Hn & Hc & Hb & Hd & Hl & Hp).
  unfold holds, live_objects. simpl. rewrite lookup_insert_ne by done.
  split_and!; try done.
  unfold live_objects in *; rewrite Forall_forall in *. intros x Hx.
  destruct (Hl _ Hx) as [Hx0 [d Hd']]. split; [done|].
  destruct (decide (a = x)) as [->|Hne].
  - exists data. now rewrite lookup_insert_eq.
  - exists d. now rewrite lookup_insert_ne.
Qed.

(** ** [obstack_alloc_] *)

Lemma alloc_room stack m objs s spare size a tcand :
  holds stack m objs (s :: spare) → 0 <= size <= INT_MAX →
  fits (blocks m) a size = true →
  obstack_alloc_ stack size tcand (Some a) m
  = Done (a, set_current (Z.of_nat (length objs)) stack,
          set_blocks (<[ptrs stack := Table ((Some <$> (objs ++ [a])) ++ spare)]>
                        (<[a := Bytes (replicate (Z.to_nat size) None)]> (blocks m))) m).
Proof.
  intros H Hsz Hfit.
  destruct (holds_room _ _ _ _ _ H) as [Hroom Hcur].
  destruct (obs_fits_fresh _ _ _ Hfit) as [Hfresh Ha].
  pose proof (holds_table _ _ _ _ H) as Ht.
  assert (Hat : a ≠ ptrs stack) by (intros ->; congruence).
  unfold obstack_alloc_. rewrite Hroom. cbn [mbind outcome_bind].
  change (0 <? 0) with false. cbv iota.
  unfold realloc_func, alloc_func. change (0 =? 0) with true. cbv iota.
  rewrite to_size_t_small by (unfold INT_MAX, WORD in *; lia).
  rewrite Hfit. cbn [mbind outcome_bind].
  rewrite (proj2 (Z.eqb_neq a 0) Ha). rewrite Hcur.
  cbn [ptrs current set_current].
  erewrite write_slot_at;
    [|simpl; rewrite lookup_insert_ne by (now apply not_eq_sym); exact Ht
     |rewrite length_app, length_fmap; simpl; lia].
  cbn [mbind outcome_bind]. rewrite insert_spare. reflexivity.
Qed.

(** X19.  [obstack_alloc_] with room in the table and an allocator that
    delivers returns the new block and makes it the last object of the
    stack.  Its bytes are indeterminate; the objects that were there keep
    their place and their contents, and the handler is not called. *)
Theorem alloc_pushes_a_new_object :
  ∀ stack m objs s spare size a tcand,
    holds stack m objs (s :: spare) → 0 <= size <= INT_MAX →
    fits (blocks m) a size = true →
    ∃ stack' m',
      obstack_alloc_ stack size tcand (Some a) m = Done (a, stack', m') ∧
      holds stack' m' (objs ++ [a]) spare ∧
      object a m' = Some (replicate (Z.to_nat size) None) ∧
      (a ∉ objs) ∧
      (∀ p, p ∈ objs → object p m' = object p m) ∧
      grow stack' = grow stack ∧ handled m' = handled m.
Proof.
  intros stack m objs s spare size a tcand H Hsz Hfit.
  destruct (obs_fits_fresh _ _ _ Hfit) as [Hfresh Ha].
  pose proof (holds_table _ _ _ _ H) as Ht.
  assert (Hat : a ≠ ptrs stack) by (intros ->; congruence).
  eexists _, _. split; [now apply (alloc_room _ _ _ _ _ _ _ _ H)|].
  split_and!; try done.
  - now apply (holds_push _ _ _ s).
  - unfold object. simpl.
    rewrite lookup_insert_ne by (now apply not_eq_sym). now rewrite lookup_insert_eq.
  - intros Hin. destruct (holds_object _ _ _ _ _ H Hin) as (_ & _ & d & Hd). congruence.
  - intros p Hp. destruct (holds_object _ _ _ _ _ H Hp) as (_ & Hpt & d & Hd).
    unfold object. simpl. rewrite !lookup_insert_ne; [done| |done].
    intros ->. congruence.
Qed.

(** X18.  When the allocator refuses the table, [obstack_init_] calls the
    handler and returns a stack with a null table that still says it has
    [DEF_MAX_PTRS] entries: the next [obstack_alloc_] whose allocation
    succeeds writes through the null pointer. *)
Theorem failed_init_leaves_a_null_table :
  ∀ stack m,
    blocks m !! 0 = None →
    ∃ stack',
      obstack_init_ stack None m = Done (stack', ERROR m) ∧
      ptrs stack' = 0 ∧ num_ptrs stack' = DEF_MAX_PTRS ∧ current stack' = -1 ∧
      ∀ size tcand a,
        fits (blocks m) a (to_size_t size) = true →
        obstack_alloc_ stack' size tcand (Some a) (ERROR m) = Undefined (NotLive 0).
Proof.
  intros stack m H0. eexists. split; [reflexivity|].
  split_and!; try done.
  intros size tcand a Hfit.
  destruct (obs_fits_fresh _ _ _ Hfit) as [Hfresh Ha].
  unfold obstack_alloc_. cbn [num_ptrs current ptrs set_num_ptrs set_ptrs set_current set_grow].
  change (DEF_MAX_PTRS <=? to_int (-1 + 1)) with false. cbn [mbind outcome_bind].
  change (0 <? 0) with false. cbv iota.
  unfold realloc_func, alloc_func. change (0 =? 0) with true. cbv iota.
  rewrite blocks_ERROR, Hfit. cbn [mbind outcome_bind].
  rewrite (proj2 (Z.eqb_neq a 0) Ha).
  unfold write_slot. simpl. rewrite lookup_insert_ne by done.
  now rewrite H0.
Qed.

Lemma holds_grown stack m objs t :
  holds stack m objs [] → num_ptrs stack + DEF_MAX_PTRS < 2 ^ 30 →
  fits (delete (ptrs stack) (blocks m)) t (SIZEOF_PTR * (num_ptrs stack + DEF_MAX_PTRS)) = true →
  grow_ptrs stack (Some t) m
  = Done (0, set_ptrs t (set_num_ptrs (num_ptrs stack + DEF_MAX_PTRS) stack),
          set_blocks (<[t := Table ((Some <$> objs) ++ replicate 32 None)]>
                        (delete (ptrs stack) (blocks m))) m) ∧
  holds (set_ptrs t (set_num_ptrs (num_ptrs stack + DEF_MAX_PTRS) stack))
        (set_blocks (<[t := Table ((Some <$> objs) ++ replicate 32 None)]>
                       (delete (ptrs stack) (blocks m))) m)
        objs (replicate 32 None).
Proof.
  intros (Ht & Hn & Hc & Hb & Hd & Hl & Hp) Hbound Hfit.
  destruct (obs_fits_fresh _ _ _ Hfit) as [Hfresh Ht0].
  assert (Hnn : 0 <= num_ptrs stack) by lia.
  split.
  - unfold grow_ptrs, realloc_func.
    rewrite (proj2 (Z.eqb_neq _ 0) Hp), Ht.
    rewrite (to_int_small (num_ptrs stack + DEF_MAX_PTRS)) by (unfold INT_MAX, DEF_MAX_PTRS in *; lia).
    rewrite (to_size_t_small (num_ptrs stack + DEF_MAX_PTRS))
      by (unfold WORD, DEF_MAX_PTRS in *; lia).
    rewrite to_size_t_small by (unfold WORD, SIZEOF_PTR, DEF_MAX_PTRS in *; lia).
    replace (SIZEOF_PTR * (num_ptrs stack + DEF_MAX_PTRS) =? 0) with false
      by (symmetry; apply Z.eqb_neq; unfold SIZEOF_PTR, DEF_MAX_PTRS; lia).
    rewrite Hfit. cbn [mbind outcome_bind].
    rewrite (proj2 (Z.eqb_neq t 0) Ht0).
    do 3 f_equal. unfold resize.
    replace (Z.to_nat (SIZEOF_PTR * (num_ptrs stack + DEF_MAX_PTRS) / SIZEOF_PTR))
      with (length ((Some <$> objs) ++ []) + 32)%nat.
    + rewrite firstn_all2 by lia.
      replace (length ((Some <$> objs) ++ []) + 32 - length ((Some <$> objs) ++ []))%nat
        with 32%nat by lia.
      now rewrite app_nil_r.
    + rewrite Z.mul_comm, Z.div_mul by done.
      rewrite Hn, app_nil_r, length_fmap. simpl. unfold DEF_MAX_PTRS. lia.
  - unfold holds, live_objects. simpl. rewrite lookup_insert_eq.
    split_and!; try done.
    + rewrite Hn. simpl. unfold DEF_MAX_PTRS. lia.
    + unfold live_objects in *; rewrite Forall_forall in *. intros x Hx.
      destruct (Hl _ Hx) as [Hx0 [d Hd']]. split; [done|].
      exists d.
      assert (Hxp : x ≠ ptrs stack) by (intros E; congruence).
      assert (Hxd : delete (ptrs stack) (blocks m) !! x = Some (Bytes d))
        by (rewrite lookup_delete_ne by (now apply not_eq_sym); done).
      rewrite lookup_insert_ne by (intros E; congruence). done.
Qed.

(** X20.  [obstack_alloc_] on a full table first moves the table to one with
    [DEF_MAX_PTRS] more entries and then allocates.  The objects stay in
    their entries with their contents; the entries that are new and unused
    are indeterminate. *)
Theorem alloc_grows_a_full_table :
  ∀ stack m objs size t a,
    holds stack m objs [] →
    num_ptrs stack + DEF_MAX_PTRS < 2 ^ 30 → 0 <= size <= INT_MAX →
    fits (delete (ptrs stack) (blocks m)) t (SIZEOF_PTR * (num_ptrs stack + DEF_MAX_PTRS)) = true →
    fits (<[t := Table ((Some <$> objs) ++ replicate 32 None)]> (delete (ptrs stack) (blocks m)))
         a size = true →
    ∃ stack' m',
      obstack_alloc_ stack size (Some t) (Some a) m = Done (a, stack', m') ∧
      holds stack' m' (objs ++ [a]) (replicate 31 None) ∧
      ptrs stack' = t ∧ num_ptrs stack' = num_ptrs stack + DEF_MAX_PTRS ∧
      (∀ p, p ∈ objs → object p m' = object p m) ∧
      handled m' = handled m.
Proof.
  intros stack m objs size t a H Hbound Hsz Hfit Hfit'.
  destruct (holds_grown _ _ _ _ H Hbound Hfit) as [Hg H1].
  destruct (obs_fits_fresh _ _ _ Hfit) as [Hfresh Ht0].
  destruct (obs_fits_fresh _ _ _ Hfit') as [Hfresh' Ha0].
  assert (Hfull : (num_ptrs stack <=? to_int (current stack + 1)) = true).
  { destruct H as (_ & Hn & Hc & Hb & _). simpl in Hn.
    rewrite to_int_small by (unfold INT_MAX; lia). apply Z.leb_le. lia. }
  pose proof (alloc_room _ _ _ None (replicate 31 None) size a None H1 Hsz Hfit') as Ha.
  unfold obstack_alloc_ in Ha |- *. rewrite Hfull, Hg. cbn [mbind outcome_bind].
  destruct (holds_room _ _ _ None (replicate 31 None) H1) as [Hroom _].
  rewrite Hroom in Ha. cbn [mbind outcome_bind] in Ha.
  eexists _, _. split; [exact Ha|].
  split_and!; try done.
  - now apply (holds_push _ _ _ None (replicate 31 None)).
  - intros p Hp. destruct (holds_object _ _ _ _ _ H Hp) as (_ & Hpt & d & Hd).
    assert (Hpd : delete (ptrs stack) (blocks m) !! p = Some (Bytes d))
      by (now rewrite lookup_delete_ne by (now apply not_eq_sym)).
    assert (Hpt' : t ≠ p) by (intros E; congruence).
    assert (Hpa : a ≠ p)
      by (intros E; rewrite E, lookup_insert_ne in Hfresh' by done; congruence).
    unfold object. simpl.
    rewrite lookup_insert_ne by done. rewrite lookup_insert_ne by done.
    rewrite lookup_insert_ne by done. now rewrite Hpd, Hd.
Qed.

Lemma grow_ptrs_refused stack m objs spare :
  holds stack m objs spare → num_ptrs stack + DEF_MAX_PTRS < 2 ^ 30 →
  grow_ptrs stack None m = Done (-1, stack, ERROR m).
Proof.
  intros (Ht & Hn & Hcur & Hb & Hd & Hl & Hp) Hbound.
  unfold grow_ptrs, realloc_func.
  rewrite (proj2 (Z.eqb_neq _ 0) Hp), Ht.
  rewrite (to_int_small (num_ptrs stack + DEF_MAX_PTRS)) by (unfold INT_MAX, DEF_MAX_PTRS in *; lia).
  rewrite (to_size_t_small (num_ptrs stack + DEF_MAX_PTRS))
    by (unfold WORD, DEF_MAX_PTRS in *; lia).
  rewrite to_size_t_small by (unfold WORD, SIZEOF_PTR, DEF_MAX_PTRS in *; lia).
  replace (SIZEOF_PTR * (num_ptrs stack + DEF_MAX_PTRS) =? 0) with false
    by (symmetry; apply Z.eqb_neq; unfold SIZEOF_PTR, DEF_MAX_PTRS; lia).
  reflexivity.
Qed.

(** X21.  When the allocator refuses, [obstack_alloc_] returns null after
    one call of the handler and the stack is as before: on a full table
    when the table cannot grow, otherwise when the object cannot be had. *)
Theorem failed_alloc_keeps_the_stack :
  ∀ stack m objs spare size tcand cand,
    holds stack m objs spare →
    num_ptrs stack + DEF_MAX_PTRS < 2 ^ 30 →
    match spare with [] => tcand = None | _ => cand = None end →
    obstack_alloc_ stack size tcand cand m = Done (0, stack, ERROR m) ∧
    holds stack (ERROR m) objs spare.
Proof.
  intros stack m objs spare size tcand cand H Hbound Hc.
  split; [|now apply holds_ERROR].
  destruct spare as [|s spare].
  - subst tcand.
    pose proof H as (Ht & Hn & Hcur & Hb & Hd & Hl & Hp). simpl in Hn.
    unfold obstack_alloc_.
    replace (num_ptrs stack <=? to_int (current stack + 1)) with true
      by (symmetry; rewrite to_int_small by (unfold INT_MAX; lia); apply Z.leb_le; lia).
    rewrite (grow_ptrs_refused _ _ _ _ H Hbound). reflexivity.
  - subst cand.
    destruct (holds_room _ _ _ _ _ H) as [Hroom _].
    unfold obstack_alloc_. rewrite Hroom. reflexivity.
Qed.

(** ** [obstack_free_] *)

Lemma lookup_foldr_delete_in (l : list Z) (h : gmap Z area) x :
  x ∈ l → foldr delete h l !! x = None.
Proof.
  induction l as [|y l IH]; intros Hx; [inversion Hx|]. simpl.
  destruct (decide (y = x)) as [->|Hne]; [apply lookup_delete_eq|].
  rewrite lookup_delete_ne by done. apply IH.
  apply elem_of_cons in Hx as [->|Hx]; [done|exact Hx].
Qed.

Lemma lookup_foldr_delete_notin (l : list Z) (h : gmap Z area) x :
  x ∉ l → foldr delete h l !! x = h !! x.
Proof.
  induction l as [|y l IH]; intros Hx; [done|]. simpl.
  apply not_elem_of_cons in Hx as [Hne Hx].
  rewrite lookup_delete_ne by (now apply not_eq_sym). now apply IH.
Qed.

Lemma foldr_delete_insert_ne (l : list Z) (h : gmap Z area) k v :
  k ∉ l → foldr delete (<[k := v]> h) l = <[k := v]> (foldr delete h l).
Proof.
  induction l as [|y l IH]; intros Hk; [done|]. simpl.
  apply not_elem_of_cons in Hk as [Hne Hk].
  rewrite IH by done. now rewrite delete_insert_ne by (now apply not_eq_sym).
Qed.

Lemma replicate_shift {A} (n : nat) (x : A) (l : list A) :
  replicate n x ++ x :: l = replicate (S n) x ++ l.
Proof. induction n as [|n IH]; simpl; [done|]. now rewrite IH. Qed.

Lemma foldr_delete_snoc (l : list Z) (h : gmap Z area) q :
  foldr delete (delete q h) l = foldr delete h (l ++ [q]).
Proof. now rewrite foldr_app. Qed.

(** One turn of the loop at the last object [q]: it is freed and its entry
    is read again. *)
Lemma free_turn stack m objs q spare :
  blocks m !! ptrs stack = Some (Table ((Some <$> (objs ++ [q])) ++ spare)) →
  live_objects m (objs ++ [q]) →
  read_slot (ptrs stack) (Z.of_nat (length objs)) m = Done q ∧
  free_func q m = Done (set_blocks (delete q (blocks m)) m) ∧
  read_slot (ptrs stack) (Z.of_nat (length objs)) (set_blocks (delete q (blocks m)) m) = Done q ∧
  write_slot (ptrs stack) (Z.of_nat (length objs)) 0 (set_blocks (delete q (blocks m)) m)
  = Done (set_blocks (<[ptrs stack := Table ((Some <$> objs) ++ Some 0 :: spare)]>
                        (delete q (blocks m))) m).
Proof.
  intros Ht Hl.
  assert (Hq : q ≠ 0 ∧ ∃ d, blocks m !! q = Some (Bytes d)).
  { unfold live_objects in Hl. unfold live_objects in Hl; rewrite Forall_forall in Hl. apply Hl.
    apply elem_of_app. right. left. }
  destruct Hq as [Hq0 [d Hd]].
  assert (Hqt : q ≠ ptrs stack) by (intros E; congruence).
  assert (Hslot : ((Some <$> (objs ++ [q])) ++ spare) !! length objs = Some (Some q)).
  { rewrite fmap_app, <- app_assoc. simpl. apply lookup_spare. }
  assert (Ht' : blocks (set_blocks (delete q (blocks m)) m) !! ptrs stack
                = Some (Table ((Some <$> (objs ++ [q])) ++ spare)))
    by (simpl; now rewrite lookup_delete_ne).
  split_and!.
  - now apply (read_slot_at _ _ _ _ _ Ht).
  - unfold free_func. now rewrite (proj2 (Z.eqb_neq q 0) Hq0), Hd.
  - now apply (read_slot_at _ _ _ _ _ Ht').
  - rewrite (write_slot_at _ _ _ _ _ Ht')
      by (rewrite length_app, length_fmap, length_app; simpl; lia).
    f_equal. unfold set_blocks. simpl. do 3 f_equal.
    rewrite fmap_app, <- app_assoc. simpl.
    rewrite insert_app_r_alt by (rewrite length_fmap; lia).
    now rewrite length_fmap, Nat.sub_diag.
Qed.

Lemma live_objects_init m objs q : live_objects m (objs ++ [q]) → NoDup (objs ++ [q]) →
  ∀ t v, t ∉ objs →
    live_objects (set_blocks (<[t := v]> (delete q (blocks m))) m) objs.
Proof.
  unfold live_objects. intros Hl Hd t v Ht.
  apply Forall_app in Hl as [Hl _].
  apply NoDup_app in Hd as (_ & Hd & _).
  unfold live_objects in *; rewrite Forall_forall in *. intros x Hx.
  destruct (Hl _ Hx) as [Hx0 [d Hxd]]. split; [done|]. exists d. simpl.
  rewrite lookup_insert_ne by (intros ->; done).
  rewrite lookup_delete_ne; [done|].
  intros ->. apply (Hd _ Hx). left.
Qed.

Lemma table_not_object m t slots objs :
  blocks m !! t = Some (Table slots) → live_objects m objs → t ∉ objs.
Proof.
  intros Ht Hl Hin. unfold live_objects in Hl. unfold live_objects in Hl; rewrite Forall_forall in Hl.
  destruct (Hl _ Hin) as [_ [d Hd]]. congruence.
Qed.

Lemma free_loop_found stack ptr before :
  ∀ after m spare,
    blocks m !! ptrs stack = Some (Table ((Some <$> (before ++ ptr :: after)) ++ spare)) →
    NoDup (before ++ ptr :: after) →
    live_objects m (before ++ ptr :: after) →
    obstack_free_loop (length (before ++ ptr :: after)) stack ptr m
    = Done (set_current (Z.of_nat (length before) - 1) stack,
            set_blocks (<[ptrs stack := Table ((Some <$> before)
                                               ++ replicate (S (length after)) (Some 0) ++ spare)]>
                          (foldr delete (blocks m) (ptr :: after))) m).
Proof.
  induction after as [|q after IH] using rev_ind; intros m spare Ht Hd Hl.
  - destruct (free_turn _ _ _ _ _ Ht Hl) as (R1 & F & R2 & W).
    rewrite length_app. simpl. rewrite Nat.add_1_r.
    cbn [obstack_free_loop]. rewrite R1. cbn [mbind outcome_bind].
    rewrite F. cbn [mbind outcome_bind]. rewrite R2. cbn [mbind outcome_bind].
    rewrite Z.eqb_refl. cbn [ptrs set_current]. rewrite W. reflexivity.
  - assert (E : before ++ ptr :: after ++ [q] = (before ++ ptr :: after) ++ [q])
      by (now rewrite <- app_assoc).
    rewrite E in *.
    destruct (free_turn _ _ _ _ _ Ht Hl) as (R1 & F & R2 & W).
    assert (Hne : q ≠ ptr).
    { intros ->. apply NoDup_app in Hd as (_ & Hd & _).
      apply (Hd ptr); [apply elem_of_app; right; left|left]. }
    rewrite (length_app _ [q]). simpl. rewrite Nat.add_1_r.
    cbn [obstack_free_loop]. rewrite R1. cbn [mbind outcome_bind].
    rewrite F. cbn [mbind outcome_bind]. rewrite R2. cbn [mbind outcome_bind].
    rewrite (proj2 (Z.eqb_neq q ptr) Hne). rewrite W. cbn [mbind outcome_bind].
    pose proof (table_not_object _ _ _ _ Ht Hl) as Htn.
    rewrite elem_of_app in Htn.
    rewrite (IH _ (Some 0 :: spare)).
    + assert (Hnotin : ptrs stack ∉ ptr :: after)
        by (intros Hx; apply Htn; left; apply elem_of_app; now right).
      f_equal. f_equal. unfold set_blocks. cbn [blocks obstack_alloc_failed_handler handled].
      f_equal.
      rewrite foldr_delete_insert_ne by done.
      rewrite insert_insert_eq, foldr_delete_snoc.
      change ((ptr :: after) ++ [q]) with (ptr :: after ++ [q]).
      f_equal. f_equal. f_equal.
      rewrite length_app, Nat.add_1_r. apply replicate_shift.
    + simpl. now rewrite lookup_insert_eq.
    + now apply NoDup_app in Hd as (Hd & _).
    + apply (live_objects_init _ _ _ Hl Hd). tauto.
Qed.

Lemma free_loop_missing stack ptr :
  ∀ objs m spare,
    blocks m !! ptrs stack = Some (Table ((Some <$> objs) ++ spare)) →
    NoDup objs → live_objects m objs → ptr ∉ objs →
    obstack_free_loop (length objs) stack ptr m
    = Done (stack,
            set_blocks (<[ptrs stack := Table (replicate (length objs) (Some 0) ++ spare)]>
                          (foldr delete (blocks m) objs)) m).
Proof.
  induction objs as [|q objs IH] using rev_ind; intros m spare Ht Hd Hl Hp.
  - simpl. do 2 f_equal. destruct m as [h ? ?]. unfold set_blocks. simpl in *.
    f_equal. symmetry. now apply insert_id.
  - destruct (free_turn _ _ _ _ _ Ht Hl) as (R1 & F & R2 & W).
    assert (Hne : q ≠ ptr) by (intros ->; apply Hp, elem_of_app; right; left).
    rewrite length_app. simpl. rewrite Nat.add_1_r.
    cbn [obstack_free_loop]. rewrite R1. cbn [mbind outcome_bind].
    rewrite F. cbn [mbind outcome_bind]. rewrite R2. cbn [mbind outcome_bind].
    rewrite (proj2 (Z.eqb_neq q ptr) Hne). rewrite W. cbn [mbind outcome_bind].
    pose proof (table_not_object _ _ _ _ Ht Hl) as Htn.
    rewrite elem_of_app in Htn.
    rewrite (IH _ (Some 0 :: spare)).
    + f_equal. f_equal. unfold set_blocks. cbn [blocks obstack_alloc_failed_handler handled].
      f_equal.
      rewrite foldr_delete_insert_ne by tauto.
      rewrite insert_insert_eq, foldr_delete_snoc.
      f_equal. f_equal. apply replicate_shift.
    + simpl. now rewrite lookup_insert_eq.
    + now apply NoDup_app in Hd as (Hd & _).
    + apply (live_objects_init _ _ _ Hl Hd). tauto.
    + intros Hin. apply Hp, elem_of_app. now left.
Qed.

(** X22.  [obstack_free_] with an object of the stack frees that object and
    every object allocated after it, and nothing else: the older objects
    stay, the stack ends before the freed object and the entries of the
    freed ones are null. *)
Theorem free_pops_the_object_and_all_after_it :
  ∀ stack m before p after spare,
    holds stack m (before ++ p :: after) spare →
    ∃ stack' m',
      obstack_free_ stack p m = Done (stack', m') ∧
      holds stack' m' before (replicate (S (length after)) (Some 0) ++ spare) ∧
      (∀ q, q ∈ p :: after → blocks m' !! q = None) ∧
      (∀ q, q ∉ p :: after → q ≠ ptrs stack → blocks m' !! q = blocks m !! q) ∧
      ptrs stack' = ptrs stack ∧ handled m' = handled m.
Proof.
  intros stack m before p after spare H.
  pose proof H as (Ht & Hn & Hc & Hb & Hd & Hl & Hp).
  pose proof (table_not_object _ _ _ _ Ht Hl) as Htn.
  unfold obstack_free_.
  replace (Z.to_nat (current stack + 1)) with (length (before ++ p :: after)) by lia.
  rewrite (free_loop_found _ _ _ _ _ _ Ht Hd Hl).
  eexists _, _. split; [reflexivity|].
  split_and!; try done.
  - unfold holds, live_objects. simpl. rewrite lookup_insert_eq.
    split_and!; try done.
    + rewrite Hn, !length_app, length_replicate. simpl. lia.
    + now apply NoDup_app in Hd as (Hd & _).
    + apply NoDup_app in Hd as (_ & Hd & _).
      apply Forall_app in Hl as [Hl _].
      unfold live_objects in *; rewrite Forall_forall in *. intros x Hx.
      destruct (Hl _ Hx) as [Hx0 [d Hxd]]. split; [done|]. exists d.
      rewrite lookup_insert_ne by (intros E; congruence).
      change (delete p (foldr delete (blocks m) after)) with (foldr delete (blocks m) (p :: after)).
      rewrite lookup_foldr_delete_notin; [done|]. now apply Hd.
  - intros q Hq. simpl.
    rewrite lookup_insert_ne
      by (intros E; apply Htn; rewrite E; apply elem_of_app; now right).
    change (delete p (foldr delete (blocks m) after)) with (foldr delete (blocks m) (p :: after)).
    now apply lookup_foldr_delete_in.
  - intros q Hq Hqt. simpl.
    rewrite lookup_insert_ne by (now apply not_eq_sym).
    change (delete p (foldr delete (blocks m) after)) with (foldr delete (blocks m) (p :: after)).
    now apply lookup_foldr_delete_notin.
Qed.

(** X23.  [obstack_free_] with a pointer that is no object of the stack, the
    null pointer for one, frees every object and nulls its entry, but leaves
    [current] where it was: the stack still counts the freed objects. *)
Theorem free_of_a_foreign_pointer_frees_everything :
  ∀ stack m objs spare ptr,
    holds stack m objs spare → ptr ∉ objs →
    ∃ m',
      obstack_free_ stack ptr m = Done (stack, m') ∧
      blocks m' !! ptrs stack = Some (Table (replicate (length objs) (Some 0) ++ spare)) ∧
      (∀ q, q ∈ objs → blocks m' !! q = None) ∧
      (∀ q, q ∉ objs → q ≠ ptrs stack → blocks m' !! q = blocks m !! q) ∧
      current stack = Z.of_nat (length objs) - 1.
Proof.
  intros stack m objs spare ptr H Hptr.
  pose proof H as (Ht & Hn & Hc & Hb & Hd & Hl & Hp).
  pose proof (table_not_object _ _ _ _ Ht Hl) as Htn.
  unfold obstack_free_.
  replace (Z.to_nat (current stack + 1)) with (length objs) by lia.
  rewrite (free_loop_missing _ _ _ _ _ Ht Hd Hl Hptr).
  eexists. split; [reflexivity|].
  split_and!; try done.
  - simpl. now rewrite lookup_insert_eq.
  - intros q Hq. simpl.
    rewrite lookup_insert_ne by (intros E; apply Htn; now rewrite E).
    now apply lookup_foldr_delete_in.
  - intros q Hq Hqt. simpl.
    rewrite lookup_insert_ne by (now apply not_eq_sym).
    now apply lookup_foldr_delete_notin.
Qed.

(** ** [obstack_copy_] and [obstack_copy0_] *)

Lemma memcpy_at p (off n : nat) src m data :
  blocks m !! p = Some (Bytes data) →
  (off + n <= length data)%nat → (n <= length src)%nat →
  memcpy p (Z.of_nat off) src (Z.of_nat n) m
  = Done (set_blocks (<[p := Bytes (take off data ++ (Some <$> take n src)
                                    ++ drop (off + n) data)]> (blocks m)) m).
Proof.
  intros Hp Hd Hs. unfold memcpy. rewrite Hp.
  replace ((0 <=? Z.of_nat off) && (Z.of_nat off + Z.of_nat n <=? Z.of_nat (length data)))
    with true by (symmetry; apply andb_true_iff; split; apply Z.leb_le; lia).
  replace (Z.of_nat n <=? Z.of_nat (length src)) with true by (symmetry; apply Z.leb_le; lia).
  now rewrite <- Nat2Z.inj_add, !Nat2Z.id.
Qed.

Lemma store_byte_at p (off : nat) b m data :
  blocks m !! p = Some (Bytes data) → (off < length data)%nat →
  store_byte p (Z.of_nat off) b m
  = Done (set_blocks (<[p := Bytes (<[off := Some b]> data)]> (blocks m)) m).
Proof.
  intros Hp Hd. unfold store_byte. rewrite Hp.
  replace ((0 <=? Z.of_nat off) && (Z.of_nat off <? Z.of_nat (length data))) with true
    by (symmetry; apply andb_true_iff; split; [apply Z.leb_le|apply Z.ltb_lt]; lia).
  now rewrite Nat2Z.id.
Qed.

Lemma holds_last stack m objs a spare :
  holds stack m (objs ++ [a]) spare →
  a ≠ 0 ∧ a ≠ ptrs stack ∧ ∃ data, blocks m !! a = Some (Bytes data).
Proof. intros H. apply (holds_object _ _ _ _ _ H), elem_of_app. right. left. Qed.

(** X24.  With room in the table and an allocator that delivers,
    [obstack_copy_] makes the first [size] bytes of the source the new last
    object of the stack, and [obstack_copy0_] does the same with a
    terminator behind them. *)
Theorem copy_stores_the_bytes :
  ∀ stack m objs s spare src (size : nat) a tcand,
    holds stack m objs (s :: spare) →
    Z.of_nat size < INT_MAX → (size <= length src)%nat →
    (fits (blocks m) a (Z.of_nat size) = true →
     ∃ stack' m',
       obstack_copy_ stack src (Z.of_nat size) tcand (Some a) m = Done (a, stack', m') ∧
       holds stack' m' (objs ++ [a]) spare ∧
       object a m' = Some (Some <$> take size src)) ∧
    (fits (blocks m) a (Z.of_nat size + 1) = true →
     ∃ stack' m',
       obstack_copy0_ stack src (Z.of_nat size) tcand (Some a) m = Done (a, stack', m') ∧
       holds stack' m' (objs ++ [a]) spare ∧
       object a m' = Some (Some <$> (take size src ++ [x00]))).
Proof.
  intros stack m objs s spare src size a tcand H Hsz Hsrc.
  assert (Hts : to_size_t (Z.of_nat size) = Z.of_nat size)
    by (apply to_size_t_small; unfold INT_MAX, WORD in *; lia).
  split; intros Hfit.
  - destruct (obs_fits_fresh _ _ _ Hfit) as [Hfresh Ha].
    pose proof (holds_push _ _ _ _ _ a (replicate size None) H Hfresh Ha) as H1.
    destruct (holds_last _ _ _ _ _ H1) as (_ & Hat & _). simpl in Hat.
    unfold obstack_copy_.
    rewrite (alloc_room _ _ _ _ _ _ _ tcand H) by (done || lia).
    cbn [mbind outcome_bind]. rewrite (proj2 (Z.eqb_neq a 0) Ha), Hts, Nat2Z.id.
    rewrite (memcpy_at a 0 size src _ (replicate size None));
      [|simpl; rewrite lookup_insert_ne by (now apply not_eq_sym); apply lookup_insert_eq
       |rewrite length_replicate; lia|done].
    cbn [mbind outcome_bind]. eexists _, _. split; [reflexivity|]. split.
    + apply holds_store; [exact H1|apply elem_of_app; right; left].
    + unfold object. simpl. rewrite lookup_insert_eq.
      rewrite drop_ge by (rewrite length_replicate; lia). now rewrite app_nil_r.
  - destruct (obs_fits_fresh _ _ _ Hfit) as [Hfresh Ha].
    pose proof (holds_push _ _ _ _ _ a (replicate (S size) None) H Hfresh Ha) as H1.
    destruct (holds_last _ _ _ _ _ H1) as (_ & Hat & _). simpl in Hat.
    unfold obstack_copy0_.
    rewrite (to_int_small (Z.of_nat size + 1)) by (unfold INT_MAX in *; lia).
    rewrite (alloc_room _ _ _ _ _ _ _ tcand H) by (done || lia).
    cbn [mbind outcome_bind]. rewrite (proj2 (Z.eqb_neq a 0) Ha), Hts.
    replace (Z.to_nat (Z.of_nat size + 1)) with (S size) by lia.
    rewrite (memcpy_at a 0 size src _ (replicate (S size) None));
      [|simpl; rewrite lookup_insert_ne by (now apply not_eq_sym); apply lookup_insert_eq
       |rewrite length_replicate; lia|done].
    cbn [mbind outcome_bind].
    replace (take 0 (replicate (S size) None) ++ (Some <$> take size src)
             ++ drop (0 + size) (replicate (S size) None))
      with ((Some <$> take size src) ++ [@None byte])
      by (rewrite drop_replicate; replace (S size - (0 + size))%nat with 1%nat by lia;
          reflexivity).
    rewrite (store_byte_at a size x00 _ ((Some <$> take size src) ++ [None]));
      [|cbn [blocks set_blocks]; apply lookup_insert_eq
       |rewrite length_app, length_fmap, length_take; simpl; lia].
    cbn [mbind outcome_bind]. eexists _, _. split; [reflexivity|]. split.
    + assert (Hin : a ∈ objs ++ [a]) by (apply elem_of_app; right; left).
      exact (holds_store _ _ _ _ a _ (holds_store _ _ _ _ a _ H1 Hin) Hin).
    + unfold object. cbn [blocks set_blocks]. rewrite lookup_insert_eq.
      rewrite insert_app_r_alt by (rewrite length_fmap, length_take; lia).
      rewrite length_fmap, length_take, Nat.min_l by lia. rewrite Nat.sub_diag.
      now rewrite fmap_app.
Qed.

(** ** Growing objects *)

Lemma holds_fields s s' m objs spare :
  ptrs s' = ptrs s → num_ptrs s' = num_ptrs s → current s' = current s →
  holds s m objs spare → holds s' m objs spare.
Proof. unfold holds. intros E1 E2 E3. now rewrite E1, E2, E3. Qed.

(** What the functions do with an object that is growing: its entry is
    read, the block moves to [a] with [extra] more bytes, and the entry is
    written. *)
Lemma continue_step stack m objs p spare data (extra : nat) a :
  holds stack m (objs ++ [p]) spare → object p m = Some data →
  (0 < length data + extra)%nat →
  fits (delete p (blocks m)) a (Z.of_nat (length data + extra)) = true →
  ∃ m0 m1,
    m0 = set_blocks (<[a := Bytes (data ++ replicate extra None)]> (delete p (blocks m))) m ∧
    m1 = set_blocks (<[ptrs stack := Table ((Some <$> (objs ++ [a])) ++ spare)]> (blocks m0)) m0 ∧
    read_slot (ptrs stack) (current stack) m = Done p ∧
    realloc_func Chars p (Z.of_nat (length data + extra)) (Some a) m = Done (a, m0) ∧
    realloc_func Chars p (Z.of_nat (length data + extra)) None m = Done (0, m) ∧
    write_slot (ptrs stack) (current stack) a m0 = Done m1 ∧
    holds stack m1 (objs ++ [a]) spare ∧
    a ≠ 0 ∧
    blocks m1 !! a = Some (Bytes (data ++ replicate extra None)) ∧
    (a ≠ p → blocks m1 !! p = None) ∧
    handled m1 = handled m.
Proof.
  intros H Hobj Hpos Hfit.
  pose proof H as (Ht & Hn & Hc & Hb & Hd & Hl & Hp).
  destruct (holds_last _ _ _ _ _ H) as (Hp0 & Hpt & d & Hpd).
  unfold object in Hobj. rewrite Hpd in Hobj. injection Hobj as ->.
  destruct (obs_fits_fresh _ _ _ Hfit) as [Hfresh Ha].
  assert (Hcur : current stack = Z.of_nat (length objs))
    by (rewrite Hc, length_app; simpl; lia).
  assert (Htd : delete p (blocks m) !! ptrs stack
                = Some (Table ((Some <$> (objs ++ [p])) ++ spare)))
    by (now rewrite lookup_delete_ne).
  assert (Hat : a ≠ ptrs stack) by (intros E; congruence).
  assert (Hslot : ((Some <$> (objs ++ [p])) ++ spare) !! length objs = Some (Some p)).
  { rewrite fmap_app, <- app_assoc. simpl. apply lookup_spare. }
  eexists _, _. split; [reflexivity|]. split; [reflexivity|].
  assert (Hre : ∀ cand, realloc_func Chars p (Z.of_nat (length data + extra)) cand m
                = match cand with
                  | Some a =>
                    if fits (delete p (blocks m)) a (Z.of_nat (length data + extra))
                    then Done (a, set_blocks (<[a := Bytes (data ++ replicate extra None)]>
                                                (delete p (blocks m))) m)
                    else Done (0, m)
                  | None => Done (0, m)
                  end).
  { intros cand. unfold realloc_func.
    rewrite (proj2 (Z.eqb_neq p 0) Hp0), Hpd.
    replace (Z.of_nat (length data + extra) =? 0) with false
      by (symmetry; apply Z.eqb_neq; lia).
    unfold resize. rewrite Nat2Z.id.
    rewrite firstn_all2 by lia.
    now replace (length data + extra - length data)%nat with extra by lia. }
  split_and!.
  - rewrite Hcur. now apply (read_slot_at _ _ _ _ _ Ht).
  - now rewrite Hre, Hfit.
  - now rewrite Hre.
  - rewrite Hcur. erewrite write_slot_at;
      [|cbn [blocks set_blocks]; rewrite lookup_insert_ne by done; exact Htd
       |rewrite length_app, length_fmap, length_app; simpl; lia].
    do 2 f_equal. do 2 f_equal.
    rewrite fmap_app, <- app_assoc. simpl.
    rewrite insert_app_r_alt by (rewrite length_fmap; lia).
    rewrite length_fmap, Nat.sub_diag. simpl.
    now rewrite fmap_app, <- app_assoc.
  - unfold holds, live_objects. cbn [blocks set_blocks]. rewrite lookup_insert_eq.
    apply NoDup_app in Hd as (Hd1 & Hd2 & _).
    split_and!; try done.
    + rewrite Hn, !length_app. simpl. lia.
    + rewrite Hc, !length_app. simpl. lia.
    + apply NoDup_app. split_and!; [done| |apply NoDup_singleton].
      intros x Hx Hxa%list_elem_of_singleton.
      unfold live_objects in Hl. rewrite Forall_forall in Hl.
      destruct (Hl x) as [_ [dx Hdx]]; [apply elem_of_app; now left|].
      assert (x ≠ p) by (intros E; apply (Hd2 x Hx); rewrite E; left).
      rewrite <- Hxa, lookup_delete_ne in Hfresh by (now apply not_eq_sym). congruence.
    + apply Forall_app. split.
      * unfold live_objects in Hl. rewrite Forall_forall in *. intros x Hx.
        destruct (Hl x) as [Hx0 [dx Hdx]]; [apply elem_of_app; now left|].
        split; [done|]. exists dx.
        assert (x ≠ p) by (intros E; apply (Hd2 x Hx); rewrite E; left).
        assert (Hxd : delete p (blocks m) !! x = Some (Bytes dx))
          by (now rewrite lookup_delete_ne by (now apply not_eq_sym)).
        rewrite lookup_insert_ne by (intros E; congruence).
        rewrite lookup_insert_ne by (intros E; congruence). done.
      * apply Forall_singleton. split; [done|]. eexists.
        rewrite lookup_insert_ne by (now apply not_eq_sym). apply lookup_insert_eq.
  - done.
  - cbn [blocks set_blocks].
    rewrite lookup_insert_ne by (now apply not_eq_sym). apply lookup_insert_eq.
  - intros Hne. cbn [blocks set_blocks].
    rewrite lookup_insert_ne by (now apply not_eq_sym).
    rewrite lookup_insert_ne by done. apply lookup_delete_eq.
  - reflexivity.
Qed.

Lemma append_bytes (data : list (option byte)) (n : nat) (new : list (option byte)) :
  length new = n →
  take (length data) (data ++ replicate n None) ++ new
  ++ drop (length data + n) (data ++ replicate n None) = data ++ new.
Proof.
  intros Hn. rewrite take_app_length.
  rewrite drop_ge by (rewrite length_app, length_replicate; lia).
  now rewrite app_nil_r.
Qed.

(** X26.  [obstack_grow_] on a growing object moves the object to a block
    that is [size] bytes longer and appends the first [size] bytes of the
    source; the stack has the new block in the place of the old one.  When
    the allocator refuses, the handler is called and nothing else
    changes. *)
Theorem grow_appends_to_the_growing_object :
  ∀ stack m objs p spare data src (size : nat) a tcand,
    holds stack m (objs ++ [p]) spare → grow stack ≠ 0 →
    object p m = Some data → grow_size stack = Z.of_nat (length data) →
    (0 < length data + size)%nat → Z.of_nat (length data + size) <= INT_MAX →
    (size <= length src)%nat →
    fits (delete p (blocks m)) a (Z.of_nat (length data + size)) = true →
    (∃ stack' m',
       obstack_grow_ stack src (Z.of_nat size) tcand (Some a) m = Done (stack', m') ∧
       holds stack' m' (objs ++ [a]) spare ∧
       object a m' = Some (data ++ (Some <$> take size src)) ∧
       grow_size stack' = Z.of_nat (length data + size) ∧
       (a ≠ p → blocks m' !! p = None)) ∧
    obstack_grow_ stack src (Z.of_nat size) tcand None m = Done (set_grow 1 stack, ERROR m).
Proof.
  intros stack m objs p spare data src size a tcand H Hg Hobj Hgs Hpos Hmax Hsrc Hfit.
  destruct (continue_step _ _ _ _ _ _ size _ H Hobj Hpos Hfit)
    as (m0 & m1 & Em0 & Em1 & R & RA & RN & W & H1 & Ha0 & Hda & Hold & Hh).
  assert (Esz : to_size_t (to_int (grow_size stack + Z.of_nat size))
                = Z.of_nat (length data + size)).
  { rewrite Hgs, <- Nat2Z.inj_add.
    rewrite to_int_small by (unfold INT_MAX in *; lia).
    apply to_size_t_small. unfold INT_MAX, WORD in *. lia. }
  assert (Egs : to_int (grow_size stack + Z.of_nat size) = Z.of_nat (length data + size)).
  { rewrite Hgs, <- Nat2Z.inj_add. apply to_int_small. unfold INT_MAX in *. lia. }
  assert (Ets : to_size_t (Z.of_nat size) = Z.of_nat size)
    by (apply to_size_t_small; unfold INT_MAX, WORD in *; lia).
  unfold obstack_grow_. rewrite (proj2 (Z.eqb_neq _ 0) Hg).
  cbn [mbind outcome_bind ptrs current grow_size set_grow set_grow_size].
  rewrite R. cbn [mbind outcome_bind]. rewrite Esz, RA, RN. cbn [mbind outcome_bind].
  split; [|reflexivity].
  rewrite (proj2 (Z.eqb_neq a 0) Ha0). rewrite W. cbn [mbind outcome_bind]. rewrite Egs, Ets.
  replace (Z.of_nat (length data + size) - Z.of_nat size) with (Z.of_nat (length data)) by lia.
  rewrite (memcpy_at a (length data) size src m1 _ Hda)
    by (done || rewrite length_app, length_replicate; lia).
  cbn [mbind outcome_bind].
  rewrite append_bytes by (rewrite length_fmap, length_take; lia).
  eexists _, _. split; [reflexivity|]. split_and!.
  - apply holds_store; [|apply elem_of_app; right; left].
    now apply (holds_fields stack).
  - unfold object. cbn [blocks set_blocks]. now rewrite lookup_insert_eq.
  - reflexivity.
  - intros Hne. cbn [blocks set_blocks].
    rewrite lookup_insert_ne by done. now apply Hold.
Qed.

(** X27.  [obstack_grow0_] on a growing object appends the first [size]
    bytes of the source and a terminator, and the terminator counts: the
    object is [size + 1] bytes longer. *)
Theorem grow0_appends_a_terminated_piece :
  ∀ stack m objs p spare data src (size : nat) a tcand,
    holds stack m (objs ++ [p]) spare → grow stack ≠ 0 →
    object p m = Some data → grow_size stack = Z.of_nat (length data) →
    Z.of_nat (length data + size + 1) <= INT_MAX →
    (size <= length src)%nat →
    fits (delete p (blocks m)) a (Z.of_nat (length data + size + 1)) = true →
    ∃ stack' m',
      obstack_grow0_ stack src (Z.of_nat size) tcand (Some a) m = Done (stack', m') ∧
      holds stack' m' (objs ++ [a]) spare ∧
      object a m' = Some (data ++ (Some <$> (take size src ++ [x00]))) ∧
      grow_size stack' = Z.of_nat (length data + size + 1).
Proof.
  intros stack m objs p spare data src size a tcand H Hg Hobj Hgs Hmax Hsrc Hfit.
  rewrite <- Nat.add_assoc in Hfit.
  destruct (continue_step _ _ _ _ _ _ (size + 1) _ H Hobj ltac:(lia) Hfit)
    as (m0 & m1 & Em0 & Em1 & R & RA & RN & W & H1 & Ha0 & Hda & Hold & Hh).
  assert (Esz : to_size_t (to_int (grow_size stack + Z.of_nat size + 1))
                = Z.of_nat (length data + (size + 1))).
  { rewrite Hgs. replace (Z.of_nat (length data) + Z.of_nat size + 1)
      with (Z.of_nat (length data + (size + 1))) by lia.
    rewrite to_int_small by (unfold INT_MAX in *; lia).
    apply to_size_t_small. unfold INT_MAX, WORD in *. lia. }
  assert (Egs : to_int (grow_size stack + to_int (Z.of_nat size + 1))
                = Z.of_nat (length data + (size + 1))).
  { rewrite Hgs. rewrite (to_int_small (Z.of_nat size + 1)) by (unfold INT_MAX in *; lia).
    replace (Z.of_nat (length data) + (Z.of_nat size + 1))
      with (Z.of_nat (length data + (size + 1))) by lia.
    apply to_int_small. unfold INT_MAX in *. lia. }
  assert (Ets : to_size_t (Z.of_nat size) = Z.of_nat size)
    by (apply to_size_t_small; unfold INT_MAX, WORD in *; lia).
  unfold obstack_grow0_. rewrite (proj2 (Z.eqb_neq _ 0) Hg).
  cbn [mbind outcome_bind ptrs current grow_size set_grow set_grow_size].
  rewrite R. cbn [mbind outcome_bind]. rewrite Esz, RA. cbn [mbind outcome_bind].
  rewrite (proj2 (Z.eqb_neq a 0) Ha0). rewrite W. cbn [mbind outcome_bind]. rewrite Egs, Ets.
  replace (Z.of_nat (length data + (size + 1)) - Z.of_nat size - 1)
    with (Z.of_nat (length data)) by lia.
  replace (Z.of_nat (length data + (size + 1)) - 1)
    with (Z.of_nat (length data + size)) by lia.
  rewrite (memcpy_at a (length data) size src m1 _ Hda)
    by (done || rewrite length_app, length_replicate; lia).
  cbn [mbind outcome_bind].
  replace (take (length data) (data ++ replicate (size + 1) None)
           ++ (Some <$> take size src)
           ++ drop (length data + size) (data ++ replicate (size + 1) None))
    with ((data ++ (Some <$> take size src)) ++ [@None byte]).
  2:{ rewrite take_app_length, drop_app_ge by lia.
      rewrite drop_replicate.
      replace (size + 1 - (length data + size - length data))%nat with 1%nat by lia.
      now rewrite <- app_assoc. }
  erewrite store_byte_at;
    [|cbn [blocks set_blocks]; apply lookup_insert_eq
     |rewrite !length_app, length_fmap, length_take; simpl; lia].
  cbn [mbind outcome_bind].
  eexists _, _. split; [reflexivity|]. split_and!.
  - assert (Hin : a ∈ objs ++ [a]) by (apply elem_of_app; right; left).
    apply holds_store; [|done]. apply holds_store; [|done].
    now apply (holds_fields stack).
  - unfold object. cbn [blocks set_blocks]. rewrite lookup_insert_eq.
    rewrite insert_app_r_alt by (rewrite length_app, length_fmap, length_take; lia).
    rewrite length_app, length_fmap, length_take, Nat.min_l by lia.
    rewrite Nat.sub_diag. simpl. now rewrite fmap_app, app_assoc.
  - cbn [grow_size set_grow_size]. lia.
Qed.

(** X28.  [obstack_1grow_] on a growing object appends the one byte. *)
Theorem one_grow_appends_a_byte :
  ∀ stack m objs p spare data b a tcand,
    holds stack m (objs ++ [p]) spare → grow stack ≠ 0 →
    object p m = Some data → grow_size stack = Z.of_nat (length data) →
    Z.of_nat (length data + 1) <= INT_MAX →
    fits (delete p (blocks m)) a (Z.of_nat (length data + 1)) = true →
    ∃ stack' m',
      obstack_1grow_ stack b tcand (Some a) m = Done (stack', m') ∧
      holds stack' m' (objs ++ [a]) spare ∧
      object a m' = Some (data ++ [Some b]) ∧
      grow_size stack' = Z.of_nat (length data + 1).
Proof.
  intros stack m objs p spare data b a tcand H Hg Hobj Hgs Hmax Hfit.
  destruct (continue_step _ _ _ _ _ _ 1 _ H Hobj ltac:(lia) Hfit)
    as (m0 & m1 & Em0 & Em1 & R & RA & RN & W & H1 & Ha0 & Hda & Hold & Hh).
  assert (Egs : to_int (grow_size stack + 1) = Z.of_nat (length data + 1)).
  { rewrite Hgs. replace (Z.of_nat (length data) + 1) with (Z.of_nat (length data + 1)) by lia.
    apply to_int_small. unfold INT_MAX in *. lia. }
  assert (Esz : to_size_t (Z.of_nat (length data + 1)) = Z.of_nat (length data + 1))
    by (apply to_size_t_small; unfold INT_MAX, WORD in *; lia).
  unfold obstack_1grow_. rewrite (proj2 (Z.eqb_neq _ 0) Hg).
  cbn [mbind outcome_bind ptrs current grow_size set_grow set_grow_size].
  rewrite R. cbn [mbind outcome_bind]. rewrite Egs, Esz, RA. cbn [mbind outcome_bind].
  rewrite (proj2 (Z.eqb_neq a 0) Ha0). rewrite W. cbn [mbind outcome_bind].
  replace (Z.of_nat (length data + 1) - 1) with (Z.of_nat (length data)) by lia.
  rewrite (store_byte_at a (length data) b m1 _ Hda)
    by (rewrite length_app, length_replicate; lia).
  cbn [mbind outcome_bind].
  eexists _, _. split; [reflexivity|]. split_and!.
  - apply holds_store; [|apply elem_of_app; right; left].
    now apply (holds_fields stack).
  - unfold object. cbn [blocks set_blocks]. rewrite lookup_insert_eq.
    rewrite insert_app_r_alt by lia. now rewrite Nat.sub_diag.
  - reflexivity.
Qed.

(** X25.  [obstack_grow_] when nothing grows opens a new object behind the
    last one: with room in the table, a null entry there and an allocator
    that delivers, the new object holds the first [size] bytes of the
    source, and the older objects are as they were. *)
Theorem grow_opens_a_new_object :
  ∀ stack m objs spare src (size : nat) a tcand,
    holds stack m objs (Some 0 :: spare) → grow stack = 0 →
    Z.of_nat size <= INT_MAX → (size <= length src)%nat →
    fits (blocks m) a (Z.of_nat size) = true →
    ∃ stack' m',
      obstack_grow_ stack src (Z.of_nat size) tcand (Some a) m = Done (stack', m') ∧
      holds stack' m' (objs ++ [a]) spare ∧
      object a m' = Some (Some <$> take size src) ∧
      grow stack' = 1 ∧ grow_size stack' = Z.of_nat size ∧
      (∀ p, p ∈ objs → object p m' = object p m).
Proof.
  intros stack m objs spare src size a tcand H Hg Hmax Hsrc Hfit.
  destruct (holds_room _ _ _ _ _ H) as [Hroom Hcur].
  destruct (obs_fits_fresh _ _ _ Hfit) as [Hfresh Ha].
  pose proof (holds_table _ _ _ _ H) as Ht.
  assert (Hat : a ≠ ptrs stack) by (intros E; congruence).
  pose proof (holds_push _ _ _ _ _ a (replicate size None) H Hfresh Ha) as H1.
  assert (Egs : to_int (0 + Z.of_nat size) = Z.of_nat size)
    by (apply to_int_small; unfold INT_MAX in *; lia).
  assert (Ets : to_size_t (Z.of_nat size) = Z.of_nat size)
    by (apply to_size_t_small; unfold INT_MAX, WORD in *; lia).
  unfold obstack_grow_. rewrite Hg. change (0 =? 0) with true. cbv iota.
  rewrite Hroom. cbn [mbind outcome_bind]. change (0 <? 0) with false. cbv iota.
  rewrite Hcur.
  cbn [mbind outcome_bind ptrs current grow_size set_grow set_grow_size set_current].
  rewrite (read_slot_at _ _ _ 0 _ Ht) by apply lookup_spare.
  cbn [mbind outcome_bind]. rewrite Egs, Ets.
  unfold realloc_func, alloc_func. change (0 =? 0) with true. cbv iota.
  rewrite Hfit. cbn [mbind outcome_bind].
  rewrite (proj2 (Z.eqb_neq a 0) Ha).
  erewrite write_slot_at;
    [|cbn [blocks set_blocks]; rewrite lookup_insert_ne by (now apply not_eq_sym); exact Ht
     |rewrite length_app, length_fmap; simpl; lia].
  cbn [mbind outcome_bind]. rewrite insert_spare.
  replace (Z.of_nat size - Z.of_nat size) with (Z.of_nat 0) by lia.
  unfold fresh_area. rewrite Nat2Z.id.
  cbn [blocks set_blocks].
  rewrite (memcpy_at a 0 size src _ (replicate size None));
    [|cbn [blocks set_blocks]; rewrite lookup_insert_ne by (now apply not_eq_sym);
      apply lookup_insert_eq
     |rewrite length_replicate; lia|done].
  cbn [mbind outcome_bind]. eexists _, _. split; [reflexivity|]. split_and!.
  - apply holds_store; [|apply elem_of_app; right; left].
    revert H1. apply holds_fields; reflexivity.
  - unfold object. cbn [blocks set_blocks]. rewrite lookup_insert_eq.
    rewrite drop_ge by (rewrite length_replicate; lia). now rewrite app_nil_r.
  - reflexivity.
  - reflexivity.
  - intros p Hp. destruct (holds_object _ _ _ _ _ H Hp) as (_ & Hpt & d & Hd).
    assert (Hpa : a ≠ p) by (intros E; congruence).
    unfold object. cbn [blocks set_blocks].
    rewrite lookup_insert_ne by done. rewrite lookup_insert_ne by (now apply not_eq_sym).
    now rewrite lookup_insert_ne by done.
Qed.

(** X29.  The entries that a grown table adds are never written before they
    are read.  When nothing grows and the entry behind the last object is
    such an entry, the four functions that start an object use its
    indeterminate value; so do the three that grow a full table first. *)
Theorem growing_uses_an_entry_never_written :
  ∀ stack m objs src size b tcand cand,
    grow stack = 0 →
    (∀ spare,
       holds stack m objs (None :: spare) →
       obstack_grow_ stack src size tcand cand m = Undefined Indeterminate ∧
       obstack_grow0_ stack src size tcand cand m = Undefined Indeterminate ∧
       obstack_blank_ stack size tcand cand m = Undefined Indeterminate ∧
       obstack_1grow_ stack b tcand cand m = Undefined Indeterminate) ∧
    (∀ t,
       holds stack m objs [] → num_ptrs stack + DEF_MAX_PTRS < 2 ^ 30 →
       fits (delete (ptrs stack) (blocks m)) t
            (SIZEOF_PTR * (num_ptrs stack + DEF_MAX_PTRS)) = true →
       obstack_grow_ stack src size (Some t) cand m = Undefined Indeterminate ∧
       obstack_grow0_ stack src size (Some t) cand m = Undefined Indeterminate ∧
       obstack_blank_ stack size (Some t) cand m = Undefined Indeterminate).
Proof.
  intros stack m objs src size b tcand cand Hg. split.
  - intros spare H.
    destruct (holds_room _ _ _ _ _ H) as [Hroom Hcur].
    pose proof (holds_table _ _ _ _ H) as Ht.
    assert (Hroom1 : (num_ptrs stack <=? to_int (current stack - 1)) = false).
    { destruct H as (_ & Hn & Hc & Hb & _). simpl in Hn.
      rewrite to_int_small by (unfold INT_MAX; lia). apply Z.leb_gt. lia. }
    assert (R : read_slot (ptrs stack) (Z.of_nat (length objs)) m = Undefined Indeterminate)
      by (apply (read_slot_indeterminate _ _ _ _ Ht), lookup_spare).
    unfold obstack_grow_, obstack_grow0_, obstack_blank_, obstack_1grow_.
    rewrite Hg. change (0 =? 0) with true. cbv iota.
    rewrite Hroom, Hroom1. cbn [mbind outcome_bind]. change (0 <? 0) with false. cbv iota.
    rewrite Hcur.
    cbn [mbind outcome_bind ptrs current grow_size set_grow set_grow_size set_current].
    rewrite R. now split_and!.
  - intros t H Hbound Hfit.
    destruct (holds_grown _ _ _ _ H Hbound Hfit) as [Hgrown H1].
    change (replicate 32 None) with (@None Z :: replicate 31 None) in H1.
    pose proof (holds_table _ _ _ _ H1) as Ht. cbn [ptrs set_ptrs] in Ht.
    assert (Hfull : (num_ptrs stack <=? to_int (current stack + 1)) = true).
    { destruct H as (_ & Hn & Hc & Hb & _). simpl in Hn.
      rewrite to_int_small by (unfold INT_MAX; lia). apply Z.leb_le. lia. }
    assert (Hcur : to_int (current stack + 1) = Z.of_nat (length objs)).
    { destruct H as (_ & Hn & Hc & Hb & _). simpl in Hn.
      rewrite to_int_small by (unfold INT_MAX; lia). lia. }
    assert (R : read_slot t (Z.of_nat (length objs))
                  (set_blocks (<[t := Table ((Some <$> objs) ++ replicate 32 None)]>
                                 (delete (ptrs stack) (blocks m))) m)
                = Undefined Indeterminate)
      by (apply (read_slot_indeterminate _ _ _ _ Ht), lookup_spare).
    unfold obstack_grow_, obstack_grow0_, obstack_blank_.
    rewrite Hg. change (0 =? 0) with true. cbv iota.
    rewrite Hfull, Hgrown. cbn [mbind outcome_bind]. change (0 <? 0) with false. cbv iota.
    cbn [mbind outcome_bind ptrs current grow_size set_grow set_grow_size set_current
         set_ptrs set_num_ptrs].
    rewrite Hcur, R. now split_and!.
Qed.

(** X30.  [obstack_1grow_] tests [current - 1] against the size of the
    table where the other functions test [current + 1]: on a full table it
    does not grow the table and reads the entry one past its end. *)
Theorem one_grow_on_a_full_table_reads_past_the_table :
  ∀ stack m objs b tcand cand,
    holds stack m objs [] → grow stack = 0 →
    obstack_1grow_ stack b tcand cand m = Undefined (OutOfRange (num_ptrs stack)).
Proof.
  intros stack m objs b tcand cand H Hg.
  pose proof H as (Ht & Hn & Hc & Hb & _). simpl in Hn.
  assert (Hroom1 : (num_ptrs stack <=? to_int (current stack - 1)) = false).
  { rewrite to_int_small by (unfold INT_MAX; lia). apply Z.leb_gt. lia. }
  assert (Hcur : to_int (current stack + 1) = num_ptrs stack).
  { rewrite to_int_small by (unfold INT_MAX; lia). lia. }
  unfold obstack_1grow_. rewrite Hg. change (0 =? 0) with true. cbv iota.
  rewrite Hroom1. cbn [mbind outcome_bind]. change (0 <? 0) with false. cbv iota.
  rewrite Hcur.
  cbn [mbind outcome_bind ptrs current grow_size set_grow set_grow_size set_current].
  rewrite (read_slot_outside _ _ _ _ Ht)
    by (rewrite length_app, length_fmap; simpl; lia).
  reflexivity.
Qed.

(** ** The properties on the shelf *)

Lemma holdsb_holds stack m objs spare :
  holdsb stack m objs spare = true → holds stack m objs spare.
Proof.
  unfold holdsb, holds, live_objects. rewrite !andb_true_iff.
  intros ((((((Ht & Hn) & Hc) & Hb) & Hd) & Hl) & Hp).
  destruct (blocks m !! ptrs stack) as [[slots|]|]; try discriminate Ht.
  apply bool_decide_eq_true in Ht, Hd. subst slots.
  apply Z.eqb_eq in Hn, Hc. apply Z.ltb_lt in Hb.
  apply negb_true_iff, Z.eqb_neq in Hp.
  split_and!; try done.
  rewrite forallb_forall in Hl. apply Forall_forall. intros x Hx.
  apply list_elem_of_In, Hl in Hx. apply andb_true_iff in Hx as [H0 Hx].
  apply negb_true_iff, Z.eqb_neq in H0. split; [done|].
  destruct (blocks m !! x) as [[|d]|]; try discriminate Hx. now exists d.
Qed.

Lemma shelf_two : holds Shelf.two.1 Shelf.two.2 [2000; 3000] (replicate 30 (Some 0)).
Proof. apply holdsb_holds. vm_compute. reflexivity. Qed.

Lemma shelf_growing : holds Shelf.growing.1 Shelf.growing.2 ([2000; 3000] ++ [4000]) (replicate 29 (Some 0)).
Proof. apply holdsb_holds. vm_compute. reflexivity. Qed.

Lemma shelf_full : holds Shelf.full.1 Shelf.full.2 Shelf.full_objs [].
Proof. apply holdsb_holds. vm_compute. reflexivity. Qed.

Lemma shelf_grown :
  holds Shelf.grown.1 Shelf.grown.2 (Shelf.full_objs ++ [6000]) (None :: replicate 30 None).
Proof. apply holdsb_holds. vm_compute. reflexivity. Qed.

Lemma init_witness :
  ∃ stack' m',
    obstack_init_ Shelf.start.1 (Some 1000) Shelf.start.2 = Done (stack', m') ∧
    holds stack' m' [] (replicate 32 (Some 0)).
Proof.
  destruct (init_gives_an_empty_stack Shelf.start.1 1000 Shelf.start.2)
    as (stack' & m' & E & H & _).
  - vm_compute. reflexivity.
  - exists stack', m'. split; [exact E|exact H].
Defined.

Lemma failed_init_witness :
  ∃ stack',
    obstack_init_ Shelf.start.1 None Shelf.start.2 = Done (stack', ERROR Shelf.start.2) ∧
    obstack_alloc_ stack' 8 None (Some 2000) (ERROR Shelf.start.2) = Undefined (NotLive 0).
Proof.
  destruct (failed_init_leaves_a_null_table Shelf.start.1 Shelf.start.2)
    as (stack' & E & _ & _ & _ & Ha).
  - vm_compute. reflexivity.
  - exists stack'. split; [exact E|]. apply Ha. vm_compute. reflexivity.
Defined.

Lemma alloc_witness :
  ∃ stack' m',
    obstack_alloc_ Shelf.two.1 8 None (Some 4000) Shelf.two.2 = Done (4000, stack', m') ∧
    holds stack' m' ([2000; 3000] ++ [4000]) (replicate 29 (Some 0)).
Proof.
  destruct (alloc_pushes_a_new_object Shelf.two.1 Shelf.two.2 [2000; 3000] (Some 0)
              (replicate 29 (Some 0)) 8 4000 None shelf_two)
    as (stack' & m' & E & H & _).
  - unfold INT_MAX. lia.
  - vm_compute. reflexivity.
  - exists stack', m'. split; [exact E|exact H].
Defined.

Lemma alloc_grows_witness :
  ∃ stack' m',
    obstack_alloc_ Shelf.full.1 8 (Some 5000) (Some 6000) Shelf.full.2
    = Done (6000, stack', m') ∧
    num_ptrs stack' = 64 ∧ ptrs stack' = 5000.
Proof.
  destruct (alloc_grows_a_full_table Shelf.full.1 Shelf.full.2 Shelf.full_objs 8 5000 6000
              shelf_full)
    as (stack' & m' & E & _ & Hp & Hn & _).
  - vm_compute. reflexivity.
  - unfold INT_MAX. lia.
  - vm_compute. reflexivity.
  - vm_compute. reflexivity.
  - exists stack', m'. split_and!; [exact E|exact Hn|exact Hp].
Defined.

Lemma failed_alloc_witness :
  obstack_alloc_ Shelf.two.1 8 None None Shelf.two.2
  = Done (0, Shelf.two.1, ERROR Shelf.two.2) ∧
  obstack_alloc_ Shelf.full.1 8 None (Some 6000) Shelf.full.2
  = Done (0, Shelf.full.1, ERROR Shelf.full.2).
Proof.
  split.
  - apply (failed_alloc_keeps_the_stack _ _ _ _ 8 None None shelf_two);
      [vm_compute; reflexivity|reflexivity].
  - apply (failed_alloc_keeps_the_stack _ _ _ _ 8 None (Some 6000) shelf_full);
      [vm_compute; reflexivity|reflexivity].
Defined.

Lemma free_witness :
  ∃ stack' m',
    obstack_free_ Shelf.two.1 2000 Shelf.two.2 = Done (stack', m') ∧
    holds stack' m' [] (replicate 2 (Some 0) ++ replicate 30 (Some 0)) ∧
    blocks m' !! 2000 = None ∧ blocks m' !! 3000 = None.
Proof.
  destruct (free_pops_the_object_and_all_after_it Shelf.two.1 Shelf.two.2 [] 2000 [3000]
              (replicate 30 (Some 0)) shelf_two)
    as (stack' & m' & E & H & Hf & _).
  exists stack', m'. split_and!; [exact E|exact H| |].
  - apply Hf. left.
  - apply Hf. right. left.
Defined.

Lemma free_foreign_witness :
  ∃ m',
    obstack_free_ Shelf.two.1 0 Shelf.two.2 = Done (Shelf.two.1, m') ∧
    blocks m' !! 2000 = None ∧ blocks m' !! 3000 = None ∧ current Shelf.two.1 = 1.
Proof.
  destruct (free_of_a_foreign_pointer_frees_everything Shelf.two.1 Shelf.two.2 [2000; 3000]
              (replicate 30 (Some 0)) 0 shelf_two)
    as (m' & E & _ & Hf & _ & Hc).
  - intros Hin. apply elem_of_cons in Hin as [Hin|Hin]; [discriminate Hin|].
    apply elem_of_cons in Hin as [Hin|Hin]; [discriminate Hin|]. inversion Hin.
  - exists m'. split_and!; [exact E| | |exact Hc].
    + apply Hf. left.
    + apply Hf. right. left.
Defined.

Lemma copy_witness :
  (∃ stack' m',
     obstack_copy_ Shelf.two.1 [x64; x65; x66] 2 None (Some 4000) Shelf.two.2
     = Done (4000, stack', m') ∧
     object 4000 m' = Some [Some x64; Some x65]) ∧
  (∃ stack' m',
     obstack_copy0_ Shelf.two.1 [x64; x65; x66] 2 None (Some 4000) Shelf.two.2
     = Done (4000, stack', m') ∧
     object 4000 m' = Some [Some x64; Some x65; Some x00]).
Proof.
  destruct (copy_stores_the_bytes Shelf.two.1 Shelf.two.2 [2000; 3000] (Some 0)
              (replicate 29 (Some 0)) [x64; x65; x66] 2 4000 None shelf_two)
    as [Hc Hc0].
  - unfold INT_MAX. lia.
  - simpl. lia.
  - split.
    + destruct Hc as (stack' & m' & E & _ & Ho); [vm_compute; reflexivity|].
      exists stack', m'. split; [exact E|exact Ho].
    + destruct Hc0 as (stack' & m' & E & _ & Ho); [vm_compute; reflexivity|].
      exists stack', m'. split; [exact E|exact Ho].
Defined.

Lemma grow_opens_witness :
  ∃ stack' m',
    obstack_grow_ Shelf.two.1 [x64; x65] 2 None (Some 4000) Shelf.two.2 = Done (stack', m') ∧
    object 4000 m' = Some [Some x64; Some x65] ∧ grow stack' = 1.
Proof.
  destruct (grow_opens_a_new_object Shelf.two.1 Shelf.two.2 [2000; 3000]
              (replicate 29 (Some 0)) [x64; x65] 2 4000 None shelf_two)
    as (stack' & m' & E & _ & Ho & Hg & _).
  - vm_compute. reflexivity.
  - unfold INT_MAX. lia.
  - simpl. lia.
  - vm_compute. reflexivity.
  - exists stack', m'. split_and!; [exact E|exact Ho|exact Hg].
Defined.

Lemma grow_appends_witness :
  (∃ stack' m',
     obstack_grow_ Shelf.growing.1 [x66; x67; x68] 3 None (Some 4100) Shelf.growing.2
     = Done (stack', m') ∧
     object 4100 m' = Some [Some x64; Some x65; Some x66; Some x67; Some x68] ∧
     blocks m' !! 4000 = None) ∧
  obstack_grow_ Shelf.growing.1 [x66; x67; x68] 3 None None Shelf.growing.2
  = Done (set_grow 1 Shelf.growing.1, ERROR Shelf.growing.2).
Proof.
  destruct (grow_appends_to_the_growing_object Shelf.growing.1 Shelf.growing.2 [2000; 3000]
              4000 (replicate 29 (Some 0)) [Some x64; Some x65] [x66; x67; x68] 3 4100 None
              shelf_growing)
    as [(stack' & m' & E & _ & Ho & _ & Hold) Hn].
  - vm_compute. discriminate.
  - vm_compute. reflexivity.
  - vm_compute. reflexivity.
  - simpl. lia.
  - unfold INT_MAX. simpl. lia.
  - simpl. lia.
  - vm_compute. reflexivity.
  - split; [|exact Hn]. exists stack', m'. split_and!; [exact E|exact Ho|].
    apply Hold. discriminate.
Defined.

Lemma grow0_witness :
  ∃ stack' m',
    obstack_grow0_ Shelf.growing.1 [x66] 1 None (Some 4100) Shelf.growing.2
    = Done (stack', m') ∧
    object 4100 m' = Some [Some x64; Some x65; Some x66; Some x00] ∧
    grow_size stack' = 4.
Proof.
  destruct (grow0_appends_a_terminated_piece Shelf.growing.1 Shelf.growing.2 [2000; 3000]
              4000 (replicate 29 (Some 0)) [Some x64; Some x65] [x66] 1 4100 None
              shelf_growing)
    as (stack' & m' & E & _ & Ho & Hs).
  - vm_compute. discriminate.
  - vm_compute. reflexivity.
  - vm_compute. reflexivity.
  - unfold INT_MAX. simpl. lia.
  - simpl. lia.
  - vm_compute. reflexivity.
  - exists stack', m'. split_and!; [exact E|exact Ho|exact Hs].
Defined.

Lemma one_grow_witness :
  ∃ stack' m',
    obstack_1grow_ Shelf.growing.1 x66 None (Some 4100) Shelf.growing.2 = Done (stack', m') ∧
    object 4100 m' = Some [Some x64; Some x65; Some x66].
Proof.
  destruct (one_grow_appends_a_byte Shelf.growing.1 Shelf.growing.2 [2000; 3000]
              4000 (replicate 29 (Some 0)) [Some x64; Some x65] x66 4100 None
              shelf_growing)
    as (stack' & m' & E & _ & Ho & _).
  - vm_compute. discriminate.
  - vm_compute. reflexivity.
  - vm_compute. reflexivity.
  - unfold INT_MAX. simpl. lia.
  - vm_compute. reflexivity.
  - exists stack', m'. split; [exact E|exact Ho].
Defined.

Lemma never_written_witness :
  obstack_grow_ Shelf.grown.1 [x64] 1 None (Some 7000) Shelf.grown.2 = Undefined Indeterminate ∧
  obstack_1grow_ Shelf.grown.1 x64 None (Some 7000) Shelf.grown.2 = Undefined Indeterminate ∧
  obstack_grow_ Shelf.full.1 [x64] 1 (Some 5000) (Some 7000) Shelf.full.2
  = Undefined Indeterminate.
Proof.
  assert (Hg0 : grow Shelf.grown.1 = 0) by (vm_compute; reflexivity).
  assert (Hf0 : grow Shelf.full.1 = 0) by (vm_compute; reflexivity).
  destruct (growing_uses_an_entry_never_written Shelf.grown.1 Shelf.grown.2
              (Shelf.full_objs ++ [6000]) [x64] 1 x64 None (Some 7000) Hg0)
    as [Hg _].
  destruct (Hg _ shelf_grown) as (G & _ & _ & G1).
  destruct (growing_uses_an_entry_never_written Shelf.full.1 Shelf.full.2
              Shelf.full_objs [x64] 1 x64 None (Some 7000) Hf0)
    as [_ Hf].
  destruct (Hf 5000 shelf_full) as (F & _).
  - vm_compute. reflexivity.
  - vm_compute. reflexivity.
  - split_and!; [exact G|exact G1|exact F].
Defined.

Lemma one_grow_full_witness :
  obstack_1grow_ Shelf.full.1 x64 None (Some 7000) Shelf.full.2 = Undefined (OutOfRange 32).
Proof.
  assert (Hf0 : grow Shelf.full.1 = 0) by (vm_compute; reflexivity).
  assert (Hn : num_ptrs Shelf.full.1 = 32) by (vm_compute; reflexivity).
  rewrite <- Hn.
  exact (one_grow_on_a_full_table_reads_past_the_table Shelf.full.1 Shelf.full.2
           Shelf.full_objs x64 None (Some 7000) shelf_full Hf0).
Defined.

